(** * TribalWars automation core: a shallow embedding and its properties

    The development follows the Python sources of the [staemme] package:

    - [core/panel_state.py]        -> [PanelState]
    - [managers/building_manager.py], [models/village.py],
      [models/buildings.py], [game/screens/headquarters.py] -> [Building]
    - [managers/troop_manager.py], [models/troops.py]        -> [Troops]
    - [core/bot_protection.py]     -> [Protection]
    - [core/scavenge_formulas.py]  -> [Scavenge]
    - [core/humanizer.py], [app.py] (main loop)              -> [Orchestrator]
    - [managers/scavenge_manager.py], [game/screens/scavenge.py]
                                   -> [ScavengeManager]
    - [core/panel_state.py] (timers, serialisation)          -> [PanelTimers]
    - [app.py] (panel callbacks, active hours, cycle waits), [core/config.py]
        -> [BuildQueueEditor], [ScavPanel], [FeatureConfig], [ActiveHours],
           [CycleWaits]
    - [managers/troop_manager.py] (fill-scavenge mode)       -> [FillScavenge]
    - [core/bot_protection.py] with [app.py]                 -> [ProtectionEvents]
    - [managers/defense_manager.py]                          -> [Defense]

    Conventions.  Python [int] is [Z].  A Python [dict] whose iteration
    order is observable (the troop pools and allocations of the scavenge
    planner, the [needs] of the recruiter) is an insertion-ordered
    association list ([Dict]); a dict that is only read by key (level maps,
    targets, unit carries) is a [gmap].  Python [float] values that are
    compared and combined by the code (seconds, timestamps) are idealised
    as rationals [Q]; the scavenge allocation is written over an abstract
    float arithmetic ([Float.ops]) so that its integer properties hold for
    any rounding behaviour; it is instantiated with exact rationals where
    a numeric bound is proved, and with the binary64 floats of Python
    ([Float.binary64]) where the allocation is evaluated.  The wall clock ([time.time()]) and the
    random source ([random.random()]) are explicit inputs. *)

From Stdlib Require Import ZArith QArith Qround Qabs Qminmax Lia Lqa List String Ascii.
From Stdlib Require PrimFloat SpecFloat FloatOps.
From stdpp Require Import gmap strings list.
Import ListNotations.
Local Open Scope Z_scope.

(** ** Python helpers *)

Definition Qlt_bool (x y : Q) : bool := negb (Qle_bool y x).

(** [min(a, b)] of Python on floats: the first argument wins ties. *)
Definition py_min (a b : Q) : Q := if Qlt_bool b a then b else a.

(** [sorted(xs, key=key, reverse=True)]: a stable descending sort, elements
    with equal keys keep their original order. *)
Section SortedDesc.
Context {A : Type} (key : A -> Z).

Fixpoint insert_desc (x : A) (l : list A) : list A :=
  match l with
  | [] => [x]
  | y :: ys => if key y <=? key x then x :: y :: ys else y :: insert_desc x ys
  end.

Fixpoint sorted_desc (l : list A) : list A :=
  match l with
  | [] => []
  | x :: xs => insert_desc x (sorted_desc xs)
  end.
End SortedDesc.

(** A list whose keys never increase. *)
Fixpoint descending {A : Type} (key : A -> Z) (l : list A) : Prop :=
  match l with
  | [] => True
  | x :: rest => Forall (fun y => key y <= key x) rest /\ descending key rest
  end.

(** [not xs] on a list or dict. *)
Definition is_empty {A : Type} (l : list A) : bool :=
  match l with [] => true | _ => false end.

(** [min(xs)] on a non-empty list of ints. *)
Definition min_list (x : Z) (xs : list Z) : Z := fold_left Z.min xs x.

(** ** Insertion-ordered dictionaries *)

Module Dict.
Section Ops.
Context {K V : Type} `{EqDecision K}.

Definition t := list (K * V).

Fixpoint get (d : list (K * V)) (k : K) : option V :=
  match d with
  | [] => None
  | (k', v) :: rest => if decide (k' = k) then Some v else get rest k
  end.

(** [d[k] = v]: overwrite in place, or append a new key at the end. *)
Fixpoint set (d : list (K * V)) (k : K) (v : V) : list (K * V) :=
  match d with
  | [] => [(k, v)]
  | (k', v') :: rest =>
      if decide (k' = k) then (k', v) :: rest else (k', v') :: set rest k v
  end.

Definition keys (d : list (K * V)) : list K := map fst d.
Definition values (d : list (K * V)) : list V := map snd d.

(** [d.get(k, dflt)] *)
Definition get_or (d : list (K * V)) (k : K) (dflt : V) : V :=
  default dflt (get d k).
End Ops.
End Dict.

(** ** core/panel_state.py *)

Module PanelState.

Record LogEntry := mkLogEntry {
  timestamp : Q;
  message : string;
  level : string }.

(** Only the log ring of [PanelStateStore] is touched by [add_log]. *)
Record PanelStateStore := mkStore { logs : list LogEntry }.

(** [PanelStateStore.__init__] *)
Definition init : PanelStateStore := {| logs := [] |}.

(** The slice [l[-n:]] for [n > 0]: the last [n] elements, or all of [l]
    when it is shorter. *)
Definition last_slice {A : Type} (n : nat) (l : list A) : list A :=
  drop (length l - n)%nat l.

(** [add_log]; [now] is the value of [time.time()]. *)
Definition add_log (now : Q) (msg lvl : string) (self : PanelStateStore)
  : LogEntry * PanelStateStore :=
  let entry := {| timestamp := now; message := msg; level := lvl |} in
  let appended := logs self ++ [entry] in
  (entry,
   {| logs := if (200 <? length appended)%nat
              then last_slice 200 appended else appended |}).

(** A run of insertions, oldest first; each is [(now, message, level)]. *)
Definition add_logs (calls : list (Q * string * string)) (self : PanelStateStore)
  : PanelStateStore :=
  fold_left (fun s '(now, msg, lvl) => snd (add_log now msg lvl s)) calls self.

Definition entry_of (call : Q * string * string) : LogEntry :=
  let '(now, msg, lvl) := call in
  {| timestamp := now; message := msg; level := lvl |}.

End PanelState.

(** ** managers/building_manager.py and its models *)

Module Building.

(** [models/village.py] *)
Record Resources := mkResources { wood : Z; stone : Z; iron : Z }.

Definition can_afford (self cost : Resources) : bool :=
  (wood cost <=? wood self) && (stone cost <=? stone self)
  && (iron cost <=? iron self).

Record Village := mkVillage { resources : Resources; production : Resources }.

(** [models/buildings.py] *)
Record BuildStep := mkStep { building : string; level : Z }.

Record BuildQueue := mkQueueEntry {
  q_building : string;
  target_level : Z;
  finish_time : option Q  (* [finish_time.timestamp()] when present *) }.

Record BuildResult := mkResult {
  ordered : bool;
  building_name : string;
  queue_finish_ts : Q;
  resource_wait : Q }.

Record BuildingManager := mkManager {
  enabled : bool;
  mode : string;
  target_levels : gmap string Z;
  priority_order : list string;
  build_steps : list BuildStep }.

(** The dict returned by [HeadquartersScreen.get_hq_state]. *)
Record HQState := mkHQ {
  levels : gmap string Z;
  queue : list BuildQueue;
  available : gmap string Resources;  (* building -> its ["cost"] *)
  premium : bool }.

(** *** Selection *)

(** The loop that fills [queued_counts]. *)
Definition count_queued (queue_buildings : list string) : gmap string Z :=
  fold_left (fun qc b => <[b := default 0 (qc !! b) + 1]> qc)
            queue_buildings ∅.

Fixpoint walk_steps (current_levels queued_counts : gmap string Z)
         (steps : list BuildStep) : option (string * Z * Z) :=
  match steps with
  | [] => None
  | step :: rest =>
      let current := default 0 (current_levels !! building step) in
      let queued := default 0 (queued_counts !! building step) in
      let effective_level := current + queued in
      if effective_level <? level step
      then Some (building step, current, level step)
      else walk_steps current_levels queued_counts rest
  end.

Definition _pick_next_building_sequential (self : BuildingManager)
           (current_levels : gmap string Z) (queue_buildings : list string)
  : option (string * Z * Z) :=
  walk_steps current_levels (count_queued queue_buildings) (build_steps self).

Fixpoint walk_priority (targets current_levels : gmap string Z)
         (order : list string) : option (string * Z * Z) :=
  match order with
  | [] => None
  | building_name :: rest =>
      match targets !! building_name with
      | None => walk_priority targets current_levels rest
      | Some target =>
          let current := default 0 (current_levels !! building_name) in
          if current <? target then Some (building_name, current, target)
          else walk_priority targets current_levels rest
      end
  end.

Definition _pick_next_building_priority (self : BuildingManager)
           (current_levels : gmap string Z) : option (string * Z * Z) :=
  walk_priority (target_levels self) current_levels (priority_order self).

Definition _pick_next_building (self : BuildingManager)
           (current_levels : gmap string Z) (queue_buildings : list string)
  : option (string * Z * Z) :=
  if String.eqb (mode self) "sequential"
  then _pick_next_building_sequential self current_levels queue_buildings
  else _pick_next_building_priority self current_levels.

(** *** Resource wait *)

Inductive res_type := Wood | Stone | Iron.

Definition getattr (r : Resources) (t : res_type) : Z :=
  match t with Wood => wood r | Stone => stone r | Iron => iron r end.

Definition res_types : list res_type := [Wood; Stone; Iron].

(** The [for res_type in ("wood", "stone", "iron")] loop, with its early
    [return 3600.0], followed by [min(max_wait, 3600.0)]. *)
Fixpoint wait_loop (current cost production : Resources)
         (todo : list res_type) (max_wait : Q) : Q :=
  match todo with
  | [] => py_min max_wait 3600
  | t :: rest =>
      let have := getattr current t in
      let need := getattr cost t in
      let deficit := need - have in
      if deficit <=? 0 then wait_loop current cost production rest max_wait
      else
        let rate := getattr production t in
        if rate <=? 0 then 3600%Q
        else
          let wait := (inject_Z deficit / (inject_Z rate / 3600))%Q in
          if Qlt_bool max_wait wait
          then wait_loop current cost production rest wait
          else wait_loop current cost production rest max_wait
  end.

Definition _calculate_resource_wait (current cost production : Resources) : Q :=
  wait_loop current cost production res_types 0.

(** *** The building cycle *)

(** What the cycle needs from the browser on the headquarters screen:
    the consolidated state, the queue parsed from the page HTML (used by
    [upgrade_building] for its capacity check), whether an upgrade link
    for a building is found by one of the selectors, and the click. *)
Record HQPage (W : Type) := mkPage {
  hq_state : W -> HQState;
  html_queue : W -> list BuildQueue;
  build_button : string -> W -> bool;
  click_build : string -> W -> W }.
Arguments hq_state {W}. Arguments html_queue {W}.
Arguments build_button {W}. Arguments click_build {W}.

Inductive upgrade_outcome :=
| Clicked            (* returned [True] *)
| ButtonNotFound     (* returned [False] *)
| QueueFull.         (* raised [BuildQueueFullError] *)

Section Cycle.
Context {W : Type} (page : HQPage W).

(** [HeadquartersScreen.upgrade_building] *)
Definition upgrade_building (building_name : string) (w : W)
  : upgrade_outcome * W :=
  if (2 <=? length (html_queue page w))%nat then (QueueFull, w)
  else if build_button page building_name w
       then (Clicked, click_build page building_name w)
       else (ButtonNotFound, w).

(** [max_queue = 2 if state.get("premium", False) else 2] *)
Definition max_queue_of (state : HQState) : nat :=
  if premium state then 2%nat else 2%nat.

(** The two passes that record the latest finish time of the queue. *)
Definition record_finish (q : list BuildQueue) (result : BuildResult)
  : BuildResult :=
  fold_left
    (fun res entry =>
       match finish_time entry with
       | Some ts =>
           if Qlt_bool (queue_finish_ts res) ts
           then {| ordered := ordered res;
                   building_name := building_name res;
                   queue_finish_ts := ts;
                   resource_wait := resource_wait res |}
           else res
       | None => res
       end) q result.

(** The state threaded through the multi-queue loop: the last HQ state
    read, the result under construction, the world, and the log of
    calls to [upgrade_building] with their outcome. *)
Record loop_state := mkLoop {
  ls_state : HQState;
  ls_result : BuildResult;
  ls_world : W;
  ls_calls : list (string * upgrade_outcome) }.

(** [for _attempt in range(max_queue)]; [attempts] is the number of
    iterations left. *)
Fixpoint attempt_loop (self : BuildingManager) (village : Village)
         (max_queue : nat) (attempts : nat) (s : loop_state) : loop_state :=
  match attempts with
  | O => s
  | S attempts' =>
      let q := queue (ls_state s) in
      let result := record_finish q (ls_result s) in
      let s1 := {| ls_state := ls_state s; ls_result := result;
                   ls_world := ls_world s; ls_calls := ls_calls s |} in
      if (max_queue <=? length q)%nat then s1
      else
        let queue_buildings := map q_building q in
        match _pick_next_building self (levels (ls_state s)) queue_buildings with
        | None => s1
        | Some (name, current_level, target) =>
            let avail := available (ls_state s) in
            let order (_ : unit) :=
              let '(outcome, w') := upgrade_building name (ls_world s) in
              let calls := ls_calls s ++ [(name, outcome)] in
              match outcome with
              | Clicked =>
                  attempt_loop self village max_queue attempts'
                    {| ls_state := hq_state page w';
                       ls_result := {| ordered := true;
                                       building_name := name;
                                       queue_finish_ts := queue_finish_ts result;
                                       resource_wait := resource_wait result |};
                       ls_world := w';
                       ls_calls := calls |}
              | ButtonNotFound | QueueFull =>
                  {| ls_state := ls_state s; ls_result := result;
                     ls_world := w'; ls_calls := calls |}
              end in
            match avail !! name with
            | Some cost =>
                if can_afford (resources village) cost then order tt
                else
                  let wait := _calculate_resource_wait
                                (resources village) cost (production village) in
                  {| ls_state := ls_state s;
                     ls_result := {| ordered := ordered result;
                                     building_name := name;
                                     queue_finish_ts := queue_finish_ts result;
                                     resource_wait := wait |};
                     ls_world := ls_world s; ls_calls := ls_calls s |}
            | None =>
                if bool_decide (avail = ∅) then order tt else s1
            end
        end
  end.

Definition empty_result : BuildResult :=
  {| ordered := false; building_name := ""; queue_finish_ts := 0;
     resource_wait := 0 |}.

(** [BuildingManager.run]: the result, the world after the cycle and the
    calls made to [upgrade_building]. *)
Definition run (self : BuildingManager) (village : Village) (w : W)
  : BuildResult * W * list (string * upgrade_outcome) :=
  if negb (enabled self) then (empty_result, w, [])
  else if bool_decide (target_levels self = ∅)
          && bool_decide (build_steps self = [])
  then (empty_result, w, [])
  else
    let state := hq_state page w in
    let max_queue := max_queue_of state in
    let s := attempt_loop self village max_queue max_queue
               {| ls_state := state; ls_result := empty_result;
                  ls_world := w; ls_calls := [] |} in
    (record_finish (queue (ls_state s)) (ls_result s),
     ls_world s, ls_calls s).

(** The orders that reached the game: calls that clicked an upgrade. *)
Definition submitted (calls : list (string * upgrade_outcome)) : list string :=
  map fst (List.filter
             (fun c => match snd c with Clicked => true | _ => false end)
             calls).
End Cycle.

End Building.

(** ** managers/troop_manager.py (targets mode) *)

Module Troops.

(** [models/troops.py] *)
Definition BARRACKS_UNITS : list string :=
  ["spear"; "sword"; "axe"; "archer"]%string.
Definition STABLE_UNITS : list string :=
  ["spy"; "light"; "marcher"; "heavy"]%string.

Record TrainQueue := mkTrain { unit : string; count : Z }.

Record TroopsConfig := mkConfig {
  enabled : bool;
  mode : string;
  targets : gmap string Z }.

(** What the barracks screen yields: [get_available_troops] and
    [get_train_queue]. *)
Record BarracksPage := mkBarracks {
  barracks_troops : gmap string Z;
  barracks_queue : list TrainQueue }.

(** What the stable screen shows.  [StableScreen] only has
    [get_available_troops]; the training queue displayed by the game
    is part of the page but no method reads it. *)
Record StablePage := mkStable {
  stable_troops : gmap string Z;
  stable_queue : list TrainQueue }.

(** [TroopCounts.get] *)
Definition troops_get (counts : gmap string Z) (u : string) : Z :=
  default 0 (counts !! u).

(** The loop that fills [queued]. *)
Definition count_queued (q : list TrainQueue) : gmap string Z :=
  fold_left (fun acc entry =>
               <[unit entry := default 0 (acc !! unit entry) + count entry]> acc)
            q ∅.

Definition _get_barracks_needs (config : TroopsConfig) (page : BarracksPage)
  : list (string * Z) :=
  let current := barracks_troops page in
  let queued := count_queued (barracks_queue page) in
  fold_left
    (fun needs unit_name =>
       let target := default 0 (targets config !! unit_name) in
       if target <=? 0 then needs
       else
         let owned := troops_get current unit_name
                      + default 0 (queued !! unit_name) in
         let deficit := target - owned in
         if 0 <? deficit
         then Dict.set needs unit_name (Z.min deficit 50)
         else needs)
    BARRACKS_UNITS [].

Definition _get_stable_needs (config : TroopsConfig) (page : StablePage)
  : list (string * Z) :=
  let current := stable_troops page in
  fold_left
    (fun needs unit_name =>
       let target := default 0 (targets config !! unit_name) in
       if target <=? 0 then needs
       else
         let owned := troops_get current unit_name in
         let deficit := target - owned in
         if 0 <? deficit
         then Dict.set needs unit_name (Z.min deficit 25)
         else needs)
    STABLE_UNITS [].

Inductive train_call :=
| TrainBarracks (units : list (string * Z))
| TrainStable (units : list (string * Z)).

(** [TroopManager.run]: the calls made to the screens' [train_units]. *)
Definition run (config : TroopsConfig) (b : BarracksPage) (s : StablePage)
  : list train_call :=
  if negb (enabled config) then []
  else if negb (String.eqb (mode config) "targets")
          || bool_decide (targets config = ∅)
  then []
  else
    let barracks_needs := _get_barracks_needs config b in
    let stable_needs := _get_stable_needs config s in
    (match barracks_needs with [] => [] | _ => [TrainBarracks barracks_needs] end)
    ++ (match stable_needs with [] => [] | _ => [TrainStable stable_needs] end).

(** The batch a call list submits for a unit, if any. *)
Definition batch_of (calls : list train_call) (u : string) : option Z :=
  fold_left
    (fun acc c =>
       match acc with
       | Some _ => acc
       | None => match c with
                 | TrainBarracks d | TrainStable d => Dict.get d u
                 end
       end) calls None.

End Troops.

(** ** core/bot_protection.py *)

Module Protection.

Record BotProtectionMonitor := mkMonitor {
  bot_token : string;
  chat_id : string;
  alert_cooldown : Z;
  detected : bool;
  last_alert_time : Q }.

(** [__init__] *)
Definition new (token chat : string) (cooldown : Z) : BotProtectionMonitor :=
  {| bot_token := token; chat_id := chat; alert_cooldown := cooldown;
     detected := false; last_alert_time := 0 |}.

Definition nl : string := String (ascii_of_nat 10) EmptyString.

Record detection := mkDetection {
  d_now : Q;               (* [time.time()] during the call *)
  d_pattern : string;
  d_profile : string;
  d_world : string;
  d_village_info : string }.

Definition detection_message (d : detection) : string :=
  ("Bot Protection Detected!" ++ nl
   ++ "Profile: " ++ d_profile d ++ nl
   ++ "World: " ++ d_world d ++ nl
   ++ "Village: " ++ d_village_info d ++ nl
   ++ "Pattern: " ++ d_pattern d)%string.

(** [on_detection]: the new monitor and the messages handed to
    [_send_telegram] (none or one). *)
Definition on_detection (d : detection) (self : BotProtectionMonitor)
  : BotProtectionMonitor * list string :=
  let self1 := {| bot_token := bot_token self; chat_id := chat_id self;
                  alert_cooldown := alert_cooldown self;
                  detected := true;
                  last_alert_time := last_alert_time self |} in
  let now := d_now d in
  if Qlt_bool (now - last_alert_time self)%Q (inject_Z (alert_cooldown self))
  then (self1, [])
  else ({| bot_token := bot_token self; chat_id := chat_id self;
           alert_cooldown := alert_cooldown self;
           detected := true;
           last_alert_time := now |},
        [detection_message d]).

(** [on_clear] *)
Definition on_clear (profile world : string) (self : BotProtectionMonitor)
  : BotProtectionMonitor * list string :=
  if negb (detected self) then (self, [])
  else ({| bot_token := bot_token self; chat_id := chat_id self;
           alert_cooldown := alert_cooldown self;
           detected := false;
           last_alert_time := last_alert_time self |},
        [("Bot Protection Cleared" ++ nl
          ++ "Profile: " ++ profile ++ nl
          ++ "World: " ++ world ++ nl
          ++ "Bot resuming normal operation.")%string]).

(** The guard of [_send_telegram]: a request is made only when a token
    and a chat id are configured. *)
Definition telegram_enabled (self : BotProtectionMonitor) : bool :=
  negb (String.eqb (bot_token self) "") && negb (String.eqb (chat_id self) "").

(** A history of [on_detection] calls, oldest first: the final monitor
    and the clock values of the calls that sent an alert. *)
Fixpoint detections (ds : list detection) (self : BotProtectionMonitor)
  : BotProtectionMonitor * list Q :=
  match ds with
  | [] => (self, [])
  | d :: rest =>
      let '(self', msgs) := on_detection d self in
      let '(final, times) := detections rest self' in
      (final, match msgs with [] => times | _ => d_now d :: times end)
  end.

End Protection.

(** ** core/humanizer.py and the wake-up computation of app.py *)

Module Orchestrator.

(** [Humanizer.random_cycle_delay]: [random.uniform(low, high)], that is
    [low + (high - low) * random.random()]; [u] is the draw of
    [random.random()], a number in [[0, 1)]. *)
Definition random_cycle_delay (delay_range : Z * Z) (u : Q) : Q :=
  let '(low, high) := delay_range in
  (inject_Z low + (inject_Z high - inject_Z low) * u)%Q.

(** The four guarded [wait_events.append] statements. *)
Definition wait_events (scavenge_wait build_queue_wait resource_wait farm_wait : Q)
  : list (string * Q) :=
  (if Qlt_bool 30 scavenge_wait then [("scavenge"%string, scavenge_wait)] else [])
  ++ (if Qlt_bool 30 build_queue_wait
      then [("build_queue"%string, build_queue_wait)] else [])
  ++ (if Qlt_bool 30 resource_wait
      then [("resources"%string, resource_wait)] else [])
  ++ (if Qlt_bool 30 farm_wait then [("farming"%string, farm_wait)] else []).

(** [min(events, key=lambda x: x[1])] on a non-empty list: the first
    element whose wait is minimal. *)
Definition min_event (e : string * Q) (es : list (string * Q)) : string * Q :=
  fold_left (fun best x => if Qlt_bool (snd x) (snd best) then x else best) es e.

Record wake_up := mkWake {
  earliest_name : option string;
  earliest_wait : Q;
  delay : Q }.

(** Lines "Pick earliest event to wake up for" to "Determine delay from
    earliest event" of [_main_loop]. *)
Definition compute_wake_up (active_delay : Z * Z)
           (scavenge_wait build_queue_wait resource_wait farm_wait : Q)
           (u : Q) : wake_up :=
  match wait_events scavenge_wait build_queue_wait resource_wait farm_wait with
  | e :: es =>
      let '(name, wait) := min_event e es in
      {| earliest_name := Some name; earliest_wait := wait;
         delay := (wait + random_cycle_delay (10%Z, 30%Z) u)%Q |}
  | [] =>
      {| earliest_name := None; earliest_wait := 0;
         delay := random_cycle_delay active_delay u |}
  end.

End Orchestrator.

(** ** Float arithmetic used by the scavenge formulas *)

Module Float.

(** The operations the allocation performs on floats.  Nothing is assumed
    about them: they may round in any way. *)
Record ops (F : Type) := mkOps {
  of_int : Z -> F;          (* int operand of a mixed operation *)
  lit : Q -> F;             (* a decimal literal *)
  add : F -> F -> F;
  sub : F -> F -> F;
  mul : F -> F -> F;
  div : F -> F -> F;
  le0 : F -> bool;          (* [x <= 0] *)
  floor : F -> Z }.         (* [math.floor] *)
Arguments of_int {F}. Arguments lit {F}. Arguments add {F}.
Arguments sub {F}. Arguments mul {F}. Arguments div {F}.
Arguments le0 {F}. Arguments floor {F}.

(** Exact arithmetic: floats as rationals. *)
Definition exact : ops Q :=
  {| of_int := inject_Z; lit := fun q => q;
     add := Qplus; sub := Qminus; mul := Qmult; div := Qdiv;
     le0 := fun x => Qle_bool x 0; floor := Qfloor |}.


(** Python's [float]: IEEE 754 binary64, every operation rounded to the
    nearest value, ties to even. *)

(** The float nearest to an int: [float(n)], and the conversion of the int
    operand of a mixed operation.  Where Python raises [OverflowError]
    (from 2^1024 on) this is an infinity. *)
Definition of_Z (z : Z) : PrimFloat.float :=
  FloatOps.SF2Prim
    (SpecFloat.binary_normalize FloatOps.prec FloatOps.emax z 0 false).

(** [math.floor] of a float [m * 2^e]; at an infinity or a NaN, where
    Python raises an exception, it is 0. *)
Definition floor_float (x : PrimFloat.float) : Z :=
  match FloatOps.Prim2SF x with
  | SpecFloat.S754_finite s m e =>
      let n := if s then Z.neg m else Z.pos m in
      if 0 <=? e then n * 2 ^ e else n / 2 ^ (- e)
  | _ => 0
  end.

(** A decimal literal [n / d] is read as the float nearest to it, which
    is the rounded quotient of [n] and [d] (both below 2^53 here). *)
Definition binary64 : ops PrimFloat.float :=
  {| of_int := of_Z;
     lit := fun q => PrimFloat.div (of_Z (Qnum q)) (of_Z (Z.pos (Qden q)));
     add := PrimFloat.add; sub := PrimFloat.sub;
     mul := PrimFloat.mul; div := PrimFloat.div;
     le0 := fun x => PrimFloat.leb x (of_Z 0); floor := floor_float |}.
End Float.

(** ** core/scavenge_formulas.py *)

Module Scavenge.
Import Float.

Definition LOOT_RATIOS : list (Z * Q) :=
  [(1, 0.10%Q); (2, 0.25%Q); (3, 0.50%Q); (4, 0.75%Q)].

Definition SCAVENGE_UNITS : list string :=
  ["spear"; "sword"; "axe"; "archer"; "light"; "marcher"; "heavy"]%string.

(** [calculate_carry_capacity] *)
Definition calculate_carry_capacity (troops : list (string * Z))
           (unit_carries : gmap string Z) : Z :=
  fold_left
    (fun acc '(u, c) =>
       if 0 <? c then acc + c * default 0 (unit_carries !! u) else acc)
    troops 0.

(** [carries.get(u, 25)] *)
Definition carry_of (carries : gmap string Z) (u : string) : Z :=
  default 25 (carries !! u).

Definition in_scavenge_units (u : string) : bool :=
  bool_decide (u ∈ SCAVENGE_UNITS).

(** The comprehension that builds [pool]. *)
Definition pool_of (available : list (string * Z)) : list (string * Z) :=
  List.filter (fun '(u, c) => in_scavenge_units u && (0 <? c)) available.

(** [sum(c * carries.get(u, 25) for u, c in pool.items())] *)
Definition total_carry_of (carries : gmap string Z) (pool : list (string * Z)) : Z :=
  fold_left (fun acc '(u, c) => acc + c * carry_of carries u) pool 0.

(** The final loop: everything left goes to the dump tier. *)
Definition dump_remaining (remaining troops : list (string * Z))
  : list (string * Z) :=
  fold_left
    (fun tr '(u, c) =>
       if 0 <? c then Dict.set tr u (Dict.get_or tr u 0 + c) else tr)
    remaining troops.

Section Allocation.
Context {F : Type} (fl : ops F).

(** [equal_runtime_weights]; the set [tiers] is given by its iteration
    order. *)
Definition equal_runtime_weights (tiers : list Z) : list (Z * F) :=
  omap (fun tier =>
          match Dict.get LOOT_RATIOS tier with
          | Some ratio => Some (tier, div fl (lit fl 1) (lit fl ratio))
          | None => None
          end) tiers.

(** [sum(xs)] of Python: starts from the int [0]. *)
Definition py_sum (xs : list F) : F := fold_left (add fl) xs (of_int fl 0).

(** The loop over [units_by_carry] for one tier.  The state is the
    tier's troops, the remaining pool and [filled]; a [break] returns
    the state as it is. *)
Fixpoint fill_tier (carries : gmap string Z) (target : F)
         (units : list string)
         (troops remaining : list (string * Z)) (filled : F)
  : list (string * Z) * list (string * Z) * F :=
  match units with
  | [] => (troops, remaining, filled)
  | u :: rest =>
      let avail := Dict.get_or remaining u 0 in
      if avail <=? 0 then fill_tier carries target rest troops remaining filled
      else
        let carry_per := carry_of carries u in
        if carry_per <=? 0
        then fill_tier carries target rest troops remaining filled
        else
          let gap := sub fl target filled in
          if le0 fl gap then (troops, remaining, filled)
          else
            let take := Z.min avail
                          (floor fl (div fl gap (of_int fl carry_per))) in
            if 0 <? take
            then fill_tier carries target rest
                   (Dict.set troops u take)
                   (Dict.set remaining u (avail - take))
                   (add fl filled (of_int fl (take * carry_per)))
            else fill_tier carries target rest troops remaining filled
  end.

(** The loop over the tiers, highest first, skipping the dump tier. *)
Fixpoint fill_tiers (carries : gmap string Z) (total_carry : Z)
         (option_weights : list (Z * F)) (weight_sum : F) (dump_tier : Z)
         (tiers : list Z)
         (allocations : list (Z * list (string * Z)))
         (remaining : list (string * Z))
  : list (Z * list (string * Z)) * list (string * Z) :=
  match tiers with
  | [] => (allocations, remaining)
  | tier :: rest =>
      if decide (tier = dump_tier)
      then fill_tiers carries total_carry option_weights weight_sum
             dump_tier rest allocations remaining
      else
        let weight := Dict.get_or option_weights tier (of_int fl 0) in
        let target := div fl (mul fl (of_int fl total_carry) weight) weight_sum in
        let units_by_carry :=
          sorted_desc (carry_of carries) (Dict.keys remaining) in
        let '(troops, remaining', _) :=
          fill_tier carries target units_by_carry
                    (Dict.get_or allocations tier []) remaining (lit fl 0) in
        fill_tiers carries total_carry option_weights weight_sum
          dump_tier rest (Dict.set allocations tier troops) remaining'
  end.

Definition allocate_by_ratio (available : list (string * Z))
           (option_weights : list (Z * F))
           (unit_carries : option (gmap string Z))
  : list (Z * list (string * Z)) :=
  match Dict.keys option_weights with
  | [] => []   (* [sum] of no values is the int 0, and [0 <= 0] *)
  | k0 :: ks =>
      let weight_sum := py_sum (Dict.values option_weights) in
      if le0 fl weight_sum then []
      else
        let pool := pool_of available in
        if is_empty pool then []
        else
          let carries := default ∅ unit_carries in
          let total_carry := total_carry_of carries pool in
          if total_carry <=? 0 then []
          else
            let dump_tier := min_list k0 ks in
            let allocations :=
              map (fun t => (t, @nil (string * Z))) (Dict.keys option_weights) in
            let '(allocations1, remaining) :=
              fill_tiers carries total_carry option_weights weight_sum
                dump_tier
                (sorted_desc (fun t => t) (Dict.keys option_weights))
                allocations pool in
            let allocations2 :=
              Dict.set allocations1 dump_tier
                (dump_remaining remaining
                   (Dict.get_or allocations1 dump_tier [])) in
            List.filter (fun '(_, troops) => negb (is_empty troops))
                        allocations2
  end.
End Allocation.

(** Reading an allocation. *)
Definition tier_troops (alloc : list (Z * list (string * Z))) (tier : Z)
  : list (string * Z) :=
  Dict.get_or alloc tier [].

Definition unit_count (troops : list (string * Z)) (u : string) : Z :=
  Dict.get_or troops u 0.

(** The number of units [u] over all tiers of an allocation. *)
Definition allocated (alloc : list (Z * list (string * Z))) (u : string) : Z :=
  fold_right (fun '(_, troops) acc => unit_count troops u + acc) 0 alloc.

(** The largest unit carry among the units of a pool. *)
Definition max_unit_carry (carries : gmap string Z) (pool : list (string * Z)) : Z :=
  fold_right (fun '(u, _) acc => Z.max (carry_of carries u) acc) 0 pool.

Definition loot_ratio (tier : Z) : Q := Dict.get_or LOOT_RATIOS tier 0.10%Q.

End Scavenge.

(** * Specification-side definitions

    What the claims are stated against: counts, formulas and sample inputs
    that are read off the specification rather than off the code. *)

(** ** Sequential selection *)

Module SequentialSpec.
Import Building.

(** Number of in-flight upgrades of a building in the observed queue. *)
Definition queued_of (queue_buildings : list string) (b : string) : Z :=
  Z.of_nat (count_occ String.string_dec queue_buildings b).

(** Scenario 1 of the specification. *)
Definition scenario_manager : BuildingManager :=
  {| enabled := true; mode := "sequential";
     target_levels := ∅; priority_order := [];
     build_steps := [mkStep "main" 3; mkStep "wood" 1; mkStep "stone" 1] |}.
End SequentialSpec.

(** ** Resource wait *)

Module ResourceWaitSpec.
Import Building.

(** The formula of the specification: per resource type,
    [deficit = max(0, cost - have)] and
    [wait = deficit / (production_per_hour / 3600)]; the result is the
    maximum over the three types, capped at 3600 s, and 3600 s as soon as a
    resource that is needed is not produced (an hourly rate of zero; a
    rate below zero, which the game never reports, counts as no production
    too). *)
Definition deficit (current cost : Resources) (t : res_type) : Z :=
  Z.max 0 (getattr cost t - getattr current t).

Definition type_wait (current cost production : Resources) (t : res_type) : Q :=
  (inject_Z (deficit current cost t) / (inject_Z (getattr production t) / 3600))%Q.

Definition needed_unproduced (current cost production : Resources)
           (t : res_type) : bool :=
  (0 <? deficit current cost t) && (getattr production t <=? 0).

Definition resource_wait_formula (current cost production : Resources) : Q :=
  if existsb (needed_unproduced current cost production) res_types
  then 3600%Q
  else Qmin (Qmax (Qmax (type_wait current cost production Wood)
                        (type_wait current cost production Stone))
                  (type_wait current cost production Iron))
            3600.

(** The running maximum of the per-type waits. *)
Definition fold_max (current cost production : Resources)
           (todo : list res_type) (m : Q) : Q :=
  fold_left (fun a t => Qmax a (type_wait current cost production t)) todo m.
End ResourceWaitSpec.

(** ** Wake-up computation *)

Module WakeUpSpec.
(** The four candidate events of a cycle, in the order the main loop
    considers them. *)
Definition candidates (scavenge_wait build_queue_wait resource_wait farm_wait : Q)
  : list (string * Q) :=
  [("scavenge"%string, scavenge_wait); ("build_queue"%string, build_queue_wait);
   ("resources"%string, resource_wait); ("farming"%string, farm_wait)].
End WakeUpSpec.

(** ** Alert throttling *)

Module ThrottleSpec.
(** Each alert comes at least [cooldown] after the one before it, the
    first one at least [cooldown] after [last]. *)
Fixpoint spaced (cooldown : Q) (last : Q) (times : list Q) : Prop :=
  match times with
  | [] => True
  | t :: rest => (cooldown <= t - last)%Q /\ spaced cooldown t rest
  end.

Definition sample_monitor : Protection.BotProtectionMonitor :=
  Protection.new "token" "chat" 300.

Definition sample_call (now : Q) : Protection.detection :=
  Protection.mkDetection now "url_bot_check" "main" "de1" "".
End ThrottleSpec.

(** ** Targets-mode recruitment *)

Module RecruitSpec.
Import Troops.

(** Units of a type waiting in a training queue. *)
Definition queued_units (q : list TrainQueue) (u : string) : Z :=
  fold_right (fun e acc => if decide (unit e = u) then count e + acc else acc) 0 q.

(** The deficit and the batch of the specification. *)
Definition deficit (target owned queued : Z) : Z := target - owned - queued.

Definition batch (cap deficit : Z) : option Z :=
  if 0 <? deficit then Some (Z.min deficit cap) else None.

(** A stable page on which ten light cavalry ordered earlier are still in
    training, and a configuration asking for ten of them. *)
Definition ten_light : TroopsConfig :=
  {| enabled := true; mode := "targets"; targets := <["light"%string := 10]> ∅ |}.
Definition light_in_training : StablePage :=
  {| stable_troops := ∅; stable_queue := [mkTrain "light" 10] |}.
Definition idle_barracks : BarracksPage :=
  {| barracks_troops := ∅; barracks_queue := [] |}.
End RecruitSpec.

(** ** Build queue slots *)

Module QueueSpec.
Import Building.

(** The game rule quoted by the source comment and the specification:
    two slots with premium, one without. *)
Definition max_queue_rule (premium : bool) : nat := if premium then 2%nat else 1%nat.

(** A headquarters page backed by a village of the game: the page shows
    no cost table, every building has an upgrade link, and a click puts
    the upgrade in the queue. *)
Record village_page := mkVillagePage {
  vp_levels : gmap string Z;
  vp_queue : list BuildQueue;
  vp_premium : bool }.

Definition game_page : HQPage village_page :=
  {| hq_state := fun w =>
       {| levels := vp_levels w; queue := vp_queue w;
          available := ∅; premium := vp_premium w |};
     html_queue := vp_queue;
     build_button := fun _ _ => true;
     click_build := fun b w =>
       {| vp_levels := vp_levels w;
          vp_queue := vp_queue w
                      ++ [mkQueueEntry b (default 0 (vp_levels w !! b) + 1) None];
          vp_premium := vp_premium w |} |}.

(** A fresh village without premium, nothing queued, and a two-step plan. *)
Definition fresh_village : village_page :=
  {| vp_levels := ∅; vp_queue := []; vp_premium := false |}.

Definition two_steps : BuildingManager :=
  {| enabled := true; mode := "sequential";
     target_levels := ∅; priority_order := [];
     build_steps := [mkStep "main" 1; mkStep "wood" 1] |}.

Definition any_village : Village :=
  {| resources := mkResources 0 0 0; production := mkResources 0 0 0 |}.
End QueueSpec.

(** ** Carry capacity as a sum over the units of the pool *)

Module CarrySum.
(** [sum(f(u) * carry(u) for u in ks)] *)
Definition carry_sum (carries : gmap string Z) (ks : list string)
           (f : string -> Z) : Z :=
  fold_right (fun u acc => f u * Scavenge.carry_of carries u + acc) 0 ks.

(** The carry sum of a dict of troops over the units [ks]. *)
Definition cap (carries : gmap string Z) (ks : list string)
           (d : list (string * Z)) : Z :=
  carry_sum carries ks (Scavenge.unit_count d).

(** The carry target of a tier, as computed by the loop over the tiers. *)
Definition tier_target (total : Z) (weights : list (Z * Q)) (W : Q) (t : Z) : Q :=
  (inject_Z total * Dict.get_or weights t (inject_Z 0) / W)%Q.

(** The targets, and the carry handed out, of the tiers of [todo] other
    than the dump tier. *)
Definition targets_sum (total : Z) (weights : list (Z * Q)) (W : Q) (dump : Z)
           (todo : list Z) : Q :=
  fold_right (fun t acc => if decide (t = dump) then acc
                           else (tier_target total weights W t + acc)%Q)
             0%Q todo.

Definition filled_sum (carries : gmap string Z) (ks : list string) (dump : Z)
           (alloc : list (Z * list (string * Z))) (todo : list Z) : Z :=
  fold_right (fun t acc => if decide (t = dump) then acc
                           else carry_sum carries ks
                                  (Scavenge.unit_count (Scavenge.tier_troops alloc t))
                                + acc) 0 todo.

(** The allocation when every guard of [allocate_by_ratio] is passed. *)
Definition allocation_body {F : Type} (fl : Float.ops F) (carries : gmap string Z)
           (available : list (string * Z))
           (option_weights : list (Z * F)) (dump_tier : Z)
  : list (Z * list (string * Z)) :=
  let pool := Scavenge.pool_of available in
  let r := Scavenge.fill_tiers fl carries (Scavenge.total_carry_of carries pool)
             option_weights
             (Scavenge.py_sum fl (Dict.values option_weights)) dump_tier
             (sorted_desc (fun t => t) (Dict.keys option_weights))
             (map (fun t => (t, @nil (string * Z))) (Dict.keys option_weights))
             pool in
  Dict.set r.1 dump_tier
    (Scavenge.dump_remaining r.2 (Scavenge.tier_troops r.1 dump_tier)).
End CarrySum.

(** ** Equal-runtime weights *)

Module EqualRuntimeSpec.
Import Scavenge.

(** [carry(t)]: the carry capacity of the troops a tier receives. *)
Definition tier_carry (alloc : list (Z * list (string * Z)))
           (unit_carries : gmap string Z) (t : Z) : Z :=
  calculate_carry_capacity (tier_troops alloc t) unit_carries.

(** [carry(t) * r_t], the quantity that equal runtimes keep constant. *)
Definition runtime_load (alloc : list (Z * list (string * Z)))
           (unit_carries : gmap string Z) (t : Z) : Q :=
  (inject_Z (tier_carry alloc unit_carries t) * loot_ratio t)%Q.

(** Sum of a rational quantity over a list of tiers. *)
Definition tier_sum (f : Z -> Q) (ts : list Z) : Q :=
  fold_right (fun t acc => (f t + acc)%Q) 0%Q ts.
End EqualRuntimeSpec.

Module AllocationSamples.
Import Scavenge.
(** Scenario 4 of the specification: tiers 1 and 2, a thousand spears of
    carry 25. *)
Definition spears : list (string * Z) := [("spear"%string, 1000)].
Definition spear_carry : gmap string Z := <["spear"%string := 25]> ∅.
Definition tiers_1_2 : list (Z * Q) := equal_runtime_weights Float.exact [1; 2].
End AllocationSamples.

Module EqualRuntimeClaim.
Import Scavenge EqualRuntimeSpec.

(** The unit-carry quantum of a pool: the carry of its largest unit. *)
Definition quantum (unit_carries : gmap string Z) (available : list (string * Z)) : Q :=
  inject_Z (max_unit_carry unit_carries (pool_of available)).

(** "Any two active tiers have [carry * ratio] equal within one unit-carry
    quantum", for an allocation [alloc] of the pool of [available] to the
    tiers [active]. *)
Definition within_one_quantum (alloc : list (Z * list (string * Z)))
           (active : list Z) (unit_carries : gmap string Z)
           (available : list (string * Z)) : Prop :=
  forall a b,
    a ∈ active -> b ∈ active ->
    (Qabs (runtime_load alloc unit_carries a - runtime_load alloc unit_carries b)
     <= quantum unit_carries available)%Q.

(** The same, as a test. *)
Definition within_one_quantum_b (alloc : list (Z * list (string * Z)))
           (active : list Z) (unit_carries : gmap string Z)
           (available : list (string * Z)) : bool :=
  forallb (fun a =>
    forallb (fun b =>
      Qle_bool
        (Qabs (runtime_load alloc unit_carries a - runtime_load alloc unit_carries b))
        (quantum unit_carries available)) active) active.

(** The carry table lists a positive carry for every unit of the pool,
    and each of them is the largest of the pool or at most three quarters
    of it. *)
Definition spaced_carries (unit_carries : gmap string Z)
           (available : list (string * Z)) : Prop :=
  forall u, u ∈ Dict.keys (pool_of available) ->
    exists c, unit_carries !! u = Some c
              /\ 0 < c
              /\ (c = max_unit_carry unit_carries (pool_of available)
                  \/ 4 * c <= 3 * max_unit_carry unit_carries (pool_of available)).

(** The carries of the scavenging units in the game, as the world
    configuration reports them. *)
Definition game_carries : gmap string Z :=
  list_to_map
    [("spear", 25); ("sword", 15); ("axe", 10); ("archer", 10);
     ("light", 80); ("marcher", 50); ("heavy", 50)]%string.

(** A table with carries that are close to each other, and a pool for it. *)
Definition cavalry_80_75 : gmap string Z :=
  <["light"%string := 80]> (<["heavy"%string := 75]> ∅).
Definition one_light_four_heavy : list (string * Z) :=
  [("light"%string, 1); ("heavy"%string, 4)].

(** A table that does not list the spear, and a pool with spears. *)
Definition light_only : gmap string Z := <["light"%string := 80]> ∅.
Definition lights_and_spears : list (string * Z) :=
  [("light"%string, 100); ("spear"%string, 1000)].

(** Pools of the game's units. *)
Definition spears_23 : list (string * Z) := [("spear"%string, 23)].
Definition seven_light : list (string * Z) := [("light"%string, 7)].
Definition mixed_pool : list (string * Z) :=
  [("spear"%string, 23); ("axe"%string, 4); ("light"%string, 7); ("heavy"%string, 5)].

(** The sets of two or more tiers, in the order in which Python iterates
    over a set of small ints. *)
Definition tier_sets : list (list Z) :=
  [[1; 2]; [1; 3]; [1; 4]; [2; 3]; [2; 4]; [3; 4];
   [1; 2; 3]; [1; 2; 4]; [1; 3; 4]; [2; 3; 4]; [1; 2; 3; 4]].

(** The pools of one to [n] units of one kind, and of one to [n] units of
    each of two kinds. *)
Definition one_kind_pools (n : Z) : list (list (string * Z)) :=
  u ← SCAVENGE_UNITS; c ← seqZ 1 n; [[(u, c)]].
Definition two_kind_pools (n : Z) : list (list (string * Z)) :=
  u ← SCAVENGE_UNITS; v ← SCAVENGE_UNITS;
  if decide (u = v) then []
  else c ← seqZ 1 n; d ← seqZ 1 n; [[(u, c); (v, d)]].
End EqualRuntimeClaim.

(** * Further embedded code *)

(** ** More Python helpers *)

(** [max(a, b)] of Python on floats: the first argument wins ties. *)
Definition py_max (a b : Q) : Q := if Qlt_bool a b then b else a.

(** [max(xs)] on a non-empty list of numbers. *)
Definition max_list (x : Q) (xs : list Q) : Q := fold_left py_max xs x.

(** [int(x)] on a float: truncation towards zero. *)
Definition py_int (x : Q) : Z := if Qle_bool 0 x then Qfloor x else Qceiling x.

(** ** managers/scavenge_manager.py and game/screens/scavenge.py *)

Module ScavengeManager.
Import Scavenge.

(** [core/config.py], [ScavengingConfig], without [option_ratios], a field
    that no code reads. *)
Record ScavengingConfig := mkScavenging {
  enabled : bool;
  mode : string;
  target_minutes : Z;
  dry_run : bool;
  scavenge_exclude : list string;
  scavenge_reserve : gmap string Z }.

(** [_filter_troops]; [idle_troops] is read by key, 0 for a missing unit. *)
Definition _filter_troops (config : ScavengingConfig) (idle_troops : gmap string Z)
  : list (string * Z) :=
  fold_left
    (fun available u =>
       if bool_decide (u ∈ scavenge_exclude config) then available
       else
         let count := default 0 (idle_troops !! u) in
         let reserve := default 0 (scavenge_reserve config !! u) in
         let usable := count - reserve in
         if 0 <? usable then Dict.set available u usable else available)
    SCAVENGE_UNITS [].

(** The dict [{u: idle_troops.get(u) for u in SCAVENGE_UNITS}] that
    [_run_ratio] hands to [_filter_troops]. *)
Definition scavenge_counts (idle_troops : gmap string Z) : gmap string Z :=
  list_to_map (map (fun u => (u, default 0 (idle_troops !! u))) SCAVENGE_UNITS).

(** The allocation computed by [_run_ratio] from the unlocked tiers and
    the idle troops. *)
Definition ratio_plan {F : Type} (fl : Float.ops F) (config : ScavengingConfig)
           (unit_carries : gmap string Z) (unlocked_tiers : list Z)
           (idle_troops : gmap string Z) : list (Z * list (string * Z)) :=
  let active_ratios := equal_runtime_weights fl unlocked_tiers in
  let available := _filter_troops config (scavenge_counts idle_troops) in
  allocate_by_ratio fl available active_ratios (Some unit_carries).

(** [seconds_until_return]; [now] is [time.time()]. *)
Definition seconds_until_return (next_return now : Q) : Q :=
  if Qle_bool next_return 0 then 0%Q
  else py_max 0 (next_return - now).

(** [_update_return_times]: the new [next_return].  [return_times] is
    what [get_return_times] gave, [None] when it raised; [unlocked_tiers]
    is [None] for the default argument. *)
Definition _update_return_times (return_times : option (list (Z * Q)))
           (unlocked_tiers : option (list Z)) (next_return : Q) : Q :=
  match return_times with
  | None => next_return
  | Some times =>
      let relevant :=
        map snd (List.filter
                   (fun '(tier, _) =>
                      match unlocked_tiers with
                      | None => true
                      | Some tiers => bool_decide (tier ∈ tiers)
                      end) times) in
      match relevant with
      | [] => next_return
      | ts :: rest => max_list ts rest
      end
  end.

(** [ScavengeScreen.calculate_duration] *)
Definition tier_factor (tier : Z) : Q :=
  Dict.get_or [(1, 1.0%Q); (2, 0.75%Q); (3, 0.5%Q); (4, 0.25%Q)] tier 1.0%Q.

Definition screen_calculate_duration (troops : list (string * Z)) (tier : Z) : Z :=
  let total_troops := fold_left Z.add (Dict.values troops) 0 in
  py_int (inject_Z (total_troops * 10) * tier_factor tier).

(** The comprehension [{u: c for u, c in allocation.items() if c > 0}]. *)
Definition positive_only (allocation : list (string * Z)) : list (string * Z) :=
  List.filter (fun '(_, c) => 0 <? c) allocation.

(** [_allocate_send_all] *)
Definition _allocate_send_all (available : list (string * Z)) (remaining_tiers : Z)
  : list (string * Z) :=
  if remaining_tiers <=? 1 then available
  else
    positive_only
      (fold_left (fun allocation '(u, count) =>
                    Dict.set allocation u (count / remaining_tiers))
                 available []).

(** [_allocate_time_based] *)
Definition _allocate_time_based (config : ScavengingConfig)
           (available : list (string * Z)) (tier remaining_tiers : Z)
  : list (string * Z) :=
  let target_seconds := target_minutes config * 60 in
  let allocation := _allocate_send_all available remaining_tiers in
  let estimated := screen_calculate_duration allocation tier in
  if 0 <? estimated then
    let ratio := (inject_Z target_seconds / inject_Z estimated)%Q in
    let scaled := map (fun '(u, c) => (u, Z.max 1 (py_int (inject_Z c * ratio))))
                      allocation in
    let capped := map (fun '(u, c) => (u, Z.min c (Dict.get_or available u 0)))
                      scaled in
    positive_only capped
  else positive_only allocation.

(** [_allocate_max_efficiency] *)
Definition tier_weight (tier : Z) : Q :=
  Dict.get_or [(1, 0.1%Q); (2, 0.2%Q); (3, 0.3%Q); (4, 0.4%Q)] tier 0.25%Q.

Definition _allocate_max_efficiency (available : list (string * Z)) (tier remaining_tiers : Z)
  : list (string * Z) :=
  let weight := tier_weight tier in
  positive_only
    (fold_left (fun allocation '(u, count) =>
                  Dict.set allocation u (Z.max 1 (py_int (inject_Z count * weight))))
               available []).

(** [_allocate_troops] *)
Definition _allocate_troops (config : ScavengingConfig) (available : gmap string Z)
           (tier remaining_tiers : Z) : list (string * Z) :=
  let scavenge_available := _filter_troops config available in
  if is_empty scavenge_available then []
  else if String.eqb (mode config) "send_all"
       then _allocate_send_all scavenge_available remaining_tiers
  else if String.eqb (mode config) "time_based"
       then _allocate_time_based config scavenge_available tier remaining_tiers
  else _allocate_max_efficiency scavenge_available tier remaining_tiers.

End ScavengeManager.

Module ReserveSpec.
Import ScavengeManager.

(** The troops of a unit that may leave the village: those beyond the
    configured reserve. *)
Definition usable (config : ScavengingConfig) (idle_troops : gmap string Z) (u : string) : Z :=
  default 0 (idle_troops !! u) - default 0 (scavenge_reserve config !! u).

(** Spears and light cavalry may go, fifty spears stay home; swords are
    excluded. *)
Definition keep_fifty_spears : ScavengingConfig :=
  {| enabled := true; mode := "ratio"; target_minutes := 120; dry_run := false;
     scavenge_exclude := ["sword"; "axe"; "archer"; "marcher"; "heavy"]%string;
     scavenge_reserve := <["spear"%string := 50]> ∅ |}.

Definition idle_home : gmap string Z :=
  <["spear"%string := 150]> (<["sword"%string := 40]> (<["light"%string := 10]> ∅)).
End ReserveSpec.

Module LegacySpec.
(** Every entry of [d] is a positive count of a unit of [available], not
    above the count available. *)
Definition within (available d : list (string * Z)) : Prop :=
  Forall (fun e => exists c, (e.1, c) ∈ available /\ 1 <= e.2 <= c) d.

Definition time_based_config : ScavengeManager.ScavengingConfig :=
  {| ScavengeManager.enabled := true; ScavengeManager.mode := "time_based";
     ScavengeManager.target_minutes := 120; ScavengeManager.dry_run := false;
     ScavengeManager.scavenge_exclude := ["sword"]%string;
     ScavengeManager.scavenge_reserve := <["spear"%string := 50]> ∅ |}.
End LegacySpec.

(** ** core/panel_state.py: timers and serialisation *)

Module PanelTimers.

Record TimerState := mkTimer {
  label : string;
  end_ts : Q;
  category : string }.

(** [d.pop(k, None)]: the dict without the key, unchanged if it is absent. *)
Fixpoint pop {V : Type} (d : list (string * V)) (k : string) : list (string * V) :=
  match d with
  | [] => []
  | (k', v) :: rest => if decide (k' = k) then rest else (k', v) :: pop rest k
  end.

(** [set_timer] and [clear_timer], on the [timers] dict of the store. *)
Definition set_timer (timer_id label : string) (end_ts : Q) (category : string)
           (timers : list (string * TimerState)) : list (string * TimerState) :=
  Dict.set timers timer_id {| label := label; end_ts := end_ts; category := category |}.

Definition clear_timer (timer_id : string) (timers : list (string * TimerState))
  : list (string * TimerState) :=
  pop timers timer_id.

(** The ["timers"] entry of [to_json_dict]: the timers that end after
    [now], each with its three fields. *)
Definition active_timers (now : Q) (timers : list (string * TimerState))
  : list (string * TimerState) :=
  List.filter (fun '(_, t) => Qlt_bool now (end_ts t)) timers.

(** The ["logs"] entry of [to_json_dict]: the fields of [self.logs[-200:]]. *)
Definition logs_data (self : PanelState.PanelStateStore) : list (Q * string * string) :=
  map (fun e => (PanelState.timestamp e, PanelState.message e, PanelState.level e))
      (PanelState.last_slice 200 (PanelState.logs self)).

(** Calls made to the two methods, and a history of them on a fresh store. *)
Inductive timer_call :=
| SetTimer (timer_id label : string) (end_ts : Q) (category : string)
| ClearTimer (timer_id : string).

Definition apply_call (timers : list (string * TimerState)) (c : timer_call)
  : list (string * TimerState) :=
  match c with
  | SetTimer i l e cat => set_timer i l e cat timers
  | ClearTimer i => clear_timer i timers
  end.

Definition history (calls : list timer_call) : list (string * TimerState) :=
  fold_left apply_call calls [].
End PanelTimers.

Module TimerSpec.
Import PanelTimers.

(** What the last call that names a timer left of it. *)
Definition last_write (calls : list timer_call) (timer_id : string) : option TimerState :=
  fold_left
    (fun acc c =>
       match c with
       | SetTimer i l e cat =>
           if decide (i = timer_id)
           then Some {| label := l; end_ts := e; category := cat |} else acc
       | ClearTimer i => if decide (i = timer_id) then None else acc
       end) calls None.

(** A timer is shown while its end lies in the future. *)
Definition shown (now : Q) (t : option TimerState) : option TimerState :=
  match t with
  | Some t => if Qlt_bool now (end_ts t) then Some t else None
  | None => None
  end.
End TimerSpec.

(** ** app.py: the panel callbacks and the helpers of the main loop *)

(** [s.split(sep)] for a one-character separator: the pieces between the
    separators, empty pieces included, so one piece more than there are
    separators. *)
Fixpoint py_split (sep : ascii) (s : string) : list string :=
  match s with
  | EmptyString => [EmptyString]
  | String c rest =>
      if Ascii.eqb c sep then EmptyString :: py_split sep rest
      else match py_split sep rest with
           | [] => [String c EmptyString]
           | piece :: pieces => String c piece :: pieces
           end
  end.

Definition colon : ascii := ":"%char.

(** The build queue editor of the side panel.  [int] is Python's [int()]
    on a string: [None] stands for [ValueError], which every handler
    catches.  The queues are [panel.state.build_queues]. *)
Module BuildQueueEditor.
Import Building.

Section Handlers.
Variable int : string -> option Z.

(** [_on_bq_add], message [vid:building:level]. *)
Definition _on_bq_add (value : string) (build_queues : gmap Z (list BuildStep))
  : gmap Z (list BuildStep) :=
  match py_split colon value with
  | [p0; p1; p2] =>
      match int p0 with
      | None => build_queues
      | Some vid =>
          let building := p1 in
          match int p2 with
          | None => build_queues
          | Some level =>
              if (level <? 1) || (30 <? level) then build_queues
              else
                let queue := default [] (build_queues !! vid) in
                <[vid := queue ++ [mkStep building level]]> build_queues
          end
      end
  | _ => build_queues
  end.

(** [_on_bq_remove], message [vid:index]. *)
Definition _on_bq_remove (value : string) (build_queues : gmap Z (list BuildStep))
  : gmap Z (list BuildStep) :=
  match py_split colon value with
  | [p0; p1] =>
      match int p0 with
      | None => build_queues
      | Some vid =>
          match int p1 with
          | None => build_queues
          | Some idx =>
              let queue := default [] (build_queues !! vid) in
              if (0 <=? idx) && (idx <? Z.of_nat (length queue))
              then <[vid := delete (Z.to_nat idx) queue]> build_queues
              else build_queues
          end
      end
  | _ => build_queues
  end.

(** [q[i], q[j] = q[j], q[i]] for two indices inside the list. *)
Definition swap {A : Type} (i j : nat) (q : list A) : list A :=
  match q !! i, q !! j with
  | Some a, Some b => <[j := a]> (<[i := b]> q)
  | _, _ => q
  end.

(** [_on_bq_move], message [vid:index:direction]. *)
Definition _on_bq_move (value : string) (build_queues : gmap Z (list BuildStep))
  : gmap Z (list BuildStep) :=
  match py_split colon value with
  | [p0; p1; p2] =>
      match int p0 with
      | None => build_queues
      | Some vid =>
          match int p1 with
          | None => build_queues
          | Some idx =>
              let direction := p2 in
              let queue := default [] (build_queues !! vid) in
              if String.eqb direction "up"
                 && (0 <? idx) && (idx <? Z.of_nat (length queue))
              then <[vid := swap (Z.to_nat (idx - 1)) (Z.to_nat idx) queue]> build_queues
              else if String.eqb direction "down"
                      && (0 <=? idx) && (idx <? Z.of_nat (length queue) - 1)
              then <[vid := swap (Z.to_nat idx) (Z.to_nat (idx + 1)) queue]> build_queues
              else build_queues
          end
      end
  | _ => build_queues
  end.

(** [_on_bq_clear]: empties the queue of the active village. *)
Definition _on_bq_clear (active_village_id : Z) (build_queues : gmap Z (list BuildStep))
  : gmap Z (list BuildStep) :=
  if negb (active_village_id =? 0)
     && bool_decide (is_Some (build_queues !! active_village_id))
  then <[active_village_id := []]> build_queues
  else build_queues.

(** A message from the panel, and the handler it reaches. *)
Inductive message :=
| BqAdd (value : string)
| BqRemove (value : string)
| BqMove (value : string)
| BqClear.

Definition handle (active_village_id : Z) (build_queues : gmap Z (list BuildStep))
           (m : message) : gmap Z (list BuildStep) :=
  match m with
  | BqAdd v => _on_bq_add v build_queues
  | BqRemove v => _on_bq_remove v build_queues
  | BqMove v => _on_bq_move v build_queues
  | BqClear => _on_bq_clear active_village_id build_queues
  end.
End Handlers.

(** [_auto_remove_completed_steps]: the build queues afterwards;
    [levels] is the [_last_levels] of the building manager. *)
Definition _auto_remove_completed_steps (levels : gmap string Z) (village_id : Z)
           (build_queues : gmap Z (list BuildStep)) : gmap Z (list BuildStep) :=
  if bool_decide (levels = ∅) then build_queues
  else
    match build_queues !! village_id with
    | None | Some [] => build_queues
    | Some steps =>
        let original_len := length steps in
        let remaining :=
          List.filter (fun s => default 0 (levels !! building s) <? level s) steps in
        if (length remaining <? original_len)%nat
        then <[village_id := remaining]> build_queues
        else build_queues
    end.

(** [_sync_build_queue_to_manager] *)
Definition _sync_build_queue_to_manager (village_id : Z)
           (build_queues : gmap Z (list BuildStep)) (manager : BuildingManager)
  : BuildingManager :=
  match build_queues !! village_id with
  | None | Some [] => manager
  | Some steps =>
      {| enabled := enabled manager;
         mode := "sequential";
         target_levels := target_levels manager;
         priority_order := priority_order manager;
         build_steps := steps |}
  end.
End BuildQueueEditor.

Module EditorSpec.
Import Building.

(** Every step of every queue asks for a level the game has. *)
Definition levels_in_range (build_queues : gmap Z (list BuildStep)) : Prop :=
  forall vid queue, build_queues !! vid = Some queue ->
                    Forall (fun s => 1 <= level s <= 30) queue.

(** The queue of a village, empty when it has none. *)
Definition queue_of (build_queues : gmap Z (list BuildStep)) (vid : Z) : list BuildStep :=
  default [] (build_queues !! vid).
End EditorSpec.

(** The scavenge troop settings of the panel: [sync_scavenge_troops] of
    [core/panel_state.py] and [_on_scav_troop] of [app.py]. *)
Module ScavPanel.
Import Scavenge ScavengeManager.

(** The configuration and [panel.state.scavenge_troops], whose entries
    are the pairs [(enabled, reserve)]. *)
Record state := mkState {
  config : ScavengingConfig;
  scavenge_troops : list (string * (bool * Z)) }.

(** The entry written for a unit: [unit not in scavenge_exclude] and
    [scavenge_reserve.get(unit, 0)]. *)
Definition entry_for (config : ScavengingConfig) (unit : string) : bool * Z :=
  (negb (bool_decide (unit ∈ scavenge_exclude config)),
   default 0 (scavenge_reserve config !! unit)).

(** [PanelStateStore.sync_scavenge_troops] *)
Definition sync_scavenge_troops (config : ScavengingConfig)
           (scavenge_troops : list (string * (bool * Z))) : list (string * (bool * Z)) :=
  fold_left (fun panel unit => Dict.set panel unit (entry_for config unit))
            SCAVENGE_UNITS scavenge_troops.

Definition with_exclude (config : ScavengingConfig) (exclude : list string)
  : ScavengingConfig :=
  {| enabled := enabled config; mode := mode config;
     target_minutes := target_minutes config; dry_run := dry_run config;
     scavenge_exclude := exclude; scavenge_reserve := scavenge_reserve config |}.

Definition with_reserve (config : ScavengingConfig) (reserve : gmap string Z)
  : ScavengingConfig :=
  {| enabled := enabled config; mode := mode config;
     target_minutes := target_minutes config; dry_run := dry_run config;
     scavenge_exclude := scavenge_exclude config; scavenge_reserve := reserve |}.

Section Handler.
Variable int : string -> option Z.

(** [_on_scav_troop], message [unit:field:value]. *)
Definition _on_scav_troop (value : string) (s : state) : state :=
  match py_split colon value with
  | [unit; field; val] =>
      let update (config' : ScavengingConfig) :=
        {| config := config';
           scavenge_troops := Dict.set (scavenge_troops s) unit (entry_for config' unit) |} in
      if String.eqb field "enabled" then
        if String.eqb val "true"
        then update (with_exclude (config s)
                       (List.filter (fun u => negb (String.eqb u unit))
                                    (scavenge_exclude (config s))))
        else if bool_decide (unit ∈ scavenge_exclude (config s))
             then update (config s)
             else update (with_exclude (config s) (scavenge_exclude (config s) ++ [unit]))
      else if String.eqb field "reserve" then
        match int val with
        | None => s
        | Some count =>
            if 0 <=? count
            then update (with_reserve (config s)
                           (<[unit := count]> (scavenge_reserve (config s))))
            else update (config s)
        end
      else s
  | _ => s
  end.

(** The panel state after the start-up sync and a run of messages. *)
Definition after_messages (config : ScavengingConfig) (values : list string) : state :=
  fold_left (fun s v => _on_scav_troop v s) values
            {| config := config; scavenge_troops := sync_scavenge_troops config [] |}.
End Handler.
End ScavPanel.

Module ScavPanelSpec.
Import ScavengeManager ScavPanel.

(** The panel shows, for every unit it lists, what the configuration holds. *)
Definition mirrors (s : state) : Prop :=
  forall u e, Dict.get (scavenge_troops s) u = Some e -> e = entry_for (config s) u.
End ScavPanelSpec.

(** ** core/config.py: per-village feature switches, and their toggle in app.py *)

Module FeatureConfig.

(** The feature names the callers pass. *)
Inductive feature := FBuilding | FFarming | FScavenging | FTroops.

#[global] Instance feature_eq_dec : EqDecision feature.
Proof. solve_decision. Defined.

Definition feature_of (name : string) : option feature :=
  if String.eqb name "building" then Some FBuilding
  else if String.eqb name "farming" then Some FFarming
  else if String.eqb name "scavenging" then Some FScavenging
  else if String.eqb name "troops" then Some FTroops
  else None.

(** [VillageOverride]: [None] inherits the global setting. *)
Record VillageOverride := mkOverride {
  building : option bool;
  farming : option bool;
  scavenging : option bool;
  troops : option bool }.

Definition no_override : VillageOverride := mkOverride None None None None.

Definition getattr (o : VillageOverride) (f : feature) : option bool :=
  match f with
  | FBuilding => building o | FFarming => farming o
  | FScavenging => scavenging o | FTroops => troops o
  end.

Definition setattr (o : VillageOverride) (f : feature) (v : option bool) : VillageOverride :=
  match f with
  | FBuilding => mkOverride v (farming o) (scavenging o) (troops o)
  | FFarming => mkOverride (building o) v (scavenging o) (troops o)
  | FScavenging => mkOverride (building o) (farming o) v (troops o)
  | FTroops => mkOverride (building o) (farming o) (scavenging o) v
  end.

(** [is_feature_enabled]; [global f] is [config.<feature>.enabled]. *)
Definition is_feature_enabled (village_overrides : gmap Z VillageOverride)
           (global : feature -> bool) (village_id : Z) (f : feature) : bool :=
  match village_overrides !! village_id with
  | Some override =>
      match getattr override f with
      | Some val => val
      | None => global f
      end
  | None => global f
  end.

Section Toggle.
Variable int : string -> option Z.

(** [_on_village_toggle], message [vid:feature:value], on
    [config.village_overrides].  For a name that is none of the four
    features, none of the four fields changes. *)
Definition _on_village_toggle (value : string)
           (village_overrides : gmap Z VillageOverride) : gmap Z VillageOverride :=
  match py_split colon value with
  | [p0; p1; p2] =>
      match int p0 with
      | None => village_overrides
      | Some vid =>
          let enabled :=
            if String.eqb p2 "null" then None
            else if String.eqb p2 "true" then Some true
            else Some false in
          let created :=
            match village_overrides !! vid with
            | None => <[vid := no_override]> village_overrides
            | Some _ => village_overrides
            end in
          match feature_of p1 with
          | Some f =>
              <[vid := setattr (default no_override (created !! vid)) f enabled]> created
          | None => created
          end
      end
  | _ => village_overrides
  end.
End Toggle.
End FeatureConfig.

(** ** app.py: active hours *)

Module ActiveHours.

(** A [datetime.time]: times compare by hour, minute, second and
    microsecond, in that order. *)
Record time := mkTime { hour : Z; minute : Z; second : Z; microsecond : Z }.

(** [datetime.time(h, m)]: [None] stands for the [ValueError] raised for
    an hour outside 0..23 or a minute outside 0..59. *)
Definition dtime (h m : Z) : option time :=
  if (0 <=? h) && (h <=? 23) && (0 <=? m) && (m <=? 59)
  then Some (mkTime h m 0 0) else None.

Definition time_le (a b : time) : bool :=
  if hour a <? hour b then true
  else if hour b <? hour a then false
  else if minute a <? minute b then true
  else if minute b <? minute a then false
  else if second a <? second b then true
  else if second b <? second a then false
  else microsecond a <=? microsecond b.

Definition dash : ascii := "-"%char.

Section Parse.
(** [int()] and [str.strip()]; [None] is [ValueError]. *)
Variables (int : string -> option Z) (strip : string -> string).

(** [h, m = map(int, s.strip().split(":"))]: [None] when the unpacking or
    a conversion raises [ValueError]. *)
Definition hour_minute (s : string) : option (Z * Z) :=
  match py_split colon (strip s) with
  | [a; b] =>
      match int a, int b with
      | Some h, Some m => Some (h, m)
      | _, _ => None
      end
  | _ => None
  end.

(** [_is_active_hours] for a loaded configuration; [now] is
    [datetime.now().time()].  The chained comparison builds the end time
    only when the start time is not after [now]. *)
Definition _is_active_hours (hours_str : string) (now : time) : bool :=
  match py_split dash hours_str with
  | [start_str; end_str] =>
      match hour_minute start_str, hour_minute end_str with
      | Some (sh, sm), Some (eh, em) =>
          match dtime sh sm with
          | None => true
          | Some start =>
              if time_le start now
              then match dtime eh em with
                   | None => true
                   | Some stop => time_le now stop
                   end
              else false
          end
      | _, _ => true
      end
  | _ => true
  end.
End Parse.
End ActiveHours.

Module ActiveHoursSpec.
Import ActiveHours.

(** The time of day in microseconds, for times with fields in range. *)
Definition micros (t : time) : Z :=
  ((hour t * 60 + minute t) * 60 + second t) * 1000000 + microsecond t.

Definition in_range (t : time) : Prop :=
  0 <= minute t < 60 /\ 0 <= second t < 60 /\ 0 <= microsecond t < 1000000.

(** A reader of the two-digit numbers of the examples, and no stripping. *)
Definition sample_int (s : string) : option Z :=
  if String.eqb s "06" then Some 6
  else if String.eqb s "22" then Some 22
  else if String.eqb s "00" then Some 0
  else None.
End ActiveHoursSpec.

(** ** managers/troop_manager.py (fill-scavenge mode) *)

Module FillScavenge.

(** The dictionary returned by [BarracksScreen.get_training_info]. *)
Record training_info := mkInfo {
  train_time : Z;
  max_affordable : Z;
  queue_seconds : Z;
  barracks_available : bool }.

(** [TroopManager.run_fill_scavenge]: the order handed to
    [barracks.train_units], if any.  [remaining] is the value returned by
    [get_scavenge_remaining()], [info] the answer of the barracks screen for
    a unit.  Log lines are left out. *)
Definition run_fill_scavenge (fill_units : list string) (remaining : Q)
           (info : string -> training_info) : option (string * Z) :=
  match fill_units with
  | [] => None
  | unit :: _ =>
      if Qle_bool remaining 30 then None
      else
        let i := info unit in
        if negb (barracks_available i) then None
        else if Qle_bool (remaining - 30) (inject_Z (queue_seconds i)) then None
        else if train_time i <=? 0 then None
        else if max_affordable i <=? 0 then None
        else
          let gap := (remaining - inject_Z (queue_seconds i))%Q in
          let batch := Z.max 1 (py_int (gap / inject_Z (train_time i)) + 1) in
          let batch := Z.min batch (max_affordable i) in
          Some (unit, batch)
  end.

(** [total_queue]: the length of the training queue after the order. *)
Definition total_queue (i : training_info) (batch : Z) : Z :=
  queue_seconds i + batch * train_time i.

End FillScavenge.

Module FillSpec.
Import FillScavenge.

(** Spearmen of 100 s each, 500 affordable, a queue of 60 s. *)
Definition spear_info (_ : string) : training_info :=
  {| train_time := 100; max_affordable := 500; queue_seconds := 60;
     barracks_available := true |}.
End FillSpec.

(** ** Protection events: core/bot_protection.py with app.py *)

Module ProtectionEvents.
Import Protection.

(** [Application._on_bot_protection_resolved], as far as the monitor is
    concerned: the handler resets [_detected] itself and then calls
    [on_clear]. *)
Definition _on_bot_protection_resolved (profile world : string)
           (self : BotProtectionMonitor) : BotProtectionMonitor * list string :=
  on_clear profile world
    {| bot_token := bot_token self; chat_id := chat_id self;
       alert_cooldown := alert_cooldown self;
       detected := false;
       last_alert_time := last_alert_time self |}.

(** What can happen to a monitor. *)
Inductive event :=
| Detect (d : detection)
| Clear (profile world : string)
| Resolved (profile world : string).

Definition dispatch (e : event) (self : BotProtectionMonitor)
  : BotProtectionMonitor * list string :=
  match e with
  | Detect d => on_detection d self
  | Clear profile world => on_clear profile world self
  | Resolved profile world => _on_bot_protection_resolved profile world self
  end.

(** A history of events, oldest first: the final monitor and every message
    handed to [_send_telegram], with the event that sent it. *)
Fixpoint replay (es : list event) (self : BotProtectionMonitor)
  : BotProtectionMonitor * list (event * string) :=
  match es with
  | [] => (self, [])
  | e :: rest =>
      let '(self', msgs) := dispatch e self in
      let '(final, sent) := replay rest self' in
      (final, map (fun m => (e, m)) msgs ++ sent)
  end.

End ProtectionEvents.

Module ProtectionEventsSpec.
Import Protection ProtectionEvents.

(** The clock values of the detection alerts among the messages sent. *)
Definition alert_times (sent : list (event * string)) : list Q :=
  omap (fun s => match fst s with Detect d => Some (d_now d) | _ => None end) sent.

Definition is_detect (e : event) : bool :=
  match e with Detect _ => true | _ => false end.

Definition is_clear (e : event) : bool :=
  match e with Clear _ _ => true | _ => false end.

Definition is_resolved (e : event) : bool :=
  match e with Resolved _ _ => true | _ => false end.

(** Detected at 1000, cleared, detected again at 1100 and at 1400. *)
Definition sample_history : list event :=
  [Detect (ThrottleSpec.sample_call 1000); Clear "main" "de1";
   Detect (ThrottleSpec.sample_call 1100); Resolved "main" "de1";
   Detect (ThrottleSpec.sample_call 1400)].
End ProtectionEventsSpec.

(** ** managers/defense_manager.py *)

Module Defense.

(** One call of [DefenseManager.check]: the village, the
    [incoming_attacks] of the overview, and the count the rally point
    shows, which is read only when the overview reports none. *)
Record check_call := mkCheck {
  village_id : Z;
  incoming_attacks : Z;
  rally_incoming : Z }.

Definition incoming_of (c : check_call) : Z :=
  if incoming_attacks c =? 0 then rally_incoming c else incoming_attacks c.

Record outcome := mkOutcome {
  _notified_attacks : gset Z;
  under_attack : bool;
  notifications : list (Z * Z) }.    (* calls of [_send_notification] *)

(** [DefenseManager.check] *)
Definition check (c : check_call) (notified : gset Z) : outcome :=
  let incoming := incoming_of c in
  if 0 <? incoming then
    if bool_decide (village_id c ∈ notified)
    then {| _notified_attacks := notified; under_attack := true;
            notifications := [] |}
    else {| _notified_attacks := {[village_id c]} ∪ notified; under_attack := true;
            notifications := [(village_id c, incoming)] |}
  else {| _notified_attacks := notified ∖ {[village_id c]}; under_attack := false;
          notifications := [] |}.

(** The notified set after a history of checks by a fresh manager. *)
Definition notified_after (cs : list check_call) : gset Z :=
  fold_left (fun notified c => _notified_attacks (check c notified)) cs ∅.

End Defense.

Module DefenseSpec.
Import Defense.

(** Whether the latest check of a village in a history found it under
    attack; [false] when the village was never checked. *)
Definition attacked_at_last_check (cs : list check_call) (vid : Z) : bool :=
  match List.filter (fun c => bool_decide (village_id c = vid)) (rev cs) with
  | c :: _ => 0 <? incoming_of c
  | [] => false
  end.
End DefenseSpec.

(** ** app.py: the waits gathered by the main loop *)

Module CycleWaits.

(** What one pass of the village loop of [_main_loop] yields: the pair
    returned by [_process_village] and the clock read by the test that
    follows it.  The loop stops early when the bot is stopped or paused; a
    list of reports holds the passes that were made. *)
Record report := mkReport {
  rw : Q;        (* resource wait, seconds *)
  bf : Q;        (* build queue finish, unix time *)
  clock : Q }.   (* [time.time()] *)

(** [x < m] where [m] starts as [float("inf")], written [None]. *)
Definition below (x : Q) (m : option Q) : bool :=
  match m with
  | None => true
  | Some y => Qlt_bool x y
  end.

(** Python truth of a number. *)
Definition truthy (x : Q) : bool := negb (Qeq_bool x 0).

(** The village loop: [(min_resource_wait, min_build_finish)] after the
    villages processed. *)
Definition village_loop (reports : list report) : option Q * option Q :=
  fold_left
    (fun acc r =>
       let '(min_resource_wait, min_build_finish) := acc in
       let min_resource_wait :=
         if truthy (rw r) && (Qlt_bool 0 (rw r) && below (rw r) min_resource_wait)
         then Some (rw r) else min_resource_wait in
       let min_build_finish :=
         if truthy (bf r) && Qlt_bool (clock r) (bf r) && below (bf r) min_build_finish
         then Some (bf r) else min_build_finish in
       (min_resource_wait, min_build_finish))
    reports (None, None).

(** [build_queue_wait]; [now] is the clock when it is computed. *)
Definition build_queue_wait (min_build_finish : option Q) (now : Q) : Q :=
  match min_build_finish with
  | Some finish =>
      let w := (finish - now)%Q in
      if Qlt_bool w 0 then 0 else w
  | None => 0
  end.

(** [resource_wait] *)
Definition resource_wait (min_resource_wait : option Q) : Q :=
  match min_resource_wait with
  | Some w => w
  | None => 0
  end.

(** [farm_wait] *)
Definition farm_wait (_next_farm_time now : Q) : Q :=
  if Qlt_bool 0 _next_farm_time
  then let w := (_next_farm_time - now)%Q in
       if Qlt_bool w 0 then 0 else w
  else 0.

End CycleWaits.

(** * Further specification-side definitions *)

(** ** Priority selection *)

Module PrioritySpec.
(** A building of the priority list that asks for nothing more: it has no
    target, or its current level has reached it. *)
Definition satisfied (targets current_levels : gmap string Z) (b : string) : Prop :=
  forall t, targets !! b = Some t -> t <= default 0 (current_levels !! b).
End PrioritySpec.

(** ** The building cycle as seen from outside *)

Module CycleSpec.
Import Building.

(** The world after the upgrade links of [orders] were clicked, in order. *)
Definition after_orders {W : Type} (page : HQPage W) (orders : list string) (w : W) : W :=
  fold_left (fun w b => click_build page b w) orders w.

(** Every call but possibly the last one clicked an upgrade link. *)
Definition only_last_may_fail (calls : list (string * upgrade_outcome)) : Prop :=
  forall (i : nat) name outcome,
    calls !! i = Some (name, outcome) -> outcome <> Clicked -> S i = length calls.

(** What a loop state says about the run so far, from the world [w0] the
    cycle started in. *)
Definition describes {W : Type} (page : HQPage W) (village : Village) (w0 : W)
           (s : loop_state (W := W)) : Prop :=
  ls_state s = hq_state page (ls_world s)
  /\ ls_world s = after_orders page (submitted (ls_calls s)) w0
  /\ ordered (ls_result s) = negb (is_empty (submitted (ls_calls s)))
  /\ only_last_may_fail (ls_calls s)
  /\ (resource_wait (ls_result s) = 0%Q
      \/ exists cost,
           available (ls_state s) !! building_name (ls_result s) = Some cost
           /\ can_afford (resources village) cost = false
           /\ resource_wait (ls_result s)
              = _calculate_resource_wait (resources village) cost (production village)).

(** A village page on which two upgrades are already under way. *)
Definition busy_village : QueueSpec.village_page :=
  {| QueueSpec.vp_levels := ∅;
     QueueSpec.vp_queue := [mkQueueEntry "main" 2 (Some 1700000600%Q);
                            mkQueueEntry "wood" 1 (Some 1700000900%Q)];
     QueueSpec.vp_premium := true |}.
End CycleSpec.

(** ** Reading an allocation *)

Module AllocationSpec.
Import Scavenge.

(** An entry of a tier's troops as [send_scavenge] wants it: a positive
    count of a unit of the pool. *)
Definition sendable (pool : list (string * Z)) (e : string * Z) : Prop :=
  0 < e.2 /\ e.1 ∈ Dict.keys pool.

(** The carry of some troops as the allocator counts it, 25 for a unit
    the carry table does not list. *)
Definition carry25 (carries : gmap string Z) (troops : list (string * Z)) : Z :=
  fold_right (fun '(u, c) acc => c * carry_of carries u + acc) 0 troops.

(** The carry target of a tier: [total_carry * option_weights[tier] / weight_sum]. *)
Definition target_of (available : list (string * Z)) (option_weights : list (Z * Q))
           (unit_carries : option (gmap string Z)) (tier : Z) : Q :=
  (inject_Z (total_carry_of (default ∅ unit_carries) (pool_of available))
   * Dict.get_or option_weights tier (inject_Z 0)
   / py_sum Float.exact (Dict.values option_weights))%Q.

(** The carry capacities of all tiers of an allocation, added up. *)
Definition total_capacity (alloc : list (Z * list (string * Z)))
           (unit_carries : gmap string Z) : Z :=
  fold_right (fun '(_, troops) acc =>
                calculate_carry_capacity troops unit_carries + acc) 0 alloc.

(** The guards of [allocate_by_ratio] that make it return [{}]. *)
Definition guard_fails {F : Type} (fl : Float.ops F) (available : list (string * Z))
           (option_weights : list (Z * F)) (unit_carries : option (gmap string Z)) : Prop :=
  option_weights = []
  \/ Float.le0 fl (py_sum fl (Dict.values option_weights)) = true
  \/ pool_of available = []
  \/ total_carry_of (default ∅ unit_carries) (pool_of available) <= 0.

(** A mixed pool, with a unit the planner must leave alone. *)
Definition mixed : list (string * Z) :=
  [("spear"%string, 100); ("ram"%string, 7); ("light"%string, 10); ("axe"%string, 0)].
Definition mixed_carry : gmap string Z :=
  <["spear"%string := 25]> (<["light"%string := 80]> ∅).
Definition tiers_1_2_3 : list (Z * Q) := equal_runtime_weights Float.exact [1; 2; 3].
End AllocationSpec.

(** * Properties *)

(** ** Comparisons on rationals *)

Lemma Qlt_bool_true (x y : Q) : Qlt_bool x y = true <-> (x < y)%Q.
Proof.
  unfold Qlt_bool. rewrite negb_true_iff, <- not_true_iff_false, Qle_bool_iff.
  split; [apply Qnot_le_lt | apply Qlt_not_le].
Qed.

Lemma Qlt_bool_false (x y : Q) : Qlt_bool x y = false <-> (y <= x)%Q.
Proof.
  unfold Qlt_bool. rewrite negb_false_iff, Qle_bool_iff. reflexivity.
Qed.

Lemma Qlt_bool_cases (x y : Q) :
  (Qlt_bool x y = true /\ (x < y)%Q) \/ (Qlt_bool x y = false /\ (y <= x)%Q).
Proof.
  destruct (Qlt_bool x y) eqn:E.
  - left. split; [reflexivity | now apply Qlt_bool_true].
  - right. split; [reflexivity | now apply Qlt_bool_false].
Qed.

Lemma fold_left_pointwise {A B : Type} (f g : A -> B -> A) (l : list B) (a : A) :
  (forall acc x, f acc x = g acc x) -> fold_left f l a = fold_left g l a.
Proof.
  intros Hfg. revert a. induction l as [| x l IH]; intros a; cbn.
  - reflexivity.
  - rewrite Hfg. apply IH.
Qed.

(** ** Dictionary lemmas *)

Section DictFacts.
Context {K V : Type} `{EqDecision K}.
Implicit Types (d : list (K * V)) (k : K) (v : V).

Lemma get_set_eq d k v : Dict.get (Dict.set d k v) k = Some v.
Proof.
  induction d as [| [k' v'] d IH]; cbn.
  - destruct (decide (k = k)); congruence.
  - destruct (decide (k' = k)) as [-> | Hne]; cbn.
    + destruct (decide (k = k)); congruence.
    + destruct (decide (k' = k)); [contradiction | exact IH].
Qed.

Lemma get_set_ne d k k' v : k <> k' -> Dict.get (Dict.set d k v) k' = Dict.get d k'.
Proof.
  intros Hne. induction d as [| [k0 v0] d IH]; cbn.
  - destruct (decide (k = k')); [contradiction | reflexivity].
  - destruct (decide (k0 = k)) as [-> | Hne0]; cbn.
    + destruct (decide (k = k')); [contradiction | reflexivity].
    + destruct (decide (k0 = k')); [reflexivity | exact IH].
Qed.

Lemma get_None_keys d k : Dict.get d k = None <-> k ∉ Dict.keys d.
Proof.
  induction d as [| [k' v'] d IH]; cbn.
  - split; [intros _; apply not_elem_of_nil | reflexivity].
  - rewrite not_elem_of_cons. destruct (decide (k' = k)) as [-> | Hne].
    + split; [discriminate | intros [Hn _]; congruence].
    + rewrite IH. split; [intros Hn; split; [congruence | exact Hn] | tauto].
Qed.

Lemma get_Some_keys d k v : Dict.get d k = Some v -> k ∈ Dict.keys d.
Proof.
  intros Hg. destruct (decide (k ∈ Dict.keys d)) as [Hin | Hin]; [exact Hin |].
  apply get_None_keys in Hin. congruence.
Qed.

Lemma set_in d k v : k ∈ Dict.keys d -> Dict.keys (Dict.set d k v) = Dict.keys d.
Proof.
  induction d as [| [k' v'] d IH]; cbn; intros Hin.
  - apply elem_of_nil in Hin. destruct Hin.
  - destruct (decide (k' = k)) as [-> | Hne]; cbn; [reflexivity |].
    f_equal. apply IH. apply elem_of_cons in Hin as [-> | Hin]; [contradiction | assumption].
Qed.

Lemma set_notin d k v : k ∉ Dict.keys d -> Dict.set d k v = d ++ [(k, v)].
Proof.
  induction d as [| [k' v'] d IH]; cbn; intros Hin.
  - reflexivity.
  - apply not_elem_of_cons in Hin as [Hne Hin].
    destruct (decide (k' = k)) as [-> | _]; [contradiction |].
    f_equal. apply IH. exact Hin.
Qed.

Lemma keys_set_NoDup d k v : NoDup (Dict.keys d) -> NoDup (Dict.keys (Dict.set d k v)).
Proof.
  intros Hnd. destruct (decide (k ∈ Dict.keys d)) as [Hin | Hin].
  - rewrite set_in by exact Hin. exact Hnd.
  - rewrite set_notin by exact Hin. unfold Dict.keys. rewrite map_app. cbn.
    apply NoDup_app. repeat split.
    + exact Hnd.
    + intros x Hx Hx'. apply list_elem_of_singleton in Hx'. subst. contradiction.
    + apply NoDup_singleton.
Qed.

Lemma keys_set_elem d k k' v : k' ∈ Dict.keys (Dict.set d k v) <-> k' = k \/ k' ∈ Dict.keys d.
Proof.
  destruct (decide (k ∈ Dict.keys d)) as [Hin | Hin].
  - rewrite set_in by exact Hin. split; [tauto | intros [-> | H']; assumption].
  - rewrite set_notin by exact Hin. unfold Dict.keys. rewrite map_app. cbn.
    rewrite elem_of_app, list_elem_of_singleton. tauto.
Qed.

Lemma get_or_set_eq d k v dflt : Dict.get_or (Dict.set d k v) k dflt = v.
Proof. unfold Dict.get_or. rewrite get_set_eq. reflexivity. Qed.

Lemma get_or_set_ne d k k' v dflt :
  k <> k' -> Dict.get_or (Dict.set d k v) k' dflt = Dict.get_or d k' dflt.
Proof. intros Hne. unfold Dict.get_or. rewrite get_set_ne by exact Hne. reflexivity. Qed.
End DictFacts.

(** ** The stable descending sort *)

Section SortFacts.
Context {A : Type} (key : A -> Z).

Lemma insert_desc_perm (x : A) (l : list A) : insert_desc key x l ≡ₚ x :: l.
Proof.
  induction l as [| y l IH]; cbn.
  - reflexivity.
  - destruct (key y <=? key x); [reflexivity |].
    rewrite IH. apply perm_swap.
Qed.

Lemma sorted_desc_perm (l : list A) : sorted_desc key l ≡ₚ l.
Proof.
  induction l as [| x l IH]; cbn.
  - reflexivity.
  - rewrite insert_desc_perm, IH. reflexivity.
Qed.

Lemma insert_desc_descending (x : A) (l : list A) :
  descending key l -> descending key (insert_desc key x l).
Proof.
  induction l as [| y l IH]; cbn [insert_desc descending]; intros Hl.
  - split; [constructor | exact I].
  - destruct Hl as [Hy Hl]. destruct (Z.leb_spec (key y) (key x)) as [Hle | Hlt].
    + cbn [descending]. split; [| split; assumption].
      constructor; [exact Hle |].
      eapply Forall_impl; [exact Hy |]. intros z Hz. cbn beta in Hz. lia.
    + cbn [descending]. split; [| apply IH; exact Hl].
      rewrite (insert_desc_perm x l). constructor; [lia | exact Hy].
Qed.

Lemma sorted_desc_descending (l : list A) : descending key (sorted_desc key l).
Proof.
  induction l as [| x l IH]; cbn [sorted_desc]; [exact I |].
  apply insert_desc_descending. exact IH.
Qed.
End SortFacts.

(** A descending list of distinct numbers is determined by its elements. *)
Lemma descending_unique (l1 l2 : list Z) :
  descending (fun t => t) l1 -> descending (fun t => t) l2 -> l1 ≡ₚ l2 -> l1 = l2.
Proof.
  revert l2. induction l1 as [| x l1 IH]; intros l2 H1 H2 Hp.
  - symmetry. apply Permutation_nil_l in Hp. symmetry. exact Hp.
  - destruct l2 as [| y l2].
    { apply Permutation_nil_r in Hp. discriminate. }
    destruct H1 as [Hx H1]. destruct H2 as [Hy H2].
    assert (Hxy : x = y).
    { assert (Hx2 : x ∈ y :: l2) by (rewrite <- Hp; apply elem_of_cons; left; reflexivity).
      assert (Hy1 : y ∈ x :: l1) by (rewrite Hp; apply elem_of_cons; left; reflexivity).
      rewrite Forall_forall in Hx, Hy.
      apply elem_of_cons in Hx2 as [-> | Hx2]; [reflexivity |].
      apply elem_of_cons in Hy1 as [-> | Hy1]; [reflexivity |].
      specialize (Hx _ Hy1). specialize (Hy _ Hx2). cbn beta in *. lia. }
    subst y. f_equal. apply IH; [exact H1 | exact H2 |].
    eapply Permutation.Permutation_cons_inv. exact Hp.
Qed.

Lemma min_list_elem (x : Z) (xs : list Z) : min_list x xs ∈ x :: xs.
Proof.
  unfold min_list. revert x. induction xs as [| y xs IH]; intros x; cbn.
  - apply elem_of_cons. left. reflexivity.
  - specialize (IH (Z.min x y)). apply elem_of_cons in IH as [-> | IH].
    + destruct (Z.min_spec x y) as [[_ ->] | [_ ->]].
      * apply elem_of_cons. left. reflexivity.
      * apply elem_of_cons. right. apply elem_of_cons. left. reflexivity.
    + apply elem_of_cons. right. apply elem_of_cons. right. exact IH.
Qed.

Lemma fold_min_le (xs : list Z) (a : Z) :
  fold_left Z.min xs a <= a /\ forall y, y ∈ xs -> fold_left Z.min xs a <= y.
Proof.
  revert a. induction xs as [| z xs IH]; intros a; cbn.
  - split; [lia |]. intros y Hy. apply elem_of_nil in Hy. destruct Hy.
  - destruct (IH (Z.min a z)) as [Ha Hxs]. split; [lia |].
    intros y Hy. apply elem_of_cons in Hy as [-> | Hy]; [lia | apply Hxs; exact Hy].
Qed.

Lemma min_list_le (x : Z) (xs : list Z) (y : Z) : y ∈ x :: xs -> min_list x xs <= y.
Proof.
  unfold min_list. intros Hy. destruct (fold_min_le xs x) as [Hx Hxs].
  apply elem_of_cons in Hy as [-> | Hy]; [exact Hx | apply Hxs; exact Hy].
Qed.

(** ** The log ring *)

Section LogRing.
Import PanelState.

Lemma last_slice_length {A : Type} (n : nat) (l : list A) :
  length (last_slice n l) = Nat.min n (length l).
Proof. unfold last_slice. rewrite length_drop. lia. Qed.

Lemma last_slice_short {A : Type} (n : nat) (l : list A) :
  (length l <= n)%nat -> last_slice n l = l.
Proof.
  intros Hlen. unfold last_slice.
  replace (length l - n)%nat with 0%nat by lia. reflexivity.
Qed.

(** Trimming before more entries arrive loses nothing that a later trim
    would keep. *)
Lemma last_slice_app {A : Type} (n : nat) (l r : list A) :
  last_slice n (last_slice n l ++ r) = last_slice n (l ++ r).
Proof.
  destruct (Nat.le_gt_cases (length l) n) as [Hle | Hgt].
  - rewrite (last_slice_short n l) by exact Hle. reflexivity.
  - unfold last_slice.
    rewrite !length_app, length_drop.
    set (k := (length l - n)%nat).
    replace (length l - k + length r - n)%nat with (length r) by lia.
    replace (length l + length r - n)%nat with (k + length r)%nat by lia.
    rewrite <- drop_drop. f_equal.
    rewrite drop_app_le by lia. reflexivity.
Qed.

Lemma add_log_logs now msg lvl (s : PanelStateStore) :
  logs (snd (add_log now msg lvl s))
  = last_slice 200 (logs s ++ [entry_of (now, msg, lvl)]).
Proof.
  unfold add_log. cbn [snd logs entry_of].
  destruct (Nat.ltb_spec 200 (length (logs s ++ [mkLogEntry now msg lvl]))) as [H | H].
  - reflexivity.
  - symmetry. apply last_slice_short. exact H.
Qed.

Lemma add_logs_from (calls : list (Q * string * string)) (s : PanelStateStore) :
  (length (logs s) <= 200)%nat ->
  logs (add_logs calls s) = last_slice 200 (logs s ++ map entry_of calls).
Proof.
  revert s. induction calls as [| [[now msg] lvl] calls IH]; intros s Hs.
  - cbn. rewrite app_nil_r. symmetry. apply last_slice_short. exact Hs.
  - change (add_logs (((now, msg), lvl) :: calls) s)
      with (add_logs calls (snd (add_log now msg lvl s))).
    rewrite IH.
    + rewrite add_log_logs, last_slice_app, <- app_assoc. reflexivity.
    + rewrite add_log_logs, last_slice_length. lia.
Qed.
End LogRing.

(** C9.  After any sequence of [add_log] insertions into a fresh
    [PanelStateStore] the log list has at most 200 entries, and it is
    exactly the 200 most recent insertions (all of them when fewer were
    made), in insertion order: older entries are the ones dropped. *)
Theorem log_ring_keeps_200_most_recent (calls : list (Q * string * string)) :
  (length (PanelState.logs (PanelState.add_logs calls PanelState.init)) <= 200)%nat
  /\ PanelState.logs (PanelState.add_logs calls PanelState.init)
     = drop (length calls - 200)%nat (map PanelState.entry_of calls).
Proof.
  rewrite (add_logs_from calls PanelState.init) by (cbn; lia).
  cbn [PanelState.logs PanelState.init app].
  split.
  - rewrite last_slice_length. lia.
  - unfold PanelState.last_slice. rewrite length_map. reflexivity.
Qed.

(** ** Sequential building selection *)

Section Sequential.
Import Building SequentialSpec.

Lemma build_queue_count_fold (q : list string) (acc : gmap string Z) (b : string) :
  default 0 (fold_left (fun qc b' => <[b' := default 0 (qc !! b') + 1]> qc) q acc !! b)
  = default 0 (acc !! b) + queued_of q b.
Proof.
  unfold queued_of. revert acc.
  induction q as [| b' q IH]; intros acc; cbn [fold_left count_occ].
  - lia.
  - rewrite IH. destruct (String.string_dec b' b) as [-> | Hne].
    + rewrite lookup_insert_eq. cbn. lia.
    + rewrite lookup_insert_ne by exact Hne. lia.
Qed.

Lemma build_queue_count (q : list string) (b : string) :
  default 0 (count_queued q !! b) = queued_of q b.
Proof.
  unfold count_queued. rewrite build_queue_count_fold, lookup_empty. reflexivity.
Qed.

Lemma queued_of_nonneg q b : 0 <= queued_of q b.
Proof. unfold queued_of. lia. Qed.

(** What [walk_steps] returns, for any table of queued counts. *)
Lemma walk_steps_spec (cl qc : gmap string Z) (steps : list BuildStep) :
  let eff s := default 0 (cl !! building s) + default 0 (qc !! building s) in
  match walk_steps cl qc steps with
  | Some (b, c, t) =>
      exists pre s post,
        steps = pre ++ s :: post
        /\ b = building s /\ c = default 0 (cl !! building s) /\ t = level s
        /\ eff s < level s
        /\ Forall (fun s' => level s' <= eff s') pre
  | None => Forall (fun s' => level s' <= eff s') steps
  end.
Proof.
  intros eff. induction steps as [| step rest IH]; cbn [walk_steps].
  - constructor.
  - destruct (Z.ltb_spec (default 0 (cl !! building step)
                          + default 0 (qc !! building step)) (level step)) as [Hlt | Hge].
    + exists [], step, rest. repeat split; auto.
    + destruct (walk_steps cl qc rest) as [[[b c] t] |].
      * destruct IH as (pre & s & post & -> & Hb & Hc & Ht & Hs & Hpre).
        exists (step :: pre), s, post. repeat split; auto.
      * constructor; auto.
Qed.
End Sequential.

(** C2.  In sequential mode the candidate is the first step, in list order,
    whose effective level (current level plus the number of occurrences of
    the building in the observed queue) is strictly below the step's
    target: the selected step has [current + queued < target], hence
    [current < target], every earlier step has [current + queued >= target],
    and nothing is selected exactly when every step is satisfied.  With
    steps [(main,3); (wood,1); (stone,1)], levels [{main: 1}] and queue
    [main; main], the pick is [wood]. *)
Theorem sequential_pick_is_first_unsatisfied :
  (forall (self : Building.BuildingManager) (current_levels : gmap string Z)
          (queue_buildings : list string),
      let current s := default 0 (current_levels !! Building.building s) in
      let queued s := SequentialSpec.queued_of queue_buildings (Building.building s) in
      match Building._pick_next_building_sequential self current_levels queue_buildings with
      | Some (b, c, t) =>
          exists pre s post,
            Building.build_steps self = pre ++ s :: post
            /\ (b, c, t) = (Building.building s, current s, Building.level s)
            /\ current s + queued s < Building.level s
            /\ current s < Building.level s
            /\ Forall (fun s' => Building.level s' <= current s' + queued s') pre
      | None =>
          Forall (fun s' => Building.level s' <= current s' + queued s')
                 (Building.build_steps self)
      end)
  /\ Building._pick_next_building SequentialSpec.scenario_manager
       (<["main"%string := 1]> ∅) ["main"; "main"]%string
     = Some ("wood"%string, 0, 1).
Proof.
  split.
  - intros self cl q current queued.
    unfold Building._pick_next_building_sequential.
    pose proof (walk_steps_spec cl (Building.count_queued q) (Building.build_steps self)) as H.
    cbn zeta in H.
    destruct (Building.walk_steps cl (Building.count_queued q) (Building.build_steps self))
      as [[[b c] t] |].
    + destruct H as (pre & s & post & Hsteps & -> & -> & -> & Hs & Hpre).
      exists pre, s, post. subst current queued. cbn beta.
      rewrite build_queue_count in Hs.
      pose proof (queued_of_nonneg q (Building.building s)).
      repeat split; auto; try lia.
      eapply Forall_impl; [exact Hpre |].
      intros s' Hs'. cbn beta in Hs'. rewrite build_queue_count in Hs'. exact Hs'.
    + subst current queued. cbn beta.
      eapply Forall_impl; [exact H |].
      intros s' Hs'. cbn beta in Hs'. rewrite build_queue_count in Hs'. exact Hs'.
  - vm_compute. reflexivity.
Qed.

(** ** Resource wait *)

Section ResourceWait.
Import Building ResourceWaitSpec.
Variables current cost production : Resources.

Local Abbreviation tw := (type_wait current cost production).
Local Abbreviation fold_max := (ResourceWaitSpec.fold_max current cost production).

Lemma type_wait_nonneg t :
  needed_unproduced current cost production t = false -> (0 <= tw t)%Q.
Proof.
  unfold needed_unproduced, tw, type_wait. intros H.
  assert (Hd : 0 <= deficit current cost t) by (unfold deficit; lia).
  destruct (Z.ltb_spec 0 (deficit current cost t)) as [Hpos | Hz].
  - cbn in H. apply Z.leb_gt in H.
    apply Qle_shift_div_l.
    + apply Qlt_shift_div_l; [reflexivity |].
      rewrite Qmult_0_l. rewrite <- (Zlt_Qlt 0). exact H.
    + rewrite Qmult_0_l. rewrite <- (Zle_Qle 0). exact Hd.
  - replace (deficit current cost t) with 0 by lia.
    unfold Qdiv. rewrite Qmult_0_l. apply Qle_refl.
Qed.

Lemma fold_max_proper todo (a b : Q) : (a == b)%Q -> (fold_max todo a == fold_max todo b)%Q.
Proof.
  revert a b. induction todo as [| t todo IH]; intros a b Hab; cbn.
  - exact Hab.
  - apply IH. rewrite Hab. reflexivity.
Qed.

Lemma fold_max_ge todo (m : Q) : (m <= fold_max todo m)%Q.
Proof.
  revert m. induction todo as [| t todo IH]; intros m; cbn.
  - apply Qle_refl.
  - eapply Qle_trans; [apply (Q.le_max_l m (tw t)) | apply IH].
Qed.

Lemma wait_loop_formula (todo : list res_type) (m : Q) :
  (0 <= m)%Q ->
  (wait_loop current cost production todo m
   == if existsb (needed_unproduced current cost production) todo
      then 3600 else Qmin (fold_max todo m) 3600)%Q.
Proof.
  revert m. induction todo as [| t todo IH]; intros m Hm.
  - cbn. unfold py_min.
    destruct (Qlt_bool_cases 3600 m) as [[-> H] | [-> H]].
    + symmetry. apply Q.min_r. lra.
    + symmetry. apply Q.min_l. exact H.
  - cbn [wait_loop existsb]. unfold needed_unproduced at 1, deficit at 1.
    destruct (Z.leb_spec (getattr cost t - getattr current t) 0) as [Hd | Hd].
    + replace (0 <? Z.max 0 (getattr cost t - getattr current t)) with false
        by (symmetry; apply Z.ltb_ge; lia).
      cbn [andb orb]. rewrite (IH m Hm).
      destruct (existsb _ todo); [reflexivity |].
      apply Q.min_compat; [| reflexivity].
      cbn. apply fold_max_proper. symmetry. apply Q.max_l.
      unfold tw, type_wait, deficit.
      replace (Z.max 0 (getattr cost t - getattr current t)) with 0 by lia.
      unfold Qdiv. rewrite Qmult_0_l. exact Hm.
    + replace (0 <? Z.max 0 (getattr cost t - getattr current t)) with true
        by (symmetry; apply Z.ltb_lt; lia).
      cbn [andb].
      destruct (Z.leb_spec (getattr production t) 0) as [Hr | Hr];
        cbn [orb]; [reflexivity |].
      assert (Hw : (inject_Z (getattr cost t - getattr current t)
                    / (inject_Z (getattr production t) / 3600) == tw t)%Q).
      { unfold tw, type_wait, deficit.
        replace (Z.max 0 (getattr cost t - getattr current t))
          with (getattr cost t - getattr current t) by lia. reflexivity. }
      assert (Hpos : (0 <= tw t)%Q).
      { apply type_wait_nonneg. unfold needed_unproduced.
        replace (getattr production t <=? 0) with false
          by (symmetry; apply Z.leb_gt; lia).
        apply andb_false_r. }
      set (wait := (inject_Z (getattr cost t - getattr current t)
                    / (inject_Z (getattr production t) / 3600))%Q) in *.
      destruct (Qlt_bool_cases m wait) as [[-> H] | [-> H]].
      * rewrite IH by (rewrite Hw; exact Hpos).
        destruct (existsb _ todo); [reflexivity |].
        apply Q.min_compat; [| reflexivity].
        cbn. apply fold_max_proper. rewrite <- Hw. symmetry. apply Q.max_r. lra.
      * rewrite (IH m Hm).
        destruct (existsb _ todo); [reflexivity |].
        apply Q.min_compat; [| reflexivity].
        cbn. apply fold_max_proper. rewrite <- Hw. symmetry. apply Q.max_l. exact H.
Qed.

Lemma calculate_resource_wait_formula :
  (_calculate_resource_wait current cost production
   == resource_wait_formula current cost production)%Q.
Proof.
  unfold _calculate_resource_wait, resource_wait_formula.
  rewrite wait_loop_formula by apply Qle_refl.
  destruct (existsb _ res_types) eqn:E; [reflexivity |].
  apply Q.min_compat; [| reflexivity].
  cbn. fold tw.
  apply Q.max_compat; [| reflexivity].
  apply Q.max_compat; [| reflexivity].
  apply Q.max_r. apply type_wait_nonneg.
  cbn in E. destruct (needed_unproduced current cost production Wood); [discriminate | reflexivity].
Qed.

Lemma wait_loop_bounds (todo : list res_type) (m : Q) :
  (0 <= m)%Q ->
  (0 <= wait_loop current cost production todo m <= 3600)%Q.
Proof.
  intros Hm. rewrite (wait_loop_formula todo m Hm).
  destruct (existsb _ todo); [split; discriminate |].
  split.
  - apply Q.min_glb; [| discriminate].
    eapply Qle_trans; [exact Hm | apply fold_max_ge].
  - apply Q.le_min_r.
Qed.

Lemma wait_loop_zero (todo : list res_type) :
  forallb (fun t => getattr cost t <=? getattr current t) todo = true ->
  wait_loop current cost production todo 0 = py_min 0 3600.
Proof.
  induction todo as [| t todo IH]; cbn [forallb wait_loop]; intros H.
  - reflexivity.
  - apply andb_true_iff in H as [Ht H]. apply Z.leb_le in Ht.
    replace (getattr cost t - getattr current t <=? 0) with true
      by (symmetry; apply Z.leb_le; lia).
    apply IH. exact H.
Qed.

Lemma wait_loop_positive (todo : list res_type) (m : Q) :
  (0 <= m)%Q ->
  (forallb (fun t => getattr cost t <=? getattr current t) todo = false
   \/ 0 < m)%Q ->
  (0 < wait_loop current cost production todo m)%Q.
Proof.
  revert m. induction todo as [| t todo IH]; intros m Hm Hcase.
  - destruct Hcase as [H | H]; [discriminate |].
    cbn. unfold py_min.
    destruct (Qlt_bool_cases 3600 m) as [[-> _] | [-> _]]; [reflexivity | exact H].
  - cbn [wait_loop].
    destruct (Z.leb_spec (getattr cost t - getattr current t) 0) as [Hd | Hd].
    + apply IH; [exact Hm |].
      destruct Hcase as [H | H]; [left | right; exact H].
      cbn [forallb] in H.
      replace (getattr cost t <=? getattr current t) with true in H
        by (symmetry; apply Z.leb_le; lia).
      exact H.
    + destruct (Z.leb_spec (getattr production t) 0) as [Hr | Hr]; [reflexivity |].
      set (wait := (inject_Z (getattr cost t - getattr current t)
                    / (inject_Z (getattr production t) / 3600))%Q).
      assert (Hwait : (0 < wait)%Q).
      { unfold wait. apply Qlt_shift_div_l.
        - apply Qlt_shift_div_l; [reflexivity |].
          rewrite Qmult_0_l. rewrite <- (Zlt_Qlt 0). exact Hr.
        - rewrite Qmult_0_l. rewrite <- (Zlt_Qlt 0). exact Hd. }
      destruct (Qlt_bool_cases m wait) as [[-> H] | [-> H]].
      * apply IH; [lra | right; exact Hwait].
      * apply IH; [exact Hm | right; lra].
Qed.
End ResourceWait.

(** C5.  For all current resources, costs and hourly production rates, the
    computed wait equals the formula of the specification (maximum over the
    resource types of [deficit / (production_per_hour / 3600)] with
    [deficit = max(0, cost - have)], capped at 3600 s, and 3600 s when a
    needed resource is not produced); it lies in [[0, 3600]]; it is [0] when
    the cost is affordable (and positive otherwise).  With nothing of wood,
    500 stone and iron, a cost of 100 each and 360 per hour each, the wait is
    1000 s; with no wood production it is 3600 s. *)
Theorem resource_wait_is_capped_max_of_deficits :
  (forall current cost production : Building.Resources,
      (Building._calculate_resource_wait current cost production
       == ResourceWaitSpec.resource_wait_formula current cost production)%Q
      /\ (0 <= Building._calculate_resource_wait current cost production <= 3600)%Q
      /\ (if Building.can_afford current cost
          then (Building._calculate_resource_wait current cost production == 0)%Q
          else (0 < Building._calculate_resource_wait current cost production)%Q))
  /\ (Building._calculate_resource_wait
        (Building.mkResources 0 500 500) (Building.mkResources 100 100 100)
        (Building.mkResources 360 360 360) == 1000)%Q
  /\ (Building._calculate_resource_wait
        (Building.mkResources 0 500 500) (Building.mkResources 100 100 100)
        (Building.mkResources 0 360 360) == 3600)%Q.
Proof.
  split; [| split; reflexivity].
  intros current cost production. split; [| split].
  - apply calculate_resource_wait_formula.
  - apply wait_loop_bounds. apply Qle_refl.
  - unfold Building._calculate_resource_wait.
    destruct (Building.can_afford current cost) eqn:E.
    + rewrite wait_loop_zero; [reflexivity |].
      unfold Building.can_afford in E. cbn. rewrite andb_true_r.
      rewrite andb_assoc. exact E.
    + apply wait_loop_positive; [apply Qle_refl | left].
      unfold Building.can_afford in E. cbn. rewrite andb_true_r.
      rewrite andb_assoc. exact E.
Qed.

(** ** Wake-up computation *)

Section WakeUp.
Import Orchestrator WakeUpSpec.

Lemma wait_events_filter (s b r f : Q) :
  wait_events s b r f
  = List.filter (fun e => Qlt_bool 30 (snd e)) (candidates s b r f).
Proof.
  unfold wait_events, candidates. cbn [List.filter snd].
  destruct (Qlt_bool 30 s), (Qlt_bool 30 b), (Qlt_bool 30 r), (Qlt_bool 30 f);
    reflexivity.
Qed.

Lemma min_event_spec (es : list (string * Q)) (e : string * Q) :
  In (min_event e es) (e :: es)
  /\ forall x, In x (e :: es) -> (snd (min_event e es) <= snd x)%Q.
Proof.
  unfold min_event. revert e.
  induction es as [| y es IH]; intros e; cbn [fold_left].
  - split; [left; reflexivity |].
    intros x [<- | []]. apply Qle_refl.
  - destruct (Qlt_bool_cases (snd y) (snd e)) as [[-> H] | [-> H]].
    + destruct (IH y) as [Hin Hmin]. split.
      * right. exact Hin.
      * intros x [<- | Hx]; [| apply Hmin; exact Hx].
        eapply Qle_trans; [apply Hmin; left; reflexivity | lra].
    + destruct (IH e) as [Hin Hmin]. split.
      * destruct Hin as [<- | Hin]; [left; reflexivity | right; right; exact Hin].
      * intros x [<- | [<- | Hx]].
        -- apply Hmin. left. reflexivity.
        -- eapply Qle_trans; [apply Hmin; left; reflexivity | exact H].
        -- apply Hmin. right. exact Hx.
Qed.

Lemma random_cycle_delay_range (low high : Z) (u : Q) :
  (0 <= u <= 1)%Q -> low <= high ->
  (inject_Z low <= random_cycle_delay (low, high) u <= inject_Z high)%Q.
Proof.
  intros [Hu0 Hu1] Hlh. unfold random_cycle_delay.
  rewrite Zle_Qle in Hlh.
  set (l := inject_Z low) in *. set (h := inject_Z high) in *.
  assert (H0 : (0 <= (h - l) * u)%Q) by (apply Qmult_le_0_compat; lra).
  assert (H1 : ((h - l) * u <= (h - l) * 1)%Q).
  { rewrite !(Qmult_comm (h - l)). apply Qmult_le_compat_r; lra. }
  split; lra.
Qed.
End WakeUp.

(** C1.  Given the four candidate waits and a draw [u] of the random
    source, candidates of at most 30 s are discarded.  If one remains, the
    chosen event is a remaining candidate whose wait is minimal among the
    remaining ones, and the delay is that wait plus a jitter
    [cycle_delay(10, 30)], which lies in [[10, 30]]; if none exceeds 30 s
    the delay is [cycle_delay(active_delay)].  With waits 600, 1200, 300
    and 50 the event is farming and the delay lies in [[60, 80]]. *)
Theorem wake_up_is_earliest_event_plus_jitter
  (active_delay : Z * Z) (scavenge_wait build_queue_wait resource_wait farm_wait u : Q)
  (Hu : (0 <= u <= 1)%Q) :
  let w := Orchestrator.compute_wake_up active_delay
             scavenge_wait build_queue_wait resource_wait farm_wait u in
  let cands := WakeUpSpec.candidates
                 scavenge_wait build_queue_wait resource_wait farm_wait in
  let jitter := Orchestrator.random_cycle_delay (10, 30) u in
  match Orchestrator.earliest_name w with
  | Some name =>
      In (name, Orchestrator.earliest_wait w) cands
      /\ (30 < Orchestrator.earliest_wait w)%Q
      /\ (forall e, In e cands -> (30 < snd e)%Q ->
                    (Orchestrator.earliest_wait w <= snd e)%Q)
      /\ Orchestrator.delay w = (Orchestrator.earliest_wait w + jitter)%Q
  | None =>
      (forall e, In e cands -> (snd e <= 30)%Q)
      /\ Orchestrator.delay w = Orchestrator.random_cycle_delay active_delay u
  end
  /\ (10 <= jitter <= 30)%Q
  /\ (let w5 := Orchestrator.compute_wake_up active_delay 600 1200 300 50 u in
      Orchestrator.earliest_name w5 = Some "farming"%string
      /\ (60 <= Orchestrator.delay w5 <= 80)%Q).
Proof.
  intros w cands jitter.
  assert (Hj : (10 <= jitter <= 30)%Q).
  { apply (random_cycle_delay_range 10 30 u Hu). lia. }
  split; [| split; [exact Hj |]].
  - subst w. unfold Orchestrator.compute_wake_up.
    rewrite wait_events_filter. fold cands.
    destruct (List.filter (fun e => Qlt_bool 30 (snd e)) cands) as [| e es] eqn:E.
    + cbn. split; [| reflexivity].
      intros x Hx. apply Qlt_bool_false.
      destruct (Qlt_bool 30 (snd x)) eqn:Ex; [| reflexivity].
      assert (Hin : In x (List.filter (fun e => Qlt_bool 30 (snd e)) cands)).
      { apply filter_In. split; assumption. }
      rewrite E in Hin. destruct Hin.
    + destruct (min_event_spec es e) as [Hin Hmin].
      destruct (Orchestrator.min_event e es) as [name wait] eqn:Em.
      cbn [Orchestrator.earliest_name Orchestrator.earliest_wait Orchestrator.delay].
      rewrite <- E in Hin. apply filter_In in Hin as [Hin Hgt].
      cbn [snd] in Hgt. apply Qlt_bool_true in Hgt.
      repeat split; auto.
      intros x Hx Hx30. apply (Hmin x). rewrite <- E. apply filter_In.
      split; [exact Hx | apply Qlt_bool_true; exact Hx30].
  - cbn zeta.
    change (Orchestrator.compute_wake_up active_delay 600 1200 300 50 u)
      with (Orchestrator.mkWake (Some "farming"%string) 50 (50 + jitter)%Q).
    cbn [Orchestrator.earliest_name Orchestrator.delay].
    split; [reflexivity | lra].
Qed.

Lemma wake_up_is_earliest_event_plus_jitter_witness :
  (0 <= 1 # 2 <= 1)%Q
  /\ (60 <= Orchestrator.delay
              (Orchestrator.compute_wake_up (120%Z, 300%Z) 600 1200 300 50 (1 # 2)) <= 80)%Q.
Proof.
  assert (Hu : (0 <= 1 # 2 <= 1)%Q) by (split; discriminate).
  split; [exact Hu |].
  exact (proj2 (proj2 (proj2
           (wake_up_is_earliest_event_plus_jitter (120, 300) 600 1200 300 50 (1 # 2) Hu)))).
Defined.

(** ** Protection alert throttling *)

Section Throttle.
Import Protection ThrottleSpec.

Lemma on_detection_cases (d : detection) (self : BotProtectionMonitor) :
  let cooldown := inject_Z (alert_cooldown self) in
  ((d_now d - last_alert_time self < cooldown)%Q
   /\ on_detection d self
      = (mkMonitor (bot_token self) (chat_id self) (alert_cooldown self) true
                   (last_alert_time self), []))
  \/ ((cooldown <= d_now d - last_alert_time self)%Q
      /\ on_detection d self
         = (mkMonitor (bot_token self) (chat_id self) (alert_cooldown self) true
                      (d_now d), [detection_message d])).
Proof.
  cbn zeta. unfold on_detection.
  destruct (Qlt_bool_cases (d_now d - last_alert_time self)
                           (inject_Z (alert_cooldown self))) as [[-> H] | [-> H]];
    [left | right]; split; auto.
Qed.

Lemma detections_spaced (ds : list detection) (self : BotProtectionMonitor) :
  spaced (inject_Z (alert_cooldown self)) (last_alert_time self)
         (snd (detections ds self)).
Proof.
  revert self. induction ds as [| d ds IH]; intros self; cbn [detections].
  - exact I.
  - destruct (on_detection_cases d self) as [[Hlt ->] | [Hge ->]].
    + specialize (IH (mkMonitor (bot_token self) (chat_id self)
                                (alert_cooldown self) true (last_alert_time self))).
      destruct (detections ds _) as [final times]. exact IH.
    + specialize (IH (mkMonitor (bot_token self) (chat_id self)
                                (alert_cooldown self) true (d_now d))).
      destruct (detections ds _) as [final times].
      cbn [snd spaced] in *. split; [exact Hge | exact IH].
Qed.

Lemma spaced_all (cooldown last : Q) (times : list Q) :
  (0 <= cooldown)%Q -> spaced cooldown last times ->
  Forall (fun t => (cooldown <= t - last)%Q) times.
Proof.
  intros Hc. revert last. induction times as [| t times IH]; intros last H.
  - constructor.
  - destruct H as [Ht Hrest]. constructor; [exact Ht |].
    eapply Forall_impl; [apply (IH t Hrest) |].
    intros x Hx. cbn beta in Hx. lra.
Qed.

Lemma spaced_pairs (cooldown last : Q) (times : list Q) :
  (0 <= cooldown)%Q -> spaced cooldown last times ->
  forall (i j : nat) (a b : Q),
    (i < j)%nat -> times !! i = Some a -> times !! j = Some b ->
    (cooldown <= b - a)%Q.
Proof.
  intros Hc. revert last. induction times as [| t times IH]; intros last H i j a b Hij Ha Hb.
  - rewrite lookup_nil in Ha. discriminate.
  - destruct H as [Ht Hrest].
    destruct j as [| j]; [lia |]. cbn in Hb.
    destruct i as [| i].
    + cbn in Ha. injection Ha as <-.
      pose proof (spaced_all cooldown t times Hc Hrest) as Hall.
      rewrite Forall_lookup in Hall. exact (Hall j b Hb).
    + cbn in Ha. apply (IH t Hrest i j a b); [lia | exact Ha | exact Hb].
Qed.
End Throttle.

(** C8.  Every call to [on_detection] sets [detected]; it hands exactly one
    alert to the Telegram sender if at least [alert_cooldown] seconds
    separate the call from the last alert sent, and none otherwise; the
    time of the last alert moves only when an alert is sent.  Hence, for a
    cooldown that is not negative, in any history of calls two alerts are
    never less than [alert_cooldown] seconds apart. *)
Theorem detection_alerts_are_throttled (self : Protection.BotProtectionMonitor) :
  (forall d : Protection.detection,
      let self' := fst (Protection.on_detection d self) in
      let sent := snd (Protection.on_detection d self) in
      let elapsed := (Protection.d_now d - Protection.last_alert_time self)%Q in
      let cooldown := inject_Z (Protection.alert_cooldown self) in
      Protection.detected self' = true
      /\ Protection.alert_cooldown self' = Protection.alert_cooldown self
      /\ (sent = [Protection.detection_message d] <-> (cooldown <= elapsed)%Q)
      /\ (sent = [] <-> (elapsed < cooldown)%Q)
      /\ Protection.last_alert_time self'
         = (if is_empty sent then Protection.last_alert_time self
            else Protection.d_now d))
  /\ (0 <= Protection.alert_cooldown self ->
      forall (ds : list Protection.detection) (i j : nat) (a b : Q),
        let times := snd (Protection.detections ds self) in
        (i < j)%nat -> times !! i = Some a -> times !! j = Some b ->
        (inject_Z (Protection.alert_cooldown self) <= b - a)%Q).
Proof.
  split.
  - intros d. cbn zeta.
    destruct (on_detection_cases d self) as [[H ->] | [H ->]]; cbn [fst snd];
      cbn [Protection.detected Protection.alert_cooldown Protection.last_alert_time
           is_empty].
    + repeat split; auto; try discriminate. intros H'. lra.
    + repeat split; auto; try discriminate. intros H'. lra.
  - intros Hc ds i j a b times Hij Ha Hb.
    apply (spaced_pairs (inject_Z (Protection.alert_cooldown self))
             (Protection.last_alert_time self) times) with (i := i) (j := j); auto.
    + rewrite <- (Zle_Qle 0). exact Hc.
    + apply detections_spaced.
Qed.

Lemma detection_alerts_are_throttled_witness :
  0 <= Protection.alert_cooldown ThrottleSpec.sample_monitor
  /\ snd (Protection.detections
            [ThrottleSpec.sample_call 1000; ThrottleSpec.sample_call 1100; ThrottleSpec.sample_call 1300; ThrottleSpec.sample_call 1700]
            ThrottleSpec.sample_monitor)
     = [1000%Q; 1300%Q; 1700%Q]
  /\ (inject_Z 300 <= 1700 - 1000)%Q.
Proof.
  assert (Hc : 0 <= Protection.alert_cooldown ThrottleSpec.sample_monitor) by (cbn; lia).
  split; [exact Hc |]. split; [reflexivity |].
  exact (proj2 (detection_alerts_are_throttled ThrottleSpec.sample_monitor) Hc
           [ThrottleSpec.sample_call 1000; ThrottleSpec.sample_call 1100; ThrottleSpec.sample_call 1300; ThrottleSpec.sample_call 1700]
           0%nat 2%nat 1000%Q 1700%Q ltac:(lia) eq_refl eq_refl).
Defined.

(** ** Targets-mode recruitment *)

Section Recruit.
Import Troops RecruitSpec.

Lemma train_queue_count_fold (q : list TrainQueue) (acc : gmap string Z) (u : string) :
  default 0 (fold_left (fun a e => <[unit e := default 0 (a !! unit e) + count e]> a) q acc !! u)
  = default 0 (acc !! u) + queued_units q u.
Proof.
  revert acc. induction q as [| e q IH]; intros acc; cbn [fold_left queued_units fold_right].
  - lia.
  - rewrite IH. fold (queued_units q u).
    destruct (decide (unit e = u)) as [<- | Hne].
    + rewrite lookup_insert_eq. cbn. lia.
    + rewrite lookup_insert_ne by exact Hne. lia.
Qed.

Lemma train_queue_count (q : list TrainQueue) (u : string) :
  default 0 (Troops.count_queued q !! u) = queued_units q u.
Proof. unfold Troops.count_queued. rewrite train_queue_count_fold, lookup_empty. reflexivity. Qed.

(** The shape shared by the two loops that fill [needs]. *)
Lemma needs_fold (f : string -> option Z) (units : list string)
      (acc : list (string * Z)) (u : string) :
  NoDup units ->
  Dict.get
    (fold_left (fun needs unit_name =>
                  match f unit_name with
                  | Some b => Dict.set needs unit_name b
                  | None => needs
                  end) units acc) u
  = if bool_decide (u ∈ units) then
      match f u with Some b => Some b | None => Dict.get acc u end
    else Dict.get acc u.
Proof.
  intros Hnd. revert acc.
  induction units as [| x units IH]; intros acc; cbn [fold_left].
  - rewrite bool_decide_eq_false_2 by apply not_elem_of_nil. reflexivity.
  - apply NoDup_cons in Hnd as [Hx Hnd'].
    rewrite (IH Hnd'). destruct (decide (x = u)) as [-> | Hne].
    + rewrite (bool_decide_eq_false_2 (u ∈ units)) by exact Hx.
      rewrite bool_decide_eq_true_2 by (apply elem_of_cons; left; reflexivity).
      destruct (f u); [apply get_set_eq | reflexivity].
    + destruct (bool_decide (u ∈ units)) eqn:E.
      * rewrite bool_decide_eq_true_2
          by (apply elem_of_cons; right; apply bool_decide_eq_true in E; exact E).
        destruct (f u); [reflexivity |].
        destruct (f x); [apply get_set_ne; exact Hne | reflexivity].
      * rewrite bool_decide_eq_false_2.
        2: { apply bool_decide_eq_false in E. apply not_elem_of_cons. split; congruence. }
        destruct (f x); [apply get_set_ne; exact Hne | reflexivity].
Qed.

(** The barracks path follows the specification: the queue is counted. *)
Lemma barracks_needs_spec (config : TroopsConfig) (page : BarracksPage) (u : string) :
  u ∈ BARRACKS_UNITS -> 0 < default 0 (targets config !! u) ->
  Dict.get (_get_barracks_needs config page) u
  = batch 50 (deficit (default 0 (targets config !! u))
                      (troops_get (barracks_troops page) u)
                      (queued_units (barracks_queue page) u)).
Proof.
  intros Hu Ht. unfold _get_barracks_needs.
  set (f := fun unit_name : string =>
              if default 0 (targets config !! unit_name) <=? 0 then None
              else if 0 <? default 0 (targets config !! unit_name)
                           - (troops_get (barracks_troops page) unit_name
                              + default 0 (Troops.count_queued (barracks_queue page) !! unit_name))
                   then Some (Z.min (default 0 (targets config !! unit_name)
                                     - (troops_get (barracks_troops page) unit_name
                                        + default 0 (Troops.count_queued (barracks_queue page) !! unit_name))) 50)
                   else None).
  transitivity (Dict.get
    (fold_left (fun needs unit_name =>
                  match f unit_name with
                  | Some b => Dict.set needs unit_name b
                  | None => needs
                  end) BARRACKS_UNITS []) u).
  { f_equal. apply fold_left_pointwise. intros needs x. unfold f.
    destruct (_ <=? 0); [reflexivity |]. destruct (0 <? _); reflexivity. }
  rewrite needs_fold.
  2: { apply (bool_decide_unpack (NoDup BARRACKS_UNITS)). vm_compute. exact I. }
  rewrite bool_decide_eq_true_2 by exact Hu.
  unfold f, batch, deficit. rewrite train_queue_count.
  replace (default 0 (targets config !! u) <=? 0) with false
    by (symmetry; apply Z.leb_gt; exact Ht).
  replace (default 0 (targets config !! u) - troops_get (barracks_troops page) u
           - queued_units (barracks_queue page) u)
    with (default 0 (targets config !! u)
          - (troops_get (barracks_troops page) u + queued_units (barracks_queue page) u))
    by lia.
  destruct (0 <? _); reflexivity.
Qed.
End Recruit.

(** C7 (the code departs from it).  With a target of ten light cavalry,
    none owned and ten already in the stable's training queue, the
    specification's deficit [target - owned - queued] is zero and no batch is
    due, yet [_get_stable_needs] asks for ten more and [run] submits them:
    the stable path never looks at the training queue, whatever it holds,
    while the barracks path does count it. *)
Theorem stable_needs_ignore_training_queue :
  RecruitSpec.batch 25
    (RecruitSpec.deficit 10
       (Troops.troops_get (Troops.stable_troops RecruitSpec.light_in_training) "light")
       (RecruitSpec.queued_units
          (Troops.stable_queue RecruitSpec.light_in_training) "light")) = None
  /\ Troops._get_stable_needs RecruitSpec.ten_light RecruitSpec.light_in_training
     = [("light"%string, 10)]
  /\ Troops.run RecruitSpec.ten_light RecruitSpec.idle_barracks
       RecruitSpec.light_in_training
     = [Troops.TrainStable [("light"%string, 10)]]
  /\ (forall (config : Troops.TroopsConfig) (troops : gmap string Z)
             (q : list Troops.TrainQueue),
         Troops._get_stable_needs config (Troops.mkStable troops q)
         = Troops._get_stable_needs config (Troops.mkStable troops [])).
Proof.
  split; [vm_compute; reflexivity |].
  split; [vm_compute; reflexivity |].
  split; [vm_compute; reflexivity |].
  intros config troops q. reflexivity.
Qed.

(** ** Build queue slots *)

Section QueueSlots.
Import Building QueueSpec.
Context {W : Type} (page : HQPage W).

Lemma max_queue_always_two (state : HQState) : max_queue_of state = 2%nat.
Proof. unfold max_queue_of. destruct (premium state); reflexivity. Qed.

Lemma submitted_app (c1 c2 : list (string * upgrade_outcome)) :
  submitted (c1 ++ c2) = submitted c1 ++ submitted c2.
Proof. unfold submitted. rewrite List.filter_app, map_app. reflexivity. Qed.

(** With the limit the code uses, and a page whose queue grows by one on
    each accepted order, the loop submits no more orders than there are
    free slots. *)
Lemma attempt_loop_orders (self : BuildingManager) (village : Village)
      (max_queue attempts : nat) (s : loop_state) :
  (forall b w, length (queue (hq_state page (click_build page b w)))
               = S (length (queue (hq_state page w)))) ->
  ls_state s = hq_state page (ls_world s) ->
  (length (submitted (ls_calls (attempt_loop page self village max_queue attempts s)))
   <= length (submitted (ls_calls s))
      + (max_queue - length (queue (ls_state s))))%nat.
Proof.
  intros Hgrow. revert s.
  induction attempts as [| n IH]; intros s Hsync; cbn [attempt_loop].
  - lia.
  - destruct (Nat.leb_spec max_queue (length (queue (ls_state s)))) as [Hfull | Hfree];
      cbn [ls_calls]; [lia |].
    destruct (_pick_next_building self (levels (ls_state s))
                (map q_building (queue (ls_state s)))) as [[[name cur] tgt] |];
      cbn [ls_calls]; [| lia].
    assert (Horder :
      (length (submitted (ls_calls
         (let '(outcome, w') := upgrade_building page name (ls_world s) in
          match outcome with
          | Clicked =>
              attempt_loop page self village max_queue n
                {| ls_state := hq_state page w';
                   ls_result := {| ordered := true; building_name := name;
                                   queue_finish_ts :=
                                     queue_finish_ts (record_finish (queue (ls_state s)) (ls_result s));
                                   resource_wait :=
                                     resource_wait (record_finish (queue (ls_state s)) (ls_result s)) |};
                   ls_world := w';
                   ls_calls := ls_calls s ++ [(name, outcome)] |}
          | _ =>
              {| ls_state := ls_state s;
                 ls_result := record_finish (queue (ls_state s)) (ls_result s);
                 ls_world := w';
                 ls_calls := ls_calls s ++ [(name, outcome)] |}
          end)))
       <= length (submitted (ls_calls s))
          + (max_queue - length (queue (ls_state s))))%nat).
    { unfold upgrade_building.
      destruct (2 <=? length (html_queue page (ls_world s)))%nat.
      - cbn [ls_calls]. rewrite submitted_app. cbn. rewrite app_nil_r. lia.
      - destruct (build_button page name (ls_world s)).
        + eapply Nat.le_trans; [apply IH; reflexivity |].
          cbn [ls_calls ls_state]. rewrite submitted_app, length_app.
          rewrite Hgrow, <- Hsync. cbn. lia.
        + cbn [ls_calls]. rewrite submitted_app. cbn. rewrite app_nil_r. lia. }
    destruct (available (ls_state s) !! name) as [cost |].
    + destruct (can_afford (resources village) cost); [exact Horder | cbn [ls_calls]; lia].
    + destruct (bool_decide (available (ls_state s) = ∅)); [exact Horder | cbn [ls_calls]; lia].
Qed.
End QueueSlots.

(** C6 (the code departs from it).  On a village without premium, with an
    empty queue and two steps to build, the rule gives one slot, so at most
    [1 - 0 = 1] order may be submitted and the planner should stop when the
    observed queue reaches one entry; the cycle submits two orders, [main]
    and then [wood] although one upgrade is already queued, because
    [max_queue] is two whatever the premium flag says. *)
Theorem non_premium_cycle_submits_two_orders :
  QueueSpec.max_queue_rule (QueueSpec.vp_premium QueueSpec.fresh_village) = 1%nat
  /\ Building.submitted
       (snd (Building.run QueueSpec.game_page QueueSpec.two_steps
               QueueSpec.any_village QueueSpec.fresh_village))
     = ["main"; "wood"]%string
  /\ (forall state : Building.HQState, Building.max_queue_of state = 2%nat).
Proof.
  split; [reflexivity |]. split; [vm_compute; reflexivity |].
  intros state. unfold Building.max_queue_of. destruct (Building.premium state); reflexivity.
Qed.

(** ** Scavenge allocation: bookkeeping that holds for any float arithmetic *)

Section AllocationCounts.
Import Scavenge.
Context {F : Type} (fl : Float.ops F).
Variable carries : gmap string Z.

Lemma unit_count_set_eq (d : list (string * Z)) u v : unit_count (Dict.set d u v) u = v.
Proof. apply get_or_set_eq. Qed.

Lemma unit_count_set_ne (d : list (string * Z)) u u' v :
  u <> u' -> unit_count (Dict.set d u v) u' = unit_count d u'.
Proof. apply get_or_set_ne. Qed.

Lemma unit_count_notin (d : list (string * Z)) u : u ∉ Dict.keys d -> unit_count d u = 0.
Proof.
  intros Hu. apply get_None_keys in Hu. unfold unit_count, Dict.get_or.
  rewrite Hu. reflexivity.
Qed.

Lemma unit_count_cons (d : list (string * Z)) x c u :
  unit_count ((x, c) :: d) u = if decide (x = u) then c else unit_count d u.
Proof.
  unfold unit_count, Dict.get_or. cbn [Dict.get].
  destruct (decide (x = u)); reflexivity.
Qed.

(** One tier's loop moves troops from the pool to the tier and loses none. *)
Lemma fill_tier_counts (target : F) (units : list string) :
  forall (troops remaining : list (string * Z)) (filled : F),
    NoDup units ->
    (forall u, u ∈ units -> u ∉ Dict.keys troops) ->
    let r := fill_tier fl carries target units troops remaining filled in
    (forall u, unit_count r.1.1 u + unit_count r.1.2 u
               = unit_count troops u + unit_count remaining u)
    /\ (forall u, unit_count r.1.2 u <= unit_count remaining u)
    /\ (forall u, 0 <= unit_count remaining u -> 0 <= unit_count r.1.2 u)
    /\ (forall u, 0 <= unit_count troops u -> 0 <= unit_count r.1.1 u)
    /\ Dict.keys r.1.2 = Dict.keys remaining
    /\ (NoDup (Dict.keys troops) -> NoDup (Dict.keys r.1.1))
    /\ (forall u, u ∈ Dict.keys r.1.1 -> u ∈ Dict.keys troops \/ u ∈ units).
Proof.
  induction units as [| x units IH]; intros troops remaining filled Hnd Hfresh.
  - cbn [fill_tier fst snd]. repeat split; auto; try lia.
  - apply NoDup_cons in Hnd as [Hx Hnd].
    assert (Hfresh' : forall u, u ∈ units -> u ∉ Dict.keys troops).
    { intros u Hu. apply Hfresh. apply elem_of_cons. right. exact Hu. }
    assert (Hskip :
      let r := fill_tier fl carries target units troops remaining filled in
      (forall u, unit_count r.1.1 u + unit_count r.1.2 u
                 = unit_count troops u + unit_count remaining u)
      /\ (forall u, unit_count r.1.2 u <= unit_count remaining u)
      /\ (forall u, 0 <= unit_count remaining u -> 0 <= unit_count r.1.2 u)
      /\ (forall u, 0 <= unit_count troops u -> 0 <= unit_count r.1.1 u)
      /\ Dict.keys r.1.2 = Dict.keys remaining
      /\ (NoDup (Dict.keys troops) -> NoDup (Dict.keys r.1.1))
      /\ (forall u, u ∈ Dict.keys r.1.1 -> u ∈ Dict.keys troops \/ u ∈ x :: units)).
    { destruct (IH troops remaining filled Hnd Hfresh')
        as (H1 & H2 & H3 & H4 & H5 & H6 & H7).
      repeat split; auto.
      intros u Hu. destruct (H7 u Hu); [left | right; apply elem_of_cons; right]; auto. }
    cbn [fill_tier]. fold (unit_count remaining x).
    destruct (unit_count remaining x <=? 0) eqn:Eavail; [exact Hskip |].
    destruct (carry_of carries x <=? 0); [exact Hskip |].
    destruct (Float.le0 fl (Float.sub fl target filled)).
    { cbn [fst snd]. repeat split; auto; try lia. }
    set (take := Z.min (unit_count remaining x)
                       (Float.floor fl (Float.div fl (Float.sub fl target filled)
                                          (Float.of_int fl (carry_of carries x))))).
    destruct (Z.ltb_spec 0 take) as [Htake | Htake]; [| exact Hskip].
    assert (Hle : take <= unit_count remaining x) by (unfold take; lia).
    assert (Hxin : x ∈ Dict.keys remaining).
    { destruct (decide (x ∈ Dict.keys remaining)) as [Hin | Hin]; [exact Hin |].
      apply unit_count_notin in Hin. lia. }
    assert (Htroops : unit_count troops x = 0).
    { apply unit_count_notin. apply Hfresh. apply elem_of_cons. left. reflexivity. }
    destruct (IH (Dict.set troops x take)
                 (Dict.set remaining x (unit_count remaining x - take))
                 (Float.add fl filled (Float.of_int fl (take * carry_of carries x)))
                 Hnd)
      as (H1 & H2 & H3 & H4 & H5 & H6 & H7).
    { intros u Hu Hin. apply keys_set_elem in Hin as [-> | Hin]; [contradiction |].
      exact (Hfresh' u Hu Hin). }
    cbn zeta in *. repeat split.
    + intros u. rewrite H1. destruct (decide (x = u)) as [<- | Hne].
      * rewrite !unit_count_set_eq. lia.
      * rewrite !unit_count_set_ne by exact Hne. reflexivity.
    + intros u. etransitivity; [apply H2 |].
      destruct (decide (x = u)) as [<- | Hne].
      * rewrite unit_count_set_eq. lia.
      * rewrite unit_count_set_ne by exact Hne. lia.
    + intros u Hu. apply H3. destruct (decide (x = u)) as [<- | Hne].
      * rewrite unit_count_set_eq. lia.
      * rewrite unit_count_set_ne by exact Hne. exact Hu.
    + intros u Hu. apply H4. destruct (decide (x = u)) as [<- | Hne].
      * rewrite unit_count_set_eq. lia.
      * rewrite unit_count_set_ne by exact Hne. exact Hu.
    + rewrite H5. apply set_in. exact Hxin.
    + intros Hndt. apply H6. apply keys_set_NoDup. exact Hndt.
    + intros u Hu. destruct (H7 u Hu) as [Hin | Hin].
      * apply keys_set_elem in Hin as [-> | Hin]; [right | left; exact Hin].
        apply elem_of_cons. left. reflexivity.
      * right. apply elem_of_cons. right. exact Hin.
Qed.

(** Units of a type over all tiers, when one tier's troops are replaced. *)
Lemma allocated_set (alloc : list (Z * list (string * Z))) (t : Z)
      (troops : list (string * Z)) (u : string) :
  NoDup (Dict.keys alloc) -> t ∈ Dict.keys alloc ->
  allocated (Dict.set alloc t troops) u
  = allocated alloc u - unit_count (tier_troops alloc t) u + unit_count troops u.
Proof.
  unfold tier_troops, Dict.get_or.
  induction alloc as [| [t' d] alloc IH]; intros Hnd Hin.
  - apply elem_of_nil in Hin. destruct Hin.
  - cbn in Hnd. apply NoDup_cons in Hnd as [Ht' Hnd].
    cbn [Dict.set Dict.get]. destruct (decide (t' = t)) as [-> | Hne].
    + cbn -[unit_count]. lia.
    + cbn in Hin. apply elem_of_cons in Hin as [-> | Hin]; [congruence |].
      cbn [allocated fold_right]. fold (allocated (Dict.set alloc t troops) u).
      fold (allocated alloc u). rewrite (IH Hnd Hin). lia.
Qed.

Lemma tier_troops_set_eq (alloc : list (Z * list (string * Z))) t troops :
  tier_troops (Dict.set alloc t troops) t = troops.
Proof. apply get_or_set_eq. Qed.

Lemma tier_troops_set_ne (alloc : list (Z * list (string * Z))) t t' troops :
  t <> t' -> tier_troops (Dict.set alloc t troops) t' = tier_troops alloc t'.
Proof. apply get_or_set_ne. Qed.

(** The loop over the tiers keeps every troop either in a tier or in the
    remaining pool. *)
Lemma fill_tiers_counts (total_carry : Z) (option_weights : list (Z * F))
      (weight_sum : F) (dump_tier : Z) (tiers : list Z) :
  forall (allocations : list (Z * list (string * Z)))
         (remaining : list (string * Z)),
    NoDup tiers ->
    NoDup (Dict.keys allocations) ->
    NoDup (Dict.keys remaining) ->
    (forall t, t ∈ tiers -> t ∈ Dict.keys allocations /\ tier_troops allocations t = []) ->
    let r := fill_tiers fl carries total_carry option_weights weight_sum
               dump_tier tiers allocations remaining in
    (forall u, allocated r.1 u + unit_count r.2 u
               = allocated allocations u + unit_count remaining u)
    /\ Dict.keys r.1 = Dict.keys allocations
    /\ Dict.keys r.2 = Dict.keys remaining
    /\ (forall u, unit_count r.2 u <= unit_count remaining u)
    /\ (forall u, 0 <= unit_count remaining u -> 0 <= unit_count r.2 u)
    /\ (forall t, t ∉ tiers \/ t = dump_tier ->
                  tier_troops r.1 t = tier_troops allocations t).
Proof.
  induction tiers as [| tier tiers IH]; intros allocations remaining Hnd Hnda Hndr Hempty.
  - cbn [fill_tiers fst snd]. repeat split; auto; try lia.
  - apply NoDup_cons in Hnd as [Htier Hnd].
    assert (Hempty' : forall t, t ∈ tiers ->
              t ∈ Dict.keys allocations /\ tier_troops allocations t = []).
    { intros t Ht. apply Hempty. apply elem_of_cons. right. exact Ht. }
    cbn [fill_tiers]. destruct (decide (tier = dump_tier)) as [Hdump | Hdump].
    + destruct (IH allocations remaining Hnd Hnda Hndr Hempty')
        as (H1 & H2 & H3 & H4 & H5 & H6).
      repeat split; auto.
      intros t [Ht | Ht]; apply H6; [| right; exact Ht].
      destruct (decide (t = dump_tier)) as [-> | Hne]; [right; reflexivity | left].
      intros Hin. apply Ht. apply elem_of_cons. right. exact Hin.
    + destruct (Hempty tier) as [Hin Hnil]; [apply elem_of_cons; left; reflexivity |].
      fold (tier_troops allocations tier). rewrite Hnil.
      set (target := Float.div fl _ weight_sum).
      set (units := sorted_desc (carry_of carries) (Dict.keys remaining)).
      assert (Hunits : NoDup units).
      { unfold units. rewrite sorted_desc_perm. exact Hndr. }
      destruct (fill_tier_counts target units [] remaining (Float.lit fl 0) Hunits)
        as (F1 & F2 & F3 & F4 & F5 & F6 & F7).
      { intros u _. apply not_elem_of_nil. }
      cbn zeta in *.
      destruct (fill_tier fl carries target units [] remaining (Float.lit fl 0))
        as [[troops remaining'] filled'].
      cbn [fst snd] in *.
      destruct (IH (Dict.set allocations tier troops) remaining' Hnd)
        as (H1 & H2 & H3 & H4 & H5 & H6).
      { apply keys_set_NoDup. exact Hnda. }
      { rewrite F5. exact Hndr. }
      { intros t Ht. destruct (Hempty' t Ht) as [Hk Hn]. split.
        - apply keys_set_elem. right. exact Hk.
        - rewrite tier_troops_set_ne; [exact Hn |]. intros ->. contradiction. }
      cbn zeta in *. repeat split.
      * intros u. rewrite H1, allocated_set by assumption.
        rewrite Hnil. specialize (F1 u).
        change (unit_count [] u) with 0 in F1 |- *. lia.
      * rewrite H2. apply set_in. exact Hin.
      * rewrite H3. exact F5.
      * intros u. etransitivity; [apply H4 | apply F2].
      * intros u Hu. apply H5. apply F3. exact Hu.
      * intros t Ht. rewrite H6.
        -- apply tier_troops_set_ne. destruct Ht as [Ht | ->]; [| exact Hdump].
           intros ->. apply Ht. apply elem_of_cons. left. reflexivity.
        -- destruct Ht as [Ht | Ht]; [left | right; exact Ht].
           intros Hin'. apply Ht. apply elem_of_cons. right. exact Hin'.
Qed.

(** The dump loop adds every remaining troop to the tier's troops. *)
Lemma dump_remaining_count (remaining : list (string * Z)) :
  forall (troops : list (string * Z)) (u : string),
    NoDup (Dict.keys remaining) ->
    unit_count (dump_remaining remaining troops) u
    = unit_count troops u + Z.max 0 (unit_count remaining u).
Proof.
  unfold dump_remaining.
  induction remaining as [| [x c] remaining IH]; intros troops u Hnd.
  - cbn [fold_left]. change (unit_count [] u) with 0. lia.
  - cbn in Hnd. apply NoDup_cons in Hnd as [Hx Hnd].
    cbn [fold_left]. rewrite (IH _ u Hnd). rewrite (unit_count_cons remaining x c u).
    destruct (decide (x = u)) as [<- | Hne].
    + rewrite (unit_count_notin remaining x Hx).
      destruct (Z.ltb_spec 0 c).
      * rewrite unit_count_set_eq. fold (unit_count troops x). lia.
      * lia.
    + destruct (0 <? c); [rewrite unit_count_set_ne by exact Hne |]; reflexivity.
Qed.

Lemma dump_remaining_keys (remaining : list (string * Z)) :
  forall (troops : list (string * Z)),
    NoDup (Dict.keys troops) -> NoDup (Dict.keys (dump_remaining remaining troops)).
Proof.
  unfold dump_remaining.
  induction remaining as [| [x c] remaining IH]; intros troops Hnd; cbn [fold_left].
  - exact Hnd.
  - apply IH. destruct (0 <? c); [apply keys_set_NoDup |]; exact Hnd.
Qed.

(** Dumping a pool of positive counts into an empty tier copies the pool. *)
Lemma dump_remaining_copy (remaining : list (string * Z)) :
  forall (troops : list (string * Z)),
    NoDup (Dict.keys troops ++ Dict.keys remaining) ->
    Forall (fun e => 0 < e.2) remaining ->
    dump_remaining remaining troops = troops ++ remaining.
Proof.
  unfold dump_remaining.
  induction remaining as [| [x c] remaining IH]; intros troops Hnd Hpos; cbn [fold_left].
  - rewrite app_nil_r. reflexivity.
  - apply Forall_cons in Hpos as [Hc Hpos]. cbn in Hc.
    replace (0 <? c) with true by (symmetry; apply Z.ltb_lt; exact Hc).
    cbn in Hnd. apply NoDup_app in Hnd as (Hndt & Hdisj & Hndr).
    apply NoDup_cons in Hndr as [Hx Hndr].
    assert (Hxt : x ∉ Dict.keys troops).
    { intros Hin. apply (Hdisj x Hin). apply elem_of_cons. left. reflexivity. }
    rewrite (set_notin troops x) by exact Hxt.
    fold (unit_count troops x). rewrite (unit_count_notin troops x Hxt).
    rewrite IH.
    + rewrite <- app_assoc. reflexivity.
    + unfold Dict.keys. rewrite map_app. cbn. rewrite <- app_assoc. cbn.
      apply NoDup_app. repeat split; auto.
      apply NoDup_cons. split; assumption.
    + exact Hpos.
Qed.

Lemma allocated_filter (alloc : list (Z * list (string * Z))) (u : string) :
  allocated (List.filter (fun '(_, troops) => negb (is_empty troops)) alloc) u
  = allocated alloc u.
Proof.
  induction alloc as [| [t d] alloc IH]; cbn.
  - reflexivity.
  - destruct d as [| e d]; cbn; fold (allocated alloc u) in *;
      fold (allocated (List.filter (fun '(_, troops) => negb (is_empty troops)) alloc) u);
      rewrite IH; reflexivity.
Qed.

Lemma keys_filter_elem {V : Type} (f : Z * V -> bool) (d : list (Z * V)) (t : Z) :
  t ∈ Dict.keys (List.filter f d) -> t ∈ Dict.keys d.
Proof.
  induction d as [| [t' v] d IH]; cbn; [auto |].
  destruct (f (t', v)); cbn; rewrite !elem_of_cons; tauto.
Qed.

Lemma tier_troops_filter (alloc : list (Z * list (string * Z))) (t : Z) :
  NoDup (Dict.keys alloc) ->
  tier_troops (List.filter (fun '(_, troops) => negb (is_empty troops)) alloc) t
  = tier_troops alloc t.
Proof.
  unfold tier_troops, Dict.get_or.
  induction alloc as [| [t' d] alloc IH]; cbn; intros Hnd.
  - reflexivity.
  - apply NoDup_cons in Hnd as [Ht' Hnd].
    destruct d as [| e d]; cbn.
    + destruct (decide (t' = t)) as [-> | Hne]; [| apply IH; exact Hnd].
      assert (Hn : Dict.get
                     (List.filter (fun '(_, troops) => negb (is_empty troops)) alloc) t
                   = None).
      { apply get_None_keys. intros Hin. apply Ht'.
        eapply keys_filter_elem. exact Hin. }
      rewrite Hn. reflexivity.
    + destruct (decide (t' = t)); [reflexivity | apply IH; exact Hnd].
Qed.

Lemma pool_of_keys (available : list (string * Z)) :
  NoDup (Dict.keys available) -> NoDup (Dict.keys (pool_of available)).
Proof.
  unfold pool_of. induction available as [| [u c] available IH]; cbn; intros Hnd.
  - constructor.
  - apply NoDup_cons in Hnd as [Hu Hnd].
    destruct (in_scavenge_units u && (0 <? c)); cbn; [| apply IH; exact Hnd].
    apply NoDup_cons. split; [| apply IH; exact Hnd].
    intros Hin. apply Hu. clear -Hin.
    induction available as [| [u' c'] available IH]; cbn in *; [exact Hin |].
    destruct (in_scavenge_units u' && (0 <? c')); cbn in *;
      rewrite ?elem_of_cons in *; tauto.
Qed.

Lemma pool_of_positive (available : list (string * Z)) :
  Forall (fun e => 0 < e.2) (pool_of available).
Proof.
  unfold pool_of. induction available as [| [u c] available IH]; cbn.
  - constructor.
  - destruct (in_scavenge_units u); cbn; [| exact IH].
    destruct (Z.ltb_spec 0 c); [constructor; [exact H | exact IH] | exact IH].
Qed.

Lemma unit_count_nonneg (d : list (string * Z)) (u : string) :
  Forall (fun e => 0 < e.2) d -> 0 <= unit_count d u.
Proof.
  unfold unit_count, Dict.get_or. induction d as [| [x c] d IH]; cbn; intros Hd.
  - lia.
  - apply Forall_cons in Hd as [Hc Hd]. cbn in Hc.
    destruct (decide (x = u)); [cbn; lia | apply IH; exact Hd].
Qed.

Lemma allocated_empty (ts : list Z) (u : string) :
  allocated (map (fun t => (t, @nil (string * Z))) ts) u = 0.
Proof. induction ts as [| t ts IH]; cbn; [reflexivity | exact IH]. Qed.

Lemma tier_troops_empty (ts : list Z) (t : Z) :
  tier_troops (map (fun t => (t, @nil (string * Z))) ts) t = [].
Proof.
  unfold tier_troops, Dict.get_or. induction ts as [| t' ts IH]; cbn; [reflexivity |].
  destruct (decide (t' = t)); [reflexivity | exact IH].
Qed.

Lemma keys_empty_alloc (ts : list Z) :
  Dict.keys (map (fun t => (t, @nil (string * Z))) ts) = ts.
Proof. unfold Dict.keys. rewrite map_map. cbn. apply map_id. Qed.

Local Abbreviation allocation_body := (CarrySum.allocation_body fl carries).

Lemma allocation_body_counts (available : list (string * Z))
      (option_weights : list (Z * F)) (dump_tier : Z) (u : string) :
  NoDup (Dict.keys available) -> NoDup (Dict.keys option_weights) ->
  dump_tier ∈ Dict.keys option_weights ->
  allocated (allocation_body available option_weights dump_tier) u
  = unit_count (pool_of available) u.
Proof.
  intros Hnda Hndw Hdump. unfold CarrySum.allocation_body.
  set (pool := pool_of available).
  destruct (fill_tiers_counts (total_carry_of carries pool) option_weights
              (py_sum fl (Dict.values option_weights)) dump_tier
              (sorted_desc (fun t => t) (Dict.keys option_weights))
              (map (fun t => (t, @nil (string * Z))) (Dict.keys option_weights))
              pool)
    as (H1 & H2 & H3 & H4 & H5 & H6).
  { rewrite sorted_desc_perm. exact Hndw. }
  { rewrite keys_empty_alloc. exact Hndw. }
  { apply pool_of_keys. exact Hnda. }
  { intros t Ht. rewrite sorted_desc_perm in Ht. rewrite keys_empty_alloc.
    split; [exact Ht | apply tier_troops_empty]. }
  cbn zeta in *.
  destruct (fill_tiers fl carries _ option_weights _ dump_tier _ _ pool)
    as [allocations remaining]. cbn [fst snd] in *.
  rewrite keys_empty_alloc in H2.
  rewrite allocated_set by (rewrite H2; assumption).
  rewrite dump_remaining_count by (rewrite H3; apply pool_of_keys; exact Hnda).
  specialize (H1 u). rewrite allocated_empty in H1.
  assert (0 <= unit_count remaining u).
  { apply H5. apply unit_count_nonneg. apply pool_of_positive. }
  lia.
Qed.

Lemma allocate_by_ratio_body (available : list (string * Z))
      (option_weights : list (Z * F)) (unit_carries : option (gmap string Z))
      (k0 : Z) (ks : list Z) :
  carries = default ∅ unit_carries ->
  Dict.keys option_weights = k0 :: ks ->
  Float.le0 fl (py_sum fl (Dict.values option_weights)) = false ->
  0 < total_carry_of carries (pool_of available) ->
  allocate_by_ratio fl available option_weights unit_carries
  = List.filter (fun '(_, troops) => negb (is_empty troops))
                (allocation_body available option_weights (min_list k0 ks)).
Proof.
  intros Hc Hkeys Hsum Htotal. unfold allocate_by_ratio, CarrySum.allocation_body.
  rewrite <- Hc, Hkeys, Hsum. rewrite <- Hkeys.
  destruct (pool_of available) as [| e pool] eqn:Epool.
  { cbn in Htotal. lia. }
  cbn [is_empty].
  replace (total_carry_of carries (e :: pool) <=? 0) with false
    by (symmetry; apply Z.leb_gt; exact Htotal).
  destruct (fill_tiers fl _ _ option_weights _ _ _ _ (e :: pool)) as [a r].
  reflexivity.
Qed.
End AllocationCounts.

(** C3.  Whenever the weight dict is non-empty with a positive sum and the
    pool of scavengeable troops with positive counts has a positive total
    carry, the allocation gives out, for every unit, exactly the pool's
    count of that unit over all tiers: no troop stays idle.  This holds
    for any behaviour of the float operations. *)
Theorem allocation_leaves_no_troop_idle
  {F : Type} (fl : Float.ops F)
  (available : list (string * Z)) (option_weights : list (Z * F))
  (unit_carries : option (gmap string Z)) :
  NoDup (Dict.keys available) ->
  NoDup (Dict.keys option_weights) ->
  option_weights <> [] ->
  Float.le0 fl (Scavenge.py_sum fl (Dict.values option_weights)) = false ->
  0 < Scavenge.total_carry_of (default ∅ unit_carries) (Scavenge.pool_of available) ->
  forall u : string,
    Scavenge.allocated
      (Scavenge.allocate_by_ratio fl available option_weights unit_carries) u
    = Scavenge.unit_count (Scavenge.pool_of available) u.
Proof.
  intros Hnda Hndw Hne Hsum Htotal u.
  destruct (Dict.keys option_weights) as [| k0 ks] eqn:Hkeys.
  { destruct option_weights; [congruence | discriminate]. }
  rewrite (allocate_by_ratio_body fl (default ∅ unit_carries) available option_weights
             unit_carries k0 ks eq_refl Hkeys Hsum Htotal).
  rewrite allocated_filter.
  apply allocation_body_counts;
    [exact Hnda | rewrite Hkeys; exact Hndw | rewrite Hkeys; apply min_list_elem].
Qed.

Lemma allocation_leaves_no_troop_idle_witness :
  NoDup (Dict.keys AllocationSamples.spears)
  /\ NoDup (Dict.keys AllocationSamples.tiers_1_2)
  /\ Scavenge.allocate_by_ratio Float.exact AllocationSamples.spears
       AllocationSamples.tiers_1_2 (Some AllocationSamples.spear_carry)
     = [(1, [("spear"%string, 715)]); (2, [("spear"%string, 285)])]
  /\ Scavenge.allocated
       (Scavenge.allocate_by_ratio Float.exact AllocationSamples.spears
          AllocationSamples.tiers_1_2 (Some AllocationSamples.spear_carry))
       "spear"
     = 1000.
Proof.
  assert (H1 : NoDup (Dict.keys AllocationSamples.spears)).
  { apply (bool_decide_unpack _). vm_compute. exact I. }
  assert (H2 : NoDup (Dict.keys AllocationSamples.tiers_1_2)).
  { apply (bool_decide_unpack _). vm_compute. exact I. }
  split; [exact H1 |]. split; [exact H2 |]. split; [vm_compute; reflexivity |].
  apply (allocation_leaves_no_troop_idle Float.exact AllocationSamples.spears
           AllocationSamples.tiers_1_2 (Some AllocationSamples.spear_carry) H1 H2).
  - discriminate.
  - vm_compute. reflexivity.
  - vm_compute. reflexivity.
Defined.

(** C10.  With a single tier in the weight dict, of positive weight, and a
    pool that is not empty and has a positive total carry, the greedy fill
    does nothing (the tier is the dump tier: the loop over the tiers leaves
    the allocations and the pool as they are) and the result gives the whole
    pool, unchanged, to that tier. *)
Theorem single_tier_takes_whole_pool
  {F : Type} (fl : Float.ops F)
  (available : list (string * Z)) (tier : Z) (weight : F)
  (unit_carries : option (gmap string Z)) :
  NoDup (Dict.keys available) ->
  Float.le0 fl (Scavenge.py_sum fl [weight]) = false ->
  Scavenge.pool_of available <> [] ->
  0 < Scavenge.total_carry_of (default ∅ unit_carries) (Scavenge.pool_of available) ->
  Scavenge.fill_tiers fl (default ∅ unit_carries)
    (Scavenge.total_carry_of (default ∅ unit_carries) (Scavenge.pool_of available))
    [(tier, weight)] (Scavenge.py_sum fl [weight]) tier [tier]
    [(tier, [])] (Scavenge.pool_of available)
  = ([(tier, [])], Scavenge.pool_of available)
  /\ Scavenge.allocate_by_ratio fl available [(tier, weight)] unit_carries
     = [(tier, Scavenge.pool_of available)].
Proof.
  intros Hnd Hsum Hpool Htotal.
  assert (Hloop :
    Scavenge.fill_tiers fl (default ∅ unit_carries)
      (Scavenge.total_carry_of (default ∅ unit_carries) (Scavenge.pool_of available))
      [(tier, weight)] (Scavenge.py_sum fl [weight]) tier [tier]
      [(tier, [])] (Scavenge.pool_of available)
    = ([(tier, [])], Scavenge.pool_of available)).
  { cbn [Scavenge.fill_tiers]. destruct (decide (tier = tier)); [reflexivity | congruence]. }
  split; [exact Hloop |].
  unfold Scavenge.allocate_by_ratio.
  cbn [Dict.keys Dict.values map fst snd].
  rewrite Hsum.
  destruct (Scavenge.pool_of available) as [| e pool] eqn:Epool; [congruence |].
  cbn [is_empty].
  replace (Scavenge.total_carry_of (default ∅ unit_carries) (e :: pool) <=? 0) with false
    by (symmetry; apply Z.leb_gt; exact Htotal).
  change (min_list tier []) with tier.
  change (sorted_desc (fun t : Z => t) [tier]) with [tier].
  rewrite Hloop.
  unfold Dict.get_or. cbn [Dict.set Dict.get].
  destruct (decide (tier = tier)); [| congruence].
  change (default [] (Some (@nil (string * Z)))) with (@nil (string * Z)).
  rewrite (dump_remaining_copy (e :: pool) []).
  - reflexivity.
  - change (NoDup (Dict.keys (e :: pool))). rewrite <- Epool.
    apply pool_of_keys. exact Hnd.
  - rewrite <- Epool. apply pool_of_positive.
Qed.

Lemma single_tier_takes_whole_pool_witness :
  NoDup (Dict.keys AllocationSamples.spears)
  /\ Scavenge.allocate_by_ratio Float.exact AllocationSamples.spears [(1, 10%Q)]
       (Some AllocationSamples.spear_carry)
     = [(1, [("spear"%string, 1000)])].
Proof.
  assert (H1 : NoDup (Dict.keys AllocationSamples.spears)).
  { apply (bool_decide_unpack _). vm_compute. exact I. }
  split; [exact H1 |].
  apply (single_tier_takes_whole_pool Float.exact AllocationSamples.spears 1 10%Q
           (Some AllocationSamples.spear_carry) H1).
  - vm_compute. reflexivity.
  - discriminate.
  - vm_compute. reflexivity.
Defined.

(** ** Carry sums *)

Section CarrySumFacts.
Import Scavenge CarrySum.
Variable carries : gmap string Z.

Lemma carry_sum_cons x ks (f : string -> Z) :
  carry_sum carries (x :: ks) f = f x * carry_of carries x + carry_sum carries ks f.
Proof. reflexivity. Qed.

Lemma carry_sum_ext ks (f g : string -> Z) :
  (forall u, u ∈ ks -> f u = g u) -> carry_sum carries ks f = carry_sum carries ks g.
Proof.
  induction ks as [| x ks IH]; intros Hfg; [reflexivity |].
  rewrite !carry_sum_cons.
  rewrite (Hfg x) by (apply elem_of_cons; left; reflexivity).
  rewrite IH; [reflexivity |].
  intros u Hu. apply Hfg. apply elem_of_cons. right. exact Hu.
Qed.

Lemma carry_sum_plus ks (f g : string -> Z) :
  carry_sum carries ks (fun u => f u + g u)
  = carry_sum carries ks f + carry_sum carries ks g.
Proof.
  induction ks as [| x ks IH]; [reflexivity |].
  rewrite !carry_sum_cons, IH. lia.
Qed.

Lemma carry_sum_zero ks (f : string -> Z) :
  (forall u, u ∈ ks -> f u = 0) -> carry_sum carries ks f = 0.
Proof.
  induction ks as [| x ks IH]; intros Hf; [reflexivity |].
  rewrite carry_sum_cons.
  rewrite (Hf x) by (apply elem_of_cons; left; reflexivity).
  rewrite IH; [lia |].
  intros u Hu. apply Hf. apply elem_of_cons. right. exact Hu.
Qed.

Lemma carry_sum_nonneg ks (f : string -> Z) :
  (forall u, u ∈ ks -> 0 <= f u) -> (forall u, u ∈ ks -> 0 <= carry_of carries u) ->
  0 <= carry_sum carries ks f.
Proof.
  induction ks as [| x ks IH]; intros Hf Hc; [cbn; lia |].
  rewrite carry_sum_cons.
  assert (0 <= f x) by (apply Hf; apply elem_of_cons; left; reflexivity).
  assert (0 <= carry_of carries x) by (apply Hc; apply elem_of_cons; left; reflexivity).
  assert (0 <= carry_sum carries ks f).
  { apply IH; intros u Hu; [apply Hf | apply Hc]; apply elem_of_cons; right; exact Hu. }
  nia.
Qed.

(** Changing the count of one unit changes the sum by that unit's carry. *)
Lemma carry_sum_update ks (f g : string -> Z) (x : string) :
  NoDup ks -> x ∈ ks -> (forall u, u <> x -> g u = f u) ->
  carry_sum carries ks g
  = carry_sum carries ks f + (g x - f x) * carry_of carries x.
Proof.
  induction ks as [| y ks IH]; intros Hnd Hx Hfg.
  - apply elem_of_nil in Hx. destruct Hx.
  - apply NoDup_cons in Hnd as [Hy Hnd]. rewrite !carry_sum_cons.
    destruct (decide (y = x)) as [-> | Hne].
    + rewrite (carry_sum_ext ks g f); [lia |].
      intros u Hu. apply Hfg. intros ->. contradiction.
    + apply elem_of_cons in Hx as [-> | Hx]; [congruence |].
      rewrite (IH Hnd Hx Hfg), (Hfg y Hne). lia.
Qed.

Lemma total_carry_fold (pool : list (string * Z)) (a : Z) :
  fold_left (fun acc '(u, c) => acc + c * carry_of carries u) pool a
  = a + fold_right (fun '(u, c) acc => c * carry_of carries u + acc) 0 pool.
Proof.
  revert a. induction pool as [| [u c] pool IH]; intros a; cbn; [lia |].
  rewrite IH. lia.
Qed.

(** [total_carry] is the carry sum of the pool's counts. *)
Lemma total_carry_sum (pool : list (string * Z)) :
  NoDup (Dict.keys pool) ->
  total_carry_of carries pool = carry_sum carries (Dict.keys pool) (unit_count pool).
Proof.
  unfold total_carry_of. rewrite total_carry_fold, Z.add_0_l.
  induction pool as [| [x c] pool IH]; intros Hnd; [reflexivity |].
  cbn in Hnd. apply NoDup_cons in Hnd as [Hx Hnd].
  cbn [fold_right Dict.keys map fst]. fold (Dict.keys pool).
  rewrite (IH Hnd), carry_sum_cons.
  rewrite unit_count_cons. destruct (decide (x = x)); [| congruence].
  f_equal. apply carry_sum_ext. intros u Hu. rewrite unit_count_cons.
  destruct (decide (x = u)) as [-> | _]; [contradiction | reflexivity].
Qed.

Lemma capacity_fold (unit_carries : gmap string Z) (troops : list (string * Z)) (a : Z) :
  fold_left (fun acc '(u, c) =>
               if 0 <? c then acc + c * default 0 (unit_carries !! u) else acc)
            troops a
  = a + fold_right (fun '(u, c) acc =>
                      (if 0 <? c then c * default 0 (unit_carries !! u) else 0) + acc)
                   0 troops.
Proof.
  revert a. induction troops as [| [u c] troops IH]; intros a; cbn; [lia |].
  rewrite IH. destruct (0 <? c); lia.
Qed.

(** [calculate_carry_capacity] of troops drawn from the pool is their
    carry sum, provided the carry table lists every unit of the pool. *)
Lemma capacity_sum (unit_carries : gmap string Z) ks (troops : list (string * Z)) :
  NoDup ks -> NoDup (Dict.keys troops) ->
  (forall u, u ∈ Dict.keys troops -> u ∈ ks) ->
  (forall u, 0 <= unit_count troops u) ->
  (forall u, u ∈ ks -> default 0 (unit_carries !! u) = carry_of carries u) ->
  calculate_carry_capacity troops unit_carries
  = carry_sum carries ks (unit_count troops).
Proof.
  intros Hks. unfold calculate_carry_capacity. rewrite capacity_fold, Z.add_0_l.
  induction troops as [| [x c] troops IH]; cbn [fold_right]; intros Hnd Hsub Hpos Hcar.
  - symmetry. apply carry_sum_zero. reflexivity.
  - cbn in Hnd. apply NoDup_cons in Hnd as [Hx Hnd].
    assert (Hxks : x ∈ ks) by (apply Hsub; cbn; apply elem_of_cons; left; reflexivity).
    assert (Hc : 0 <= c).
    { specialize (Hpos x). rewrite unit_count_cons in Hpos.
      destruct (decide (x = x)); [exact Hpos | congruence]. }
    rewrite IH; auto.
    + rewrite (carry_sum_update ks (unit_count troops) (unit_count ((x, c) :: troops)) x Hks Hxks).
      * rewrite unit_count_cons. destruct (decide (x = x)); [| congruence].
        rewrite (unit_count_notin troops x Hx), (Hcar x Hxks).
        destruct (Z.ltb_spec 0 c); [ring | replace c with 0 by lia; ring].
      * intros u Hu. rewrite unit_count_cons.
        destruct (decide (x = u)); [congruence | reflexivity].
    + intros u Hu. apply Hsub. cbn. apply elem_of_cons. right. exact Hu.
    + intros u. specialize (Hpos u). rewrite unit_count_cons in Hpos.
      destruct (decide (x = u)) as [<- | _]; [| exact Hpos].
      rewrite (unit_count_notin troops x Hx). lia.
Qed.

Lemma carry_sum_le ks (f g : string -> Z) :
  (forall u, u ∈ ks -> f u <= g u) -> (forall u, u ∈ ks -> 0 <= carry_of carries u) ->
  carry_sum carries ks f <= carry_sum carries ks g.
Proof.
  induction ks as [| x ks IH]; intros Hfg Hc; [cbn; lia |].
  rewrite !carry_sum_cons.
  assert (f x <= g x) by (apply Hfg; apply elem_of_cons; left; reflexivity).
  assert (0 <= carry_of carries x) by (apply Hc; apply elem_of_cons; left; reflexivity).
  assert (carry_sum carries ks f <= carry_sum carries ks g).
  { apply IH; intros u Hu; [apply Hfg | apply Hc]; apply elem_of_cons; right; exact Hu. }
  nia.
Qed.

Lemma carry_sum_ge_term ks (f : string -> Z) (x : string) :
  x ∈ ks -> (forall u, u ∈ ks -> 0 <= f u) -> (forall u, u ∈ ks -> 0 <= carry_of carries u) ->
  f x * carry_of carries x <= carry_sum carries ks f.
Proof.
  induction ks as [| y ks IH]; intros Hx Hf Hc.
  - apply elem_of_nil in Hx. destruct Hx.
  - rewrite carry_sum_cons.
    assert (0 <= f y) by (apply Hf; apply elem_of_cons; left; reflexivity).
    assert (0 <= carry_of carries y) by (apply Hc; apply elem_of_cons; left; reflexivity).
    assert (0 <= carry_sum carries ks f).
    { apply carry_sum_nonneg; intros u Hu; [apply Hf | apply Hc];
        apply elem_of_cons; right; exact Hu. }
    apply elem_of_cons in Hx as [-> | Hx]; [nia |].
    assert (f x * carry_of carries x <= carry_sum carries ks f).
    { apply IH; [exact Hx | |]; intros u Hu; [apply Hf | apply Hc];
        apply elem_of_cons; right; exact Hu. }
    nia.
Qed.

(** A sum over units that all have the same carry is a multiple of it. *)
Lemma carry_sum_multiple ks (f : string -> Z) (q : Z) :
  (forall u, u ∈ ks -> f u <> 0 -> carry_of carries u = q) ->
  exists J, carry_sum carries ks f = q * J.
Proof.
  induction ks as [| x ks IH]; intros Hf.
  - exists 0. cbn. lia.
  - destruct IH as [J HJ].
    { intros u Hu. apply Hf. apply elem_of_cons. right. exact Hu. }
    rewrite carry_sum_cons, HJ.
    destruct (Z.eq_dec (f x) 0) as [-> | Hne].
    + exists J. lia.
    + rewrite (Hf x) by (try exact Hne; apply elem_of_cons; left; reflexivity).
      exists (f x + J). lia.
Qed.
End CarrySumFacts.

(** ** The greedy fill in exact arithmetic *)

Section FloorFacts.
Lemma floor_take_le (gap : Q) (c take : Z) :
  0 < c -> take <= Qfloor (gap / inject_Z c) ->
  (inject_Z (take * c) <= gap)%Q.
Proof.
  intros Hc Htake.
  assert (Hcq : (0 < inject_Z c)%Q) by (rewrite <- (Zlt_Qlt 0); exact Hc).
  rewrite inject_Z_mult.
  apply Qle_trans with (inject_Z (Qfloor (gap / inject_Z c)) * inject_Z c)%Q.
  - apply Qmult_le_compat_r; [| lra]. rewrite <- Zle_Qle. exact Htake.
  - apply Qle_trans with (gap / inject_Z c * inject_Z c)%Q.
    + apply Qmult_le_compat_r; [apply Qfloor_le | lra].
    + unfold Qdiv. rewrite <- Qmult_assoc, (Qmult_comm (/ inject_Z c)), Qmult_inv_r; lra.
Qed.

Lemma floor_take_gap (gap : Q) (c : Z) :
  0 < c ->
  (gap - inject_Z (Qfloor (gap / inject_Z c) * c) < inject_Z c)%Q.
Proof.
  intros Hc.
  assert (Hcq : (0 < inject_Z c)%Q) by (rewrite <- (Zlt_Qlt 0); exact Hc).
  pose proof (Qlt_floor (gap / inject_Z c)) as Hlt.
  rewrite inject_Z_plus in Hlt.
  assert (H : (gap / inject_Z c * inject_Z c
               < (inject_Z (Qfloor (gap / inject_Z c)) + inject_Z 1) * inject_Z c)%Q).
  { apply Qmult_lt_compat_r; assumption. }
  assert (Hgap : (gap / inject_Z c * inject_Z c == gap)%Q).
  { unfold Qdiv. rewrite <- Qmult_assoc, (Qmult_comm (/ inject_Z c)), Qmult_inv_r; lra. }
  rewrite Hgap in H. rewrite inject_Z_mult.
  change (inject_Z 1) with 1%Q in H. lra.
Qed.

Lemma floor_nonneg (gap : Q) (c : Z) :
  0 < c -> (0 <= gap)%Q -> 0 <= Qfloor (gap / inject_Z c).
Proof.
  intros Hc Hgap.
  assert (Hcq : (0 < inject_Z c)%Q) by (rewrite <- (Zlt_Qlt 0); exact Hc).
  change 0 with (Qfloor (inject_Z 0)). apply Qfloor_resp_le.
  apply Qle_shift_div_l; [exact Hcq |]. change (inject_Z 0) with 0%Q. lra.
Qed.
End FloorFacts.

(** ** The greedy fill in exact arithmetic *)

Section GreedyExact.
Import Scavenge CarrySum.
Variable carries : gmap string Z.
Variable ks : list string.
Variable qmax : Z.
Hypothesis ks_nodup : NoDup ks.
Hypothesis carries_positive : forall u, u ∈ ks -> 0 < carry_of carries u <= qmax.

Local Abbreviation cap d := (carry_sum carries ks (unit_count d)).

(** One tier in exact arithmetic: [filled] is the carry of the troops
    taken, it never passes the target, and it stops less than one unit
    carry short of it unless the pool runs dry. *)
Lemma fill_tier_exact (target : Q) (units : list string) :
  forall (troops remaining : list (string * Z)) (filled : Q),
    NoDup units ->
    (forall u, u ∈ units -> u ∈ ks) ->
    (forall u, u ∈ units -> u ∉ Dict.keys troops) ->
    (forall u, 0 <= unit_count remaining u) ->
    (filled <= target)%Q ->
    let r := fill_tier Float.exact carries target units troops remaining filled in
    (r.2 == filled + inject_Z (cap r.1.1 - cap troops))%Q
    /\ (filled <= r.2)%Q /\ (r.2 <= target)%Q
    /\ ((target - r.2 < inject_Z qmax)%Q
        \/ forall u, u ∈ units -> unit_count r.1.2 u = 0).
Proof.
  induction units as [| x units IH];
    intros troops remaining filled Hnd Hks Hfresh Hrem Hfilled.
  - cbn [fill_tier fst snd]. rewrite Z.sub_diag. repeat split; try lra.
    + change (inject_Z 0) with 0%Q. lra.
    + right. intros u Hu. apply elem_of_nil in Hu. destruct Hu.
  - apply NoDup_cons in Hnd as [Hx Hnd].
    assert (Hxks : x ∈ ks) by (apply Hks; apply elem_of_cons; left; reflexivity).
    assert (Hks' : forall u, u ∈ units -> u ∈ ks).
    { intros u Hu. apply Hks. apply elem_of_cons. right. exact Hu. }
    assert (Hfresh' : forall u, u ∈ units -> u ∉ Dict.keys troops).
    { intros u Hu. apply Hfresh. apply elem_of_cons. right. exact Hu. }
    destruct (carries_positive x Hxks) as [Hc Hcq].
    assert (Hqmax : (0 < inject_Z qmax)%Q) by (rewrite <- (Zlt_Qlt 0); lia).
    cbn [fill_tier]. fold (unit_count remaining x).
    destruct (Z.leb_spec (unit_count remaining x) 0) as [Havail | Havail].
    { (* nothing of this unit is left *)
      destruct (IH troops remaining filled Hnd Hks' Hfresh' Hrem Hfilled)
        as (H1 & H2 & H3 & H4).
      destruct (fill_tier_counts Float.exact carries target units troops remaining
                  filled Hnd Hfresh') as (_ & C2 & C3 & _).
      cbn zeta in *. repeat split; auto.
      destruct H4 as [H4 | H4]; [left; exact H4 | right].
      intros u Hu. apply elem_of_cons in Hu as [-> | Hu]; [| apply H4; exact Hu].
      specialize (C2 x). specialize (C3 x (Hrem x)). specialize (Hrem x). lia. }
    replace (carry_of carries x <=? 0) with false by (symmetry; apply Z.leb_gt; exact Hc).
    cbn [Float.le0 Float.sub Float.exact Float.floor Float.div Float.of_int Float.add].
    destruct (Qle_bool (target - filled) 0) eqn:Egap.
    { (* break *)
      apply Qle_bool_iff in Egap. cbn [fst snd]. rewrite Z.sub_diag.
      change (inject_Z 0) with 0%Q. repeat split; try lra. }
    assert (Hgap : (0 < target - filled)%Q).
    { apply Qlt_bool_true. unfold Qlt_bool. rewrite Egap. reflexivity. }
    set (gap := (target - filled)%Q) in *.
    set (fl := Qfloor (gap / inject_Z (carry_of carries x))).
    assert (Hfl : 0 <= fl) by (apply floor_nonneg; [exact Hc | lra]).
    set (take := Z.min (unit_count remaining x) fl).
    destruct (Z.ltb_spec 0 take) as [Htake | Htake].
    + (* some units are taken *)
      assert (Htake_le : (inject_Z (take * carry_of carries x) <= gap)%Q).
      { apply floor_take_le; [exact Hc | unfold take, fl; lia]. }
      assert (Htake_pos : (0 <= inject_Z (take * carry_of carries x))%Q).
      { rewrite <- (Zle_Qle 0). nia. }
      destruct (IH (Dict.set troops x take)
                   (Dict.set remaining x (unit_count remaining x - take))
                   (filled + inject_Z (take * carry_of carries x))%Q
                   Hnd Hks')
        as (H1 & H2 & H3 & H4).
      { intros u Hu Hin. apply keys_set_elem in Hin as [-> | Hin]; [contradiction |].
        exact (Hfresh' u Hu Hin). }
      { intros u. destruct (decide (x = u)) as [<- | Hne].
        - rewrite unit_count_set_eq. unfold take. lia.
        - rewrite unit_count_set_ne by exact Hne. apply Hrem. }
      { unfold gap in Htake_le. lra. }
      destruct (fill_tier_counts Float.exact carries target units
                  (Dict.set troops x take)
                  (Dict.set remaining x (unit_count remaining x - take))
                  (filled + inject_Z (take * carry_of carries x))%Q Hnd)
        as (_ & C2 & C3 & _).
      { intros u Hu Hin. apply keys_set_elem in Hin as [-> | Hin]; [contradiction |].
        exact (Hfresh' u Hu Hin). }
      cbn zeta in *.
      set (r := fill_tier Float.exact carries target units (Dict.set troops x take)
                  (Dict.set remaining x (unit_count remaining x - take))
                  (filled + inject_Z (take * carry_of carries x))%Q) in *.
      assert (Hcap : cap (Dict.set troops x take)
                     = cap troops + take * carry_of carries x).
      { rewrite (carry_sum_update carries ks (unit_count troops)
                   (unit_count (Dict.set troops x take)) x ks_nodup Hxks).
        - rewrite unit_count_set_eq.
          rewrite (unit_count_notin troops x)
            by (apply Hfresh; apply elem_of_cons; left; reflexivity).
          lia.
        - intros u Hu. apply unit_count_set_ne. congruence. }
      repeat split.
      * rewrite H1, Hcap.
        replace (cap r.1.1 - (cap troops + take * carry_of carries x))
          with ((cap r.1.1 - cap troops) + - (take * carry_of carries x)) by lia.
        rewrite inject_Z_plus, inject_Z_opp. lra.
      * lra.
      * exact H3.
      * destruct H4 as [H4 | H4]; [left; exact H4 |].
        destruct (Z.eq_dec take (unit_count remaining x)) as [Heq | Hneq].
        -- right. intros u Hu.
           apply elem_of_cons in Hu as [-> | Hu]; [| apply H4; exact Hu].
           specialize (C2 x). rewrite unit_count_set_eq in C2.
           assert (0 <= unit_count r.1.2 x).
           { apply C3. rewrite unit_count_set_eq. lia. }
           lia.
        -- left. assert (Htf : take = fl) by (unfold take in *; lia).
           pose proof (floor_take_gap gap (carry_of carries x) Hc) as Hg.
           fold fl in Hg. rewrite <- Htf in Hg.
           assert (inject_Z (carry_of carries x) <= inject_Z qmax)%Q
             by (rewrite <- Zle_Qle; exact Hcq).
           unfold gap in Hg. lra.
    + (* not even one unit fits *)
      destruct (IH troops remaining filled Hnd Hks' Hfresh' Hrem Hfilled)
        as (H1 & H2 & H3 & H4).
      cbn zeta in *. repeat split; auto.
      left. assert (Hz : fl = 0) by (unfold take in Htake; lia).
      pose proof (floor_take_gap gap (carry_of carries x) Hc) as Hg.
      fold fl in Hg. rewrite Hz in Hg. change (inject_Z (0 * _)) with 0%Q in Hg.
      assert (inject_Z (carry_of carries x) <= inject_Z qmax)%Q
        by (rewrite <- Zle_Qle; exact Hcq).
      unfold gap in Hg. lra.
Qed.

Variable total : Z.
Variable weights : list (Z * Q).
Variable W : Q.
Variable dump : Z.

Local Abbreviation tier_target := (CarrySum.tier_target total weights W).
Local Abbreviation targets_sum := (CarrySum.targets_sum total weights W dump).
Local Abbreviation filled_sum := (CarrySum.filled_sum carries ks dump).

Lemma targets_sum_nonneg (todo : list Z) :
  (forall t, t ∈ todo -> (0 <= tier_target t)%Q) -> (0 <= targets_sum todo)%Q.
Proof.
  induction todo as [| t todo IH]; cbn; intros HT; [lra |].
  assert (0 <= targets_sum todo)%Q.
  { apply IH. intros t' Ht'. apply HT. apply elem_of_cons. right. exact Ht'. }
  assert (0 <= tier_target t)%Q by (apply HT; apply elem_of_cons; left; reflexivity).
  destruct (decide (t = dump)); [assumption |]. fold (targets_sum todo). lra.
Qed.

Lemma filled_sum_ext (a a' : list (Z * list (string * Z))) (todo : list Z) :
  (forall t, t ∈ todo -> t <> dump -> tier_troops a t = tier_troops a' t) ->
  filled_sum a todo = filled_sum a' todo.
Proof.
  induction todo as [| t todo IH]; cbn; intros Hext; [reflexivity |].
  fold (filled_sum a todo). fold (filled_sum a' todo).
  rewrite IH by (intros t' Ht' Hd; apply Hext; [apply elem_of_cons; right |]; assumption).
  destruct (decide (t = dump)); [reflexivity |].
  rewrite Hext; [reflexivity | apply elem_of_cons; left; reflexivity | assumption].
Qed.

Lemma cap_nil : cap [] = 0.
Proof. apply carry_sum_zero. reflexivity. Qed.

(** The loop over the tiers in exact arithmetic: every tier but the dump
    tier ends within one unit carry below its target. *)
Lemma fill_tiers_exact (todo : list Z) :
  forall (allocations : list (Z * list (string * Z)))
         (remaining : list (string * Z)),
    NoDup todo ->
    NoDup (Dict.keys allocations) ->
    Dict.keys remaining = ks ->
    (forall t, t ∈ todo -> t ∈ Dict.keys allocations /\ tier_troops allocations t = []) ->
    (forall t, t ∈ todo -> (0 <= tier_target t)%Q) ->
    (forall u, 0 <= unit_count remaining u) ->
    (targets_sum todo < inject_Z (cap remaining))%Q ->
    let r := fill_tiers Float.exact carries total weights W dump todo
               allocations remaining in
    (forall t, t ∈ todo -> t <> dump ->
       (inject_Z (cap (tier_troops r.1 t)) <= tier_target t)%Q
       /\ (tier_target t - inject_Z (cap (tier_troops r.1 t)) < inject_Z qmax)%Q
       /\ NoDup (Dict.keys (tier_troops r.1 t))
       /\ (forall u, u ∈ Dict.keys (tier_troops r.1 t) -> u ∈ ks)
       /\ (forall u, 0 <= unit_count (tier_troops r.1 t) u))
    /\ cap r.2 = cap remaining - filled_sum r.1 todo.
Proof.
  induction todo as [| tier todo IH];
    intros allocations remaining Hnd Hnda Hkeys Hempty HT Hrem Hsum.
  - cbn [fill_tiers fst snd]. split.
    + intros t Ht. apply elem_of_nil in Ht. destruct Ht.
    + cbn. lia.
  - apply NoDup_cons in Hnd as [Htier Hnd].
    assert (Hempty' : forall t, t ∈ todo ->
              t ∈ Dict.keys allocations /\ tier_troops allocations t = []).
    { intros t Ht. apply Hempty. apply elem_of_cons. right. exact Ht. }
    assert (HT' : forall t, t ∈ todo -> (0 <= tier_target t)%Q).
    { intros t Ht. apply HT. apply elem_of_cons. right. exact Ht. }
    cbn [fill_tiers]. cbn [targets_sum fold_right] in Hsum. fold (targets_sum todo) in Hsum.
    destruct (decide (tier = dump)) as [Hdump | Hdump].
    + destruct (IH allocations remaining Hnd Hnda Hkeys Hempty' HT' Hrem Hsum)
        as [H1 H2].
      cbn zeta in *. split.
      * intros t Ht Hd. apply elem_of_cons in Ht as [-> | Ht]; [contradiction |].
        apply H1; assumption.
      * rewrite H2. cbn. destruct (decide (tier = dump)); [reflexivity | contradiction].
    + destruct (Hempty tier) as [Hin Hnil]; [apply elem_of_cons; left; reflexivity |].
      fold (tier_troops allocations tier). rewrite Hnil.
      change (Float.div Float.exact
                (Float.mul Float.exact (Float.of_int Float.exact total)
                   (Dict.get_or weights tier (Float.of_int Float.exact 0))) W)
        with (tier_target tier).
      change (Float.lit Float.exact 0) with 0%Q.
      set (units := sorted_desc (carry_of carries) (Dict.keys remaining)).
      assert (Hperm : units ≡ₚ ks).
      { unfold units. rewrite sorted_desc_perm, Hkeys. reflexivity. }
      assert (Hunits : NoDup units) by (rewrite Hperm; exact ks_nodup).
      assert (Hsub : forall u, u ∈ units -> u ∈ ks).
      { intros u Hu. rewrite <- Hperm. exact Hu. }
      assert (HTt : (0 <= tier_target tier)%Q).
      { apply HT. apply elem_of_cons. left. reflexivity. }
      pose proof (targets_sum_nonneg todo HT') as Hrest.
      destruct (fill_tier_exact (tier_target tier) units [] remaining 0%Q
                  Hunits Hsub) as (E1 & E2 & E3 & E4); auto.
      { intros u _. apply not_elem_of_nil. }
      destruct (fill_tier_counts Float.exact carries (tier_target tier) units []
                  remaining 0%Q Hunits)
        as (F1 & F2 & F3 & F4 & F5 & F6 & F7).
      { intros u _. apply not_elem_of_nil. }
      cbn zeta in *.
      destruct (fill_tier Float.exact carries (tier_target tier) units [] remaining 0%Q)
        as [[troops remaining'] filled'].
      cbn [fst snd] in *.
      rewrite cap_nil, Z.sub_0_r, Qplus_0_l in E1.
      assert (Hconserve : cap troops + cap remaining' = cap remaining).
      { rewrite <- carry_sum_plus. apply carry_sum_ext. intros u _.
        rewrite F1. change (unit_count [] u) with 0. lia. }
      assert (Hshort : (tier_target tier - filled' < inject_Z qmax)%Q).
      { destruct E4 as [E4 | E4]; [exact E4 | exfalso].
        assert (Hz : cap remaining' = 0).
        { apply carry_sum_zero. intros u Hu. apply E4. rewrite Hperm. exact Hu. }
        assert (Heq : (filled' == inject_Z (cap remaining))%Q).
        { rewrite E1. rewrite <- Hconserve, Hz, Z.add_0_r. reflexivity. }
        lra. }
      assert (Hle : cap troops <= cap remaining).
      { pose proof (carry_sum_nonneg carries ks (unit_count remaining')) as Hn.
        assert (0 <= cap remaining').
        { apply Hn; [intros u _; apply F3, Hrem |].
          intros u Hu. destruct (carries_positive u Hu). lia. }
        lia. }
      destruct (IH (Dict.set allocations tier troops) remaining' Hnd) as [H1 H2].
      { apply keys_set_NoDup. exact Hnda. }
      { rewrite F5. exact Hkeys. }
      { intros t Ht. destruct (Hempty' t Ht) as [Hk Hn]. split.
        - apply keys_set_elem. right. exact Hk.
        - rewrite tier_troops_set_ne; [exact Hn |]. intros ->. contradiction. }
      { exact HT'. }
      { intros u. apply F3, Hrem. }
      { replace (cap remaining') with (cap remaining - cap troops) by lia.
        unfold Z.sub. rewrite inject_Z_plus, inject_Z_opp. lra. }
      destruct (fill_tiers_counts Float.exact carries total weights W dump todo
                  (Dict.set allocations tier troops) remaining' Hnd)
        as (_ & _ & _ & _ & _ & G6).
      { apply keys_set_NoDup. exact Hnda. }
      { rewrite F5, Hkeys. exact ks_nodup. }
      { intros t Ht. destruct (Hempty' t Ht) as [Hk Hn]. split.
        - apply keys_set_elem. right. exact Hk.
        - rewrite tier_troops_set_ne; [exact Hn |]. intros ->. contradiction. }
      cbn zeta in *.
      set (r := fill_tiers Float.exact carries total weights W dump todo
                  (Dict.set allocations tier troops) remaining') in *.
      assert (Htroops : tier_troops r.1 tier = troops).
      { rewrite G6 by (left; exact Htier). apply tier_troops_set_eq. }
      split.
      * intros t Ht Hd. apply elem_of_cons in Ht as [-> | Ht]; [| apply H1; assumption].
        rewrite Htroops. repeat split.
        -- rewrite <- E1. exact E3.
        -- rewrite <- E1. exact Hshort.
        -- apply F6. constructor.
        -- intros u Hu. destruct (F7 u Hu) as [Hu' | Hu'];
             [apply elem_of_nil in Hu'; destruct Hu' | apply Hsub; exact Hu'].
        -- intros u. apply F4. change (unit_count [] u) with 0. lia.
      * rewrite H2. cbn [filled_sum fold_right]. fold (filled_sum r.1 todo).
        destruct (decide (tier = dump)); [contradiction |].
        rewrite Htroops. lia.
Qed.

(** *** The greedy fill over units sorted by carry *)

(** The carry a tier took from the units that carry at least as much as
    [u], on top of the troops [d0] it started with. *)
Local Abbreviation upper u d d0 :=
  (carry_sum carries ks
     (fun v => if carry_of carries u <=? carry_of carries v
               then unit_count d v - unit_count d0 v else 0)).

(** When the units are tried in descending order of carry, a unit that is
    not used up leaves a gap smaller than its own carry already among the
    units that carry at least as much. *)
Lemma fill_tier_sorted (target : Q) (units : list string) :
  forall (troops remaining : list (string * Z)) (filled : Q),
    NoDup units ->
    (forall u, u ∈ units -> u ∈ ks) ->
    (forall u, u ∈ units -> u ∉ Dict.keys troops) ->
    (forall u, 0 <= unit_count remaining u) ->
    descending (carry_of carries) units ->
    let r := fill_tier Float.exact carries target units troops remaining filled in
    forall u, u ∈ units -> 0 < unit_count r.1.2 u ->
      (target - filled - inject_Z (upper u r.1.1 troops)
       < inject_Z (carry_of carries u))%Q.
Proof.
  induction units as [| x units IH];
    intros troops remaining filled Hnd Hks Hfresh Hrem Hdesc.
  - intros r u Hu. apply elem_of_nil in Hu. destruct Hu.
  - apply NoDup_cons in Hnd as [Hx Hnd]. destruct Hdesc as [Hxmax Hdesc].
    assert (Hxks : x ∈ ks) by (apply Hks; apply elem_of_cons; left; reflexivity).
    assert (Hks' : forall u, u ∈ units -> u ∈ ks).
    { intros u Hu. apply Hks. apply elem_of_cons. right. exact Hu. }
    assert (Hfresh' : forall u, u ∈ units -> u ∉ Dict.keys troops).
    { intros u Hu. apply Hfresh. apply elem_of_cons. right. exact Hu. }
    assert (Hcpos : forall u, u ∈ ks -> 0 <= carry_of carries u).
    { intros u Hu. destruct (carries_positive u Hu). lia. }
    destruct (carries_positive x Hxks) as [Hc Hcq].
    (* what holds when the state is not changed by [x] *)
    assert (Hsame :
      let r := fill_tier Float.exact carries target units troops remaining filled in
      ((target - filled < inject_Z (carry_of carries x))%Q
       \/ unit_count remaining x <= 0) ->
      forall u, u ∈ x :: units -> 0 < unit_count r.1.2 u ->
        (target - filled - inject_Z (upper u r.1.1 troops)
         < inject_Z (carry_of carries u))%Q).
    { intros r Hgapx u Hu Hleft.
      destruct (fill_tier_counts Float.exact carries target units troops remaining
                  filled Hnd Hfresh') as (C1 & C2 & C3 & _).
      fold r in C1, C2, C3.
      apply elem_of_cons in Hu as [-> | Hu];
        [| apply (IH troops remaining filled Hnd Hks' Hfresh' Hrem Hdesc u Hu Hleft)].
      destruct Hgapx as [Hgapx | Havail]; [| specialize (C2 x); lia].
      assert (0 <= upper x r.1.1 troops).
      { apply carry_sum_nonneg; [| exact Hcpos]. intros v _.
        destruct (_ <=? _); [| lia].
        specialize (C1 v). specialize (C2 v). lia. }
      assert (0 <= inject_Z (upper x r.1.1 troops))%Q by (rewrite <- (Zle_Qle 0); assumption).
      lra. }
    cbn [fill_tier]. fold (unit_count remaining x).
    destruct (Z.leb_spec (unit_count remaining x) 0) as [Havail | Havail].
    { apply Hsame. right. exact Havail. }
    replace (carry_of carries x <=? 0) with false by (symmetry; apply Z.leb_gt; exact Hc).
    cbn [Float.le0 Float.sub Float.exact Float.floor Float.div Float.of_int Float.add].
    destruct (Qle_bool (target - filled) 0) eqn:Egap.
    { (* break *)
      apply Qle_bool_iff in Egap. cbn [fst snd]. intros u Hu _.
      assert (Hz : upper u troops troops = 0).
      { apply carry_sum_zero. intros v _. destruct (_ <=? _); lia. }
      rewrite Hz. change (inject_Z 0) with 0%Q.
      destruct (carries_positive u (Hks u Hu)) as [Hcu _].
      assert (0 < inject_Z (carry_of carries u))%Q by (rewrite <- (Zlt_Qlt 0); exact Hcu).
      lra. }
    assert (Hgap : (0 < target - filled)%Q).
    { apply Qlt_bool_true. unfold Qlt_bool. rewrite Egap. reflexivity. }
    set (gap := (target - filled)%Q) in *.
    set (fl := Qfloor (gap / inject_Z (carry_of carries x))).
    assert (Hfl : 0 <= fl) by (apply floor_nonneg; [exact Hc | lra]).
    pose proof (floor_take_gap gap (carry_of carries x) Hc) as Hg. fold fl in Hg.
    set (take := Z.min (unit_count remaining x) fl).
    destruct (Z.ltb_spec 0 take) as [Htake | Htake].
    + (* some units are taken *)
      assert (Hfresh'' : forall u, u ∈ units -> u ∉ Dict.keys (Dict.set troops x take)).
      { intros u Hu Hin. apply keys_set_elem in Hin as [-> | Hin]; [contradiction |].
        exact (Hfresh' u Hu Hin). }
      assert (Hrem' : forall u, 0 <= unit_count
                                     (Dict.set remaining x (unit_count remaining x - take)) u).
      { intros u. destruct (decide (x = u)) as [<- | Hne].
        - rewrite unit_count_set_eq. unfold take. lia.
        - rewrite unit_count_set_ne by exact Hne. apply Hrem. }
      specialize (IH (Dict.set troops x take)
                     (Dict.set remaining x (unit_count remaining x - take))
                     (filled + inject_Z (take * carry_of carries x))%Q
                     Hnd Hks' Hfresh'' Hrem' Hdesc).
      destruct (fill_tier_counts Float.exact carries target units
                  (Dict.set troops x take)
                  (Dict.set remaining x (unit_count remaining x - take))
                  (filled + inject_Z (take * carry_of carries x))%Q Hnd Hfresh'')
        as (C1 & C2 & C3 & _).
      cbn zeta in *.
      set (r := fill_tier Float.exact carries target units (Dict.set troops x take)
                  (Dict.set remaining x (unit_count remaining x - take))
                  (filled + inject_Z (take * carry_of carries x))%Q) in *.
      assert (Htx : unit_count troops x = 0).
      { apply unit_count_notin. apply Hfresh. apply elem_of_cons. left. reflexivity. }
      assert (Hmono : forall v, unit_count (Dict.set troops x take) v <= unit_count r.1.1 v).
      { intros v. specialize (C1 v). specialize (C2 v). lia. }
      intros u Hu Hleft. apply elem_of_cons in Hu as [-> | Hu].
      * (* [x] itself is not used up *)
        assert (Htf : take = fl).
        { specialize (C2 x). rewrite unit_count_set_eq in C2. unfold take in *. lia. }
        assert (Hup : take * carry_of carries x <= upper x r.1.1 troops).
        { etransitivity; [| apply (carry_sum_ge_term carries ks _ x Hxks)].
          - cbn beta. rewrite Z.leb_refl, Htx.
            specialize (Hmono x). rewrite unit_count_set_eq in Hmono. nia.
          - intros v _. destruct (_ <=? _); [| lia].
            specialize (Hmono v). destruct (decide (x = v)) as [<- | Hne].
            + rewrite unit_count_set_eq in Hmono. lia.
            + rewrite unit_count_set_ne in Hmono by exact Hne. lia.
          - exact Hcpos. }
        rewrite Zle_Qle in Hup. rewrite <- Htf in Hg. unfold gap in *. lra.
      * (* a later unit *)
        specialize (IH u Hu Hleft).
        assert (Hle : carry_of carries u <= carry_of carries x).
        { rewrite Forall_forall in Hxmax. apply Hxmax. exact Hu. }
        assert (Hsplit : upper u r.1.1 troops
                         = upper u r.1.1 (Dict.set troops x take)
                           + take * carry_of carries x).
        { rewrite (carry_sum_update carries ks
                     (fun v => if carry_of carries u <=? carry_of carries v
                               then unit_count r.1.1 v
                                    - unit_count (Dict.set troops x take) v else 0)
                     (fun v => if carry_of carries u <=? carry_of carries v
                               then unit_count r.1.1 v - unit_count troops v else 0)
                     x ks_nodup Hxks).
          - cbn beta. replace (carry_of carries u <=? carry_of carries x) with true
              by (symmetry; apply Z.leb_le; exact Hle).
            rewrite unit_count_set_eq, Htx. f_equal. lia.
          - intros v Hv. rewrite unit_count_set_ne by congruence. reflexivity. }
        rewrite Hsplit, inject_Z_plus. unfold gap in *. lra.
    + (* not even one unit fits *)
      apply Hsame. left.
      assert (Hz : fl = 0) by (unfold take in Htake; lia).
      rewrite Hz in Hg. change (inject_Z (0 * _)) with 0%Q in Hg.
      unfold gap in *. lra.
Qed.

(** Once only units of carry [qmax] are left in the pool, every tier
    receives a multiple of [qmax]. *)
Lemma fill_tiers_uniform (todo : list Z) :
  forall (allocations : list (Z * list (string * Z)))
         (remaining : list (string * Z)),
    NoDup todo ->
    NoDup (Dict.keys allocations) ->
    Dict.keys remaining = ks ->
    (forall t, t ∈ todo -> t ∈ Dict.keys allocations /\ tier_troops allocations t = []) ->
    (forall u, 0 <= unit_count remaining u) ->
    (forall u, u ∈ ks -> unit_count remaining u <> 0 -> carry_of carries u = qmax) ->
    let r := fill_tiers Float.exact carries total weights W dump todo
               allocations remaining in
    forall t, t ∈ todo -> t <> dump -> exists J, cap (tier_troops r.1 t) = qmax * J.
Proof.
  induction todo as [| tier todo IH];
    intros allocations remaining Hnd Hnda Hkeys Hempty Hrem Hunif.
  - intros r t Ht. apply elem_of_nil in Ht. destruct Ht.
  - apply NoDup_cons in Hnd as [Htier Hnd].
    assert (Hempty' : forall t, t ∈ todo ->
              t ∈ Dict.keys allocations /\ tier_troops allocations t = []).
    { intros t Ht. apply Hempty. apply elem_of_cons. right. exact Ht. }
    cbn [fill_tiers].
    destruct (decide (tier = dump)) as [Hdump | Hdump].
    + intros t Ht Hd. apply elem_of_cons in Ht as [-> | Ht]; [contradiction |].
      apply (IH allocations remaining Hnd Hnda Hkeys Hempty' Hrem Hunif t Ht Hd).
    + destruct (Hempty tier) as [Hin Hnil]; [apply elem_of_cons; left; reflexivity |].
      fold (tier_troops allocations tier). rewrite Hnil.
      set (target := Float.div Float.exact
                       (Float.mul Float.exact (Float.of_int Float.exact total)
                          (Dict.get_or weights tier (Float.of_int Float.exact 0))) W).
      set (units := sorted_desc (carry_of carries) (Dict.keys remaining)).
      assert (Hperm : units ≡ₚ ks).
      { unfold units. rewrite sorted_desc_perm, Hkeys. reflexivity. }
      assert (Hunits : NoDup units) by (rewrite Hperm; exact ks_nodup).
      destruct (fill_tier_counts Float.exact carries target units []
                  remaining (Float.lit Float.exact 0) Hunits)
        as (F1 & F2 & F3 & F4 & F5 & F6 & F7).
      { intros u _. apply not_elem_of_nil. }
      cbn zeta in *.
      destruct (fill_tier Float.exact carries target units [] remaining
                  (Float.lit Float.exact 0))
        as [[troops remaining'] filled'].
      cbn [fst snd] in *.
      assert (Hnda' : NoDup (Dict.keys (Dict.set allocations tier troops)))
        by (apply keys_set_NoDup; exact Hnda).
      assert (Hempty'' : forall t, t ∈ todo ->
                t ∈ Dict.keys (Dict.set allocations tier troops)
                /\ tier_troops (Dict.set allocations tier troops) t = []).
      { intros t Ht. destruct (Hempty' t Ht) as [Hk Hn]. split.
        - apply keys_set_elem. right. exact Hk.
        - rewrite tier_troops_set_ne; [exact Hn |]. intros ->. contradiction. }
      specialize (IH (Dict.set allocations tier troops) remaining' Hnd Hnda').
      destruct (fill_tiers_counts Float.exact carries total weights W dump todo
                  (Dict.set allocations tier troops) remaining' Hnd Hnda')
        as (_ & _ & _ & _ & _ & G6).
      { rewrite F5, Hkeys. exact ks_nodup. }
      { exact Hempty''. }
      cbn zeta in *.
      set (r := fill_tiers Float.exact carries total weights W dump todo
                  (Dict.set allocations tier troops) remaining') in *.
      intros t Ht Hd. apply elem_of_cons in Ht as [-> | Ht].
      * rewrite G6 by (left; exact Htier). rewrite tier_troops_set_eq.
        apply carry_sum_multiple. intros u Hu Hne. apply Hunif; [exact Hu |].
        specialize (F1 u). specialize (F2 u). specialize (F3 u (Hrem u)).
        change (unit_count [] u) with 0 in F1. lia.
      * apply IH; [| exact Hempty'' | | | exact Ht | exact Hd].
        -- rewrite F5. exact Hkeys.
        -- intros u. apply F3, Hrem.
        -- intros u Hu Hne. apply Hunif; [exact Hu |].
           specialize (F2 u). specialize (F3 u (Hrem u)). specialize (Hrem u). lia.
Qed.

(** The first tier that is filled, from the whole pool.  Either it stops
    less than three quarters of [qmax] short of its target, or every smaller
    unit went to it in full and its target is less than one more unit of
    carry [qmax] away from the units of carry [qmax] it took; then only
    such units are left for the later tiers. *)
Lemma fill_tiers_first (t1 : Z) (rest : list Z) :
  forall (allocations : list (Z * list (string * Z)))
         (remaining : list (string * Z)),
    NoDup (t1 :: rest) ->
    NoDup (Dict.keys allocations) ->
    Dict.keys remaining = ks ->
    (forall t, t ∈ t1 :: rest ->
               t ∈ Dict.keys allocations /\ tier_troops allocations t = []) ->
    (forall t, t ∈ t1 :: rest -> (0 <= tier_target t)%Q) ->
    (forall u, 0 <= unit_count remaining u) ->
    (targets_sum (t1 :: rest) < inject_Z (cap remaining))%Q ->
    t1 <> dump ->
    (forall u, u ∈ ks -> carry_of carries u < qmax -> 4 * carry_of carries u <= 3 * qmax) ->
    let r := fill_tiers Float.exact carries total weights W dump (t1 :: rest)
               allocations remaining in
    (4 * (tier_target t1 - inject_Z (cap (tier_troops r.1 t1))) < 3 * inject_Z qmax)%Q
    \/ exists N J R,
         0 <= R
         /\ cap remaining = qmax * N + R
         /\ cap (tier_troops r.1 t1) = qmax * J + R
         /\ (tier_target t1 < inject_Z (qmax * (J + 1)))%Q
         /\ forall t, t ∈ rest -> t <> dump ->
                      exists J', cap (tier_troops r.1 t) = qmax * J'.
Proof.
  intros allocations remaining Hnd Hnda Hkeys Hempty HT Hrem Hsum Hdump Hspaced.
  apply NoDup_cons in Hnd as [Htier Hnd].
  assert (Hempty' : forall t, t ∈ rest ->
            t ∈ Dict.keys allocations /\ tier_troops allocations t = []).
  { intros t Ht. apply Hempty. apply elem_of_cons. right. exact Ht. }
  assert (HT' : forall t, t ∈ rest -> (0 <= tier_target t)%Q).
  { intros t Ht. apply HT. apply elem_of_cons. right. exact Ht. }
  assert (Hcpos : forall u, u ∈ ks -> 0 <= carry_of carries u).
  { intros u Hu. destruct (carries_positive u Hu). lia. }
  cbn [fill_tiers]. cbn [targets_sum fold_right] in Hsum. fold (targets_sum rest) in Hsum.
  destruct (decide (t1 = dump)) as [| _]; [contradiction |].
  destruct (Hempty t1) as [Hin Hnil]; [apply elem_of_cons; left; reflexivity |].
  fold (tier_troops allocations t1). rewrite Hnil.
  change (Float.div Float.exact
            (Float.mul Float.exact (Float.of_int Float.exact total)
               (Dict.get_or weights t1 (Float.of_int Float.exact 0))) W)
    with (tier_target t1) in *.
  change (Float.lit Float.exact 0) with 0%Q.
  set (units := sorted_desc (carry_of carries) (Dict.keys remaining)).
  assert (Hperm : units ≡ₚ ks).
  { unfold units. rewrite sorted_desc_perm, Hkeys. reflexivity. }
  assert (Hunits : NoDup units) by (rewrite Hperm; exact ks_nodup).
  assert (Hsub : forall u, u ∈ units -> u ∈ ks).
  { intros u Hu. rewrite <- Hperm. exact Hu. }
  assert (HTt : (0 <= tier_target t1)%Q).
  { apply HT. apply elem_of_cons. left. reflexivity. }
  pose proof (targets_sum_nonneg rest HT') as Hrest.
  destruct (fill_tier_exact (tier_target t1) units [] remaining 0%Q
              Hunits Hsub) as (E1 & E2 & E3 & E4); auto.
  { intros u _. apply not_elem_of_nil. }
  pose proof (fill_tier_sorted (tier_target t1) units [] remaining 0%Q Hunits Hsub) as S.
  specialize (S ltac:(intros u _; apply not_elem_of_nil) Hrem
                (sorted_desc_descending (carry_of carries) (Dict.keys remaining))).
  destruct (fill_tier_counts Float.exact carries (tier_target t1) units []
              remaining 0%Q Hunits)
    as (F1 & F2 & F3 & F4 & F5 & F6 & F7).
  { intros u _. apply not_elem_of_nil. }
  cbn zeta in *.
  destruct (fill_tier Float.exact carries (tier_target t1) units [] remaining 0%Q)
    as [[troops remaining'] filled'].
  cbn [fst snd] in *.
  rewrite cap_nil, Z.sub_0_r, Qplus_0_l in E1.
  assert (Hcount0 : forall u, unit_count troops u + unit_count remaining' u
                              = unit_count remaining u).
  { intros u. rewrite F1. change (unit_count [] u) with 0. lia. }
  assert (Htroops_pos : forall u, 0 <= unit_count troops u).
  { intros u. apply F4. change (unit_count [] u) with 0. lia. }
  assert (Hrem'_pos : forall u, 0 <= unit_count remaining' u).
  { intros u. apply F3, Hrem. }
  assert (Hconserve : cap troops + cap remaining' = cap remaining).
  { rewrite <- carry_sum_plus. apply carry_sum_ext. intros u _. apply Hcount0. }
  assert (Hnda' : NoDup (Dict.keys (Dict.set allocations t1 troops)))
    by (apply keys_set_NoDup; exact Hnda).
  assert (Hempty'' : forall t, t ∈ rest ->
            t ∈ Dict.keys (Dict.set allocations t1 troops)
            /\ tier_troops (Dict.set allocations t1 troops) t = []).
  { intros t Ht. destruct (Hempty' t Ht) as [Hk Hn]. split.
    - apply keys_set_elem. right. exact Hk.
    - rewrite tier_troops_set_ne; [exact Hn |]. intros ->. contradiction. }
  destruct (fill_tiers_counts Float.exact carries total weights W dump rest
              (Dict.set allocations t1 troops) remaining' Hnd Hnda')
    as (_ & _ & _ & _ & _ & G6).
  { rewrite F5, Hkeys. exact ks_nodup. }
  { exact Hempty''. }
  pose proof (fill_tiers_uniform rest (Dict.set allocations t1 troops) remaining'
                Hnd Hnda') as U.
  cbn zeta in *.
  set (r := fill_tiers Float.exact carries total weights W dump rest
              (Dict.set allocations t1 troops) remaining') in *.
  assert (Htroops : tier_troops r.1 t1 = troops).
  { rewrite G6 by (left; exact Htier). apply tier_troops_set_eq. }
  rewrite Htroops.
  destruct (decide (Exists (fun u => 0 < unit_count remaining' u
                                     /\ carry_of carries u < qmax) ks))
    as [Hex | Hnone].
  - (* a smaller unit is left over *)
    left. apply Exists_exists in Hex as (u & Hu & Hleft & Hsmall).
    assert (Huu : u ∈ units) by (rewrite Hperm; exact Hu).
    specialize (S u Huu Hleft).
    assert (Hle : upper u troops [] <= cap troops).
    { apply carry_sum_le; [| exact Hcpos]. intros v _.
      change (unit_count [] v) with 0. specialize (Htroops_pos v).
      destruct (_ <=? _); lia. }
    rewrite Zle_Qle in Hle.
    pose proof (Hspaced u Hu Hsmall) as Hsp. rewrite Zle_Qle, !inject_Z_mult in Hsp.
    change (inject_Z 4) with 4%Q in Hsp. change (inject_Z 3) with 3%Q in Hsp.
    lra.
  - (* only units of carry [qmax] are left *)
    right.
    assert (Honly : forall u, u ∈ ks -> unit_count remaining' u <> 0 ->
                              carry_of carries u = qmax).
    { intros u Hu Hne. destruct (carries_positive u Hu) as [_ Hmax].
      destruct (Z.eq_dec (carry_of carries u) qmax) as [Heq | Hneq]; [exact Heq |].
      exfalso. apply Hnone. apply Exists_exists. exists u.
      specialize (Hrem'_pos u). repeat split; [exact Hu | lia | lia]. }
    assert (Hpos : 0 < cap remaining').
    { assert (inject_Z (cap troops) < inject_Z (cap remaining))%Q by (rewrite <- E1; lra).
      rewrite <- Zlt_Qlt in H. lia. }
    assert (Hu0 : exists u0, u0 ∈ ks /\ 0 < unit_count remaining' u0).
    { destruct (decide (Exists (fun u => 0 < unit_count remaining' u) ks)) as [He | Hn].
      - apply Exists_exists in He as (u0 & H1 & H2). exists u0. split; assumption.
      - exfalso. assert (Hz : cap remaining' = 0); [| lia].
        apply carry_sum_zero. intros u Hu.
        destruct (Z.eq_dec (unit_count remaining' u) 0) as [Hz | Hnz]; [exact Hz |].
        exfalso. apply Hn. apply Exists_exists. exists u.
        specialize (Hrem'_pos u). split; [exact Hu | lia]. }
    destruct Hu0 as (u0 & Hu0 & Hleft0).
    assert (Hc0 : carry_of carries u0 = qmax) by (apply Honly; [exact Hu0 | lia]).
    assert (Huu0 : u0 ∈ units) by (rewrite Hperm; exact Hu0).
    specialize (S u0 Huu0 Hleft0).
    (* the parts of a carry sum on the units of carry [qmax] and below *)
    set (top := fun (d : list (string * Z)) (v : string) =>
                  if qmax <=? carry_of carries v then unit_count d v else 0).
    set (low := fun (d : list (string * Z)) (v : string) =>
                  if qmax <=? carry_of carries v then 0 else unit_count d v).
    assert (Hsplit : forall d, cap d = carry_sum carries ks (top d)
                                       + carry_sum carries ks (low d)).
    { intros d. rewrite <- carry_sum_plus. apply carry_sum_ext. intros v _.
      unfold top, low. destruct (_ <=? _); lia. }
    assert (Htop : forall d, exists K, carry_sum carries ks (top d) = qmax * K).
    { intros d. apply carry_sum_multiple. intros v Hv Hne. unfold top in Hne.
      destruct (carries_positive v Hv) as [_ Hmax].
      destruct (Z.leb_spec qmax (carry_of carries v)); [lia | congruence]. }
    destruct (Htop remaining) as [N HN]. destruct (Htop troops) as [J HJ].
    exists N, J, (carry_sum carries ks (low remaining)).
    assert (Hlow : carry_sum carries ks (low troops) = carry_sum carries ks (low remaining)).
    { apply carry_sum_ext. intros v Hv. unfold low.
      destruct (Z.leb_spec qmax (carry_of carries v)) as [| Hlt]; [reflexivity |].
      specialize (Hcount0 v).
      destruct (Z.eq_dec (unit_count remaining' v) 0) as [Hz | Hnz]; [lia |].
      pose proof (Honly v Hv Hnz). lia. }
    assert (Hup : upper u0 troops [] = carry_sum carries ks (top troops)).
    { apply carry_sum_ext. intros v _. unfold top. rewrite Hc0.
      change (unit_count [] v) with 0. destruct (_ <=? _); lia. }
    split; [| split; [| split; [| split]]].
    + apply carry_sum_nonneg; [| exact Hcpos]. intros v _. unfold low.
      specialize (Hrem v). destruct (_ <=? _); lia.
    + rewrite (Hsplit remaining), HN. reflexivity.
    + rewrite (Hsplit troops), HJ, Hlow. reflexivity.
    + rewrite Hup, HJ, Hc0 in S.
      replace (qmax * (J + 1)) with (qmax * J + qmax) by lia.
      rewrite inject_Z_plus. lra.
    + intros t Ht Hd.
      apply U; [| exact Hempty'' | exact Hrem'_pos | exact Honly | exact Ht | exact Hd].
      rewrite F5. exact Hkeys.
Qed.
End GreedyExact.

(** ** Equal-runtime weights *)

Section WeightFacts.
Import Scavenge EqualRuntimeSpec.

Lemma ratio_lookup (t : Z) :
  match Dict.get LOOT_RATIOS t with
  | Some r => t ∈ [1; 2; 3; 4] /\ r = loot_ratio t /\ (0 < r)%Q /\ (r <= 3 # 4)%Q
  | None => t ∉ [1; 2; 3; 4]
  end.
Proof.
  unfold loot_ratio, Dict.get_or, LOOT_RATIOS. cbn [Dict.get].
  destruct (decide (1 = t)) as [<- | H1].
  { cbn. repeat split; try discriminate. apply (bool_decide_unpack _). reflexivity. }
  destruct (decide (2 = t)) as [<- | H2].
  { cbn. repeat split; try discriminate. apply (bool_decide_unpack _). reflexivity. }
  destruct (decide (3 = t)) as [<- | H3].
  { cbn. repeat split; try discriminate. apply (bool_decide_unpack _). reflexivity. }
  destruct (decide (4 = t)) as [<- | H4].
  { cbn. repeat split; try discriminate. apply (bool_decide_unpack _). reflexivity. }
  rewrite !not_elem_of_cons. repeat split; try congruence. apply not_elem_of_nil.
Qed.

Lemma weights_cons (x : Z) (tiers : list Z) :
  equal_runtime_weights Float.exact (x :: tiers)
  = match Dict.get LOOT_RATIOS x with
    | Some r => (x, (1 / r)%Q) :: equal_runtime_weights Float.exact tiers
    | None => equal_runtime_weights Float.exact tiers
    end.
Proof.
  unfold equal_runtime_weights. cbn [omap list_omap].
  destruct (Dict.get LOOT_RATIOS x); reflexivity.
Qed.

Lemma weights_keys_elem (tiers : list Z) (t : Z) :
  t ∈ Dict.keys (equal_runtime_weights Float.exact tiers)
  <-> t ∈ tiers /\ t ∈ [1; 2; 3; 4].
Proof.
  induction tiers as [| x tiers IH].
  - cbn. rewrite !elem_of_nil. tauto.
  - rewrite weights_cons, (elem_of_cons tiers).
    pose proof (ratio_lookup x) as Hx.
    destruct (Dict.get LOOT_RATIOS x) as [r |].
    + destruct Hx as [Hx _]. cbn [Dict.keys map fst].
      fold (Dict.keys (equal_runtime_weights Float.exact tiers)).
      rewrite elem_of_cons, IH. split; [| tauto].
      intros [-> | H]; tauto.
    + rewrite IH. split; [tauto |].
      intros [[-> | H] H']; [contradiction | tauto].
Qed.

Lemma weights_keys_NoDup (tiers : list Z) :
  NoDup tiers -> NoDup (Dict.keys (equal_runtime_weights Float.exact tiers)).
Proof.
  induction tiers as [| x tiers IH]; intros Hnd.
  - constructor.
  - apply NoDup_cons in Hnd as [Hx Hnd]. rewrite weights_cons.
    destruct (Dict.get LOOT_RATIOS x) as [r |]; [| apply IH; exact Hnd].
    cbn [Dict.keys map fst]. apply NoDup_cons. split; [| apply IH; exact Hnd].
    intros Hin. apply weights_keys_elem in Hin. tauto.
Qed.

(** Every active tier is mapped to the inverse of its loot ratio. *)
Lemma weights_get (tiers : list Z) (t : Z) :
  t ∈ tiers -> t ∈ [1; 2; 3; 4] ->
  Dict.get (equal_runtime_weights Float.exact tiers) t = Some (1 / loot_ratio t)%Q.
Proof.
  induction tiers as [| x tiers IH]; intros Ht H14.
  - apply elem_of_nil in Ht. destruct Ht.
  - rewrite weights_cons. pose proof (ratio_lookup x) as Hx.
    destruct (Dict.get LOOT_RATIOS x) as [r |].
    + destruct Hx as (_ & -> & _). cbn [Dict.get].
      destruct (decide (x = t)) as [-> | Hne]; [reflexivity |].
      apply IH; [| exact H14].
      apply elem_of_cons in Ht as [-> | Ht]; [congruence | exact Ht].
    + apply IH; [| exact H14].
      apply elem_of_cons in Ht as [-> | Ht]; [contradiction | exact Ht].
Qed.

Lemma loot_ratio_bounds (t : Z) : (0 < loot_ratio t)%Q /\ (loot_ratio t <= 3 # 4)%Q.
Proof.
  pose proof (ratio_lookup t) as Ht. unfold loot_ratio, Dict.get_or in *.
  destruct (Dict.get LOOT_RATIOS t) as [r |]; cbn.
  - tauto.
  - split; [reflexivity | discriminate].
Qed.
End WeightFacts.

Section TierSums.
Import Scavenge EqualRuntimeSpec.

Lemma tier_sum_cons (f : Z -> Q) (t : Z) (ts : list Z) :
  tier_sum f (t :: ts) = (f t + tier_sum f ts)%Q.
Proof. reflexivity. Qed.

Lemma tier_sum_perm (f : Z -> Q) (ts ts' : list Z) :
  ts ≡ₚ ts' -> (tier_sum f ts == tier_sum f ts')%Q.
Proof.
  induction 1 as [| x l l' _ IH | x y l | l l' l'' _ IH1 _ IH2].
  - reflexivity.
  - rewrite !tier_sum_cons, IH. reflexivity.
  - rewrite !tier_sum_cons. lra.
  - rewrite IH1. exact IH2.
Qed.

Lemma tier_sum_ext (f g : Z -> Q) (ts : list Z) :
  (forall t, t ∈ ts -> (f t == g t)%Q) -> (tier_sum f ts == tier_sum g ts)%Q.
Proof.
  induction ts as [| t ts IH]; intros Hfg; [reflexivity |].
  rewrite !tier_sum_cons, IH.
  - rewrite (Hfg t) by (apply elem_of_cons; left; reflexivity). reflexivity.
  - intros t' Ht'. apply Hfg. apply elem_of_cons. right. exact Ht'.
Qed.

Lemma tier_sum_scale (f : Z -> Q) (a b : Q) (ts : list Z) :
  (tier_sum (fun t => a * f t / b) ts == a * tier_sum f ts / b)%Q.
Proof.
  induction ts as [| t ts IH].
  - cbn. unfold Qdiv. lra.
  - rewrite !tier_sum_cons, IH. unfold Qdiv. lra.
Qed.

Lemma py_sum_fold (ws : list Q) (a : Q) :
  (fold_left Qplus ws a == a + fold_right Qplus 0 ws)%Q.
Proof.
  revert a. induction ws as [| w ws IH]; intros a; cbn; [lra |].
  rewrite IH. lra.
Qed.

(** The sum of the weights, read through the keys of the dict. *)
Lemma py_sum_keys (weights : list (Z * Q)) :
  NoDup (Dict.keys weights) ->
  (py_sum Float.exact (Dict.values weights)
   == tier_sum (fun t => Dict.get_or weights t (inject_Z 0)) (Dict.keys weights))%Q.
Proof.
  unfold py_sum. cbn [Float.add Float.exact Float.of_int].
  rewrite py_sum_fold. change (inject_Z 0) with 0%Q. rewrite Qplus_0_l.
  induction weights as [| [t w] weights IH]; intros Hnd; [reflexivity |].
  cbn in Hnd. apply NoDup_cons in Hnd as [Ht Hnd].
  cbn [Dict.values Dict.keys map fst snd fold_right].
  fold (Dict.values weights). fold (Dict.keys weights).
  rewrite tier_sum_cons, (IH Hnd).
  unfold Dict.get_or at 2. cbn [Dict.get].
  destruct (decide (t = t)); [| congruence]. cbn [default from_option id].
  apply Qplus_comp; [reflexivity |].
  apply tier_sum_ext. intros t' Ht'. unfold Dict.get_or. cbn [Dict.get].
  destruct (decide (t = t')) as [-> | _]; [contradiction | reflexivity].
Qed.

Lemma tier_sum_positive (f : Z -> Q) (ts : list Z) :
  ts <> [] -> (forall t, t ∈ ts -> (0 < f t)%Q) -> (0 < tier_sum f ts)%Q.
Proof.
  induction ts as [| t ts IH]; intros Hne Hf; [congruence |].
  rewrite tier_sum_cons.
  assert (0 < f t)%Q by (apply Hf; apply elem_of_cons; left; reflexivity).
  destruct ts as [| t' ts'].
  - cbn. lra.
  - assert (0 < tier_sum f (t' :: ts'))%Q.
    { apply IH; [discriminate |]. intros x Hx. apply Hf. apply elem_of_cons.
      right. exact Hx. }
    lra.
Qed.

(** At most [4 - dump] tiers lie above the dump tier. *)
Lemma others_above (dump : Z) (ts : list Z) :
  NoDup ts ->
  (forall t, t ∈ ts -> t ∈ [1; 2; 3; 4] /\ dump <= t) ->
  (length (filter (fun t => t <> dump) ts) <= Z.to_nat (4 - dump))%nat.
Proof.
  intros Hnd Hts.
  rewrite <- (length_seqZ (dump + 1) (4 - dump)).
  apply submseteq_length. apply NoDup_submseteq.
  - apply NoDup_filter. exact Hnd.
  - intros t Ht. apply list_elem_of_filter in Ht as [Hne Ht].
    destruct (Hts t Ht) as [H14 Hge]. apply elem_of_seqZ.
    rewrite !elem_of_cons, elem_of_nil in H14. lia.
Qed.
End TierSums.

Section PoolFacts.
Import Scavenge CarrySum.
Variable carries : gmap string Z.

Lemma max_unit_carry_ge (pool : list (string * Z)) (u : string) :
  u ∈ Dict.keys pool -> carry_of carries u <= max_unit_carry carries pool.
Proof.
  induction pool as [| [x c] pool IH]; cbn; intros Hu.
  - apply elem_of_nil in Hu. destruct Hu.
  - fold (max_unit_carry carries pool).
    apply elem_of_cons in Hu as [-> | Hu]; [lia |].
    specialize (IH Hu). lia.
Qed.

Lemma unit_count_positive (d : list (string * Z)) (u : string) :
  Forall (fun e => 0 < e.2) d -> u ∈ Dict.keys d -> 0 < unit_count d u.
Proof.
  induction d as [| [x c] d IH]; intros Hd Hu.
  - apply elem_of_nil in Hu. destruct Hu.
  - apply Forall_cons in Hd as [Hc Hd]. cbn in Hc, Hu. rewrite unit_count_cons.
    destruct (decide (x = u)) as [-> | Hne]; [exact Hc |].
    apply IH; [exact Hd |]. apply elem_of_cons in Hu as [-> | Hu]; [congruence | exact Hu].
Qed.

Lemma carry_sum_positive (ks : list string) (f : string -> Z) :
  ks <> [] -> (forall u, u ∈ ks -> 0 < f u /\ 0 < carry_of carries u) ->
  0 < carry_sum carries ks f.
Proof.
  induction ks as [| x ks IH]; intros Hne Hf; [congruence |].
  rewrite carry_sum_cons.
  destruct (Hf x) as [Hfx Hcx]; [apply elem_of_cons; left; reflexivity |].
  assert (0 <= carry_sum carries ks f).
  { destruct ks as [| y ks']; [cbn; lia |].
    apply Z.lt_le_incl. apply IH; [discriminate |].
    intros u Hu. apply Hf. apply elem_of_cons. right. exact Hu. }
  nia.
Qed.

Lemma keys_nonempty (d : list (string * Z)) : d <> [] -> exists u, u ∈ Dict.keys d.
Proof.
  destruct d as [| [u c] d]; [congruence |]. intros _.
  exists u. cbn. apply elem_of_cons. left. reflexivity.
Qed.

Lemma dump_remaining_keys_elem (remaining : list (string * Z)) :
  forall (troops : list (string * Z)) (u : string),
    u ∈ Dict.keys (dump_remaining remaining troops) ->
    u ∈ Dict.keys troops \/ u ∈ Dict.keys remaining.
Proof.
  unfold dump_remaining.
  induction remaining as [| [x c] remaining IH]; intros troops u Hu; cbn [fold_left] in Hu.
  - left. exact Hu.
  - cbn [Dict.keys map fst]. fold (Dict.keys remaining). rewrite elem_of_cons.
    destruct (IH _ u Hu) as [H | H]; [| tauto].
    destruct (0 <? c); [| tauto].
    apply keys_set_elem in H. tauto.
Qed.
End PoolFacts.

(** ** Whole units of the largest carry *)

(** A tier made of [J] units of carry [q] and of smaller units worth [R],
    out of a pool of [N] units of carry [q] and the same smaller units,
    whose target [a/b] of the pool is less than one more unit away: it is
    at most [(b - 1) / b] of a unit short of its target. *)
Lemma top_tier_multiple (a b q N J R T c : Z) :
  0 < q -> 0 <= R -> 0 < a <= b ->
  T = q * N + R -> c = q * J + R ->
  a * T < b * (q * (J + 1)) ->
  a * T <= b * c + (b - 1) * q.
Proof.
  intros Hq HR Hab -> -> Hlt.
  assert (Hn : a * N - b * J - b < 0) by nia.
  nia.
Qed.

(** The same for the two highest of the tiers 2, 3 and 4, whose targets
    are 3/11 and 2/11 of the pool. *)
Lemma top_two_tiers_multiple (q N J J3 R T c4 c3 : Z) :
  0 < q -> 0 <= R ->
  T = q * N + R -> c4 = q * J + R -> c3 = q * J3 ->
  2 * T < 11 * (q * (J + 1)) -> 3 * T < 11 * (c3 + q) ->
  T <= c3 + 4 * c4 + 4 * q.
Proof.
  intros Hq HR -> -> -> H4 H3.
  assert (Hn4 : 2 * N < 11 * (J + 1)) by nia.
  assert (Hn3 : 3 * N < 11 * (J3 + 1)) by nia.
  assert (Hn : N - J3 - 4 * J <= 4) by lia.
  nia.
Qed.
(** ** Equal runtimes, up to the granularity of the troops *)

Section EqualRuntime.
Import Scavenge CarrySum EqualRuntimeSpec.
Variable tiers : list Z.
Variable available : list (string * Z).
Variable unit_carries : gmap string Z.
Hypothesis tiers_nodup : NoDup tiers.
Hypothesis available_nodup : NoDup (Dict.keys available).
Hypothesis carries_listed :
  forall u, u ∈ Dict.keys (pool_of available) -> 0 < default 0 (unit_carries !! u).
Variables (k0 : Z) (ks' : list Z).
Hypothesis weights_keys :
  Dict.keys (equal_runtime_weights Float.exact tiers) = k0 :: ks'.
Hypothesis pool_nonempty : pool_of available <> [].

Local Abbreviation weights := (equal_runtime_weights Float.exact tiers).
Local Abbreviation pool := (pool_of available).
Local Abbreviation ks := (Dict.keys (pool_of available)).
Local Abbreviation qmax := (max_unit_carry unit_carries (pool_of available)).
Local Abbreviation total := (total_carry_of unit_carries (pool_of available)).
Local Abbreviation W :=
  (py_sum Float.exact (Dict.values (equal_runtime_weights Float.exact tiers))).
Local Abbreviation dump := (min_list k0 ks').
Local Abbreviation todo :=
  (sorted_desc (fun t : Z => t) (Dict.keys (equal_runtime_weights Float.exact tiers))).
Local Abbreviation cap d := (carry_sum unit_carries ks (unit_count d)).
Local Abbreviation target t := (tier_target total weights W t).

Lemma pool_keys_nodup : NoDup ks.
Proof. apply pool_of_keys. exact available_nodup. Qed.

Lemma carries_ok (u : string) :
  u ∈ ks ->
  0 < carry_of unit_carries u <= qmax
  /\ default 0 (unit_carries !! u) = carry_of unit_carries u.
Proof.
  intros Hu. pose proof (carries_listed u Hu) as Hpos.
  pose proof (max_unit_carry_ge unit_carries pool u Hu) as Hmax.
  unfold carry_of in *. destruct (unit_carries !! u); cbn in *; lia.
Qed.

Lemma total_positive : 0 < total /\ total = cap pool.
Proof.
  rewrite (total_carry_sum unit_carries pool pool_keys_nodup). split; [| reflexivity].
  apply carry_sum_positive.
  - destruct (keys_nonempty pool pool_nonempty) as [u Hu]. intros Hnil.
    rewrite Hnil in Hu. apply elem_of_nil in Hu. exact Hu.
  - intros u Hu. split.
    + apply unit_count_positive; [apply pool_of_positive | exact Hu].
    + apply (carries_ok u Hu).
Qed.

Lemma weights_nodup : NoDup (Dict.keys weights).
Proof. apply weights_keys_NoDup. exact tiers_nodup. Qed.

Lemma weight_of (t : Z) :
  t ∈ Dict.keys weights ->
  Dict.get_or weights t (inject_Z 0) = (1 / loot_ratio t)%Q.
Proof.
  intros Ht. apply weights_keys_elem in Ht as [Ht H14].
  unfold Dict.get_or. rewrite (weights_get tiers t Ht H14). reflexivity.
Qed.

Lemma weight_positive (t : Z) :
  t ∈ Dict.keys weights -> (0 < Dict.get_or weights t (inject_Z 0))%Q.
Proof.
  intros Ht. rewrite (weight_of t Ht).
  destruct (loot_ratio_bounds t) as [Hr _].
  unfold Qdiv. rewrite Qmult_1_l. apply Qinv_lt_0_compat. exact Hr.
Qed.

Lemma W_sum :
  (W == tier_sum (fun t => Dict.get_or weights t (inject_Z 0)) (Dict.keys weights))%Q.
Proof. apply py_sum_keys. exact weights_nodup. Qed.

Lemma W_positive : (0 < W)%Q.
Proof.
  rewrite W_sum. apply tier_sum_positive.
  - rewrite weights_keys. discriminate.
  - intros t Ht. apply weight_positive. exact Ht.
Qed.

Lemma todo_perm : todo ≡ₚ Dict.keys weights.
Proof. apply sorted_desc_perm. Qed.

Lemma dump_in : dump ∈ Dict.keys weights.
Proof. rewrite weights_keys. apply min_list_elem. Qed.

Lemma target_positive (t : Z) : t ∈ Dict.keys weights -> (0 < target t)%Q.
Proof.
  intros Ht. unfold tier_target.
  pose proof (weight_positive t Ht). pose proof W_positive.
  destruct total_positive as [Htot _].
  apply Qlt_shift_div_l; [assumption |]. rewrite Qmult_0_l.
  apply Qmult_lt_0_compat; [| assumption].
  rewrite <- (Zlt_Qlt 0). exact Htot.
Qed.

(** The targets of all the tiers add up to the carry of the pool. *)
Lemma targets_total : (tier_sum (fun t => target t) todo == inject_Z total)%Q.
Proof.
  rewrite (tier_sum_perm _ _ _ todo_perm).
  unfold tier_target. rewrite tier_sum_scale, <- W_sum.
  pose proof W_positive. field. lra.
Qed.

Lemma targets_sum_split (ts : list Z) :
  NoDup ts -> dump ∈ ts ->
  (targets_sum total weights W dump ts + target dump
   == tier_sum (fun t => target t) ts)%Q.
Proof.
  induction ts as [| t ts IH]; intros Hnd Hin.
  - apply elem_of_nil in Hin. destruct Hin.
  - apply NoDup_cons in Hnd as [Ht Hnd].
    cbn [targets_sum fold_right]. fold (targets_sum total weights W dump ts).
    rewrite tier_sum_cons.
    destruct (decide (t = dump)) as [-> | Hne].
    + assert (Hrest : (targets_sum total weights W dump ts
                       == tier_sum (fun t => target t) ts)%Q).
      { clear IH Hin Hnd. induction ts as [| x ts IH]; [reflexivity |].
        cbn [targets_sum fold_right]. fold (targets_sum total weights W dump ts).
        rewrite tier_sum_cons.
        apply not_elem_of_cons in Ht as [Hx Ht].
        destruct (decide (x = dump)); [congruence |].
        rewrite (IH Ht). reflexivity. }
      rewrite Hrest. lra.
    + apply elem_of_cons in Hin as [Heq | Hin]; [congruence |].
      rewrite <- (IH Hnd Hin). lra.
Qed.

Local Abbreviation empty_alloc :=
  (map (fun t : Z => (t, @nil (string * Z)))
       (Dict.keys (equal_runtime_weights Float.exact tiers))).
Local Abbreviation loop :=
  (fill_tiers Float.exact unit_carries total weights W dump todo empty_alloc pool).
Local Abbreviation result :=
  (allocate_by_ratio Float.exact available weights (Some unit_carries)).

Lemma todo_nodup : NoDup todo.
Proof. rewrite todo_perm. exact weights_nodup. Qed.

Lemma todo_empty (t : Z) :
  t ∈ todo -> t ∈ Dict.keys empty_alloc /\ tier_troops empty_alloc t = [].
Proof.
  intros Ht. rewrite todo_perm in Ht. rewrite keys_empty_alloc.
  split; [exact Ht | apply tier_troops_empty].
Qed.

Lemma targets_below_total :
  (targets_sum total weights W dump todo < inject_Z (cap pool))%Q.
Proof.
  destruct total_positive as [_ <-].
  pose proof (targets_sum_split todo todo_nodup) as Hsplit.
  rewrite targets_total in Hsplit.
  pose proof (target_positive dump dump_in).
  rewrite <- Hsplit; [lra |]. rewrite todo_perm. exact dump_in.
Qed.

Lemma pool_counts_nonneg (u : string) : 0 <= unit_count pool u.
Proof. apply unit_count_nonneg. apply pool_of_positive. Qed.

(** What the loop over the tiers leaves behind. *)
Lemma loop_exact :
  (forall t, t ∈ todo -> t <> dump ->
     (inject_Z (cap (tier_troops loop.1 t)) <= target t)%Q
     /\ (target t - inject_Z (cap (tier_troops loop.1 t)) < inject_Z qmax)%Q
     /\ NoDup (Dict.keys (tier_troops loop.1 t))
     /\ (forall u, u ∈ Dict.keys (tier_troops loop.1 t) -> u ∈ ks)
     /\ (forall u, 0 <= unit_count (tier_troops loop.1 t) u))
  /\ cap loop.2 = cap pool - filled_sum unit_carries ks dump loop.1 todo.
Proof.
  apply (fill_tiers_exact unit_carries ks qmax pool_keys_nodup
           (fun u Hu => proj1 (carries_ok u Hu)) total weights W dump todo
           empty_alloc pool).
  - exact todo_nodup.
  - rewrite keys_empty_alloc. exact weights_nodup.
  - reflexivity.
  - exact todo_empty.
  - intros t Ht. apply Qlt_le_weak. apply target_positive.
    rewrite <- todo_perm. exact Ht.
  - exact pool_counts_nonneg.
  - exact targets_below_total.
Qed.

Lemma loop_counts :
  Dict.keys loop.1 = Dict.keys weights
  /\ Dict.keys loop.2 = ks
  /\ (forall u, 0 <= unit_count loop.2 u)
  /\ tier_troops loop.1 dump = [].
Proof.
  destruct (fill_tiers_counts Float.exact unit_carries total weights W dump todo
              empty_alloc pool todo_nodup)
    as (_ & H2 & H3 & _ & H5 & H6).
  - rewrite keys_empty_alloc. exact weights_nodup.
  - exact pool_keys_nodup.
  - exact todo_empty.
  - cbn zeta in *. rewrite keys_empty_alloc in H2. repeat split; auto.
    + intros u. apply H5. apply pool_counts_nonneg.
    + rewrite H6 by (right; reflexivity). apply tier_troops_empty.
Qed.

Lemma result_body :
  result = List.filter (fun '(_, troops) => negb (is_empty troops))
             (Dict.set loop.1 dump (dump_remaining loop.2 (tier_troops loop.1 dump))).
Proof.
  apply (allocate_by_ratio_body Float.exact unit_carries available weights
           (Some unit_carries) k0 ks' eq_refl weights_keys).
  - cbn [Float.le0 Float.exact]. pose proof W_positive as HW.
    destruct (Qle_bool W 0) eqn:E; [| reflexivity].
    apply Qle_bool_iff in E. lra.
  - apply total_positive.
Qed.

(** The troops of each tier in the result. *)
Lemma result_troops (t : Z) :
  tier_troops result t
  = if decide (t = dump) then dump_remaining loop.2 [] else tier_troops loop.1 t.
Proof.
  destruct loop_counts as (Hk1 & Hk2 & Hpos & Hdump).
  rewrite result_body, tier_troops_filter.
  - rewrite Hdump. destruct (decide (t = dump)) as [-> | Hne].
    + apply tier_troops_set_eq.
    + apply tier_troops_set_ne. congruence.
  - apply keys_set_NoDup. rewrite Hk1. exact weights_nodup.
Qed.

Lemma dump_troops :
  (forall u, unit_count (dump_remaining loop.2 []) u = unit_count loop.2 u)
  /\ NoDup (Dict.keys (dump_remaining loop.2 []))
  /\ (forall u, u ∈ Dict.keys (dump_remaining loop.2 []) -> u ∈ ks).
Proof.
  destruct loop_counts as (Hk1 & Hk2 & Hpos & Hdump). repeat split.
  - intros u. rewrite dump_remaining_count by (rewrite Hk2; exact pool_keys_nodup).
    change (unit_count [] u) with 0. specialize (Hpos u). lia.
  - apply dump_remaining_keys. constructor.
  - intros u Hu. apply dump_remaining_keys_elem in Hu as [Hu | Hu].
    + apply elem_of_nil in Hu. destruct Hu.
    + rewrite <- Hk2. exact Hu.
Qed.

(** [carry(t)] of the result is the carry sum of the tier's troops. *)
Lemma result_carry (t : Z) :
  t ∈ Dict.keys weights ->
  tier_carry result unit_carries t = cap (tier_troops result t).
Proof.
  intros Ht. unfold tier_carry. rewrite result_troops.
  destruct (decide (t = dump)) as [-> | Hne].
  - destruct dump_troops as (D1 & D2 & D3).
    apply (capacity_sum unit_carries unit_carries ks); auto.
    + exact pool_keys_nodup.
    + intros u. rewrite D1. apply loop_counts.
    + intros u Hu. apply (carries_ok u Hu).
  - destruct loop_exact as [Hl _].
    destruct (Hl t) as (_ & _ & L3 & L4 & L5); [rewrite todo_perm; exact Ht | exact Hne |].
    apply (capacity_sum unit_carries unit_carries ks); auto.
    + exact pool_keys_nodup.
    + intros u Hu. apply (carries_ok u Hu).
Qed.

(** The shortfalls of the tiers above the dump tier add up to less than
    one unit carry each. *)
Lemma deficits_bound (alloc : list (Z * list (string * Z))) (ts : list Z) :
  (forall t, t ∈ ts -> t <> dump ->
     (inject_Z (cap (tier_troops alloc t)) <= target t)%Q
     /\ (target t - inject_Z (cap (tier_troops alloc t)) < inject_Z qmax)%Q) ->
  (0 <= targets_sum total weights W dump ts
        - inject_Z (filled_sum unit_carries ks dump alloc ts))%Q
  /\ (targets_sum total weights W dump ts
       - inject_Z (filled_sum unit_carries ks dump alloc ts)
       <= inject_Z (Z.of_nat (length (filter (fun t => t <> dump) ts)))
          * inject_Z qmax)%Q.
Proof.
  induction ts as [| t ts IH]; intros Hts.
  - change (targets_sum total weights W dump []) with 0%Q.
    change (filled_sum unit_carries ks dump alloc []) with 0.
    change (filter (fun t => t <> dump) []) with (@nil Z).
    change (inject_Z (Z.of_nat (length (@nil Z)))) with 0%Q.
    change (inject_Z 0) with 0%Q. split; lra.
  - cbn [targets_sum filled_sum fold_right].
    fold (targets_sum total weights W dump ts).
    fold (filled_sum unit_carries ks dump alloc ts).
    rewrite filter_cons.
    destruct IH as [IH1 IH2].
    { intros t' Ht' Hd. apply Hts; [apply elem_of_cons; right |]; assumption. }
    destruct (decide (t = dump)) as [-> | Hne].
    + destruct (decide (dump <> dump)) as [Hbad | _];
        [exfalso; apply Hbad; reflexivity |].
      split; assumption.
    + destruct (decide (t <> dump)) as [_ | Hbad]; [| exfalso; apply Hbad; exact Hne].
      destruct (Hts t) as [H1 H2]; [apply elem_of_cons; left; reflexivity | exact Hne |].
      cbn [length]. rewrite Nat2Z.inj_succ, <- Z.add_1_r.
      rewrite !inject_Z_plus. change (inject_Z 1) with 1%Q. split; lra.
Qed.

Lemma dump_ratio_count :
  (inject_Z (Z.of_nat (length (filter (fun t => t <> dump) todo))) * loot_ratio dump
   <= 1 # 2)%Q.
Proof.
  assert (Hlen : (length (filter (fun t => t <> dump) todo) <= Z.to_nat (4 - dump))%nat).
  { apply others_above; [exact todo_nodup |].
    intros t Ht. rewrite todo_perm in Ht. split.
    - apply weights_keys_elem in Ht. tauto.
    - apply min_list_le. rewrite <- weights_keys. exact Ht. }
  pose proof dump_in as Hd. apply weights_keys_elem in Hd as [_ Hd].
  set (n := length (filter (fun t => t <> dump) todo)) in *.
  rewrite !elem_of_cons, elem_of_nil in Hd.
  destruct Hd as [Hd | [Hd | [Hd | [Hd | []]]]]; rewrite Hd in *; cbn in Hlen.
  - apply Qle_trans with (inject_Z 3 * loot_ratio 1)%Q; [| discriminate].
    apply Qmult_le_compat_r; [rewrite <- Zle_Qle; lia | discriminate].
  - apply Qle_trans with (inject_Z 2 * loot_ratio 2)%Q; [| discriminate].
    apply Qmult_le_compat_r; [rewrite <- Zle_Qle; lia | discriminate].
  - apply Qle_trans with (inject_Z 1 * loot_ratio 3)%Q; [| discriminate].
    apply Qmult_le_compat_r; [rewrite <- Zle_Qle; lia | discriminate].
  - apply Qle_trans with (inject_Z 0 * loot_ratio 4)%Q; [| discriminate].
    apply Qmult_le_compat_r; [rewrite <- Zle_Qle; lia | discriminate].
Qed.

Local Abbreviation balance := (inject_Z total / W)%Q.

Lemma target_ratio (t : Z) :
  t ∈ Dict.keys weights -> (target t * loot_ratio t == balance)%Q.
Proof.
  intros Ht. unfold tier_target. rewrite (weight_of t Ht).
  destruct (loot_ratio_bounds t) as [Hr _]. pose proof W_positive.
  field. split; lra.
Qed.

Lemma qmax_positive : (0 < inject_Z qmax)%Q.
Proof.
  destruct (keys_nonempty pool pool_nonempty) as [u Hu].
  destruct (carries_ok u Hu) as [[H1 H2] _].
  rewrite <- (Zlt_Qlt 0). lia.
Qed.

(** A tier above the dump tier: its load is at most the balance and
    less than three quarters of a unit carry below it. *)
Lemma load_above (t : Z) :
  t ∈ Dict.keys weights -> t <> dump ->
  (balance - (3 # 4) * inject_Z qmax < runtime_load result unit_carries t)%Q
  /\ (runtime_load result unit_carries t <= balance)%Q.
Proof.
  intros Ht Hne. unfold runtime_load. rewrite (result_carry t Ht), result_troops.
  destruct (decide (t = dump)); [contradiction |].
  destruct loop_exact as [Hl _].
  destruct (Hl t) as (H1 & H2 & _); [rewrite todo_perm; exact Ht | exact Hne |].
  pose proof (target_ratio t Ht) as HB.
  destruct (loot_ratio_bounds t) as [Hr0 Hr1].
  pose proof qmax_positive as Hq.
  set (c := inject_Z (cap (tier_troops loop.1 t))) in *.
  set (T := target t) in *. set (r := loot_ratio t) in *.
  set (q := inject_Z qmax) in *.
  assert (Hd0 : (0 <= (T - c) * r)%Q) by (apply Qmult_le_0_compat; lra).
  assert (Hd1 : ((T - c) * r < q * r)%Q) by (apply Qmult_lt_compat_r; lra).
  assert (Hd2 : (q * r <= q * (3 # 4))%Q).
  { rewrite !(Qmult_comm q). apply Qmult_le_compat_r; lra. }
  split; lra.
Qed.

(** The dump tier: its load is at least the balance and at most half a
    unit carry above it. *)
Lemma load_dump :
  (balance <= runtime_load result unit_carries dump)%Q
  /\ (runtime_load result unit_carries dump
       <= balance + (1 # 2) * inject_Z qmax)%Q.
Proof.
  unfold runtime_load. rewrite (result_carry dump dump_in), result_troops.
  destruct (decide (dump = dump)); [| congruence].
  destruct dump_troops as (D1 & _ & _).
  rewrite (carry_sum_ext unit_carries ks _ (unit_count loop.2)) by (intros u _; apply D1).
  destruct loop_exact as [Hl Hrest]. rewrite Hrest.
  destruct total_positive as [_ <-].
  destruct (deficits_bound loop.1 todo) as [S0 S1].
  { intros t Ht Hd. destruct (Hl t Ht Hd) as (H1 & H2 & _). split; assumption. }
  pose proof (targets_sum_split todo todo_nodup) as Hsplit.
  rewrite targets_total in Hsplit.
  assert (Hs : (targets_sum total weights W dump todo + target dump == inject_Z total)%Q).
  { apply Hsplit. rewrite todo_perm. exact dump_in. }
  pose proof (target_ratio dump dump_in) as HB.
  pose proof dump_ratio_count as Hn.
  destruct (loot_ratio_bounds dump) as [Hr0 _].
  pose proof qmax_positive as Hq.
  unfold Z.sub. rewrite inject_Z_plus, inject_Z_opp.
  set (S := targets_sum total weights W dump todo) in *.
  set (f := inject_Z (filled_sum unit_carries ks dump loop.1 todo)) in *.
  set (T := target dump) in *. set (r := loot_ratio dump) in *.
  set (q := inject_Z qmax) in *.
  set (n := inject_Z (Z.of_nat (length (filter (fun t => t <> dump) todo)))) in *.
  assert (Hd0 : (0 <= (S - f) * r)%Q) by (apply Qmult_le_0_compat; lra).
  assert (Hd1 : ((S - f) * r <= n * q * r)%Q) by (apply Qmult_le_compat_r; lra).
  assert (Hd2 : (n * r * q <= (1 # 2) * q)%Q) by (apply Qmult_le_compat_r; lra).
  assert (Hs' : (S * r + T * r == inject_Z total * r)%Q) by (rewrite <- Hs; ring).
  split; lra.
Qed.

(** Any two tiers are within five quarters of a unit carry of each other,
    two tiers above the dump tier within three quarters. *)
Lemma loads_close (a b : Z) :
  a ∈ Dict.keys weights -> b ∈ Dict.keys weights ->
  (Qabs (runtime_load result unit_carries a - runtime_load result unit_carries b)
   < (5 # 4) * inject_Z qmax)%Q
  /\ (a <> dump -> b <> dump ->
       (Qabs (runtime_load result unit_carries a - runtime_load result unit_carries b)
        < (3 # 4) * inject_Z qmax)%Q).
Proof.
  intros Ha Hb. pose proof qmax_positive as Hq.
  assert (Hwin : forall t, t ∈ Dict.keys weights ->
            (balance - (3 # 4) * inject_Z qmax < runtime_load result unit_carries t)%Q
            /\ (runtime_load result unit_carries t
                 <= balance + (1 # 2) * inject_Z qmax)%Q
            /\ (t <> dump -> (runtime_load result unit_carries t <= balance)%Q)).
  { intros t Ht. destruct (decide (t = dump)) as [-> | Hne].
    - destruct load_dump. repeat split; try lra. congruence.
    - destruct (load_above t Ht Hne). repeat split; try lra. }
  destruct (Hwin a Ha) as (A1 & A2 & A3). destruct (Hwin b Hb) as (B1 & B2 & B3).
  split.
  - apply Qabs_case; intros _; lra.
  - intros Hane Hbne. specialize (A3 Hane). specialize (B3 Hbne).
    apply Qabs_case; intros _; lra.
Qed.

(** *** Within one unit carry *)

(** From here on, a unit of the pool has either the largest carry of the
    pool or at most three quarters of it. *)
Hypothesis carries_spaced :
  forall u, u ∈ ks -> carry_of unit_carries u < qmax ->
            4 * carry_of unit_carries u <= 3 * qmax.

Lemma keys_range (t : Z) :
  t ∈ Dict.keys weights -> t = 1 \/ t = 2 \/ t = 3 \/ t = 4.
Proof.
  intros Ht. apply weights_keys_elem in Ht as [_ Ht].
  rewrite !elem_of_cons, elem_of_nil in Ht. tauto.
Qed.

(** The order in which the tiers are filled, from the set of the tiers. *)
Lemma todo_is (l : list Z) :
  descending (fun t : Z => t) l -> NoDup l ->
  (forall t, t ∈ Dict.keys weights <-> t ∈ l) -> todo = l.
Proof.
  intros Hd Hnd Hl. apply descending_unique.
  - apply sorted_desc_descending.
  - exact Hd.
  - rewrite todo_perm.
    apply NoDup_Permutation; [exact weights_nodup | exact Hnd | exact Hl].
Qed.

Lemma dump_is (d : Z) :
  d ∈ Dict.keys weights -> (forall t, t ∈ Dict.keys weights -> d <= t) -> dump = d.
Proof.
  intros Hd Hmin. pose proof (Hmin _ dump_in) as H1.
  pose proof (min_list_le k0 ks' d) as H2. rewrite <- weights_keys in H2.
  specialize (H2 Hd). lia.
Qed.

Lemma shortfall (t : Z) :
  t ∈ Dict.keys weights -> t <> dump ->
  (inject_Z (cap (tier_troops loop.1 t)) <= target t)%Q
  /\ (target t - inject_Z (cap (tier_troops loop.1 t)) < inject_Z qmax)%Q.
Proof.
  intros Ht Hne. destruct loop_exact as [Hl _].
  destruct (Hl t) as (H1 & H2 & _); [rewrite todo_perm; exact Ht | exact Hne |].
  split; assumption.
Qed.

Lemma load_of_tier (t : Z) :
  t ∈ Dict.keys weights -> t <> dump ->
  (runtime_load result unit_carries t
   == inject_Z (cap (tier_troops loop.1 t)) * loot_ratio t)%Q.
Proof.
  intros Ht Hne. unfold runtime_load. rewrite (result_carry t Ht), result_troops.
  destruct (decide (t = dump)); [contradiction | reflexivity].
Qed.

Lemma load_of_dump :
  (runtime_load result unit_carries dump
   == (inject_Z total - inject_Z (filled_sum unit_carries ks dump loop.1 todo))
      * loot_ratio dump)%Q.
Proof.
  unfold runtime_load. rewrite (result_carry dump dump_in), result_troops.
  destruct (decide (dump = dump)); [| congruence].
  destruct dump_troops as (D1 & _ & _).
  rewrite (carry_sum_ext unit_carries ks _ (unit_count loop.2)) by (intros u _; apply D1).
  destruct loop_exact as [_ ->]. destruct total_positive as [_ <-].
  unfold Z.sub. rewrite inject_Z_plus, inject_Z_opp. reflexivity.
Qed.

(** A tier above the dump tier is short of the balance by less than its
    loot ratio times a unit carry. *)
Lemma load_above_ratio (t : Z) :
  t ∈ Dict.keys weights -> t <> dump ->
  (balance - loot_ratio t * inject_Z qmax < runtime_load result unit_carries t)%Q.
Proof.
  intros Ht Hne. rewrite (load_of_tier t Ht Hne).
  destruct (shortfall t Ht Hne) as [H1 H2].
  pose proof (target_ratio t Ht) as HB.
  destruct (loot_ratio_bounds t) as [Hr0 Hr1].
  set (c := inject_Z (cap (tier_troops loop.1 t))) in *.
  set (T := target t) in *. set (r := loot_ratio t) in *.
  set (q := inject_Z qmax) in *.
  assert (Hd1 : ((T - c) * r < q * r)%Q) by (apply Qmult_lt_compat_r; lra).
  lra.
Qed.

(** The lowest tier against a tier other than the highest. *)
Lemma low_within_quantum (t : Z) :
  t ∈ Dict.keys weights -> t <> dump -> t <> 4 ->
  (runtime_load result unit_carries t <= runtime_load result unit_carries dump)%Q
  /\ (runtime_load result unit_carries dump - runtime_load result unit_carries t
      < inject_Z qmax)%Q.
Proof.
  intros Ht Hne H4.
  destruct load_dump as [D1 D2]. destruct (load_above t Ht Hne) as [_ A2].
  pose proof (load_above_ratio t Ht Hne) as A1.
  pose proof qmax_positive as Hq.
  assert (Hr : (loot_ratio t <= 1 # 2)%Q).
  { destruct (keys_range t Ht) as [-> | [-> | [-> | ->]]];
      [discriminate | discriminate | discriminate | congruence]. }
  assert (Hrq : (loot_ratio t * inject_Z qmax <= (1 # 2) * inject_Z qmax)%Q)
    by (apply Qmult_le_compat_r; lra).
  split; lra.
Qed.

(** The first tier of the loop, in terms of the pool. *)
Lemma first_tier (t1 : Z) (rest : list Z) :
  todo = t1 :: rest -> t1 <> dump ->
  (4 * (target t1 - inject_Z (cap (tier_troops loop.1 t1))) < 3 * inject_Z qmax)%Q
  \/ exists N J R,
       0 <= R
       /\ total = qmax * N + R
       /\ cap (tier_troops loop.1 t1) = qmax * J + R
       /\ (target t1 < inject_Z (qmax * (J + 1)))%Q
       /\ forall t, t ∈ rest -> t <> dump ->
                    exists J', cap (tier_troops loop.1 t) = qmax * J'.
Proof.
  intros Htodo Hne.
  pose proof (fill_tiers_first unit_carries ks qmax pool_keys_nodup
                (fun u Hu => proj1 (carries_ok u Hu)) total weights W dump
                t1 rest empty_alloc pool) as HF.
  cbn zeta in HF. rewrite <- Htodo in HF.
  destruct total_positive as [_ Htot]. rewrite <- Htot in HF.
  apply HF.
  - exact todo_nodup.
  - rewrite keys_empty_alloc. exact weights_nodup.
  - reflexivity.
  - exact todo_empty.
  - intros t Ht. apply Qlt_le_weak. apply target_positive.
    rewrite <- todo_perm. exact Ht.
  - exact pool_counts_nonneg.
  - pose proof targets_below_total as Hsum. rewrite <- Htot in Hsum. exact Hsum.
  - exact Hne.
  - exact carries_spaced.
Qed.

(** One of the sets of tiers that contain tier 4: the order of the loop
    and the dump tier. *)
Ltac tier_set l d :=
  let Htodo := fresh "Htodo" in
  let Hdump := fresh "Hdump" in
  assert (Htodo : sorted_desc (fun t : Z => t)
                    (Dict.keys (equal_runtime_weights Float.exact tiers)) = l);
  [ apply todo_is;
    [ cbn [descending]; rewrite ?Forall_cons, ?Forall_nil; lia
    | apply (bool_decide_unpack _); vm_compute; exact I
    | let t := fresh "t" in
      let Ht := fresh "Ht" in
      intros t; split;
      [ intros Ht; destruct (keys_range t Ht) as [-> | [-> | [-> | ->]]];
        first [contradiction | rewrite !elem_of_cons; lia]
      | intros Ht; rewrite !elem_of_cons, elem_of_nil in Ht;
        repeat (destruct Ht as [-> | Ht]; [assumption |]); destruct Ht ] ]
  | assert (Hdump : min_list k0 ks' = d);
    [ apply dump_is; [assumption |];
      let t := fresh "t" in
      let Ht := fresh "Ht" in
      intros t Ht; destruct (keys_range t Ht) as [-> | [-> | [-> | ->]]];
      first [lia | contradiction]
    | ] ].

(** The loot ratios, as numbers. *)
Ltac ratios :=
  let r1 := eval vm_compute in (loot_ratio 1) in
  let r2 := eval vm_compute in (loot_ratio 2) in
  let r3 := eval vm_compute in (loot_ratio 3) in
  let r4 := eval vm_compute in (loot_ratio 4) in
  change (loot_ratio 1) with r1 in *; change (loot_ratio 2) with r2 in *;
  change (loot_ratio 3) with r3 in *; change (loot_ratio 4) with r4 in *.

(** The highest tier against the lowest. *)
Lemma top_within_quantum :
  4 ∈ Dict.keys weights -> 4 <> dump ->
  (runtime_load result unit_carries 4 <= runtime_load result unit_carries dump)%Q
  /\ (runtime_load result unit_carries dump - runtime_load result unit_carries 4
      <= inject_Z qmax)%Q.
Proof.
  intros H4 Hne.
  pose proof targets_total as HT.
  pose proof load_of_dump as LD.
  pose proof shortfall as HS.
  pose proof load_of_tier as HL.
  pose proof target_ratio as HR.
  pose proof first_tier as HF.
  pose proof qmax_positive as Hq.
  assert (Hqz : 0 < qmax) by (rewrite Zlt_Qlt; exact Hq).
  set (lp := loop.1) in *. clearbody lp.
  set (res := result) in *. clearbody res.
  set (B := balance) in *. clearbody B.
  destruct (decide (3 ∈ Dict.keys weights)) as [H3 | H3];
    destruct (decide (2 ∈ Dict.keys weights)) as [H2 | H2];
    destruct (decide (1 ∈ Dict.keys weights)) as [H1 | H1].
  - (* tiers 1, 2, 3 and 4 *)
    tier_set [4; 3; 2; 1] 1.
    rewrite Htodo in HT, LD, HF. rewrite Hdump in *.
    cbn [tier_sum fold_right filled_sum] in HT, LD.
    repeat match type of LD with
           | context [decide (?a = ?b)] =>
               destruct (decide (a = b)); try (exfalso; lia)
           end.
    rewrite !inject_Z_plus in LD. change (inject_Z 0) with 0%Q in LD.
    destruct (HS 4 H4 ltac:(lia)) as [S4 S4']. pose proof (HL 4 H4 ltac:(lia)) as L4.
    destruct (HS 3 H3 ltac:(lia)) as [S3 S3'].
    destruct (HS 2 H2 ltac:(lia)) as [S2 S2'].
    pose proof (HR 4 H4) as R4. pose proof (HR 3 H3) as R3.
    pose proof (HR 2 H2) as R2. pose proof (HR 1 H1) as R1.
    ratios.
    destruct (HF 4 [3; 2; 1] eq_refl ltac:(lia))
      as [HB | (N & J & R & HR0 & HN & HJ & HT4 & Hrest)].
    + split; lra.
    + assert (HZ : 1 * total < 13 * (qmax * (J + 1))).
      { rewrite Zlt_Qlt, (inject_Z_mult 1), (inject_Z_mult 13).
        change (inject_Z 1) with 1%Q. change (inject_Z 13) with 13%Q. lra. }
      pose proof (top_tier_multiple 1 13 qmax N J R total _ Hqz HR0 ltac:(lia) HN HJ HZ)
        as HZ'.
      rewrite Zle_Qle, inject_Z_plus, !inject_Z_mult in HZ'.
      change (inject_Z 1) with 1%Q in HZ'. change (inject_Z 13) with 13%Q in HZ'.
      change (inject_Z (13 - 1)) with 12%Q in HZ'.
      split; lra.
  - (* tiers 2, 3 and 4 *)
    tier_set [4; 3; 2] 2.
    rewrite Htodo in HT, LD, HF. rewrite Hdump in *.
    cbn [tier_sum fold_right filled_sum] in HT, LD.
    repeat match type of LD with
           | context [decide (?a = ?b)] =>
               destruct (decide (a = b)); try (exfalso; lia)
           end.
    rewrite !inject_Z_plus in LD. change (inject_Z 0) with 0%Q in LD.
    destruct (HS 4 H4 ltac:(lia)) as [S4 S4']. pose proof (HL 4 H4 ltac:(lia)) as L4.
    destruct (HS 3 H3 ltac:(lia)) as [S3 S3'].
    pose proof (HR 4 H4) as R4. pose proof (HR 3 H3) as R3. pose proof (HR 2 H2) as R2.
    ratios.
    destruct (HF 4 [3; 2] eq_refl ltac:(lia))
      as [HB | (N & J & R & HR0 & HN & HJ & HT4 & Hrest)].
    + split; lra.
    + destruct (Hrest 3) as [J3 HJ3]; [rewrite !elem_of_cons; lia | lia |].
      assert (HZ4 : 2 * total < 11 * (qmax * (J + 1))).
      { rewrite Zlt_Qlt, (inject_Z_mult 2), (inject_Z_mult 11).
        change (inject_Z 2) with 2%Q. change (inject_Z 11) with 11%Q. lra. }
      assert (HZ3 : 3 * total < 11 * (cap (tier_troops lp 3) + qmax)).
      { rewrite Zlt_Qlt, (inject_Z_mult 3), (inject_Z_mult 11), inject_Z_plus.
        change (inject_Z 3) with 3%Q. change (inject_Z 11) with 11%Q. lra. }
      pose proof (top_two_tiers_multiple qmax N J J3 R total _ _ Hqz HR0 HN HJ HJ3 HZ4 HZ3)
        as HZ'.
      rewrite Zle_Qle, !inject_Z_plus, !inject_Z_mult in HZ'.
      change (inject_Z 4) with 4%Q in HZ'.
      split; lra.
  - (* tiers 1, 3 and 4 *)
    tier_set [4; 3; 1] 1.
    rewrite Htodo in HT, LD. rewrite Hdump in *.
    cbn [tier_sum fold_right filled_sum] in HT, LD.
    repeat match type of LD with
           | context [decide (?a = ?b)] =>
               destruct (decide (a = b)); try (exfalso; lia)
           end.
    rewrite !inject_Z_plus in LD. change (inject_Z 0) with 0%Q in LD.
    destruct (HS 4 H4 ltac:(lia)) as [S4 S4']. pose proof (HL 4 H4 ltac:(lia)) as L4.
    destruct (HS 3 H3 ltac:(lia)) as [S3 S3'].
    pose proof (HR 4 H4) as R4. pose proof (HR 3 H3) as R3. pose proof (HR 1 H1) as R1.
    ratios. split; lra.
  - (* tiers 3 and 4 *)
    tier_set [4; 3] 3.
    rewrite Htodo in HT, LD, HF. rewrite Hdump in *.
    cbn [tier_sum fold_right filled_sum] in HT, LD.
    repeat match type of LD with
           | context [decide (?a = ?b)] =>
               destruct (decide (a = b)); try (exfalso; lia)
           end.
    rewrite !inject_Z_plus in LD. change (inject_Z 0) with 0%Q in LD.
    destruct (HS 4 H4 ltac:(lia)) as [S4 S4']. pose proof (HL 4 H4 ltac:(lia)) as L4.
    pose proof (HR 4 H4) as R4. pose proof (HR 3 H3) as R3.
    ratios.
    destruct (HF 4 [3] eq_refl ltac:(lia))
      as [HB | (N & J & R & HR0 & HN & HJ & HT4 & Hrest)].
    + split; lra.
    + assert (HZ : 2 * total < 5 * (qmax * (J + 1))).
      { rewrite Zlt_Qlt, (inject_Z_mult 2), (inject_Z_mult 5).
        change (inject_Z 2) with 2%Q. change (inject_Z 5) with 5%Q. lra. }
      pose proof (top_tier_multiple 2 5 qmax N J R total _ Hqz HR0 ltac:(lia) HN HJ HZ)
        as HZ'.
      rewrite Zle_Qle, inject_Z_plus, !inject_Z_mult in HZ'.
      change (inject_Z 2) with 2%Q in HZ'. change (inject_Z 5) with 5%Q in HZ'.
      change (inject_Z (5 - 1)) with 4%Q in HZ'.
      split; lra.
  - (* tiers 1, 2 and 4 *)
    tier_set [4; 2; 1] 1.
    rewrite Htodo in HT, LD. rewrite Hdump in *.
    cbn [tier_sum fold_right filled_sum] in HT, LD.
    repeat match type of LD with
           | context [decide (?a = ?b)] =>
               destruct (decide (a = b)); try (exfalso; lia)
           end.
    rewrite !inject_Z_plus in LD. change (inject_Z 0) with 0%Q in LD.
    destruct (HS 4 H4 ltac:(lia)) as [S4 S4']. pose proof (HL 4 H4 ltac:(lia)) as L4.
    destruct (HS 2 H2 ltac:(lia)) as [S2 S2'].
    pose proof (HR 4 H4) as R4. pose proof (HR 2 H2) as R2. pose proof (HR 1 H1) as R1.
    ratios. split; lra.
  - (* tiers 2 and 4 *)
    tier_set [4; 2] 2.
    rewrite Htodo in HT, LD. rewrite Hdump in *.
    cbn [tier_sum fold_right filled_sum] in HT, LD.
    repeat match type of LD with
           | context [decide (?a = ?b)] =>
               destruct (decide (a = b)); try (exfalso; lia)
           end.
    rewrite !inject_Z_plus in LD. change (inject_Z 0) with 0%Q in LD.
    destruct (HS 4 H4 ltac:(lia)) as [S4 S4']. pose proof (HL 4 H4 ltac:(lia)) as L4.
    pose proof (HR 4 H4) as R4. pose proof (HR 2 H2) as R2.
    ratios. split; lra.
  - (* tiers 1 and 4 *)
    tier_set [4; 1] 1.
    rewrite Htodo in HT, LD. rewrite Hdump in *.
    cbn [tier_sum fold_right filled_sum] in HT, LD.
    repeat match type of LD with
           | context [decide (?a = ?b)] =>
               destruct (decide (a = b)); try (exfalso; lia)
           end.
    rewrite !inject_Z_plus in LD. change (inject_Z 0) with 0%Q in LD.
    destruct (HS 4 H4 ltac:(lia)) as [S4 S4']. pose proof (HL 4 H4 ltac:(lia)) as L4.
    pose proof (HR 4 H4) as R4. pose proof (HR 1 H1) as R1.
    ratios. split; lra.
  - (* tier 4 alone is its own dump tier *)
    tier_set [4] 4. congruence.
Qed.

(** With such carries, the loads of any two tiers are within one unit
    carry of each other. *)
Lemma loads_within_quantum (a b : Z) :
  a ∈ Dict.keys weights -> b ∈ Dict.keys weights ->
  (Qabs (runtime_load result unit_carries a - runtime_load result unit_carries b)
   <= inject_Z qmax)%Q.
Proof.
  intros Ha Hb. pose proof qmax_positive as Hq.
  assert (Hlow : forall t, t ∈ Dict.keys weights -> t <> dump ->
            (runtime_load result unit_carries t
             <= runtime_load result unit_carries dump)%Q
            /\ (runtime_load result unit_carries dump
                - runtime_load result unit_carries t <= inject_Z qmax)%Q).
  { intros t Ht Hne. destruct (Z.eq_dec t 4) as [-> | H4].
    - apply top_within_quantum; [exact Ht | exact Hne].
    - destruct (low_within_quantum t Ht Hne H4). split; lra. }
  destruct (decide (a = dump)) as [-> | Hane];
    destruct (decide (b = dump)) as [-> | Hbne].
  - apply Qabs_case; intros _; lra.
  - destruct (Hlow b Hb Hbne). apply Qabs_case; intros _; lra.
  - destruct (Hlow a Ha Hane). apply Qabs_case; intros _; lra.
  - destruct (loads_close a b Ha Hb) as [_ H]. specialize (H Hane Hbne).
    apply Qlt_le_weak. eapply Qlt_le_trans; [exact H |]. lra.
Qed.
End EqualRuntime.

(** *** The carries of the game, and the claim as a test *)

Section GameCarries.
Import Scavenge EqualRuntimeSpec EqualRuntimeClaim.

Lemma pool_units (available : list (string * Z)) (u : string) :
  u ∈ Dict.keys (pool_of available) -> u ∈ SCAVENGE_UNITS.
Proof.
  unfold pool_of, Dict.keys. intros Hu.
  apply list_elem_of_fmap in Hu as ([u' c] & -> & Hin).
  apply list_elem_of_In, filter_In in Hin as [_ Hin]. cbn.
  apply andb_true_iff in Hin as [Hin _].
  unfold in_scavenge_units in Hin. apply bool_decide_eq_true in Hin. exact Hin.
Qed.

Lemma game_carry_of (u : string) :
  u ∈ SCAVENGE_UNITS ->
  exists c, game_carries !! u = Some c /\ carry_of game_carries u = c
            /\ (c = 10 \/ c = 15 \/ c = 25 \/ c = 50 \/ c = 80).
Proof.
  intros Hu. unfold SCAVENGE_UNITS in Hu. rewrite !elem_of_cons, elem_of_nil in Hu.
  destruct Hu as [-> | [-> | [-> | [-> | [-> | [-> | [-> | []]]]]]]];
    eexists; (split; [vm_compute; reflexivity |]); (split; [vm_compute; reflexivity |]);
    lia.
Qed.

Lemma game_max_carry (pool : list (string * Z)) :
  (forall u, u ∈ Dict.keys pool -> u ∈ SCAVENGE_UNITS) ->
  let q := max_unit_carry game_carries pool in
  q = 0 \/ q = 10 \/ q = 15 \/ q = 25 \/ q = 50 \/ q = 80.
Proof.
  induction pool as [| [u c] pool IH]; intros Hu.
  - left. reflexivity.
  - cbn [max_unit_carry fold_right]. fold (max_unit_carry game_carries pool).
    destruct (game_carry_of u) as (cu & _ & -> & Hcu).
    { apply Hu. cbn. apply elem_of_cons. left. reflexivity. }
    assert (IH' := IH (fun v Hv => Hu v ltac:(cbn; apply elem_of_cons; right; exact Hv))).
    cbn zeta in *. lia.
Qed.

(** Under the carries of the game every pool qualifies: 10 and 15, 15 and
    25, 25 and 50, 50 and 80 are each at least a third apart. *)
Lemma game_carries_spaced (available : list (string * Z)) :
  spaced_carries game_carries available.
Proof.
  intros u Hu.
  destruct (game_carry_of u (pool_units available u Hu)) as (c & Hl & Hc & Hv).
  pose proof (max_unit_carry_ge game_carries (pool_of available) u Hu) as Hle.
  pose proof (game_max_carry (pool_of available) (pool_units available)) as Hq.
  cbn zeta in Hq. rewrite Hc in Hle.
  exists c. split; [exact Hl |]. lia.
Qed.

Lemma within_one_quantum_test (alloc : list (Z * list (string * Z)))
      (active : list Z) (unit_carries : gmap string Z)
      (available : list (string * Z)) :
  within_one_quantum_b alloc active unit_carries available = true ->
  within_one_quantum alloc active unit_carries available.
Proof.
  unfold within_one_quantum_b, within_one_quantum. intros H a b Ha Hb.
  rewrite forallb_forall in H. apply list_elem_of_In in Ha, Hb.
  specialize (H a Ha). rewrite forallb_forall in H.
  apply Qle_bool_iff. exact (H b Hb).
Qed.
End GameCarries.




(** *** The allocation in binary64 *)

(** 23 spears for the tiers 1, 2 and 4: the target of tier 4 is 50, two
    spears, in exact arithmetic and 49.99999999999999 in binary64, where
    tier 4 gets one spear and tier 1 one more.  The loads 40, 37.5 and
    18.75 of the binary64 allocation are within one spear of each other. *)
Lemma binary64_rounds_a_target_down :
  Scavenge.allocate_by_ratio Float.exact EqualRuntimeClaim.spears_23
    (Scavenge.equal_runtime_weights Float.exact [1; 2; 4])
    (Some EqualRuntimeClaim.game_carries)
  = [(1, [("spear"%string, 15)]); (2, [("spear"%string, 6)]);
     (4, [("spear"%string, 2)])]
  /\ Scavenge.allocate_by_ratio Float.binary64 EqualRuntimeClaim.spears_23
       (Scavenge.equal_runtime_weights Float.binary64 [1; 2; 4])
       (Some EqualRuntimeClaim.game_carries)
     = [(1, [("spear"%string, 16)]); (2, [("spear"%string, 6)]);
        (4, [("spear"%string, 1)])]
  /\ EqualRuntimeClaim.within_one_quantum
       (Scavenge.allocate_by_ratio Float.binary64 EqualRuntimeClaim.spears_23
          (Scavenge.equal_runtime_weights Float.binary64 [1; 2; 4])
          (Some EqualRuntimeClaim.game_carries))
       (Dict.keys (Scavenge.equal_runtime_weights Float.binary64 [1; 2; 4]))
       EqualRuntimeClaim.game_carries EqualRuntimeClaim.spears_23.
Proof.
  split; [vm_compute; reflexivity |]. split; [vm_compute; reflexivity |].
  apply within_one_quantum_test. vm_compute. reflexivity.
Qed.

(** Seven light cavalry of carry 80 for the tiers 3 and 4: tier 4 gets two
    of them (load 120) and tier 3 five (load 200), one unit carry apart,
    in exact and in binary64 arithmetic. *)
Lemma one_quantum_is_reached :
  (Qabs (EqualRuntimeSpec.runtime_load
           (Scavenge.allocate_by_ratio Float.exact EqualRuntimeClaim.seven_light
              (Scavenge.equal_runtime_weights Float.exact [3%Z; 4%Z])
              (Some EqualRuntimeClaim.game_carries))
           EqualRuntimeClaim.game_carries 3%Z
         - EqualRuntimeSpec.runtime_load
             (Scavenge.allocate_by_ratio Float.exact EqualRuntimeClaim.seven_light
                (Scavenge.equal_runtime_weights Float.exact [3%Z; 4%Z])
                (Some EqualRuntimeClaim.game_carries))
             EqualRuntimeClaim.game_carries 4%Z)
   == EqualRuntimeClaim.quantum EqualRuntimeClaim.game_carries
        EqualRuntimeClaim.seven_light)%Q
  /\ (Qabs (EqualRuntimeSpec.runtime_load
              (Scavenge.allocate_by_ratio Float.binary64 EqualRuntimeClaim.seven_light
                 (Scavenge.equal_runtime_weights Float.binary64 [3%Z; 4%Z])
                 (Some EqualRuntimeClaim.game_carries))
              EqualRuntimeClaim.game_carries 3%Z
            - EqualRuntimeSpec.runtime_load
                (Scavenge.allocate_by_ratio Float.binary64 EqualRuntimeClaim.seven_light
                   (Scavenge.equal_runtime_weights Float.binary64 [3%Z; 4%Z])
                   (Some EqualRuntimeClaim.game_carries))
                EqualRuntimeClaim.game_carries 4%Z)
      == EqualRuntimeClaim.quantum EqualRuntimeClaim.game_carries
           EqualRuntimeClaim.seven_light)%Q.
Proof. split; vm_compute; reflexivity. Qed.

(** Under the carries of the game, the binary64 allocation keeps the tiers
    within one unit-carry quantum for every set of tiers and every pool of
    up to 40 units of one kind, or of up to 3 units of each of two kinds. *)
Lemma binary64_within_one_quantum_on_small_pools :
  Forall (fun tiers =>
    Forall (fun available =>
      EqualRuntimeClaim.within_one_quantum
        (Scavenge.allocate_by_ratio Float.binary64 available
           (Scavenge.equal_runtime_weights Float.binary64 tiers)
           (Some EqualRuntimeClaim.game_carries))
        (Dict.keys (Scavenge.equal_runtime_weights Float.binary64 tiers))
        EqualRuntimeClaim.game_carries available)
      (EqualRuntimeClaim.one_kind_pools 40 ++ EqualRuntimeClaim.two_kind_pools 3))
    EqualRuntimeClaim.tier_sets.
Proof.
  assert (H : forallb (fun tiers =>
                forallb (fun available =>
                  EqualRuntimeClaim.within_one_quantum_b
                    (Scavenge.allocate_by_ratio Float.binary64 available
                       (Scavenge.equal_runtime_weights Float.binary64 tiers)
                       (Some EqualRuntimeClaim.game_carries))
                    (Dict.keys (Scavenge.equal_runtime_weights Float.binary64 tiers))
                    EqualRuntimeClaim.game_carries available)
                  (EqualRuntimeClaim.one_kind_pools 40
                   ++ EqualRuntimeClaim.two_kind_pools 3))
                EqualRuntimeClaim.tier_sets = true)
    by (vm_compute; reflexivity).
  rewrite forallb_forall in H.
  apply Forall_forall. intros tiers Ht. apply list_elem_of_In in Ht.
  specialize (H tiers Ht). rewrite forallb_forall in H.
  apply Forall_forall. intros available Ha. apply list_elem_of_In in Ha.
  apply within_one_quantum_test. exact (H available Ha).
Qed.

(** * Further properties of the building manager *)

Section PriorityFacts.
Import Building PrioritySpec.

Lemma walk_priority_spec (targets cl : gmap string Z) (order : list string) :
  match walk_priority targets cl order with
  | Some (b, c, t) =>
      exists pre post,
        order = pre ++ b :: post
        /\ targets !! b = Some t
        /\ c = default 0 (cl !! b)
        /\ c < t
        /\ Forall (satisfied targets cl) pre
  | None => Forall (satisfied targets cl) order
  end.
Proof.
  induction order as [| b order IH]; cbn [walk_priority].
  - constructor.
  - destruct (targets !! b) as [t |] eqn:Ht.
    + destruct (Z.ltb_spec (default 0 (cl !! b)) t) as [Hlt | Hge].
      * exists [], order. repeat split; auto.
      * destruct (walk_priority targets cl order) as [[[b' c'] t'] |].
        -- destruct IH as (pre & post & -> & Hb & Hc & Hlt & Hpre).
           exists (b :: pre), post. repeat split; auto.
           constructor; [| exact Hpre].
           intros t0 Ht0. rewrite Ht in Ht0. injection Ht0 as <-. exact Hge.
        -- constructor; [| exact IH].
           intros t0 Ht0. rewrite Ht in Ht0. injection Ht0 as <-. exact Hge.
    + destruct (walk_priority targets cl order) as [[[b' c'] t'] |].
      * destruct IH as (pre & post & -> & Hb & Hc & Hlt & Hpre).
        exists (b :: pre), post. repeat split; auto.
        constructor; [| exact Hpre].
        intros t0 Ht0. rewrite Ht in Ht0. discriminate.
      * constructor; [| exact IH].
        intros t0 Ht0. rewrite Ht in Ht0. discriminate.
Qed.
End PriorityFacts.

(** X1.  In priority mode the candidate is the first building of the
    priority list that has a target and whose current level (0 when the
    page shows none) is strictly below it; every building before it in the
    list has no target or has reached it, and nothing is picked exactly when
    that holds for the whole list.  The observed queue plays no part: in
    any mode other than ["sequential"] the pick is the same whatever is
    queued. *)
Theorem priority_pick_is_first_below_target
  (self : Building.BuildingManager) (current_levels : gmap string Z) :
  match Building._pick_next_building_priority self current_levels with
  | Some (b, c, t) =>
      exists pre post,
        Building.priority_order self = pre ++ b :: post
        /\ Building.target_levels self !! b = Some t
        /\ c = default 0 (current_levels !! b)
        /\ c < t
        /\ Forall (PrioritySpec.satisfied (Building.target_levels self) current_levels) pre
  | None =>
      Forall (PrioritySpec.satisfied (Building.target_levels self) current_levels)
             (Building.priority_order self)
  end
  /\ forall queue_buildings,
       Building.mode self <> "sequential"%string ->
       Building._pick_next_building self current_levels queue_buildings
       = Building._pick_next_building_priority self current_levels.
Proof.
  split.
  - apply walk_priority_spec.
  - intros q Hmode. unfold Building._pick_next_building.
    destruct (String.eqb_spec (Building.mode self) "sequential"); [contradiction | reflexivity].
Qed.

Section CycleFacts.
Import Building CycleSpec.
Context {W : Type} (page : HQPage W).
Variables (self : BuildingManager) (village : Village) (w0 : W).

Lemma record_finish_fields (q : list BuildQueue) (r : BuildResult) :
  ordered (record_finish q r) = ordered r
  /\ building_name (record_finish q r) = building_name r
  /\ resource_wait (record_finish q r) = resource_wait r.
Proof.
  revert r. unfold record_finish.
  induction q as [| e q IH]; intros r; cbn [fold_left]; [auto |].
  destruct (finish_time e) as [ts |]; [| apply IH].
  destruct (Qlt_bool (queue_finish_ts r) ts); [| apply IH].
  destruct (IH {| ordered := ordered r; building_name := building_name r;
                  queue_finish_ts := ts; resource_wait := resource_wait r |})
    as (H1 & H2 & H3).
  auto.
Qed.

Lemma record_finish_ge (q : list BuildQueue) (r : BuildResult) :
  (queue_finish_ts r <= queue_finish_ts (record_finish q r))%Q
  /\ forall e ts, e ∈ q -> finish_time e = Some ts ->
                  (ts <= queue_finish_ts (record_finish q r))%Q.
Proof.
  revert r. unfold record_finish.
  induction q as [| e q IH]; intros r; cbn [fold_left].
  - split; [apply Qle_refl |]. intros e ts He. apply elem_of_nil in He. destruct He.
  - set (r' := match finish_time e with
               | Some ts => if Qlt_bool (queue_finish_ts r) ts
                            then {| ordered := ordered r; building_name := building_name r;
                                    queue_finish_ts := ts; resource_wait := resource_wait r |}
                            else r
               | None => r
               end).
    destruct (IH r') as [Hmono Hall].
    assert (Hr' : (queue_finish_ts r <= queue_finish_ts r')%Q
                  /\ forall ts, finish_time e = Some ts -> (ts <= queue_finish_ts r')%Q).
    { subst r'. destruct (finish_time e) as [ts |].
      - destruct (Qlt_bool_cases (queue_finish_ts r) ts) as [[-> Hlt] | [-> Hle]]; cbn.
        + split; [lra |]. intros ts' [= <-]. lra.
        + split; [lra |]. intros ts' [= <-]. exact Hle.
      - split; [lra |]. intros ts' [=]. }
    destruct Hr' as [Hr1 Hr2].
    split; [lra |].
    intros e' ts He' Hts. apply elem_of_cons in He' as [-> | He'].
    + specialize (Hr2 _ Hts). lra.
    + eapply Hall; eassumption.
Qed.

Lemma only_last_may_fail_snoc (calls : list (string * upgrade_outcome)) c :
  Forall (fun c => snd c = Clicked) calls -> only_last_may_fail (calls ++ [c]).
Proof.
  intros Hall i name outcome Hi Hbad.
  rewrite length_app. cbn.
  destruct (decide (i < length calls)%nat) as [Hlt | Hge].
  - rewrite lookup_app_l in Hi by exact Hlt.
    rewrite Forall_lookup in Hall. specialize (Hall _ _ Hi). cbn in Hall. contradiction.
  - apply lookup_lt_Some in Hi. rewrite length_app in Hi. cbn in Hi. lia.
Qed.

Lemma only_last_may_fail_clicked (calls : list (string * upgrade_outcome)) :
  Forall (fun c => snd c = Clicked) calls -> only_last_may_fail calls.
Proof.
  intros Hall i name outcome Hi Hbad.
  rewrite Forall_lookup in Hall. specialize (Hall _ _ Hi). cbn in Hall. contradiction.
Qed.

Lemma submitted_clicked (calls : list (string * upgrade_outcome)) name :
  submitted (calls ++ [(name, Clicked)]) = submitted calls ++ [name].
Proof. unfold submitted. rewrite List.filter_app, map_app. reflexivity. Qed.

Lemma submitted_failed (calls : list (string * upgrade_outcome)) name o :
  o <> Clicked -> submitted (calls ++ [(name, o)]) = submitted calls.
Proof.
  intros Ho. unfold submitted. rewrite List.filter_app, map_app. cbn.
  destruct o; [contradiction | |]; cbn; apply app_nil_r.
Qed.

Lemma after_orders_snoc (orders : list string) b (w : W) :
  after_orders page (orders ++ [b]) w = click_build page b (after_orders page orders w).
Proof. unfold after_orders. rewrite fold_left_app. reflexivity. Qed.

(** The loop keeps its state in step with the world, changes the world by
    nothing but the clicks of its submitted orders, and stops at the first
    call that does not click. *)
Lemma attempt_loop_describes (max_queue attempts : nat) (s : loop_state) :
  ls_state s = hq_state page (ls_world s) ->
  ls_world s = after_orders page (submitted (ls_calls s)) w0 ->
  ordered (ls_result s) = negb (is_empty (submitted (ls_calls s))) ->
  Forall (fun c => snd c = Clicked) (ls_calls s) ->
  resource_wait (ls_result s) = 0%Q ->
  let s' := attempt_loop page self village max_queue attempts s in
  describes page village w0 s'
  /\ (length (ls_calls s') <= length (ls_calls s) + attempts)%nat
  /\ (queue_finish_ts (ls_result s) <= queue_finish_ts (ls_result s'))%Q
  /\ ((0 < attempts)%nat ->
      (queue_finish_ts (record_finish (queue (ls_state s)) (ls_result s))
       <= queue_finish_ts (ls_result s'))%Q)
  /\ ((max_queue <= length (queue (ls_state s)))%nat -> (0 < attempts)%nat ->
      ls_calls s' = ls_calls s /\ ordered (ls_result s') = ordered (ls_result s)).
Proof.
  revert s. induction attempts as [| n IH]; intros s Hsync Hworld Hord Hclk Hwait;
    cbn zeta; cbn [attempt_loop].
  - unfold describes. repeat split; auto; try lia; try apply Qle_refl;
      try (apply only_last_may_fail_clicked; exact Hclk).
  - pose proof (record_finish_fields (queue (ls_state s)) (ls_result s)) as (Hf1 & Hf2 & Hf3).
    pose proof (record_finish_ge (queue (ls_state s)) (ls_result s)) as [Hmono _].
    assert (Hstop :
      let s1 := {| ls_state := ls_state s;
                   ls_result := record_finish (queue (ls_state s)) (ls_result s);
                   ls_world := ls_world s; ls_calls := ls_calls s |} in
      describes page village w0 s1
      /\ (length (ls_calls s1) <= length (ls_calls s) + S n)%nat
      /\ (queue_finish_ts (ls_result s) <= queue_finish_ts (ls_result s1))%Q
      /\ ((0 < S n)%nat ->
          (queue_finish_ts (record_finish (queue (ls_state s)) (ls_result s))
           <= queue_finish_ts (ls_result s1))%Q)
      /\ ((max_queue <= length (queue (ls_state s)))%nat -> (0 < S n)%nat ->
          ls_calls s1 = ls_calls s /\ ordered (ls_result s1) = ordered (ls_result s))).
    { cbn zeta. unfold describes. cbn [ls_state ls_result ls_world ls_calls].
      repeat split; auto; try lia; try (intros; apply Qle_refl);
        try (rewrite Hf1; exact Hord);
        try (apply only_last_may_fail_clicked; exact Hclk);
        try (left; rewrite Hf3; exact Hwait). }
    destruct (Nat.leb_spec max_queue (length (queue (ls_state s)))) as [Hfull | Hfree];
      [exact Hstop |].
    destruct (_pick_next_building self (levels (ls_state s))
                (map q_building (queue (ls_state s)))) as [[[name cur] tgt] |];
      [| exact Hstop].
    set (result := record_finish (queue (ls_state s)) (ls_result s)) in *.
    assert (Horder :
      let s' :=
        (let '(outcome, w') := upgrade_building page name (ls_world s) in
         match outcome with
         | Clicked =>
             attempt_loop page self village max_queue n
               {| ls_state := hq_state page w';
                  ls_result := {| ordered := true; building_name := name;
                                  queue_finish_ts := queue_finish_ts result;
                                  resource_wait := resource_wait result |};
                  ls_world := w';
                  ls_calls := ls_calls s ++ [(name, outcome)] |}
         | _ =>
             {| ls_state := ls_state s; ls_result := result;
                ls_world := w'; ls_calls := ls_calls s ++ [(name, outcome)] |}
         end) in
      describes page village w0 s'
      /\ (length (ls_calls s') <= length (ls_calls s) + S n)%nat
      /\ (queue_finish_ts (ls_result s) <= queue_finish_ts (ls_result s'))%Q
      /\ ((0 < S n)%nat ->
          (queue_finish_ts result <= queue_finish_ts (ls_result s'))%Q)
      /\ ((max_queue <= length (queue (ls_state s)))%nat -> (0 < S n)%nat ->
          ls_calls s' = ls_calls s /\ ordered (ls_result s') = ordered (ls_result s))).
    { cbn zeta. unfold upgrade_building.
      destruct (2 <=? length (html_queue page (ls_world s)))%nat;
        [| destruct (build_button page name (ls_world s))].
      - unfold describes. cbn [ls_state ls_result ls_world ls_calls].
        rewrite submitted_failed by discriminate.
        repeat split; auto; try lia; try (intros; apply Qle_refl);
          try (rewrite Hf1; exact Hord);
          try (apply only_last_may_fail_snoc; exact Hclk);
          try (left; rewrite Hf3; exact Hwait);
          try (rewrite length_app; cbn; lia).
      - edestruct (IH {| ls_state := hq_state page (click_build page name (ls_world s));
                         ls_result := {| ordered := true; building_name := name;
                                         queue_finish_ts := queue_finish_ts result;
                                         resource_wait := resource_wait result |};
                         ls_world := click_build page name (ls_world s);
                         ls_calls := ls_calls s ++ [(name, Clicked)] |})
          as (Hd & Hlen & Hts & _ & _); cbn [ls_state ls_result ls_world ls_calls ordered resource_wait].
        + reflexivity.
        + rewrite submitted_clicked, after_orders_snoc, <- Hworld. reflexivity.
        + rewrite submitted_clicked. destruct (submitted (ls_calls s)); reflexivity.
        + apply Forall_app. split; [exact Hclk |]. constructor; [reflexivity | constructor].
        + rewrite Hf3. exact Hwait.
        + split; [exact Hd |]. split.
          * cbn [ls_calls] in Hlen. rewrite length_app in Hlen. cbn in Hlen. lia.
          * cbn [ls_result queue_finish_ts] in Hts.
            split; [lra |]. split; [intros _; exact Hts | lia].
      - unfold describes. cbn [ls_state ls_result ls_world ls_calls].
        rewrite submitted_failed by discriminate.
        repeat split; auto; try lia; try (intros; apply Qle_refl);
          try (rewrite Hf1; exact Hord);
          try (apply only_last_may_fail_snoc; exact Hclk);
          try (left; rewrite Hf3; exact Hwait);
          try (rewrite length_app; cbn; lia). }
    destruct (available (ls_state s) !! name) as [cost |] eqn:Hcost.
    + destruct (can_afford (resources village) cost) eqn:Hafford; [exact Horder |].
      unfold describes.
      cbn [ls_state ls_result ls_world ls_calls ordered building_name resource_wait queue_finish_ts].
      repeat split; auto; try lia; try (intros; apply Qle_refl);
        try (rewrite Hf1; exact Hord);
        try (apply only_last_may_fail_clicked; exact Hclk);
        try (right; exists cost; auto).
    + destruct (bool_decide (available (ls_state s) = ∅)); [exact Horder | exact Hstop].
Qed.
End CycleFacts.

Section RunFacts.
Import Building CycleSpec.
Context {W : Type} (page : HQPage W).
Variables (self : BuildingManager) (village : Village) (w : W).

(** The loop of [run], started on the state read from the page. *)
Lemma run_loop_describes :
  let s' := attempt_loop page self village 2 2
              {| ls_state := hq_state page w; ls_result := empty_result;
                 ls_world := w; ls_calls := [] |} in
  describes page village w s'
  /\ (length (ls_calls s') <= 2)%nat
  /\ (queue_finish_ts (record_finish (queue (hq_state page w)) empty_result)
      <= queue_finish_ts (ls_result s'))%Q
  /\ ((2 <= length (queue (hq_state page w)))%nat ->
      ls_calls s' = [] /\ ordered (ls_result s') = false).
Proof.
  cbn zeta.
  pose proof (attempt_loop_describes page self village w 2 2
                {| ls_state := hq_state page w; ls_result := empty_result;
                   ls_world := w; ls_calls := [] |}) as H.
  cbn zeta in H.
  destruct H as (Hd & Hlen & _ & Hts & Hfull); try reflexivity; [constructor |].
  split; [exact Hd |]. split; [exact Hlen |].
  split; [apply Hts; lia |].
  intros Hq. apply Hfull; [exact Hq | lia].
Qed.

Lemma run_unfold :
  enabled self = true ->
  target_levels self <> ∅ \/ build_steps self <> [] ->
  run page self village w
  = (let s' := attempt_loop page self village 2 2
                 {| ls_state := hq_state page w; ls_result := empty_result;
                    ls_world := w; ls_calls := [] |} in
     (record_finish (queue (ls_state s')) (ls_result s'), ls_world s', ls_calls s')).
Proof.
  intros Hen Htpl. unfold run. rewrite Hen. cbn [negb].
  replace (bool_decide (target_levels self = ∅) && bool_decide (build_steps self = []))
    with false.
  2:{ symmetry. apply andb_false_iff.
      destruct Htpl as [H | H]; [left | right]; apply bool_decide_eq_false_2; exact H. }
  replace (max_queue_of (hq_state page w)) with 2%nat
    by (unfold max_queue_of; destruct (premium (hq_state page w)); reflexivity).
  reflexivity.
Qed.

Lemma run_idle :
  enabled self = false \/ (target_levels self = ∅ /\ build_steps self = []) ->
  run page self village w = (empty_result, w, []).
Proof.
  intros [Hdis | [Ht Hs]]; unfold run.
  - rewrite Hdis. reflexivity.
  - rewrite Ht, Hs, !bool_decide_eq_true_2 by reflexivity.
    destruct (enabled self); reflexivity.
Qed.

Lemma run_cases :
  (enabled self = false \/ (target_levels self = ∅ /\ build_steps self = []))
  \/ (enabled self = true /\ (target_levels self <> ∅ \/ build_steps self <> [])).
Proof.
  destruct (enabled self); [| left; left; reflexivity].
  destruct (decide (target_levels self = ∅)) as [Ht | Ht];
    [| right; split; [reflexivity | left; exact Ht]].
  destruct (decide (build_steps self = [])) as [Hs | Hs];
    [left; right; split; assumption | right; split; [reflexivity | right; exact Hs]].
Qed.
End RunFacts.

(** X2.  A building cycle touches the game only through the upgrade
    links it clicks: the world after [run] is the world before it with the
    submitted orders clicked, in order.  It makes at most two calls to
    [upgrade_building], a call that does not click ends the cycle, and
    [ordered] is set exactly when some order was submitted.  When the
    manager is disabled, has no template, or sees two upgrades already
    queued, it makes no call and leaves the world as it was. *)
Theorem cycle_acts_only_through_its_orders
  {W : Type} (page : Building.HQPage W) (self : Building.BuildingManager)
  (village : Building.Village) (w : W) :
  let r := Building.run page self village w in
  r.1.2 = CycleSpec.after_orders page (Building.submitted r.2) w
  /\ (length r.2 <= 2)%nat
  /\ CycleSpec.only_last_may_fail r.2
  /\ Building.ordered r.1.1 = negb (is_empty (Building.submitted r.2))
  /\ (Building.enabled self = false
      \/ (Building.target_levels self = ∅ /\ Building.build_steps self = [])
      \/ (2 <= length (Building.queue (Building.hq_state page w)))%nat ->
      r.2 = [] /\ r.1.2 = w /\ Building.ordered r.1.1 = false).
Proof.
  cbn zeta.
  destruct (run_cases self) as [Hidle | [Hen Htpl]].
  - rewrite (run_idle page self village w Hidle). cbn.
    repeat split; auto. intros i n o Hi. discriminate.
  - rewrite (run_unfold page self village w Hen Htpl). cbn zeta. cbn [fst snd].
    pose proof (run_loop_describes page self village w) as H. cbn zeta in H.
    destruct H as ((Hsync & Hworld & Hord & Hlast & _) & Hlen & _ & Hfull).
    set (s' := Building.attempt_loop page self village 2 2 _) in *.
    pose proof (record_finish_fields (Building.queue (Building.ls_state s'))
                  (Building.ls_result s')) as (Hf1 & _ & _).
    split; [exact Hworld |]. split; [exact Hlen |]. split; [exact Hlast |].
    split; [rewrite Hf1; exact Hord |].
    intros [Hdis | [[Ht Hs] | Hq]].
    + rewrite Hdis in Hen. discriminate.
    + destruct Htpl as [H | H]; contradiction.
    + destruct (Hfull Hq) as [Hc Ho]. rewrite Hf1.
      split; [exact Hc |]. split; [| exact Ho].
      rewrite Hworld, Hc. reflexivity.
Qed.

(** X3.  When the manager is enabled and has a template, the
    [queue_finish_ts] it reports is not negative and is at least the finish
    time of every entry of the queue the page shows, before the cycle and
    after it. *)
Theorem cycle_reports_latest_finish_time
  {W : Type} (page : Building.HQPage W) (self : Building.BuildingManager)
  (village : Building.Village) (w : W) :
  Building.enabled self = true ->
  Building.target_levels self <> ∅ \/ Building.build_steps self <> [] ->
  let r := Building.run page self village w in
  (0 <= Building.queue_finish_ts r.1.1)%Q
  /\ forall e ts,
       e ∈ Building.queue (Building.hq_state page w)
       \/ e ∈ Building.queue (Building.hq_state page r.1.2) ->
       Building.finish_time e = Some ts ->
       (ts <= Building.queue_finish_ts r.1.1)%Q.
Proof.
  intros Hen Htpl. cbn zeta.
  rewrite (run_unfold page self village w Hen Htpl). cbn zeta. cbn [fst snd].
  pose proof (run_loop_describes page self village w) as H. cbn zeta in H.
  destruct H as ((Hsync & _) & _ & Hfirst & _).
  set (s' := Building.attempt_loop page self village 2 2 _) in *.
  pose proof (record_finish_ge (Building.queue (Building.ls_state s'))
                (Building.ls_result s')) as [Hmono Hall].
  pose proof (record_finish_ge (Building.queue (Building.hq_state page w))
                Building.empty_result) as [Hzero Hinit].
  change (Building.queue_finish_ts Building.empty_result) with 0%Q in Hzero.
  split; [lra |].
  intros e ts [He | He] Hts.
  - specialize (Hinit e ts He Hts). lra.
  - rewrite <- Hsync in He. eapply Hall; eassumption.
Qed.

Lemma cycle_reports_latest_finish_time_witness :
  (1700000900 <= Building.queue_finish_ts
                   (Building.run QueueSpec.game_page QueueSpec.two_steps
                      QueueSpec.any_village CycleSpec.busy_village).1.1)%Q.
Proof.
  refine (proj2 (cycle_reports_latest_finish_time QueueSpec.game_page QueueSpec.two_steps
                   QueueSpec.any_village CycleSpec.busy_village _ _)
            (Building.mkQueueEntry "wood" 1 (Some 1700000900%Q)) 1700000900%Q _ _).
  - reflexivity.
  - right. discriminate.
  - left. cbn. apply elem_of_cons. right. apply elem_of_cons. left. reflexivity.
  - reflexivity.
Defined.

(** X4.  The [resource_wait] a cycle reports is either zero or the wait
    computed for a building that the page lists with a cost the village
    cannot afford: in that case [building_name] names that building and the
    wait lies in (0, 3600]. *)
Theorem cycle_resource_wait_names_unaffordable_building
  {W : Type} (page : Building.HQPage W) (self : Building.BuildingManager)
  (village : Building.Village) (w : W) :
  let r := Building.run page self village w in
  Building.resource_wait r.1.1 = 0%Q
  \/ exists cost,
       Building.available (Building.hq_state page r.1.2)
         !! Building.building_name r.1.1 = Some cost
       /\ Building.can_afford (Building.resources village) cost = false
       /\ Building.resource_wait r.1.1
          = Building._calculate_resource_wait (Building.resources village) cost
              (Building.production village)
       /\ (0 < Building.resource_wait r.1.1 <= 3600)%Q.
Proof.
  cbn zeta.
  destruct (run_cases self) as [Hidle | [Hen Htpl]].
  - rewrite (run_idle page self village w Hidle). left. reflexivity.
  - rewrite (run_unfold page self village w Hen Htpl). cbn zeta. cbn [fst snd].
    pose proof (run_loop_describes page self village w) as H. cbn zeta in H.
    destruct H as ((Hsync & _ & _ & _ & Hwait) & _).
    set (s' := Building.attempt_loop page self village 2 2 _) in *.
    pose proof (record_finish_fields (Building.queue (Building.ls_state s'))
                  (Building.ls_result s')) as (_ & Hf2 & Hf3).
    rewrite Hf2, Hf3, <- Hsync.
    destruct Hwait as [Hz | (cost & Hc & Haff & Hw)]; [left; exact Hz | right].
    exists cost. repeat split; auto.
    + rewrite Hw. apply wait_loop_positive; [apply Qle_refl | left].
      unfold Building.can_afford in Haff. cbn. rewrite andb_true_r, andb_assoc. exact Haff.
    + rewrite Hw. apply wait_loop_bounds. apply Qle_refl.
Qed.

(** * Further properties of the scavenge allocation *)

Section DictEntries.
Context {K V : Type} `{EqDecision K}.
Implicit Types (d : list (K * V)) (k : K) (v : V).

Lemma Forall_set (E : K * V -> Prop) d k v :
  Forall E d -> E (k, v) -> Forall E (Dict.set d k v).
Proof.
  intros Hd He. induction d as [| [k' v'] d IH]; cbn.
  - constructor; [exact He | constructor].
  - apply Forall_cons in Hd as [Hk Hd].
    destruct (decide (k' = k)) as [-> | Hne]; constructor; auto.
Qed.

Lemma get_Some_elem d k v : Dict.get d k = Some v -> (k, v) ∈ d.
Proof.
  induction d as [| [k' v'] d IH]; cbn; [discriminate |].
  destruct (decide (k' = k)) as [-> | Hne].
  - intros [= ->]. apply elem_of_cons. left. reflexivity.
  - intros H1. apply elem_of_cons. right. apply IH. exact H1.
Qed.

Lemma elem_keys d k v : (k, v) ∈ d -> k ∈ Dict.keys d.
Proof.
  induction d as [| [k' v'] d IH]; cbn; intros Hin.
  - apply elem_of_nil in Hin. destruct Hin.
  - apply elem_of_cons in Hin as [Heq | Hin]; apply elem_of_cons.
    + injection Heq as <- <-. left. reflexivity.
    + right. apply IH. exact Hin.
Qed.

Lemma elem_get_Some d k v : NoDup (Dict.keys d) -> (k, v) ∈ d -> Dict.get d k = Some v.
Proof.
  induction d as [| [k' v'] d IH]; cbn; intros Hnd Hin.
  - apply elem_of_nil in Hin. destruct Hin.
  - apply NoDup_cons in Hnd as [Hk Hnd].
    apply elem_of_cons in Hin as [Heq | Hin].
    + injection Heq as <- <-. destruct (decide (k = k)); [reflexivity | congruence].
    + destruct (decide (k' = k)) as [-> | Hne]; [| apply IH; assumption].
      exfalso. apply Hk. eapply elem_keys. exact Hin.
Qed.

Lemma get_or_elem (E : V -> Prop) (l : list (K * V)) k dflt :
  Forall (fun e => E e.2) l -> E dflt -> E (Dict.get_or l k dflt).
Proof.
  intros Hl Hd. unfold Dict.get_or.
  destruct (Dict.get l k) as [v |] eqn:Hg; cbn; [| exact Hd].
  apply get_Some_elem in Hg. rewrite Forall_forall in Hl. exact (Hl _ Hg).
Qed.
End DictEntries.

Section AllocationEntries.
Import Scavenge AllocationSpec.
Context {F : Type} (fl : Float.ops F).
Variable carries : gmap string Z.

(** The greedy loop only writes positive counts of units it iterates
    over, and only of units with a positive carry. *)
Lemma fill_tier_entries (E : string * Z -> Prop) (target : F) (units : list string) :
  forall (troops remaining : list (string * Z)) (filled : F),
    (forall x take, x ∈ units -> 0 < take -> 0 < carry_of carries x -> E (x, take)) ->
    Forall E troops ->
    Forall E (fill_tier fl carries target units troops remaining filled).1.1.
Proof.
  induction units as [| x units IH]; intros troops remaining filled HE Ht;
    cbn [fill_tier]; [exact Ht |].
  assert (HE' : forall x' take, x' ∈ units -> 0 < take -> 0 < carry_of carries x' ->
                                E (x', take)).
  { intros x' take Hx'. apply HE. apply elem_of_cons. right. exact Hx'. }
  destruct (Dict.get_or remaining x 0 <=? 0); [apply IH; assumption |].
  destruct (Z.leb_spec (carry_of carries x) 0) as [Hc | Hc]; [apply IH; assumption |].
  destruct (Float.le0 fl (Float.sub fl target filled)); [exact Ht |].
  destruct (Z.ltb_spec 0 (Z.min (Dict.get_or remaining x 0)
                            (Float.floor fl (Float.div fl (Float.sub fl target filled)
                                               (Float.of_int fl (carry_of carries x))))))
    as [Htake | Htake]; [| apply IH; assumption].
  apply IH; [exact HE' |].
  apply Forall_set; [exact Ht |].
  apply HE; [apply elem_of_cons; left; reflexivity | exact Htake | exact Hc].
Qed.

Lemma fill_tier_remaining_keys (target : F) (units : list string) :
  forall (troops remaining : list (string * Z)) (filled : F),
    Dict.keys (fill_tier fl carries target units troops remaining filled).1.2
    = Dict.keys remaining.
Proof.
  induction units as [| x units IHu]; intros troops remaining filled;
    cbn [fill_tier]; [reflexivity |].
  destruct (Z.leb_spec (Dict.get_or remaining x 0) 0) as [Hav | Hav]; [apply IHu |].
  destruct (carry_of carries x <=? 0); [apply IHu |].
  destruct (Float.le0 fl (Float.sub fl target filled)); [reflexivity |].
  destruct (0 <? Z.min _ _); [| apply IHu].
  rewrite IHu. apply set_in.
  destruct (decide (x ∈ Dict.keys remaining)) as [Hin | Hin]; [exact Hin |].
  apply get_None_keys in Hin. unfold Dict.get_or in Hav. rewrite Hin in Hav.
  cbn in Hav. lia.
Qed.

(** What the loop over the tiers keeps true of every tier's troops, given
    that one tier's loop keeps it. *)
Lemma fill_tiers_preserves (P : list (string * Z) -> Prop) (total_carry : Z)
      (option_weights : list (Z * F)) (weight_sum : F) (dump_tier : Z) (tiers : list Z) :
  forall (allocations : list (Z * list (string * Z))) (remaining : list (string * Z)),
    (forall target units troops remaining' filled,
        (forall x, x ∈ units -> x ∈ Dict.keys remaining) ->
        P troops -> P (fill_tier fl carries target units troops remaining' filled).1.1) ->
    P [] ->
    Forall (fun a => P a.2) allocations ->
    Forall (fun a => P a.2)
           (fill_tiers fl carries total_carry option_weights weight_sum dump_tier
                       tiers allocations remaining).1.
Proof.
  induction tiers as [| tier tiers IH]; intros allocations remaining Hstep Hnil Ha;
    cbn [fill_tiers]; [exact Ha |].
  destruct (decide (tier = dump_tier)); [apply IH; assumption |].
  set (target := Float.div fl _ weight_sum).
  set (units := sorted_desc (carry_of carries) (Dict.keys remaining)).
  pose proof (Hstep target units (Dict.get_or allocations tier []) remaining
                (Float.lit fl 0)) as Hfill.
  pose proof (fill_tier_remaining_keys target units (Dict.get_or allocations tier [])
                remaining (Float.lit fl 0)) as Hkeys.
  destruct (fill_tier fl carries target units (Dict.get_or allocations tier [])
              remaining (Float.lit fl 0)) as [[troops remaining'] filled'].
  cbn [fst snd] in *.
  apply IH.
  - rewrite Hkeys. exact Hstep.
  - exact Hnil.
  - apply Forall_set; [exact Ha |]. cbn [snd].
    apply Hfill.
    + intros x Hx. unfold units in Hx. rewrite sorted_desc_perm in Hx. exact Hx.
    + apply (get_or_elem P); [exact Ha | exact Hnil].
Qed.

Lemma fill_tier_troops_nodup (target : F) (units : list string) :
  forall (troops remaining : list (string * Z)) (filled : F),
    NoDup (Dict.keys troops) ->
    NoDup (Dict.keys (fill_tier fl carries target units troops remaining filled).1.1).
Proof.
  induction units as [| x units IH]; intros troops remaining filled Hnd;
    cbn [fill_tier]; [exact Hnd |].
  destruct (Dict.get_or remaining x 0 <=? 0); [apply IH; exact Hnd |].
  destruct (carry_of carries x <=? 0); [apply IH; exact Hnd |].
  destruct (Float.le0 fl (Float.sub fl target filled)); [exact Hnd |].
  destruct (0 <? Z.min _ _); [| apply IH; exact Hnd].
  apply IH. apply keys_set_NoDup. exact Hnd.
Qed.

Lemma fill_tiers_keys (total_carry : Z) (option_weights : list (Z * F))
      (weight_sum : F) (dump_tier : Z) (tiers : list Z) :
  forall (allocations : list (Z * list (string * Z))) (remaining : list (string * Z)),
    (forall t, t ∈ tiers -> t ∈ Dict.keys allocations) ->
    let r := fill_tiers fl carries total_carry option_weights weight_sum dump_tier
               tiers allocations remaining in
    Dict.keys r.1 = Dict.keys allocations /\ Dict.keys r.2 = Dict.keys remaining.
Proof.
  induction tiers as [| tier tiers IH]; intros allocations remaining Hin;
    cbn zeta; cbn [fill_tiers]; [split; reflexivity |].
  assert (Hin' : forall t, t ∈ tiers -> t ∈ Dict.keys allocations).
  { intros t Ht. apply Hin. apply elem_of_cons. right. exact Ht. }
  destruct (decide (tier = dump_tier)); [apply IH; exact Hin' |].
  set (target := Float.div fl _ weight_sum).
  set (units := sorted_desc (carry_of carries) (Dict.keys remaining)).
  pose proof (fill_tier_remaining_keys target units (Dict.get_or allocations tier [])
                remaining (Float.lit fl 0)) as Hkeys.
  destruct (fill_tier fl carries target units (Dict.get_or allocations tier [])
              remaining (Float.lit fl 0)) as [[troops remaining'] filled'].
  cbn [fst snd] in *.
  assert (Hset : Dict.keys (Dict.set allocations tier troops) = Dict.keys allocations).
  { apply set_in. apply Hin. apply elem_of_cons. left. reflexivity. }
  destruct (IH (Dict.set allocations tier troops) remaining') as [H1 H2].
  { intros t Ht. rewrite Hset. apply Hin'. exact Ht. }
  cbn zeta in *. split; [rewrite H1; exact Hset | rewrite H2; exact Hkeys].
Qed.

Lemma dump_remaining_entries (E : string * Z -> Prop) (remaining : list (string * Z)) :
  forall troops : list (string * Z),
    (forall x c, x ∈ Dict.keys remaining -> 0 < c -> E (x, c)) ->
    Forall (fun e => 0 < e.2) troops ->
    Forall E troops ->
    Forall E (dump_remaining remaining troops)
    /\ Forall (fun e => 0 < e.2) (dump_remaining remaining troops).
Proof.
  unfold dump_remaining.
  induction remaining as [| [x c] remaining IH]; intros troops HE Hpos Ht;
    cbn [fold_left]; [auto |].
  assert (HE' : forall x' c', x' ∈ Dict.keys remaining -> 0 < c' -> E (x', c')).
  { intros x' c' Hx'. apply HE. cbn. apply elem_of_cons. right. exact Hx'. }
  destruct (Z.ltb_spec 0 c) as [Hc | Hc]; [| apply IH; assumption].
  assert (Hsum : 0 < Dict.get_or troops x 0 + c).
  { pose proof (unit_count_nonneg troops x Hpos) as Hn. unfold unit_count in Hn. lia. }
  apply IH; [exact HE' | |].
  - apply Forall_set; [exact Hpos | exact Hsum].
  - apply Forall_set; [exact Ht |].
    apply HE; [cbn; apply elem_of_cons; left; reflexivity | exact Hsum].
Qed.
End AllocationEntries.

Section AllocationShape.
Import Scavenge AllocationSpec.
Context {F : Type} (fl : Float.ops F).
Variable carries : gmap string Z.

Lemma allocated_ge_tier (alloc : list (Z * list (string * Z))) (t : Z)
      (troops : list (string * Z)) (u : string) :
  Forall (fun a => Forall (fun e => 0 < e.2) a.2) alloc ->
  (t, troops) ∈ alloc ->
  unit_count troops u <= allocated alloc u.
Proof.
  induction alloc as [| [t' d] alloc IH]; intros Hpos Hin.
  - apply elem_of_nil in Hin. destruct Hin.
  - apply Forall_cons in Hpos as [Hd Hpos]. cbn [snd] in Hd.
    cbn [allocated fold_right]. fold (allocated alloc u).
    assert (Hrest : 0 <= allocated alloc u).
    { clear -Hpos. induction alloc as [| [t0 d0] alloc IH]; cbn; [lia |].
      apply Forall_cons in Hpos as [Hd0 Hpos]. cbn [snd] in Hd0.
      pose proof (unit_count_nonneg d0 u Hd0). fold (allocated alloc u).
      specialize (IH Hpos). lia. }
    apply elem_of_cons in Hin as [Heq | Hin].
    + injection Heq as <- <-. lia.
    + specialize (IH Hpos Hin). pose proof (unit_count_nonneg d u Hd). lia.
Qed.

(** The allocation before empty tiers are dropped: its tiers are those of
    the weight dict, every tier holds positive counts of units of the pool
    under distinct keys. *)
Lemma allocation_body_shape (available : list (string * Z))
      (option_weights : list (Z * F)) (dump_tier : Z) :
  NoDup (Dict.keys option_weights) ->
  dump_tier ∈ Dict.keys option_weights ->
  let body := CarrySum.allocation_body fl carries available option_weights dump_tier in
  Dict.keys body = Dict.keys option_weights
  /\ Forall (fun a => Forall (sendable (pool_of available)) a.2) body
  /\ Forall (fun a => NoDup (Dict.keys a.2)) body.
Proof.
  intros Hndw Hdump. cbn zeta. unfold CarrySum.allocation_body.
  set (pool := pool_of available).
  set (empty := map (fun t => (t, @nil (string * Z))) (Dict.keys option_weights)).
  assert (Hempty : forall P : list (string * Z) -> Prop, P [] -> Forall (fun a => P a.2) empty).
  { intros P HP. unfold empty. apply Forall_forall. intros a Ha.
    apply list_elem_of_fmap_1 in Ha as (t & -> & _). exact HP. }
  pose proof (fill_tiers_preserves fl carries (Forall (sendable pool))
                (total_carry_of carries pool) option_weights
                (py_sum fl (Dict.values option_weights)) dump_tier
                (sorted_desc (fun t => t) (Dict.keys option_weights)) empty pool) as Hsend.
  pose proof (fill_tiers_preserves fl carries (fun d => NoDup (Dict.keys d))
                (total_carry_of carries pool) option_weights
                (py_sum fl (Dict.values option_weights)) dump_tier
                (sorted_desc (fun t => t) (Dict.keys option_weights)) empty pool) as Hnodup.
  destruct (fill_tiers_keys fl carries (total_carry_of carries pool) option_weights
              (py_sum fl (Dict.values option_weights)) dump_tier
              (sorted_desc (fun t => t) (Dict.keys option_weights)) empty pool)
    as [Hk1 Hk2].
  { intros t Ht. rewrite sorted_desc_perm in Ht. unfold empty.
    rewrite keys_empty_alloc. exact Ht. }
  cbn zeta in Hk1, Hk2.
  destruct (fill_tiers fl carries _ option_weights _ dump_tier _ empty pool)
    as [allocations remaining].
  cbn [fst snd] in *.
  assert (Ha1 : Forall (fun a => Forall (sendable pool) a.2) allocations).
  { apply Hsend; [| constructor | apply Hempty; constructor].
    intros target units troops remaining' filled Hunits Ht.
    apply fill_tier_entries; [| exact Ht].
    intros x take Hx Htake _. split; [exact Htake | apply Hunits; exact Hx]. }
  assert (Ha2 : Forall (fun a => NoDup (Dict.keys a.2)) allocations).
  { apply Hnodup; [| apply NoDup_nil_2 | apply (Hempty (fun d => NoDup (Dict.keys d))); apply NoDup_nil_2].
    intros target units troops remaining' filled _ Ht.
    apply fill_tier_troops_nodup. exact Ht. }
  assert (Hin : dump_tier ∈ Dict.keys allocations).
  { rewrite Hk1. unfold empty. rewrite keys_empty_alloc. exact Hdump. }
  split; [| split].
  - rewrite set_in by exact Hin. rewrite Hk1. apply keys_empty_alloc.
  - apply Forall_set; [exact Ha1 |]. cbn [snd].
    apply dump_remaining_entries.
    + intros x c Hx Hc. split; [exact Hc |]. cbn [fst]. rewrite <- Hk2. exact Hx.
    + apply (get_or_elem (fun v => Forall (fun e => 0 < e.2) v)); [| constructor].
      eapply Forall_impl; [exact Ha1 |]. intros a Ha. cbn beta in *.
      eapply Forall_impl; [exact Ha |]. intros e [He _]. exact He.
    + apply (get_or_elem (fun v => Forall (sendable pool) v)); [exact Ha1 | constructor].
  - apply Forall_set; [exact Ha2 |]. cbn [snd].
    apply dump_remaining_keys.
    apply (get_or_elem (fun v => NoDup (Dict.keys v))); [exact Ha2 | apply NoDup_nil_2].
Qed.
End AllocationShape.

Section AllocationResult.
Import Scavenge AllocationSpec.
Context {F : Type} (fl : Float.ops F).

Lemma filter_keys_NoDup {V : Type} (f : Z * V -> bool) (d : list (Z * V)) :
  NoDup (Dict.keys d) -> NoDup (Dict.keys (List.filter f d)).
Proof.
  induction d as [| [t v] d IH]; cbn; intros Hnd; [exact Hnd |].
  apply NoDup_cons in Hnd as [Ht Hnd].
  destruct (f (t, v)); cbn; [| apply IH; exact Hnd].
  apply NoDup_cons. split; [| apply IH; exact Hnd].
  intros Hin. apply Ht. eapply keys_filter_elem. exact Hin.
Qed.

Lemma elem_filter {A : Type} (f : A -> bool) (l : list A) (x : A) :
  x ∈ List.filter f l <-> x ∈ l /\ f x = true.
Proof. rewrite !list_elem_of_In. apply filter_In. Qed.

(** A unit of the pool is a scavenge unit, and the pool holds as many of
    it as are available. *)
Lemma pool_of_entry (available : list (string * Z)) (u : string) :
  NoDup (Dict.keys available) ->
  u ∈ Dict.keys (pool_of available) ->
  u ∈ SCAVENGE_UNITS
  /\ 0 < Dict.get_or available u 0
  /\ unit_count (pool_of available) u = Dict.get_or available u 0.
Proof.
  unfold pool_of, unit_count, Dict.get_or.
  induction available as [| [x c] available IH]; cbn; intros Hnd Hin.
  - apply elem_of_nil in Hin. destruct Hin.
  - apply NoDup_cons in Hnd as [Hx Hnd].
    assert (Hrest : u ∈ Dict.keys (List.filter
                       (fun '(u0, c0) => in_scavenge_units u0 && (0 <? c0)) available) ->
                    x <> u).
    { intros Hu ->. apply Hx. clear -Hu.
      induction available as [| [x' c'] available IH]; cbn in *; [exact Hu |].
      destruct (in_scavenge_units x' && (0 <? c')); cbn in Hu;
        rewrite ?elem_of_cons in *; tauto. }
    destruct (in_scavenge_units x && (0 <? c)) eqn:E; cbn in Hin |- *.
    + apply andb_true_iff in E as [E1 E2]. apply Z.ltb_lt in E2.
      apply elem_of_cons in Hin as [-> | Hin].
      * destruct (decide (x = x)); [| congruence]. cbn.
        split; [| split; [exact E2 | reflexivity]].
        unfold in_scavenge_units in E1. apply bool_decide_eq_true in E1. exact E1.
      * destruct (decide (x = u)) as [Heq | Hne]; [destruct (Hrest Hin Heq) |].
        apply IH; assumption.
    + destruct (decide (x = u)) as [Heq | Hne]; [destruct (Hrest Hin Heq) |].
      apply IH; assumption.
Qed.

Lemma pool_nonempty_total (carries : gmap string Z) (available : list (string * Z)) :
  0 < total_carry_of carries (pool_of available) -> pool_of available <> [].
Proof. intros H Hp. rewrite Hp in H. cbn in H. lia. Qed.

Lemma guard_cases (available : list (string * Z)) (option_weights : list (Z * F))
      (unit_carries : option (gmap string Z)) :
  guard_fails fl available option_weights unit_carries
  \/ (exists k0 ks, Dict.keys option_weights = k0 :: ks)
     /\ Float.le0 fl (py_sum fl (Dict.values option_weights)) = false
     /\ 0 < total_carry_of (default ∅ unit_carries) (pool_of available).
Proof.
  unfold guard_fails.
  destruct option_weights as [| [k0 w0] ws]; [left; left; reflexivity |].
  destruct (Float.le0 fl (py_sum fl (Dict.values ((k0, w0) :: ws)))) eqn:Hs;
    [left; right; left; reflexivity |].
  destruct (Z.leb_spec (total_carry_of (default ∅ unit_carries) (pool_of available)) 0);
    [left; right; right; right; assumption |].
  right. split; [exists k0, (Dict.keys ws); reflexivity | split; [reflexivity | assumption]].
Qed.

Lemma guard_fails_empty (available : list (string * Z)) (option_weights : list (Z * F))
      (unit_carries : option (gmap string Z)) :
  guard_fails fl available option_weights unit_carries ->
  allocate_by_ratio fl available option_weights unit_carries = [].
Proof.
  unfold guard_fails, allocate_by_ratio.
  intros [-> | H]; [reflexivity |].
  destruct (Dict.keys option_weights) as [| k0 ks]; [reflexivity |].
  destruct H as [-> | H]; [reflexivity |].
  destruct (Float.le0 fl _); [reflexivity |].
  destruct H as [-> | H]; [reflexivity |].
  destruct (is_empty (pool_of available)); [reflexivity |].
  apply Z.leb_le in H. rewrite H. reflexivity.
Qed.
End AllocationResult.

(** X5.  [allocate_by_ratio] returns the empty dict exactly when one of
    its guards fails: no tier weights, a weight sum that is not positive, no
    scavengeable troop with a positive count, or a total carry that is not
    positive.  In every other case it allocates something, whatever the
    float operations do. *)
Theorem allocation_is_empty_only_when_a_guard_fails
  {F : Type} (fl : Float.ops F)
  (available : list (string * Z)) (option_weights : list (Z * F))
  (unit_carries : option (gmap string Z)) :
  NoDup (Dict.keys available) ->
  NoDup (Dict.keys option_weights) ->
  Scavenge.allocate_by_ratio fl available option_weights unit_carries = []
  <-> AllocationSpec.guard_fails fl available option_weights unit_carries.
Proof.
  intros Hnda Hndw. split; [| apply guard_fails_empty].
  intros Hempty.
  destruct (guard_cases fl available option_weights unit_carries)
    as [Hg | ((k0 & ks & Hkeys) & Hsum & Htotal)]; [exact Hg | exfalso].
  rewrite (allocate_by_ratio_body fl (default ∅ unit_carries) available option_weights
             unit_carries k0 ks eq_refl Hkeys Hsum Htotal) in Hempty.
  pose proof (pool_nonempty_total _ _ Htotal) as Hpool.
  destruct (keys_nonempty _ Hpool) as [u Hu].
  destruct (pool_of_entry available u Hnda Hu) as (_ & Hpos & Hcount).
  pose proof (allocated_filter
                (CarrySum.allocation_body fl (default ∅ unit_carries) available
                   option_weights (min_list k0 ks)) u) as Hf.
  rewrite Hempty in Hf. cbn in Hf.
  rewrite (allocation_body_counts fl (default ∅ unit_carries) available option_weights
             (min_list k0 ks) u Hnda Hndw) in Hf
    by (rewrite Hkeys; apply min_list_elem).
  lia.
Qed.

Lemma allocation_is_empty_only_when_a_guard_fails_witness :
  Scavenge.allocate_by_ratio Float.exact AllocationSpec.mixed [] (Some AllocationSpec.mixed_carry)
  = []
  /\ Scavenge.allocate_by_ratio Float.exact AllocationSpec.mixed AllocationSpec.tiers_1_2_3
       (Some AllocationSpec.mixed_carry)
     <> [].
Proof.
  assert (H1 : NoDup (Dict.keys AllocationSpec.mixed))
    by (apply (bool_decide_unpack _); vm_compute; exact I).
  assert (H2 : NoDup (Dict.keys AllocationSpec.tiers_1_2_3))
    by (apply (bool_decide_unpack _); vm_compute; exact I).
  split.
  - apply (proj2 (allocation_is_empty_only_when_a_guard_fails Float.exact
                    AllocationSpec.mixed [] (Some AllocationSpec.mixed_carry)
                    H1 NoDup_nil_2)).
    left. reflexivity.
  - intros Hempty.
    apply (proj1 (allocation_is_empty_only_when_a_guard_fails Float.exact
                    AllocationSpec.mixed AllocationSpec.tiers_1_2_3
                    (Some AllocationSpec.mixed_carry) H1 H2)) in Hempty.
    destruct Hempty as [H | [H | [H | H]]]; vm_compute in H; try discriminate.
    apply H. reflexivity.
Defined.

(** X6.  Every allocation can be sent as it is: its tiers are distinct
    tiers of the weight dict, none of them is empty, and each holds, under
    distinct unit names, strictly positive counts of scavenge units, never
    more of a unit than is available. *)
Theorem allocation_is_sendable
  {F : Type} (fl : Float.ops F)
  (available : list (string * Z)) (option_weights : list (Z * F))
  (unit_carries : option (gmap string Z)) :
  NoDup (Dict.keys available) ->
  NoDup (Dict.keys option_weights) ->
  let r := Scavenge.allocate_by_ratio fl available option_weights unit_carries in
  NoDup (Dict.keys r)
  /\ forall t troops,
       (t, troops) ∈ r ->
       t ∈ Dict.keys option_weights
       /\ troops <> []
       /\ NoDup (Dict.keys troops)
       /\ forall u c,
            (u, c) ∈ troops ->
            u ∈ Scavenge.SCAVENGE_UNITS /\ 0 < c <= Dict.get_or available u 0.
Proof.
  intros Hnda Hndw. cbn zeta.
  destruct (guard_cases fl available option_weights unit_carries)
    as [Hg | ((k0 & ks & Hkeys) & Hsum & Htotal)].
  { rewrite (guard_fails_empty fl _ _ _ Hg). split; [apply NoDup_nil_2 |].
    intros t troops Hin. apply elem_of_nil in Hin. destruct Hin. }
  rewrite (allocate_by_ratio_body fl (default ∅ unit_carries) available option_weights
             unit_carries k0 ks eq_refl Hkeys Hsum Htotal).
  destruct (allocation_body_shape fl (default ∅ unit_carries) available option_weights
              (min_list k0 ks) Hndw) as (Hk & Hsend & Hnd).
  { rewrite Hkeys. apply min_list_elem. }
  set (body := CarrySum.allocation_body fl (default ∅ unit_carries) available
                 option_weights (min_list k0 ks)) in *.
  split; [apply filter_keys_NoDup; rewrite Hk; exact Hndw |].
  intros t troops Hin. apply elem_filter in Hin as [Hin Hne].
  rewrite Forall_forall in Hsend, Hnd.
  specialize (Hsend _ Hin). specialize (Hnd _ Hin). cbn [snd] in Hsend, Hnd.
  split; [rewrite <- Hk; eapply elem_keys; exact Hin |].
  split; [intros ->; discriminate |].
  split; [exact Hnd |].
  intros u c Huc. rewrite Forall_forall in Hsend.
  destruct (Hsend _ Huc) as [Hc Hu]. cbn [fst snd] in Hc, Hu.
  destruct (pool_of_entry available u Hnda Hu) as (Hunit & _ & Hcount).
  split; [exact Hunit |]. split; [exact Hc |].
  rewrite <- Hcount.
  rewrite <- (allocation_body_counts fl (default ∅ unit_carries) available option_weights
                (min_list k0 ks) u Hnda Hndw) by (rewrite Hkeys; apply min_list_elem).
  fold body.
  replace c with (Scavenge.unit_count troops u).
  2:{ unfold Scavenge.unit_count, Dict.get_or.
      rewrite (elem_get_Some troops u c Hnd Huc). reflexivity. }
  apply allocated_ge_tier with (t := t); [| exact Hin].
  apply Forall_forall. intros a Ha.
  assert (Ha' : Forall (AllocationSpec.sendable (Scavenge.pool_of available)) a.2).
  { clear -Ha Hk Hndw Hkeys Hnda.
    destruct (allocation_body_shape fl (default ∅ unit_carries) available option_weights
                (min_list k0 ks) Hndw) as (_ & Hs & _).
    { rewrite Hkeys. apply min_list_elem. }
    rewrite Forall_forall in Hs. apply Hs. exact Ha. }
  eapply Forall_impl; [exact Ha' |]. intros e [He _]. exact He.
Qed.

Lemma allocation_is_sendable_witness :
  Scavenge.allocate_by_ratio Float.exact AllocationSpec.mixed AllocationSpec.tiers_1_2_3
    (Some AllocationSpec.mixed_carry)
  = [(1, [("spear"%string, 83)]);
     (2, [("light"%string, 5); ("spear"%string, 17)]);
     (3, [("light"%string, 5)])]
  /\ NoDup (Dict.keys (Scavenge.allocate_by_ratio Float.exact AllocationSpec.mixed
                         AllocationSpec.tiers_1_2_3 (Some AllocationSpec.mixed_carry))).
Proof.
  split; [vm_compute; reflexivity |].
  refine (proj1 (allocation_is_sendable Float.exact AllocationSpec.mixed
                   AllocationSpec.tiers_1_2_3 (Some AllocationSpec.mixed_carry) _ _));
    apply (bool_decide_unpack _); vm_compute; exact I.
Defined.

Section WithinTarget.
Import Scavenge AllocationSpec.
Variable carries : gmap string Z.

Lemma carry25_app (d1 d2 : list (string * Z)) :
  carry25 carries (d1 ++ d2) = carry25 carries d1 + carry25 carries d2.
Proof.
  unfold carry25. induction d1 as [| [u c] d1 IH]; cbn; [reflexivity |].
  rewrite IH. lia.
Qed.

(** The capacity computed by [calculate_carry_capacity], which counts an
    unlisted unit as carrying nothing, is at most the carry the allocator
    worked with, when every entry is one the greedy loop may place. *)
Lemma capacity_le_carry25 (troops : list (string * Z)) :
  Forall (fun e => 0 < e.2 /\ 0 < carry_of carries e.1) troops ->
  calculate_carry_capacity troops carries <= carry25 carries troops.
Proof.
  intros Ht. unfold calculate_carry_capacity. rewrite capacity_fold, Z.add_0_l.
  unfold carry25. induction troops as [| [u c] troops IH]; cbn [fold_right]; [lia |].
  apply Forall_cons in Ht as [[Hc Hu] Ht]. cbn [fst snd] in Hc, Hu.
  specialize (IH Ht).
  replace (0 <? c) with true by (symmetry; apply Z.ltb_lt; exact Hc).
  assert (default 0 (carries !! u) <= carry_of carries u).
  { unfold carry_of in *. destruct (carries !! u); cbn in *; lia. }
  nia.
Qed.

(** One tier's loop in exact arithmetic never takes [filled] past the
    target (or past zero, for a target below zero). *)
Lemma fill_tier_within (target : Q) (units : list string) :
  forall (troops remaining : list (string * Z)) (filled : Q),
    NoDup units ->
    (forall u, u ∈ units -> u ∉ Dict.keys troops) ->
    (filled == inject_Z (carry25 carries troops))%Q ->
    (filled <= Qmax 0 target)%Q ->
    let r := fill_tier Float.exact carries target units troops remaining filled in
    (r.2 == inject_Z (carry25 carries r.1.1))%Q /\ (r.2 <= Qmax 0 target)%Q.
Proof.
  induction units as [| x units IH]; intros troops remaining filled Hnd Hfresh Hsum Hle;
    cbn zeta; cbn [fill_tier]; [split; assumption |].
  apply NoDup_cons in Hnd as [Hx Hnd].
  assert (Hfresh' : forall u, u ∈ units -> u ∉ Dict.keys troops).
  { intros u Hu. apply Hfresh. apply elem_of_cons. right. exact Hu. }
  destruct (Dict.get_or remaining x 0 <=? 0); [apply IH; assumption |].
  destruct (Z.leb_spec (carry_of carries x) 0) as [Hc | Hc]; [apply IH; assumption |].
  cbn [Float.le0 Float.sub Float.exact Float.floor Float.div Float.of_int Float.add].
  destruct (Qle_bool (target - filled) 0) eqn:Hgap; [split; assumption |].
  set (take := Z.min (Dict.get_or remaining x 0)
                     (Qfloor ((target - filled) / inject_Z (carry_of carries x)))).
  destruct (Z.ltb_spec 0 take) as [Htake | Htake]; [| apply IH; assumption].
  assert (Hfit : (inject_Z (take * carry_of carries x) <= target - filled)%Q).
  { apply floor_take_le; [exact Hc | unfold take; lia]. }
  apply IH; [exact Hnd | | |].
  - intros u Hu Hin. apply keys_set_elem in Hin as [-> | Hin]; [contradiction |].
    exact (Hfresh' u Hu Hin).
  - rewrite set_notin by (apply Hfresh; apply elem_of_cons; left; reflexivity).
    rewrite carry25_app, inject_Z_plus, <- Hsum. cbn [carry25 fold_right].
    rewrite Z.add_0_r. reflexivity.
  - apply Qle_trans with target; [lra | apply Q.le_max_r].
Qed.

Section Tiers.
Variables (total : Z) (weights : list (Z * Q)) (W : Q) (dump : Z).

Local Abbreviation tier_target t :=
  (inject_Z total * Dict.get_or weights t (inject_Z 0) / W)%Q.

Lemma fill_tiers_within (tiers : list Z) :
  forall (allocations : list (Z * list (string * Z))) (remaining : list (string * Z)),
    NoDup tiers ->
    NoDup (Dict.keys allocations) ->
    NoDup (Dict.keys remaining) ->
    (forall t, t ∈ tiers -> t ∈ Dict.keys allocations /\ tier_troops allocations t = []) ->
    let r := fill_tiers Float.exact carries total weights W dump tiers
               allocations remaining in
    forall t, t ∈ tiers -> t <> dump ->
      (inject_Z (carry25 carries (tier_troops r.1 t)) <= Qmax 0 (tier_target t))%Q
      /\ Forall (fun e => 0 < e.2 /\ 0 < carry_of carries e.1) (tier_troops r.1 t).
Proof.
  induction tiers as [| tier tiers IH]; intros allocations remaining Hnd Hnda Hndr Hempty;
    cbn zeta.
  { intros t Ht. apply elem_of_nil in Ht. destruct Ht. }
  apply NoDup_cons in Hnd as [Htier Hnd].
  assert (Hempty' : forall t, t ∈ tiers ->
            t ∈ Dict.keys allocations /\ tier_troops allocations t = []).
  { intros t Ht. apply Hempty. apply elem_of_cons. right. exact Ht. }
  cbn [fill_tiers]. destruct (decide (tier = dump)) as [Hdump | Hdump].
  - intros t Ht Hne. apply elem_of_cons in Ht as [-> | Ht]; [contradiction |].
    apply (IH allocations remaining Hnd Hnda Hndr Hempty' t Ht Hne).
  - destruct (Hempty tier) as [Hin Hnil]; [apply elem_of_cons; left; reflexivity |].
    fold (tier_troops allocations tier). rewrite Hnil.
    cbn [Float.div Float.mul Float.of_int Float.lit Float.exact].
    set (target := (inject_Z total * Dict.get_or weights tier (inject_Z 0) / W)%Q).
    set (units := sorted_desc (carry_of carries) (Dict.keys remaining)).
    assert (Hunits : NoDup units).
    { unfold units. rewrite sorted_desc_perm. exact Hndr. }
    destruct (fill_tier_within target units [] remaining 0%Q Hunits) as [Hsum Hle].
    { intros u _. apply not_elem_of_nil. }
    { reflexivity. }
    { apply Q.le_max_l. }
    pose proof (fill_tier_entries Float.exact carries
                  (fun e => 0 < e.2 /\ 0 < carry_of carries e.1)
                  target units [] remaining 0%Q) as Hent.
    pose proof (fill_tier_remaining_keys Float.exact carries target units [] remaining 0%Q)
      as Hkeys.
    cbn zeta in Hsum, Hle.
    destruct (fill_tier Float.exact carries target units [] remaining 0%Q)
      as [[troops remaining'] filled'].
    cbn [fst snd] in *.
    assert (Hnda' : NoDup (Dict.keys (Dict.set allocations tier troops)))
      by (apply keys_set_NoDup; exact Hnda).
    assert (Hndr' : NoDup (Dict.keys remaining')) by (rewrite Hkeys; exact Hndr).
    assert (Hempty'' : forall t, t ∈ tiers ->
              t ∈ Dict.keys (Dict.set allocations tier troops)
              /\ tier_troops (Dict.set allocations tier troops) t = []).
    { intros t Ht. destruct (Hempty' t Ht) as [Hk Hn]. split.
      - apply keys_set_elem. right. exact Hk.
      - rewrite tier_troops_set_ne; [exact Hn |]. intros ->. contradiction. }
    intros t Ht Hne. apply elem_of_cons in Ht as [-> | Ht].
    + destruct (fill_tiers_counts Float.exact carries total weights W dump tiers
                  (Dict.set allocations tier troops) remaining' Hnd Hnda' Hndr' Hempty'')
        as (_ & _ & _ & _ & _ & Hkeep).
      cbn zeta in Hkeep. rewrite Hkeep by (left; exact Htier).
      rewrite tier_troops_set_eq. split.
      * rewrite <- Hsum. exact Hle.
      * apply Hent; [| constructor]. intros x take _ Htake Hc. split; assumption.
    + apply (IH (Dict.set allocations tier troops) remaining' Hnd Hnda' Hndr' Hempty''
                t Ht Hne).
Qed.
End Tiers.
End WithinTarget.

(** X7.  In exact arithmetic no tier other than the lowest one is given
    more carry than its share: the carry capacity of its troops is at most
    [total_carry * option_weights[tier] / weight_sum] (at most zero if that
    target is negative).  Only the lowest tier, which takes what is left,
    can exceed its share. *)
Theorem higher_tiers_never_exceed_their_target
  (available : list (string * Z)) (option_weights : list (Z * Q))
  (unit_carries : option (gmap string Z)) :
  NoDup (Dict.keys available) ->
  NoDup (Dict.keys option_weights) ->
  forall tier lowest,
    tier ∈ Dict.keys option_weights ->
    lowest ∈ Dict.keys option_weights ->
    lowest < tier ->
    (inject_Z (Scavenge.calculate_carry_capacity
                 (Scavenge.tier_troops
                    (Scavenge.allocate_by_ratio Float.exact available option_weights
                       unit_carries) tier)
                 (default ∅ unit_carries))
     <= Qmax 0 (AllocationSpec.target_of available option_weights unit_carries tier))%Q.
Proof.
  intros Hnda Hndw tier lowest Htier Hlow Hlt.
  destruct (guard_cases Float.exact available option_weights unit_carries)
    as [Hg | ((k0 & ks & Hkeys) & Hsum & Htotal)].
  { rewrite (guard_fails_empty Float.exact _ _ _ Hg). cbn. apply Q.le_max_l. }
  rewrite (allocate_by_ratio_body Float.exact (default ∅ unit_carries) available
             option_weights unit_carries k0 ks eq_refl Hkeys Hsum Htotal).
  destruct (allocation_body_shape Float.exact (default ∅ unit_carries) available
              option_weights (min_list k0 ks) Hndw) as (Hk & _ & _).
  { rewrite Hkeys. apply min_list_elem. }
  rewrite tier_troops_filter by (rewrite Hk; exact Hndw).
  assert (Hne : tier <> min_list k0 ks).
  { rewrite Hkeys in Hlow. pose proof (min_list_le k0 ks lowest Hlow). lia. }
  unfold CarrySum.allocation_body. rewrite tier_troops_set_ne by congruence.
  pose proof (fill_tiers_within (default ∅ unit_carries)
                (Scavenge.total_carry_of (default ∅ unit_carries) (Scavenge.pool_of available))
                option_weights (Scavenge.py_sum Float.exact (Dict.values option_weights))
                (min_list k0 ks)
                (sorted_desc (fun t => t) (Dict.keys option_weights))
                (map (fun t => (t, @nil (string * Z))) (Dict.keys option_weights))
                (Scavenge.pool_of available)) as H.
  cbn zeta in H.
  destruct (H ltac:(rewrite sorted_desc_perm; exact Hndw)
              ltac:(rewrite keys_empty_alloc; exact Hndw)
              ltac:(apply pool_of_keys; exact Hnda)
              ltac:(intros t Ht; rewrite sorted_desc_perm in Ht; rewrite keys_empty_alloc;
                    split; [exact Ht | apply tier_troops_empty])
              tier ltac:(rewrite sorted_desc_perm; exact Htier) Hne) as [Hle Hent].
  eapply Qle_trans; [| exact Hle].
  rewrite <- Zle_Qle. apply capacity_le_carry25. exact Hent.
Qed.

Lemma higher_tiers_never_exceed_their_target_witness :
  (inject_Z (Scavenge.calculate_carry_capacity
               (Scavenge.tier_troops
                  (Scavenge.allocate_by_ratio Float.exact AllocationSpec.mixed
                     AllocationSpec.tiers_1_2_3 (Some AllocationSpec.mixed_carry)) 2)
               AllocationSpec.mixed_carry)
   <= Qmax 0 (AllocationSpec.target_of AllocationSpec.mixed AllocationSpec.tiers_1_2_3
                (Some AllocationSpec.mixed_carry) 2))%Q
  /\ (AllocationSpec.target_of AllocationSpec.mixed AllocationSpec.tiers_1_2_3
        (Some AllocationSpec.mixed_carry) 2 == 825)%Q.
Proof.
  split; [| vm_compute; reflexivity].
  apply (higher_tiers_never_exceed_their_target AllocationSpec.mixed
           AllocationSpec.tiers_1_2_3 (Some AllocationSpec.mixed_carry)) with (lowest := 1);
    apply (bool_decide_unpack _); vm_compute; exact I.
Defined.

Section Conservation.
Import Scavenge AllocationSpec.

(** A carry table that agrees with [table] read with default 0 on the
    units [ks], when read with the allocator's default. *)
Lemma zero_default_table (table : gmap string Z) (ks : list string) :
  exists carries : gmap string Z,
    forall u, u ∈ ks -> default 0 (table !! u) = carry_of carries u.
Proof.
  exists (table ∪ gset_to_gmap 0 (list_to_set ks : gset string)).
  intros u Hu. unfold carry_of. rewrite lookup_union.
  rewrite lookup_gset_to_gmap, option_guard_True by (apply elem_of_list_to_set; exact Hu).
  destruct (table !! u); reflexivity.
Qed.

Lemma total_capacity_sum (carries table : gmap string Z) (ks : list string)
      (alloc : list (Z * list (string * Z))) :
  NoDup ks ->
  (forall u, u ∈ ks -> default 0 (table !! u) = carry_of carries u) ->
  Forall (fun a => NoDup (Dict.keys a.2)
                   /\ Forall (fun e => 0 < e.2 /\ e.1 ∈ ks) a.2) alloc ->
  total_capacity alloc table = CarrySum.carry_sum carries ks (allocated alloc).
Proof.
  intros Hks Htab. induction alloc as [| [t d] alloc IH]; intros Ha.
  - cbn. symmetry. apply carry_sum_zero. reflexivity.
  - apply Forall_cons in Ha as [[Hnd Hd] Ha]. cbn [snd] in Hnd, Hd.
    cbn [total_capacity fold_right]. fold (total_capacity alloc table).
    rewrite (IH Ha).
    rewrite (capacity_sum carries table ks d Hks Hnd); [| | | exact Htab].
    + rewrite <- carry_sum_plus. apply carry_sum_ext. intros u _. reflexivity.
    + intros u Hu. apply list_elem_of_fmap_1 in Hu as ([u' c] & -> & Hin).
      rewrite Forall_forall in Hd. apply (Hd _ Hin).
    + intros u. apply unit_count_nonneg.
      eapply Forall_impl; [exact Hd |]. intros e [He _]. exact He.
Qed.
End Conservation.

(** X8.  The allocation conserves carry capacity: whenever the guards of
    [allocate_by_ratio] pass, the carry capacities of the tiers, computed by
    [calculate_carry_capacity] from any carry table, add up to the carry
    capacity of the pool of scavengeable troops. *)
Theorem allocation_conserves_carry_capacity
  {F : Type} (fl : Float.ops F)
  (available : list (string * Z)) (option_weights : list (Z * F))
  (unit_carries : option (gmap string Z)) (table : gmap string Z) :
  NoDup (Dict.keys available) ->
  NoDup (Dict.keys option_weights) ->
  option_weights <> [] ->
  Float.le0 fl (Scavenge.py_sum fl (Dict.values option_weights)) = false ->
  0 < Scavenge.total_carry_of (default ∅ unit_carries) (Scavenge.pool_of available) ->
  AllocationSpec.total_capacity
    (Scavenge.allocate_by_ratio fl available option_weights unit_carries) table
  = Scavenge.calculate_carry_capacity (Scavenge.pool_of available) table.
Proof.
  intros Hnda Hndw Hne Hsum Htotal.
  destruct (Dict.keys option_weights) as [| k0 ks] eqn:Hkeys.
  { destruct option_weights; [congruence | discriminate]. }
  assert (Hdump : min_list k0 ks ∈ Dict.keys option_weights)
    by (rewrite Hkeys; apply min_list_elem).
  assert (Hndw' : NoDup (Dict.keys option_weights)) by (rewrite Hkeys; exact Hndw).
  clear Hndw. rename Hndw' into Hndw.
  pose proof (pool_of_keys available Hnda) as Hpk.
  destruct (zero_default_table table (Dict.keys (Scavenge.pool_of available)))
    as [carries Htab].
  rewrite (allocate_by_ratio_body fl (default ∅ unit_carries) available option_weights
             unit_carries k0 ks eq_refl Hkeys Hsum Htotal).
  destruct (allocation_body_shape fl (default ∅ unit_carries) available option_weights
              (min_list k0 ks) Hndw Hdump) as (Hk & Hsend & Hnd).
  set (body := CarrySum.allocation_body fl (default ∅ unit_carries) available
                 option_weights (min_list k0 ks)) in *.
  rewrite (total_capacity_sum carries table (Dict.keys (Scavenge.pool_of available)));
    [| exact Hpk | exact Htab |].
  - rewrite (capacity_sum carries table (Dict.keys (Scavenge.pool_of available))
               (Scavenge.pool_of available) Hpk Hpk); [| auto | | exact Htab].
    + apply carry_sum_ext. intros u _. rewrite allocated_filter.
      apply allocation_body_counts; assumption.
    + intros u. apply unit_count_nonneg. apply pool_of_positive.
  - apply Forall_forall. intros a Ha. apply elem_filter in Ha as [Ha _].
    rewrite Forall_forall in Hsend, Hnd.
    split; [apply Hnd; exact Ha | apply Hsend; exact Ha].
Qed.

Lemma allocation_conserves_carry_capacity_witness :
  AllocationSpec.total_capacity
    (Scavenge.allocate_by_ratio Float.exact AllocationSpec.mixed AllocationSpec.tiers_1_2_3
       (Some AllocationSpec.mixed_carry)) AllocationSpec.mixed_carry
  = 3300.
Proof.
  rewrite (allocation_conserves_carry_capacity Float.exact AllocationSpec.mixed
             AllocationSpec.tiers_1_2_3 (Some AllocationSpec.mixed_carry)
             AllocationSpec.mixed_carry).
  - vm_compute. reflexivity.
  - apply (bool_decide_unpack _). vm_compute. exact I.
  - apply (bool_decide_unpack _). vm_compute. exact I.
  - discriminate.
  - vm_compute. reflexivity.
  - vm_compute. reflexivity.
Defined.

(** * Properties of the scavenge manager *)

Section FoldFacts.
Lemma fold_left_ext_in {A B : Type} (f g : A -> B -> A) (l : list B) (a : A) :
  (forall acc x, x ∈ l -> f acc x = g acc x) -> fold_left f l a = fold_left g l a.
Proof.
  revert a. induction l as [| x l IH]; intros a Hfg; cbn; [reflexivity |].
  rewrite Hfg by (apply elem_of_cons; left; reflexivity).
  apply IH. intros acc y Hy. apply Hfg. apply elem_of_cons. right. exact Hy.
Qed.

(** A loop [for k, v in d.items(): out[k] = g(k, v)] over a dict builds
    the dict of the [g(k, v)], in the same order. *)
Lemma fold_set_map {V V' : Type} (g : string -> V -> V') (d : list (string * V)) :
  NoDup (Dict.keys d) ->
  forall acc : list (string * V'),
    (forall k, k ∈ Dict.keys d -> k ∉ Dict.keys acc) ->
    fold_left (fun out '(k, v) => Dict.set out k (g k v)) d acc
    = acc ++ map (fun '(k, v) => (k, g k v)) d.
Proof.
  induction d as [| [k v] d IH]; cbn [fold_left map]; intros Hnd acc Hfresh.
  - rewrite app_nil_r. reflexivity.
  - cbn in Hnd. apply NoDup_cons in Hnd as [Hk Hnd].
    rewrite set_notin by (apply Hfresh; cbn; apply elem_of_cons; left; reflexivity).
    rewrite (IH Hnd).
    + rewrite <- app_assoc. reflexivity.
    + intros k' Hk' Hin. unfold Dict.keys in Hin. rewrite map_app in Hin.
      apply elem_of_app in Hin as [Hin | Hin].
      * apply (Hfresh k'); [cbn; apply elem_of_cons; right; exact Hk' | exact Hin].
      * cbn in Hin. apply list_elem_of_singleton in Hin. subst k'. contradiction.
Qed.

Lemma lookup_list_to_map_fn (f : string -> Z) (l : list string) (u : string) :
  (list_to_map (map (fun u => (u, f u)) l) : gmap string Z) !! u
  = if bool_decide (u ∈ l) then Some (f u) else None.
Proof.
  induction l as [| x l IH]; cbn [map list_to_map foldr].
  - rewrite lookup_empty. rewrite bool_decide_eq_false_2 by apply not_elem_of_nil.
    reflexivity.
  - destruct (decide (x = u)) as [-> | Hne].
    + rewrite lookup_insert_eq.
      rewrite bool_decide_eq_true_2 by (apply elem_of_cons; left; reflexivity).
      reflexivity.
    + rewrite lookup_insert_ne by exact Hne. rewrite IH.
      destruct (bool_decide (u ∈ l)) eqn:E.
      * rewrite bool_decide_eq_true_2; [reflexivity |].
        apply elem_of_cons. right. apply bool_decide_eq_true in E. exact E.
      * rewrite bool_decide_eq_false_2; [reflexivity |].
        apply bool_decide_eq_false in E. apply not_elem_of_cons. split; congruence.
Qed.
End FoldFacts.

Section FilterTroops.
Import Scavenge ScavengeManager ReserveSpec.
Variable config : ScavengingConfig.

Lemma scavenge_units_nodup : NoDup SCAVENGE_UNITS.
Proof. apply (bool_decide_unpack _). vm_compute. exact I. Qed.

(** What [_filter_troops] returns for a unit: the usable count, when the
    unit is a scavenge unit, is not excluded and has a usable troop. *)
Lemma filter_troops_get (idle : gmap string Z) (u : string) :
  Dict.get (_filter_troops config idle) u
  = if bool_decide (u ∈ SCAVENGE_UNITS)
       && negb (bool_decide (u ∈ scavenge_exclude config))
       && (0 <? usable config idle u)
    then Some (usable config idle u) else None.
Proof.
  unfold _filter_troops.
  set (f := fun x : string =>
              if bool_decide (x ∈ scavenge_exclude config) then None
              else if 0 <? usable config idle x then Some (usable config idle x) else None).
  transitivity (Dict.get
    (fold_left (fun needs unit_name =>
                  match f unit_name with
                  | Some b => Dict.set needs unit_name b
                  | None => needs
                  end) SCAVENGE_UNITS []) u).
  { f_equal. apply fold_left_pointwise. intros acc x. unfold f, usable.
    destruct (bool_decide (x ∈ scavenge_exclude config)); [reflexivity |].
    cbn zeta. destruct (0 <? _); reflexivity. }
  rewrite needs_fold by apply scavenge_units_nodup.
  unfold f. destruct (bool_decide (u ∈ SCAVENGE_UNITS)); [| reflexivity].
  destruct (bool_decide (u ∈ scavenge_exclude config)); [reflexivity |].
  cbn [negb andb]. destruct (0 <? usable config idle u); reflexivity.
Qed.

Lemma filter_troops_shape (idle : gmap string Z) :
  NoDup (Dict.keys (_filter_troops config idle))
  /\ Forall (fun e => e.1 ∈ SCAVENGE_UNITS /\ (e.1 ∉ scavenge_exclude config)
                      /\ e.2 = usable config idle e.1 /\ 0 < e.2)
            (_filter_troops config idle).
Proof.
  unfold _filter_troops.
  assert (H : forall (units : list string) (acc : list (string * Z)),
             (forall x, x ∈ units -> x ∈ SCAVENGE_UNITS) ->
             NoDup (Dict.keys acc)
             /\ Forall (fun e => e.1 ∈ SCAVENGE_UNITS /\ (e.1 ∉ scavenge_exclude config)
                                 /\ e.2 = usable config idle e.1 /\ 0 < e.2) acc ->
             let r := fold_left
                        (fun available u =>
                           if bool_decide (u ∈ scavenge_exclude config) then available
                           else
                             let count := default 0 (idle !! u) in
                             let reserve := default 0 (scavenge_reserve config !! u) in
                             let usable := count - reserve in
                             if 0 <? usable then Dict.set available u usable else available)
                        units acc in
             NoDup (Dict.keys r)
             /\ Forall (fun e => e.1 ∈ SCAVENGE_UNITS /\ (e.1 ∉ scavenge_exclude config)
                                 /\ e.2 = usable config idle e.1 /\ 0 < e.2) r).
  { induction units as [| x units IH]; intros acc Hunits [Hnd Hall]; cbn zeta;
      cbn [fold_left]; [split; assumption |].
    apply IH; [intros y Hy; apply Hunits; apply elem_of_cons; right; exact Hy |].
    destruct (bool_decide (x ∈ scavenge_exclude config)) eqn:Hex; [split; assumption |].
    cbn zeta. destruct (Z.ltb_spec 0 (default 0 (idle !! x)
                                      - default 0 (scavenge_reserve config !! x)))
      as [Hpos | Hpos]; [| split; assumption].
    split; [apply keys_set_NoDup; exact Hnd |].
    apply Forall_set; [exact Hall |]. cbn [fst snd].
    split; [apply Hunits; apply elem_of_cons; left; reflexivity |].
    split; [apply bool_decide_eq_false in Hex; exact Hex |].
    split; [reflexivity | exact Hpos]. }
  apply (H SCAVENGE_UNITS []); [auto |].
  split; [apply NoDup_nil_2 | constructor].
Qed.

(** [_filter_troops] only reads the scavenge units of the idle troops. *)
Lemma filter_troops_scavenge_counts (idle : gmap string Z) :
  _filter_troops config (scavenge_counts idle) = _filter_troops config idle.
Proof.
  unfold _filter_troops. apply fold_left_ext_in. intros acc x Hx.
  unfold scavenge_counts. rewrite lookup_list_to_map_fn.
  rewrite (bool_decide_eq_true_2 (x ∈ SCAVENGE_UNITS)) by exact Hx. reflexivity.
Qed.

(** The filtered troops are their own pool. *)
Lemma pool_of_filtered (idle : gmap string Z) :
  pool_of (_filter_troops config idle) = _filter_troops config idle.
Proof.
  destruct (filter_troops_shape idle) as [_ Hall].
  induction (_filter_troops config idle) as [| [u c] d IH]; [reflexivity |].
  apply Forall_cons in Hall as [(Hu & _ & _ & Hc) Hall]. cbn [fst snd] in Hu, Hc.
  unfold pool_of. cbn [List.filter].
  unfold in_scavenge_units. rewrite bool_decide_eq_true_2 by exact Hu.
  replace (0 <? c) with true by (symmetry; apply Z.ltb_lt; exact Hc).
  cbn [andb]. f_equal. apply IH. exact Hall.
Qed.
End FilterTroops.

Section WeightKeys.
Import Scavenge.
Context {F : Type} (fl : Float.ops F).

Lemma runtime_weights_cons (x : Z) (tiers : list Z) :
  equal_runtime_weights fl (x :: tiers)
  = match Dict.get LOOT_RATIOS x with
    | Some r => (x, Float.div fl (Float.lit fl 1) (Float.lit fl r))
                  :: equal_runtime_weights fl tiers
    | None => equal_runtime_weights fl tiers
    end.
Proof.
  unfold equal_runtime_weights. cbn [omap list_omap].
  destruct (Dict.get LOOT_RATIOS x); reflexivity.
Qed.

Lemma runtime_weights_keys (tiers : list Z) :
  NoDup tiers ->
  NoDup (Dict.keys (equal_runtime_weights fl tiers))
  /\ forall t, t ∈ Dict.keys (equal_runtime_weights fl tiers) -> t ∈ tiers.
Proof.
  induction tiers as [| x tiers IH]; intros Hnd.
  - split; [apply NoDup_nil_2 |]. intros t Ht. apply elem_of_nil in Ht. destruct Ht.
  - apply NoDup_cons in Hnd as [Hx Hnd]. destruct (IH Hnd) as [IH1 IH2].
    rewrite runtime_weights_cons.
    destruct (Dict.get LOOT_RATIOS x) as [ratio |]; cbn [Dict.keys map fst].
    + fold (Dict.keys (equal_runtime_weights fl tiers)). split.
      * apply NoDup_cons. split; [| exact IH1]. intros Hin. apply Hx. apply IH2. exact Hin.
      * intros t Ht. apply elem_of_cons in Ht as [-> | Ht]; apply elem_of_cons;
          [left; reflexivity | right; apply IH2; exact Ht].
    + split; [exact IH1 |]. intros t Ht. apply elem_of_cons. right. apply IH2. exact Ht.
Qed.
End WeightKeys.

(** X9.  The ratio plan keeps the reserves home.  Whatever the tiers,
    the carry table and the float operations, the plan sends of every unit
    at most what is idle beyond the configured reserve, nothing of a unit
    that is excluded or is no scavenge unit, and, whenever the plan is not
    empty, exactly the idle troops beyond the reserve of every other unit. *)
Theorem ratio_plan_keeps_reserves_home
  {F : Type} (fl : Float.ops F) (config : ScavengeManager.ScavengingConfig)
  (unit_carries : gmap string Z) (unlocked_tiers : list Z) (idle_troops : gmap string Z) :
  NoDup unlocked_tiers ->
  forall u : string,
    let sent := Scavenge.allocated
                  (ScavengeManager.ratio_plan fl config unit_carries unlocked_tiers
                     idle_troops) u in
    0 <= sent <= Z.max 0 (ReserveSpec.usable config idle_troops u)
    /\ (u ∈ ScavengeManager.scavenge_exclude config \/ u ∉ Scavenge.SCAVENGE_UNITS ->
        sent = 0)
    /\ (ScavengeManager.ratio_plan fl config unit_carries unlocked_tiers idle_troops <> [] ->
        u ∈ Scavenge.SCAVENGE_UNITS ->
        u ∉ ScavengeManager.scavenge_exclude config ->
        sent = Z.max 0 (ReserveSpec.usable config idle_troops u)).
Proof.
  intros Hnd u. cbn zeta. unfold ScavengeManager.ratio_plan.
  rewrite filter_troops_scavenge_counts.
  set (available := ScavengeManager._filter_troops config idle_troops).
  set (weights := Scavenge.equal_runtime_weights fl unlocked_tiers).
  destruct (filter_troops_shape config idle_troops) as [Hnda _]. fold available in Hnda.
  destruct (runtime_weights_keys fl unlocked_tiers Hnd) as [Hndw _]. fold weights in Hndw.
  assert (Hcount : Scavenge.unit_count (Scavenge.pool_of available) u
                   = if bool_decide (u ∈ Scavenge.SCAVENGE_UNITS)
                          && negb (bool_decide (u ∈ ScavengeManager.scavenge_exclude config))
                          && (0 <? ReserveSpec.usable config idle_troops u)
                     then ReserveSpec.usable config idle_troops u else 0).
  { unfold available. rewrite pool_of_filtered.
    unfold Scavenge.unit_count, Dict.get_or. rewrite filter_troops_get.
    destruct (_ && _ && _); reflexivity. }
  destruct (guard_cases fl available weights (Some unit_carries))
    as [Hg | ((k0 & ks & Hkeys) & Hsum & Htotal)].
  - rewrite (guard_fails_empty fl _ _ _ Hg). cbn.
    split; [lia |]. split; [reflexivity |]. intros Hne. congruence.
  - assert (Hsent : Scavenge.allocated
                      (Scavenge.allocate_by_ratio fl available weights (Some unit_carries)) u
                    = Scavenge.unit_count (Scavenge.pool_of available) u).
    { rewrite (allocate_by_ratio_body fl (default ∅ (Some unit_carries)) available weights
                 (Some unit_carries) k0 ks eq_refl Hkeys Hsum Htotal).
      rewrite allocated_filter.
      apply allocation_body_counts; [exact Hnda | exact Hndw |].
      rewrite Hkeys. apply min_list_elem. }
    rewrite Hsent, Hcount.
    destruct (bool_decide (u ∈ Scavenge.SCAVENGE_UNITS)) eqn:Hu; cbn [andb].
    + destruct (bool_decide (u ∈ ScavengeManager.scavenge_exclude config)) eqn:Hex;
        cbn [negb andb].
      * split; [lia |]. split; [reflexivity |].
        intros _ _ Hn. apply bool_decide_eq_true in Hex. contradiction.
      * destruct (Z.ltb_spec 0 (ReserveSpec.usable config idle_troops u)).
        -- split; [lia |]. split; [| intros; lia].
           intros [H1 | H1].
           ++ apply bool_decide_eq_false in Hex. contradiction.
           ++ apply bool_decide_eq_true in Hu. contradiction.
        -- split; [lia |]. split; [reflexivity | intros; lia].
    + split; [lia |]. split; [reflexivity |].
      intros _ Hin. apply bool_decide_eq_false in Hu. contradiction.
Qed.

Lemma ratio_plan_keeps_reserves_home_witness :
  ScavengeManager.ratio_plan Float.exact ReserveSpec.keep_fifty_spears
    AllocationSpec.mixed_carry [1; 2] ReserveSpec.idle_home
  = [(1, [("spear"%string, 95)]); (2, [("light"%string, 10); ("spear"%string, 5)])]
  /\ Scavenge.allocated
       (ScavengeManager.ratio_plan Float.exact ReserveSpec.keep_fifty_spears
          AllocationSpec.mixed_carry [1; 2] ReserveSpec.idle_home) "spear"
     = 100.
Proof.
  split; [vm_compute; reflexivity |].
  refine (proj2 (proj2 (ratio_plan_keeps_reserves_home Float.exact
                          ReserveSpec.keep_fifty_spears AllocationSpec.mixed_carry [1; 2]
                          ReserveSpec.idle_home _ "spear"%string)) _ _ _).
  - apply (bool_decide_unpack _). vm_compute. exact I.
  - vm_compute. discriminate.
  - apply (bool_decide_unpack _). vm_compute. exact I.
  - apply (bool_decide_unpack _). vm_compute. exact I.
Defined.

Section ReturnTimes.
Import ScavengeManager.

Lemma py_max_ge (a b : Q) : (a <= py_max a b)%Q /\ (b <= py_max a b)%Q.
Proof.
  unfold py_max. destruct (Qlt_bool_cases a b) as [[-> H] | [-> H]]; split; lra.
Qed.

Lemma max_list_ge (xs : list Q) (x : Q) :
  (x <= max_list x xs)%Q /\ forall y, y ∈ xs -> (y <= max_list x xs)%Q.
Proof.
  unfold max_list. revert x. induction xs as [| z xs IH]; intros x; cbn [fold_left].
  - split; [lra |]. intros y Hy. apply elem_of_nil in Hy. destruct Hy.
  - destruct (IH (py_max x z)) as [H1 H2]. destruct (py_max_ge x z) as [Hx Hz].
    split; [lra |]. intros y Hy. apply elem_of_cons in Hy as [-> | Hy]; [lra | auto].
Qed.

Lemma seconds_until_return_spec (next_return now : Q) :
  (0 <= seconds_until_return next_return now)%Q
  /\ ((0 < next_return)%Q -> (next_return - now <= seconds_until_return next_return now)%Q)
  /\ ((next_return <= now)%Q -> (seconds_until_return next_return now == 0)%Q).
Proof.
  unfold seconds_until_return.
  destruct (Qle_bool next_return 0) eqn:E.
  - apply Qle_bool_iff in E. repeat split; try lra.
  - assert (Hpos : (0 < next_return)%Q).
    { apply Qnot_le_lt. intros H. apply Qle_bool_iff in H. congruence. }
    unfold py_max.
    destruct (Qlt_bool_cases 0 (next_return - now)) as [[-> H] | [-> H]];
      repeat split; intros; lra.
Qed.
End ReturnTimes.

(** X10.  After the return times were fetched, [next_return] is at least
    every return time of an unlocked tier, so the wait reported by
    [seconds_until_return] covers every running mission; it is never
    negative and is zero once [next_return] has passed.  When no return time
    concerns an unlocked tier, or the fetch failed, [next_return] stays as
    it was. *)
Theorem scavenge_wait_covers_running_missions
  (return_times : list (Z * Q)) (unlocked_tiers : option (list Z))
  (next_return now : Q) :
  let relevant tier :=
    match unlocked_tiers with None => True | Some tiers => tier ∈ tiers end in
  let next' := ScavengeManager._update_return_times (Some return_times) unlocked_tiers
                 next_return in
  (0 <= ScavengeManager.seconds_until_return next' now)%Q
  /\ (forall tier ts, (tier, ts) ∈ return_times -> relevant tier ->
        (ts <= next')%Q
        /\ ((0 < ts)%Q -> (ts - now <= ScavengeManager.seconds_until_return next' now)%Q))
  /\ ((forall tier ts, (tier, ts) ∈ return_times -> ~ relevant tier) ->
      next' = next_return)
  /\ ((next' <= now)%Q -> (ScavengeManager.seconds_until_return next' now == 0)%Q)
  /\ ScavengeManager._update_return_times None unlocked_tiers next_return = next_return.
Proof.
  cbn zeta.
  set (next' := ScavengeManager._update_return_times (Some return_times) unlocked_tiers
                  next_return).
  destruct (seconds_until_return_spec next' now) as (Hpos & Hcover & Hpast).
  split; [exact Hpos |].
  set (keep := fun '((tier, _) : Z * Q) =>
                 match unlocked_tiers with
                 | None => true
                 | Some tiers => bool_decide (tier ∈ tiers)
                 end).
  assert (Hkeep : forall tier ts,
             keep (tier, ts) = true
             <-> match unlocked_tiers with None => True | Some tiers => tier ∈ tiers end).
  { intros tier ts. unfold keep. destruct unlocked_tiers as [tiers |]; [| tauto].
    apply bool_decide_eq_true. }
  assert (Hnext : next' = match map snd (List.filter keep return_times) with
                          | [] => next_return
                          | ts :: rest => max_list ts rest
                          end) by reflexivity.
  split; [| split; [| split; [exact Hpast | reflexivity]]].
  - intros tier ts Hin Hrel.
    assert (Hts : ts ∈ map snd (List.filter keep return_times)).
    { apply (list_elem_of_fmap_2' snd _ (tier, ts)); [| reflexivity].
      apply elem_filter. split; [exact Hin | apply Hkeep; exact Hrel]. }
    assert (Hle : (ts <= next')%Q).
    { rewrite Hnext. destruct (map snd (List.filter keep return_times)) as [| t0 rest].
      - apply elem_of_nil in Hts. destruct Hts.
      - destruct (max_list_ge rest t0) as [H0 Hr].
        apply elem_of_cons in Hts as [-> | Hts]; [exact H0 | apply Hr; exact Hts]. }
    split; [exact Hle |]. intros Hp.
    assert (0 < next')%Q by lra. specialize (Hcover H). lra.
  - intros Hnone. rewrite Hnext.
    destruct (List.filter keep return_times) as [| [tier ts] rest] eqn:Hf; [reflexivity |].
    exfalso. assert (Hin : (tier, ts) ∈ List.filter keep return_times).
    { rewrite Hf. apply elem_of_cons. left. reflexivity. }
    apply elem_filter in Hin as [Hin Hk]. apply (Hnone tier ts Hin). apply (Hkeep tier ts).
    exact Hk.
Qed.

Section LegacyModes.
Import Scavenge ScavengeManager LegacySpec.

Lemma within_refl (available : list (string * Z)) :
  Forall (fun e => 0 < e.2) available -> within available available.
Proof.
  intros Hpos. unfold within. apply Forall_forall. intros [u c] Hin.
  rewrite Forall_forall in Hpos. specialize (Hpos _ Hin). cbn in Hpos |- *.
  exists c. split; [exact Hin | lia].
Qed.

Lemma positive_only_elem (d : list (string * Z)) (u : string) (c : Z) :
  (u, c) ∈ positive_only d <-> (u, c) ∈ d /\ 0 < c.
Proof.
  unfold positive_only. rewrite elem_filter. rewrite Z.ltb_lt. reflexivity.
Qed.

Lemma positive_only_keys (d : list (string * Z)) :
  NoDup (Dict.keys d) -> NoDup (Dict.keys (positive_only d)).
Proof.
  unfold positive_only. induction d as [| [u c] d IH]; cbn; intros Hnd; [exact Hnd |].
  apply NoDup_cons in Hnd as [Hu Hnd].
  destruct (0 <? c); cbn; [| apply IH; exact Hnd].
  apply NoDup_cons. split; [| apply IH; exact Hnd].
  intros Hin. apply Hu. clear -Hin.
  induction d as [| [u' c'] d IH]; cbn in *; [exact Hin |].
  destruct (0 <? c'); cbn in *; rewrite ?elem_of_cons in *; tauto.
Qed.

Lemma map_values_keys {V V' : Type} (g : string -> V -> V') (d : list (string * V)) :
  Dict.keys (map (fun '(k, v) => (k, g k v)) d) = Dict.keys d.
Proof. induction d as [| [k v] d IH]; cbn; [reflexivity | f_equal; exact IH]. Qed.

Lemma map_values_elem {V V' : Type} (g : string -> V -> V') (d : list (string * V))
      (u : string) (c' : V') :
  (u, c') ∈ map (fun '(k, v) => (k, g k v)) d -> exists c, (u, c) ∈ d /\ c' = g u c.
Proof.
  intros Hin. apply list_elem_of_fmap_1 in Hin as ([k v] & Heq & Hin).
  injection Heq as -> ->. exists v. split; [exact Hin | reflexivity].
Qed.

Lemma send_all_within (available : list (string * Z)) (remaining_tiers : Z) :
  NoDup (Dict.keys available) ->
  Forall (fun e => 0 < e.2) available ->
  within available (_allocate_send_all available remaining_tiers)
  /\ NoDup (Dict.keys (_allocate_send_all available remaining_tiers)).
Proof.
  intros Hnd Hpos. unfold _allocate_send_all.
  destruct (Z.leb_spec remaining_tiers 1) as [Hrt | Hrt];
    [split; [apply within_refl; exact Hpos | exact Hnd] |].
  rewrite (fold_set_map (fun _ count => count / remaining_tiers) available Hnd [])
    by (intros k _; apply not_elem_of_nil).
  cbn [app]. split.
  - unfold within. apply Forall_forall. intros [u c'] Hin.
    apply positive_only_elem in Hin as [Hin Hc'].
    apply map_values_elem in Hin as (c & Hin & ->). cbn [fst snd].
    exists c. split; [exact Hin |].
    rewrite Forall_forall in Hpos. specialize (Hpos _ Hin). cbn in Hpos.
    split; [lia |]. apply Z.div_le_upper_bound; nia.
  - apply positive_only_keys. rewrite map_values_keys. exact Hnd.
Qed.

Lemma within_get (available d : list (string * Z)) (u : string) (c : Z) :
  NoDup (Dict.keys available) -> within available d -> (u, c) ∈ d ->
  1 <= c <= Dict.get_or available u 0 /\ (u, Dict.get_or available u 0) ∈ available.
Proof.
  intros Hnd Hw Hin. unfold within in Hw. rewrite Forall_forall in Hw.
  destruct (Hw _ Hin) as (c0 & Hc0 & Hc). cbn [fst snd] in Hc0, Hc.
  unfold Dict.get_or. rewrite (elem_get_Some available u c0 Hnd Hc0). cbn.
  split; [exact Hc | exact Hc0].
Qed.

Lemma time_based_within (config : ScavengingConfig) (available : list (string * Z))
      (tier remaining_tiers : Z) :
  NoDup (Dict.keys available) ->
  Forall (fun e => 0 < e.2) available ->
  within available (_allocate_time_based config available tier remaining_tiers).
Proof.
  intros Hnd Hpos. unfold _allocate_time_based.
  destruct (send_all_within available remaining_tiers Hnd Hpos) as [Hw Hnda].
  set (allocation := _allocate_send_all available remaining_tiers) in *.
  cbn zeta. destruct (0 <? screen_calculate_duration allocation tier).
  - unfold within. apply Forall_forall. intros [u c'] Hin.
    apply positive_only_elem in Hin as [Hin Hc'].
    apply map_values_elem in Hin as (c1 & Hin & ->).
    apply map_values_elem in Hin as (c0 & Hin & ->).
    destruct (within_get available allocation u c0 Hnd Hw Hin) as [Hc0 Hget].
    cbn [fst snd]. exists (Dict.get_or available u 0).
    split; [exact Hget | lia].
  - unfold within in *. apply Forall_forall. intros [u c'] Hin.
    apply positive_only_elem in Hin as [Hin Hc'].
    rewrite Forall_forall in Hw. exact (Hw _ Hin).
Qed.

Lemma tier_weight_bounds (tier : Z) : (0 <= tier_weight tier <= 1)%Q.
Proof.
  unfold tier_weight, Dict.get_or. cbn [Dict.get].
  repeat (destruct (decide _); [cbn; split; discriminate |]).
  cbn. split; discriminate.
Qed.

Lemma py_int_fraction (c : Z) (w : Q) :
  0 <= c -> (0 <= w <= 1)%Q -> py_int (inject_Z c * w) <= c.
Proof.
  intros Hc [Hw0 Hw1]. unfold py_int.
  assert (Hcq : (0 <= inject_Z c)%Q) by (rewrite <- (Zle_Qle 0); exact Hc).
  assert (Hx0 : (0 <= inject_Z c * w)%Q) by (apply Qmult_le_0_compat; assumption).
  assert (Hx1 : (inject_Z c * w <= inject_Z c)%Q).
  { rewrite <- (Qmult_1_r (inject_Z c)) at 2.
    rewrite !(Qmult_comm (inject_Z c)). apply Qmult_le_compat_r; assumption. }
  replace (Qle_bool 0 (inject_Z c * w)) with true
    by (symmetry; apply Qle_bool_iff; exact Hx0).
  rewrite Zle_Qle. eapply Qle_trans; [apply Qfloor_le | exact Hx1].
Qed.

Lemma max_efficiency_within (available : list (string * Z)) (tier remaining_tiers : Z) :
  NoDup (Dict.keys available) ->
  Forall (fun e => 0 < e.2) available ->
  within available (_allocate_max_efficiency available tier remaining_tiers).
Proof.
  intros Hnd Hpos. unfold _allocate_max_efficiency. cbn zeta.
  rewrite (fold_set_map (fun _ count => Z.max 1 (py_int (inject_Z count * tier_weight tier)))
             available Hnd [])
    by (intros k _; apply not_elem_of_nil).
  cbn [app]. unfold within. apply Forall_forall. intros [u c'] Hin.
  apply positive_only_elem in Hin as [Hin Hc'].
  apply map_values_elem in Hin as (c & Hin & ->). cbn [fst snd].
  exists c. split; [exact Hin |].
  rewrite Forall_forall in Hpos. specialize (Hpos _ Hin). cbn in Hpos.
  pose proof (py_int_fraction c (tier_weight tier) ltac:(lia) (tier_weight_bounds tier)).
  lia.
Qed.
End LegacyModes.

(** X11.  In the legacy modes ([send_all], [time_based] and
    [max_efficiency]) every allocation handed to [send_scavenge] holds at
    least one and at most the usable troops of a unit, those idle beyond
    the configured reserve, and only of scavenge units that are not
    excluded. *)
Theorem legacy_allocation_stays_within_usable_troops
  (config : ScavengeManager.ScavengingConfig) (available : gmap string Z)
  (tier remaining_tiers : Z) :
  forall u c,
    (u, c) ∈ ScavengeManager._allocate_troops config available tier remaining_tiers ->
    u ∈ Scavenge.SCAVENGE_UNITS
    /\ (u ∉ ScavengeManager.scavenge_exclude config)
    /\ 1 <= c <= ReserveSpec.usable config available u.
Proof.
  intros u c Hin. unfold ScavengeManager._allocate_troops in Hin. cbn zeta in Hin.
  destruct (filter_troops_shape config available) as [Hnd Hall].
  set (usable := ScavengeManager._filter_troops config available) in *.
  assert (Hpos : Forall (fun e => 0 < e.2) usable).
  { eapply Forall_impl; [exact Hall |]. intros e (_ & _ & _ & He). exact He. }
  assert (Hw : LegacySpec.within usable
                 (ScavengeManager._allocate_troops config available tier remaining_tiers)).
  { unfold ScavengeManager._allocate_troops. cbn zeta. fold usable.
    destruct (is_empty usable); [constructor |].
    destruct (String.eqb _ "send_all"); [apply send_all_within; assumption |].
    destruct (String.eqb _ "time_based");
      [apply time_based_within | apply max_efficiency_within]; assumption. }
  unfold LegacySpec.within in Hw. rewrite Forall_forall in Hw.
  destruct (Hw (u, c)) as (c0 & Hc0 & Hc).
  { unfold ScavengeManager._allocate_troops. cbn zeta. exact Hin. }
  cbn [fst snd] in Hc0, Hc. rewrite Forall_forall in Hall.
  destruct (Hall _ Hc0) as (Hu & Hex & Heq & _). cbn [fst snd] in Hu, Hex, Heq.
  split; [exact Hu |]. split; [exact Hex |]. rewrite <- Heq. exact Hc.
Qed.

Lemma legacy_allocation_stays_within_usable_troops_witness :
  ScavengeManager._allocate_troops LegacySpec.time_based_config ReserveSpec.idle_home 2 2
  = [("spear"%string, 100); ("light"%string, 10)]
  /\ 1 <= 100 <= ReserveSpec.usable LegacySpec.time_based_config ReserveSpec.idle_home "spear".
Proof.
  split; [vm_compute; reflexivity |].
  refine (proj2 (proj2 (legacy_allocation_stays_within_usable_troops
                          LegacySpec.time_based_config ReserveSpec.idle_home 2 2
                          "spear"%string 100 _))).
  apply (bool_decide_unpack _). vm_compute. exact I.
Defined.

(** * Properties of the panel state *)

Section Timers.
Import PanelTimers TimerSpec.

Lemma get_pop_eq {V : Type} (d : list (string * V)) (k : string) :
  NoDup (Dict.keys d) -> Dict.get (pop d k) k = None.
Proof.
  induction d as [| [k' v] d IH]; cbn; intros Hnd; [reflexivity |].
  apply NoDup_cons in Hnd as [Hk Hnd].
  destruct (decide (k' = k)) as [-> | Hne].
  - apply get_None_keys. exact Hk.
  - cbn. destruct (decide (k' = k)); [contradiction | apply IH; exact Hnd].
Qed.

Lemma get_pop_ne {V : Type} (d : list (string * V)) (k k' : string) :
  k <> k' -> Dict.get (pop d k) k' = Dict.get d k'.
Proof.
  intros Hne. induction d as [| [k0 v] d IH]; cbn; [reflexivity |].
  destruct (decide (k0 = k)) as [-> | Hk].
  - destruct (decide (k = k')); [contradiction | reflexivity].
  - cbn. destruct (decide (k0 = k')); [reflexivity | exact IH].
Qed.

Lemma pop_keys_sub {V : Type} (d : list (string * V)) (k x : string) :
  x ∈ Dict.keys (pop d k) -> x ∈ Dict.keys d.
Proof.
  induction d as [| [k0 v] d IH]; cbn; [auto |].
  destruct (decide (k0 = k)); cbn; rewrite !elem_of_cons; tauto.
Qed.

Lemma pop_keys_NoDup {V : Type} (d : list (string * V)) (k : string) :
  NoDup (Dict.keys d) -> NoDup (Dict.keys (pop d k)).
Proof.
  induction d as [| [k0 v] d IH]; cbn; intros Hnd; [exact Hnd |].
  apply NoDup_cons in Hnd as [Hk Hnd].
  destruct (decide (k0 = k)); [exact Hnd |]. cbn.
  apply NoDup_cons. split; [| apply IH; exact Hnd].
  intros Hin. apply Hk. eapply pop_keys_sub. exact Hin.
Qed.

Lemma get_filter {V : Type} (f : V -> bool) (d : list (string * V)) (k : string) :
  NoDup (Dict.keys d) ->
  Dict.get (List.filter (fun '(_, v) => f v) d) k
  = match Dict.get d k with
    | Some v => if f v then Some v else None
    | None => None
    end.
Proof.
  induction d as [| [k0 v] d IH]; cbn; intros Hnd; [reflexivity |].
  apply NoDup_cons in Hnd as [Hk Hnd].
  destruct (decide (k0 = k)) as [-> | Hne].
  - destruct (f v); cbn.
    + destruct (decide (k = k)); [reflexivity | congruence].
    + rewrite (IH Hnd).
      assert (Hn : Dict.get d k = None) by (apply get_None_keys; exact Hk).
      rewrite Hn. reflexivity.
  - destruct (f v); cbn; [destruct (decide (k0 = k)); [contradiction |] |]; apply IH; exact Hnd.
Qed.

(** The timers dict after a run of calls: distinct keys, and under each
    key what the last call naming it wrote. *)
Lemma history_last_write (calls : list timer_call) :
  forall (timers : list (string * TimerState)),
    NoDup (Dict.keys timers) ->
    let final := fold_left apply_call calls timers in
    NoDup (Dict.keys final)
    /\ forall timer_id,
         Dict.get final timer_id
         = fold_left
             (fun acc c =>
                match c with
                | SetTimer i l e cat =>
                    if decide (i = timer_id)
                    then Some {| label := l; end_ts := e; category := cat |} else acc
                | ClearTimer i => if decide (i = timer_id) then None else acc
                end) calls (Dict.get timers timer_id).
Proof.
  induction calls as [| c calls IH]; intros timers Hnd; cbn zeta; cbn [fold_left].
  - split; [exact Hnd | reflexivity].
  - assert (Hnd' : NoDup (Dict.keys (apply_call timers c))).
    { destruct c; cbn; [apply keys_set_NoDup | apply pop_keys_NoDup]; exact Hnd. }
    destruct (IH _ Hnd') as [H1 H2]. split; [exact H1 |].
    intros timer_id. rewrite H2. f_equal.
    destruct c as [i l e cat | i]; cbn [apply_call]; unfold set_timer, clear_timer.
    + destruct (decide (i = timer_id)) as [-> | Hne];
        [apply get_set_eq | apply get_set_ne; exact Hne].
    + destruct (decide (i = timer_id)) as [-> | Hne];
        [apply get_pop_eq; exact Hnd | apply get_pop_ne; exact Hne].
Qed.
End Timers.

(** X12.  After any run of [set_timer] and [clear_timer] calls on a fresh
    store, the timers that [to_json_dict] serialises are exactly those whose
    last call was a [set_timer] with an end after the current time, with
    the label, end and category of that call; a timer that was cleared
    last, never set, or has expired is not serialised.  Clearing a timer
    that does not exist changes nothing. *)
Theorem serialised_timers_are_unexpired_last_writes
  (calls : list PanelTimers.timer_call) (now : Q) :
  (forall timer_id,
      Dict.get (PanelTimers.active_timers now (PanelTimers.history calls)) timer_id
      = TimerSpec.shown now (TimerSpec.last_write calls timer_id))
  /\ NoDup (Dict.keys (PanelTimers.active_timers now (PanelTimers.history calls)))
  /\ forall timer_id,
       timer_id ∉ Dict.keys (PanelTimers.history calls) ->
       PanelTimers.clear_timer timer_id (PanelTimers.history calls)
       = PanelTimers.history calls.
Proof.
  destruct (history_last_write calls [] NoDup_nil_2) as [Hnd Hget]. cbn zeta in Hnd, Hget.
  fold (PanelTimers.history calls) in Hnd, Hget.
  split; [| split].
  - intros timer_id. unfold PanelTimers.active_timers.
    rewrite (get_filter (fun t => Qlt_bool now (PanelTimers.end_ts t))) by exact Hnd.
    rewrite Hget. reflexivity.
  - unfold PanelTimers.active_timers.
    generalize (PanelTimers.history calls) Hnd. clear.
    induction l as [| [k t] l IH]; cbn; intros Hnd; [exact Hnd |].
    apply NoDup_cons in Hnd as [Hk Hnd].
    destruct (Qlt_bool now (PanelTimers.end_ts t)); cbn; [| apply IH; exact Hnd].
    apply NoDup_cons. split; [| apply IH; exact Hnd].
    intros Hin. apply Hk. clear -Hin.
    induction l as [| [k' t'] l IH]; cbn in *; [exact Hin |].
    destruct (Qlt_bool now (PanelTimers.end_ts t')); cbn in *;
      rewrite ?elem_of_cons in *; tauto.
  - intros timer_id. unfold PanelTimers.clear_timer.
    generalize (PanelTimers.history calls). clear.
    induction l as [| [k t] l IH]; cbn; intros Hin; [reflexivity |].
    apply not_elem_of_cons in Hin as [Hne Hin].
    destruct (decide (k = timer_id)); [congruence |]. f_equal. apply IH. exact Hin.
Qed.

(** X13.  Every log entry kept by the store reaches the panel: for a
    store filled by [add_log] calls, [to_json_dict] serialises the stored
    entries all and in order (its own cut to the last 200 drops nothing),
    and these are the last 200 messages logged. *)
Theorem serialised_logs_are_the_stored_ring (calls : list (Q * string * string)) :
  PanelTimers.logs_data (PanelState.add_logs calls PanelState.init)
  = PanelState.last_slice 200 calls.
Proof.
  unfold PanelTimers.logs_data.
  rewrite (add_logs_from calls PanelState.init) by (cbn; lia).
  cbn [PanelState.logs PanelState.init app].
  rewrite (last_slice_short 200 (PanelState.last_slice 200 _))
    by (rewrite last_slice_length; lia).
  unfold PanelState.last_slice. rewrite length_map.
  rewrite <- skipn_map, map_map.
  f_equal. rewrite <- (map_id calls) at 2. apply map_ext.
  intros [[now msg] lvl]. reflexivity.
Qed.

(** * Properties of the panel callbacks *)

Section Editor.
Import Building BuildQueueEditor EditorSpec.
Variable int : string -> option Z.

Lemma swap_adjacent_perm {A : Type} (i : nat) (q : list A) : swap i (S i) q ≡ₚ q.
Proof.
  revert q. induction i as [| i IH]; intros q.
  - destruct q as [| a [| b q]]; cbn; try reflexivity. apply perm_swap.
  - destruct q as [| x q]; [reflexivity |].
    specialize (IH q). unfold swap in *. cbn [lookup list_lookup].
    change ((x :: q) !! S i) with (q !! i).
    change ((x :: q) !! S (S i)) with (q !! S i).
    destruct (q !! i) as [a |]; [| reflexivity].
    destruct (q !! S i) as [b |]; [| reflexivity].
    cbn. apply perm_skip. exact IH.
Qed.

Lemma queue_of_insert bq vid q vid' :
  queue_of (<[vid := q]> bq) vid' = if decide (vid = vid') then q else queue_of bq vid'.
Proof.
  unfold queue_of. destruct (decide (vid = vid')) as [-> | Hne].
  - rewrite lookup_insert_eq. reflexivity.
  - rewrite lookup_insert_ne by exact Hne. reflexivity.
Qed.

Lemma levels_in_range_queue bq vid :
  levels_in_range bq -> Forall (fun s => 1 <= level s <= 30) (queue_of bq vid).
Proof.
  intros Hbq. unfold queue_of. destruct (bq !! vid) as [q |] eqn:E; cbn.
  - exact (Hbq _ _ E).
  - constructor.
Qed.

Lemma move_permutes (value : string) bq vid :
  queue_of (_on_bq_move int value bq) vid ≡ₚ queue_of bq vid.
Proof.
  unfold _on_bq_move.
  destruct (py_split colon value) as [| p0 [| p1 [| p2 [| p3 ps]]]]; try reflexivity.
  destruct (int p0) as [v |]; [| reflexivity].
  destruct (int p1) as [idx |]; [| reflexivity].
  cbn zeta. fold (queue_of bq v).
  destruct (String.eqb p2 "up" && (0 <? idx) && (idx <? Z.of_nat (length (queue_of bq v))))
    eqn:Hup.
  - rewrite queue_of_insert. destruct (decide (v = vid)) as [-> | _]; [| reflexivity].
    apply andb_true_iff in Hup as [Hup _]. apply andb_true_iff in Hup as [_ Hpos].
    apply Z.ltb_lt in Hpos.
    replace (Z.to_nat idx) with (S (Z.to_nat (idx - 1))) by lia.
    apply swap_adjacent_perm.
  - destruct (String.eqb p2 "down" && (0 <=? idx)
              && (idx <? Z.of_nat (length (queue_of bq v)) - 1)) eqn:Hdown;
      [| reflexivity].
    rewrite queue_of_insert. destruct (decide (v = vid)) as [-> | _]; [| reflexivity].
    apply andb_true_iff in Hdown as [Hdown _]. apply andb_true_iff in Hdown as [_ Hpos].
    apply Z.leb_le in Hpos.
    replace (Z.to_nat (idx + 1)) with (S (Z.to_nat idx)) by lia.
    apply swap_adjacent_perm.
Qed.

Lemma remove_drops_one (value : string) bq vid :
  queue_of (_on_bq_remove int value bq) vid = queue_of bq vid
  \/ exists i step,
       queue_of bq vid !! i = Some step
       /\ queue_of (_on_bq_remove int value bq) vid = delete i (queue_of bq vid).
Proof.
  unfold _on_bq_remove.
  destruct (py_split colon value) as [| p0 [| p1 [| p2 ps]]]; try (left; reflexivity).
  destruct (int p0) as [v |]; [| left; reflexivity].
  destruct (int p1) as [idx |]; [| left; reflexivity].
  cbn zeta. fold (queue_of bq v).
  destruct ((0 <=? idx) && (idx <? Z.of_nat (length (queue_of bq v)))) eqn:Hin;
    [| left; reflexivity].
  rewrite queue_of_insert. destruct (decide (v = vid)) as [-> | _]; [| left; reflexivity].
  apply andb_true_iff in Hin as [H0 H1]. apply Z.leb_le in H0. apply Z.ltb_lt in H1.
  destruct (lookup_lt_is_Some_2 (queue_of bq vid) (Z.to_nat idx)) as [step Hstep]; [lia |].
  right. exists (Z.to_nat idx), step. split; [exact Hstep | reflexivity].
Qed.

Lemma add_appends_one (value : string) bq vid :
  queue_of (_on_bq_add int value bq) vid = queue_of bq vid
  \/ exists building level,
       1 <= level <= 30
       /\ queue_of (_on_bq_add int value bq) vid = queue_of bq vid ++ [mkStep building level].
Proof.
  unfold _on_bq_add.
  destruct (py_split colon value) as [| p0 [| p1 [| p2 [| p3 ps]]]]; try (left; reflexivity).
  destruct (int p0) as [v |]; [| left; reflexivity].
  destruct (int p2) as [lvl |]; [| left; reflexivity].
  cbn zeta. fold (queue_of bq v).
  destruct (Z.ltb_spec lvl 1); cbn [orb]; [left; reflexivity |].
  destruct (Z.ltb_spec 30 lvl); [left; reflexivity |].
  rewrite queue_of_insert. destruct (decide (v = vid)) as [-> | _]; [| left; reflexivity].
  right. exists p1, lvl. split; [lia | reflexivity].
Qed.

Lemma queue_of_in_range bq :
  (forall vid, Forall (fun s => 1 <= level s <= 30) (queue_of bq vid)) -> levels_in_range bq.
Proof.
  intros H vid q Hlook. specialize (H vid). unfold queue_of in H. rewrite Hlook in H. exact H.
Qed.

Lemma clear_empties (active : Z) bq vid :
  queue_of (_on_bq_clear active bq) vid = queue_of bq vid
  \/ queue_of (_on_bq_clear active bq) vid = [].
Proof.
  unfold _on_bq_clear. destruct (_ && _); [| left; reflexivity].
  rewrite queue_of_insert. destruct (decide (active = vid)); [right | left]; reflexivity.
Qed.

Lemma Forall_delete {A : Type} (P : A -> Prop) (l : list A) (i : nat) :
  Forall P l -> Forall P (delete i l).
Proof.
  revert i. induction l as [| x l IH]; intros i Hl; [destruct i; exact Hl |].
  apply Forall_cons in Hl as [Hx Hl].
  destruct i as [| i]; cbn; [exact Hl | constructor; [exact Hx | apply IH; exact Hl]].
Qed.

Lemma handle_in_range (active : Z) bq (m : message) :
  levels_in_range bq -> levels_in_range (handle int active bq m).
Proof.
  intros Hbq. apply queue_of_in_range. intros vid.
  pose proof (levels_in_range_queue bq vid Hbq) as Hq.
  destruct m as [v | v | v |]; cbn [handle].
  - destruct (add_appends_one v bq vid) as [-> | (b & l & Hl & ->)]; [exact Hq |].
    apply Forall_app. split; [exact Hq |]. constructor; [exact Hl | constructor].
  - destruct (remove_drops_one v bq vid) as [-> | (i & s & _ & ->)]; [exact Hq |].
    apply Forall_delete. exact Hq.
  - rewrite (move_permutes v bq vid). exact Hq.
  - destruct (clear_empties active bq vid) as [-> | ->]; [exact Hq | constructor].
Qed.

Lemma handle_all_in_range (active : Z) (msgs : list message) bq :
  levels_in_range bq -> levels_in_range (fold_left (handle int active) msgs bq).
Proof.
  revert bq. induction msgs as [| m msgs IH]; intros bq Hbq; cbn [fold_left]; [exact Hbq |].
  apply IH. apply handle_in_range. exact Hbq.
Qed.
End Editor.

(** X14.  The build queue editor keeps the queues well formed, whatever
    the panel sends and however [int()] reads it.  Starting from queues
    whose steps ask for levels 1 to 30, every run of add, remove, move and
    clear messages leaves only such steps.  A move message permutes the
    queue of a village (no step is lost or invented); a remove message
    takes out at most one step, at an index of the queue; an add message
    appends at most one step, with a level from 1 to 30, at the end. *)
Theorem build_queue_editor_keeps_queues_well_formed
  (int : string -> option Z) (active_village_id : Z)
  (build_queues : gmap Z (list Building.BuildStep)) :
  (forall msgs,
      EditorSpec.levels_in_range build_queues ->
      EditorSpec.levels_in_range
        (fold_left (BuildQueueEditor.handle int active_village_id) msgs build_queues))
  /\ (forall value vid,
        EditorSpec.queue_of (BuildQueueEditor._on_bq_move int value build_queues) vid
        ≡ₚ EditorSpec.queue_of build_queues vid)
  /\ (forall value vid,
        EditorSpec.queue_of (BuildQueueEditor._on_bq_remove int value build_queues) vid
        = EditorSpec.queue_of build_queues vid
        \/ exists i step,
             EditorSpec.queue_of build_queues vid !! i = Some step
             /\ EditorSpec.queue_of (BuildQueueEditor._on_bq_remove int value build_queues) vid
                = delete i (EditorSpec.queue_of build_queues vid))
  /\ (forall value vid,
        EditorSpec.queue_of (BuildQueueEditor._on_bq_add int value build_queues) vid
        = EditorSpec.queue_of build_queues vid
        \/ exists building level,
             1 <= level <= 30
             /\ EditorSpec.queue_of (BuildQueueEditor._on_bq_add int value build_queues) vid
                = EditorSpec.queue_of build_queues vid ++ [Building.mkStep building level]).
Proof.
  split; [intros msgs; apply handle_all_in_range |].
  split; [intros value vid; apply move_permutes |].
  split; [intros value vid; apply remove_drops_one | intros value vid; apply add_appends_one].
Qed.

Section AutoRemove.
Import Building BuildQueueEditor.

Lemma count_queued_nonneg (q : list string) (b : string) :
  0 <= default 0 (count_queued q !! b).
Proof. rewrite build_queue_count. apply queued_of_nonneg. Qed.

(** Dropping the steps whose level is reached does not change what the
    walk over the steps finds. *)
Lemma walk_steps_filter (levels qc : gmap string Z) (steps : list BuildStep) :
  (forall b, 0 <= default 0 (qc !! b)) ->
  walk_steps levels qc
    (List.filter (fun s => default 0 (levels !! building s) <? level s) steps)
  = walk_steps levels qc steps.
Proof.
  intros Hqc. induction steps as [| s steps IH]; [reflexivity |].
  cbn [List.filter walk_steps].
  destruct (Z.ltb_spec (default 0 (levels !! building s)) (level s)) as [Hlt | Hge].
  - cbn [walk_steps]. rewrite IH. reflexivity.
  - rewrite IH. specialize (Hqc (building s)).
    replace (default 0 (levels !! building s) + default 0 (qc !! building s) <? level s)
      with false by (symmetry; apply Z.ltb_ge; lia).
    reflexivity.
Qed.

(** A filter that keeps the length keeps the list. *)
Lemma filter_keeps_all {A : Type} (f : A -> bool) (l : list A) :
  (length l <= length (List.filter f l))%nat -> List.filter f l = l.
Proof.
  induction l as [| x l IH]; [reflexivity |]. cbn [List.filter].
  pose proof (List.filter_length_le f l) as Hle.
  destruct (f x); cbn [length]; intros H.
  - f_equal. apply IH. lia.
  - lia.
Qed.
End AutoRemove.

(** X15.  [_auto_remove_completed_steps] prunes the panel queue of one
    village against the levels the building manager saw last.  The queues
    of the other villages are not touched, and when levels are known the
    queue of the village keeps, in their order, exactly the steps whose
    level is not reached.  While a step remains after the pruning,
    synchronising any manager with the pruned queue makes it pick, at the
    levels used for the pruning, the building it picks when synchronised
    with the queue as it was.  When no step remains,
    [_sync_build_queue_to_manager] leaves the manager as it is: the one
    manager of the program keeps the mode and the steps it held, which may
    be those of the village processed before. *)
Theorem pruning_keeps_the_pick_while_steps_remain
  (levels : gmap string Z) (village_id : Z)
  (build_queues : gmap Z (list Building.BuildStep)) :
  let pruned := BuildQueueEditor._auto_remove_completed_steps levels village_id
                  build_queues in
  (forall other, other <> village_id -> pruned !! other = build_queues !! other)
  /\ (forall steps,
        levels <> ∅ -> build_queues !! village_id = Some steps ->
        pruned !! village_id
        = Some (List.filter
                  (fun s => default 0 (levels !! Building.building s)
                            <? Building.level s) steps))
  /\ (forall manager queue_buildings,
        EditorSpec.queue_of pruned village_id <> [] ->
        Building._pick_next_building
          (BuildQueueEditor._sync_build_queue_to_manager village_id pruned manager)
          levels queue_buildings
        = Building._pick_next_building
            (BuildQueueEditor._sync_build_queue_to_manager village_id build_queues
               manager)
            levels queue_buildings)
  /\ (forall manager,
        EditorSpec.queue_of pruned village_id = [] ->
        BuildQueueEditor._sync_build_queue_to_manager village_id pruned manager
        = manager).
Proof.
  cbn zeta.
  assert (Hcases :
            BuildQueueEditor._auto_remove_completed_steps levels village_id build_queues
            = build_queues
            \/ exists steps,
                 levels <> ∅
                 /\ build_queues !! village_id = Some steps
                 /\ BuildQueueEditor._auto_remove_completed_steps levels village_id
                      build_queues
                    = <[village_id :=
                          List.filter
                            (fun s => default 0 (levels !! Building.building s)
                                      <? Building.level s) steps]> build_queues).
  { unfold BuildQueueEditor._auto_remove_completed_steps.
    destruct (bool_decide (levels = ∅)) eqn:Hl; [left; reflexivity |].
    apply bool_decide_eq_false in Hl.
    destruct (build_queues !! village_id) as [[| s steps] |] eqn:Hq;
      [left; reflexivity | | left; reflexivity].
    destruct (_ <? _)%nat; [| left; reflexivity].
    right. exists (s :: steps). split; [exact Hl | split; reflexivity]. }
  split; [| split; [| split]].
  - intros other Hne. destruct Hcases as [-> | (steps & _ & _ & ->)]; [reflexivity |].
    apply lookup_insert_ne. congruence.
  - intros steps Hl Hq.
    destruct Hcases as [Heq | (steps' & _ & Hq' & ->)].
    + rewrite Heq, Hq. f_equal. symmetry.
      unfold BuildQueueEditor._auto_remove_completed_steps in Heq.
      destruct (bool_decide (levels = ∅)) eqn:Hl'.
      { apply bool_decide_eq_true in Hl'. contradiction. }
      rewrite Hq in Heq. destruct steps as [| s steps]; [reflexivity |].
      destruct (Nat.ltb_spec
                  (length (List.filter
                             (fun s0 => default 0 (levels !! Building.building s0)
                                        <? Building.level s0) (s :: steps)))
                  (length (s :: steps))) as [Hlt | Hge].
      * apply (f_equal (fun m => m !! village_id)) in Heq.
        rewrite lookup_insert_eq, Hq in Heq. congruence.
      * apply filter_keeps_all. exact Hge.
    + rewrite lookup_insert_eq. congruence.
  - intros manager queue_buildings Hne.
    destruct Hcases as [-> | (steps & _ & Hq & Heq)]; [reflexivity |].
    rewrite Heq in *. unfold EditorSpec.queue_of in Hne. rewrite lookup_insert_eq in Hne.
    unfold BuildQueueEditor._sync_build_queue_to_manager.
    rewrite lookup_insert_eq, Hq. cbn [default from_option id] in Hne.
    destruct (List.filter _ steps) as [| r rest] eqn:Hrem; [congruence |].
    destruct steps as [| s steps]; [discriminate |].
    rewrite <- Hrem.
    unfold Building._pick_next_building, Building._pick_next_building_sequential.
    cbn [Building.mode Building.build_steps String.eqb Ascii.eqb Bool.eqb].
    apply walk_steps_filter. intros b. apply count_queued_nonneg.
  - intros manager Hnil. unfold EditorSpec.queue_of in Hnil.
    unfold BuildQueueEditor._sync_build_queue_to_manager.
    clear Hcases.
    destruct (BuildQueueEditor._auto_remove_completed_steps levels village_id
                build_queues !! village_id) as [[| s steps] |];
      [reflexivity | discriminate | reflexivity].
Qed.

Section ScavPanelFacts.
Import Scavenge ScavengeManager ScavPanel ScavPanelSpec.
Variable int : string -> option Z.

Lemma entry_for_other (config config' : ScavengingConfig) (unit u : string) :
  u <> unit ->
  (forall x, x <> unit -> (x ∈ scavenge_exclude config' <-> x ∈ scavenge_exclude config)) ->
  (forall x, x <> unit -> scavenge_reserve config' !! x = scavenge_reserve config !! x) ->
  entry_for config' u = entry_for config u.
Proof.
  intros Hne Hex Hres. unfold entry_for. rewrite (Hres u Hne). f_equal. f_equal.
  apply bool_decide_ext. apply Hex. exact Hne.
Qed.

Lemma update_mirrors (s : state) (unit : string) (config' : ScavengingConfig) :
  mirrors s ->
  (forall x, x <> unit ->
             (x ∈ scavenge_exclude config' <-> x ∈ scavenge_exclude (config s))) ->
  (forall x, x <> unit ->
             scavenge_reserve config' !! x = scavenge_reserve (config s) !! x) ->
  mirrors {| config := config';
             scavenge_troops := Dict.set (scavenge_troops s) unit (entry_for config' unit) |}.
Proof.
  intros Hm Hex Hres u e. cbn [config scavenge_troops].
  destruct (decide (unit = u)) as [-> | Hne].
  - rewrite get_set_eq. intros [= <-]. reflexivity.
  - rewrite get_set_ne by exact Hne. intros He.
    rewrite (Hm u e He). symmetry.
    apply (entry_for_other (config s) config' unit u); [congruence | exact Hex | exact Hres].
Qed.

Lemma filter_other (exclude : list string) (unit x : string) :
  x <> unit ->
  (x ∈ List.filter (fun u => negb (String.eqb u unit)) exclude <-> x ∈ exclude).
Proof.
  intros Hne. rewrite elem_filter. split; [tauto |]. intros Hin. split; [exact Hin |].
  destruct (String.eqb_spec x unit); [contradiction | reflexivity].
Qed.

Lemma on_scav_troop_mirrors (value : string) (s : state) :
  mirrors s -> mirrors (_on_scav_troop int value s).
Proof.
  intros Hm. unfold _on_scav_troop.
  destruct (py_split colon value) as [| unit [| field [| val [| p3 ps]]]]; try exact Hm.
  cbn zeta.
  destruct (String.eqb field "enabled").
  - destruct (String.eqb val "true"); [| destruct (bool_decide _)].
    + apply update_mirrors; [exact Hm | | reflexivity].
      intros x Hx. cbn [scavenge_exclude with_exclude]. apply filter_other. exact Hx.
    + apply update_mirrors; [exact Hm | reflexivity | reflexivity].
    + apply update_mirrors; [exact Hm | | reflexivity].
      intros x Hx. cbn [scavenge_exclude with_exclude].
      rewrite elem_of_app, list_elem_of_singleton. tauto.
  - destruct (String.eqb field "reserve"); [| exact Hm].
    destruct (int val) as [count |]; [| exact Hm].
    destruct (0 <=? count).
    + apply update_mirrors; [exact Hm | reflexivity |].
      intros x Hx. cbn [scavenge_reserve with_reserve].
      apply lookup_insert_ne. congruence.
    + apply update_mirrors; [exact Hm | reflexivity | reflexivity].
Qed.

Lemma on_scav_troop_keys (value : string) (s : state) (u : string) :
  u ∈ Dict.keys (scavenge_troops s) ->
  u ∈ Dict.keys (scavenge_troops (_on_scav_troop int value s)).
Proof.
  intros Hu. unfold _on_scav_troop.
  destruct (py_split colon value) as [| unit [| field [| val [| p3 ps]]]]; try exact Hu.
  cbn zeta.
  destruct (String.eqb field "enabled").
  - destruct (String.eqb val "true"); [| destruct (bool_decide _)];
      cbn [scavenge_troops]; apply keys_set_elem; right; exact Hu.
  - destruct (String.eqb field "reserve"); [| exact Hu].
    destruct (int val) as [count |]; [| exact Hu].
    destruct (0 <=? count); cbn [scavenge_troops]; apply keys_set_elem; right; exact Hu.
Qed.

Lemma sync_shape (config : ScavengingConfig) :
  (forall u e, Dict.get (sync_scavenge_troops config []) u = Some e ->
               e = entry_for config u)
  /\ forall u, u ∈ SCAVENGE_UNITS -> u ∈ Dict.keys (sync_scavenge_troops config []).
Proof.
  unfold sync_scavenge_troops.
  assert (H : forall (units : list string) (panel : list (string * (bool * Z))),
             let r := fold_left (fun panel unit => Dict.set panel unit (entry_for config unit))
                                units panel in
             (forall u e, Dict.get r u = Some e ->
                          e = entry_for config u \/ Dict.get panel u = Some e)
             /\ forall u, u ∈ units \/ u ∈ Dict.keys panel -> u ∈ Dict.keys r).
  { induction units as [| x units IH]; intros panel; cbn zeta; cbn [fold_left].
    - split; [intros u e He; right; exact He |].
      intros u [Hu | Hu]; [apply elem_of_nil in Hu; destruct Hu | exact Hu].
    - destruct (IH (Dict.set panel x (entry_for config x))) as [H1 H2]. cbn zeta in H1, H2.
      split.
      + intros u e He. destruct (H1 u e He) as [Hl | Hr]; [left; exact Hl |].
        destruct (decide (x = u)) as [-> | Hne].
        * rewrite get_set_eq in Hr. injection Hr as <-. left. reflexivity.
        * rewrite get_set_ne in Hr by exact Hne. right. exact Hr.
      + intros u Hu. apply H2. rewrite keys_set_elem.
        rewrite elem_of_cons in Hu. destruct Hu as [[-> | Hu] | Hu]; tauto. }
  destruct (H SCAVENGE_UNITS []) as [H1 H2]. cbn zeta in H1, H2. split.
  - intros u e He. destruct (H1 u e He) as [Hl | Hr]; [exact Hl | discriminate].
  - intros u Hu. apply H2. left. exact Hu.
Qed.

Lemma after_messages_shape (config0 : ScavengingConfig) (values : list string) :
  mirrors (after_messages int config0 values)
  /\ forall u, u ∈ SCAVENGE_UNITS ->
               u ∈ Dict.keys (scavenge_troops (after_messages int config0 values)).
Proof.
  unfold after_messages.
  destruct (sync_shape config0) as [Hm0 Hk0].
  set (s0 := {| config := config0; scavenge_troops := sync_scavenge_troops config0 [] |}).
  assert (Hm : mirrors s0) by exact Hm0.
  assert (Hk : forall u, u ∈ SCAVENGE_UNITS -> u ∈ Dict.keys (scavenge_troops s0))
    by exact Hk0.
  clearbody s0. clear Hm0 Hk0.
  revert s0 Hm Hk. induction values as [| v values IH]; intros s0 Hm Hk; cbn [fold_left].
  - split; assumption.
  - apply IH; [apply on_scav_troop_mirrors; exact Hm |].
    intros u Hu. apply on_scav_troop_keys. apply Hk. exact Hu.
Qed.
End ScavPanelFacts.

(** X16.  The scavenge settings shown by the panel are those the bot
    uses.  After the start-up sync and any run of [scav_troop] messages,
    every entry of the panel equals what the configuration holds for that
    unit, and every scavenge unit has an entry; hence whatever
    [_filter_troops] offers for scavenging is a unit that the panel shows
    enabled, and as many of it as are idle beyond the reserve that the
    panel shows. *)
Theorem panel_scavenge_settings_are_those_in_force
  (int : string -> option Z) (config0 : ScavengeManager.ScavengingConfig)
  (values : list string) :
  let s := ScavPanel.after_messages int config0 values in
  ScavPanelSpec.mirrors s
  /\ (forall u, u ∈ Scavenge.SCAVENGE_UNITS ->
                is_Some (Dict.get (ScavPanel.scavenge_troops s) u))
  /\ forall (idle_troops : gmap string Z) u c,
       Dict.get (ScavengeManager._filter_troops (ScavPanel.config s) idle_troops) u = Some c ->
       exists reserve,
         Dict.get (ScavPanel.scavenge_troops s) u = Some (true, reserve)
         /\ c = default 0 (idle_troops !! u) - reserve.
Proof.
  cbn zeta. destruct (after_messages_shape int config0 values) as [Hm Hk].
  set (s := ScavPanel.after_messages int config0 values) in *.
  assert (Hsome : forall u, u ∈ Scavenge.SCAVENGE_UNITS ->
                            is_Some (Dict.get (ScavPanel.scavenge_troops s) u)).
  { intros u Hu. specialize (Hk u Hu).
    destruct (Dict.get (ScavPanel.scavenge_troops s) u) as [e |] eqn:E; [eexists; reflexivity |].
    apply get_None_keys in E. contradiction. }
  split; [exact Hm |]. split; [exact Hsome |].
  intros idle u c Hget. rewrite filter_troops_get in Hget.
  destruct (bool_decide (u ∈ Scavenge.SCAVENGE_UNITS)) eqn:Hu; [| discriminate].
  destruct (bool_decide (u ∈ ScavengeManager.scavenge_exclude (ScavPanel.config s))) eqn:Hex;
    [discriminate |].
  cbn [negb andb] in Hget.
  destruct (0 <? ReserveSpec.usable (ScavPanel.config s) idle u); [| discriminate].
  injection Hget as <-.
  apply bool_decide_eq_true in Hu. destruct (Hsome u Hu) as [e He].
  pose proof (Hm u e He) as Heq. unfold ScavPanel.entry_for in Heq.
  rewrite Hex in Heq. cbn [negb] in Heq. subst e.
  eexists. split; [exact He | reflexivity].
Qed.

Section FeatureFacts.
Import FeatureConfig.

Lemma getattr_setattr (o : VillageOverride) (f f' : feature) (v : option bool) :
  getattr (setattr o f v) f' = if decide (f = f') then v else getattr o f'.
Proof. destruct f, f'; reflexivity. Qed.

Lemma enabled_created (overrides : gmap Z VillageOverride) (global : feature -> bool)
      (vid vid' : Z) (f : feature) :
  is_feature_enabled
    (match overrides !! vid with
     | None => <[vid := no_override]> overrides
     | Some _ => overrides
     end) global vid' f
  = is_feature_enabled overrides global vid' f.
Proof.
  destruct (overrides !! vid) as [o |] eqn:E; [reflexivity |].
  unfold is_feature_enabled. destruct (decide (vid = vid')) as [<- | Hne].
  - rewrite lookup_insert_eq, E. destruct f; reflexivity.
  - rewrite lookup_insert_ne by exact Hne. reflexivity.
Qed.
End FeatureFacts.

(** X17.  A per-village toggle overrides the global switch, and only
    there.  After a [village_toggle] message [vid:feature:value] naming a
    feature, [is_feature_enabled] answers, for that village and feature,
    [True] for the value ["true"], the global setting for ["null"], and
    [False] for anything else; its answer for every other village or
    feature is what it was, and a message it cannot read changes nothing. *)
Theorem village_toggle_overrides_one_switch
  (int : string -> option Z) (value : string)
  (village_overrides : gmap Z FeatureConfig.VillageOverride)
  (global : FeatureConfig.feature -> bool) :
  let after := FeatureConfig._on_village_toggle int value village_overrides in
  (forall p0 name raw vid f,
      py_split colon value = [p0; name; raw] ->
      int p0 = Some vid ->
      FeatureConfig.feature_of name = Some f ->
      FeatureConfig.is_feature_enabled after global vid f
      = if String.eqb raw "null" then global f else String.eqb raw "true")
  /\ (forall vid' f',
        FeatureConfig.is_feature_enabled after global vid' f'
        <> FeatureConfig.is_feature_enabled village_overrides global vid' f' ->
        exists p0 name raw,
          py_split colon value = [p0; name; raw]
          /\ int p0 = Some vid'
          /\ FeatureConfig.feature_of name = Some f').
Proof.
  cbn zeta. unfold FeatureConfig._on_village_toggle. split.
  - intros p0 name raw vid f Hsplit Hvid Hf. rewrite Hsplit, Hvid, Hf. cbn zeta.
    unfold FeatureConfig.is_feature_enabled. rewrite lookup_insert_eq.
    rewrite getattr_setattr. destruct (decide (f = f)); [| congruence].
    destruct (String.eqb raw "null"); [reflexivity |].
    destruct (String.eqb raw "true"); reflexivity.
  - intros vid' f' Hdiff.
    destruct (py_split colon value) as [| p0 [| p1 [| p2 [| p3 ps]]]];
      try (exfalso; apply Hdiff; reflexivity).
    destruct (int p0) as [vid |] eqn:Hvid; [| exfalso; apply Hdiff; reflexivity].
    cbn zeta in Hdiff.
    destruct (FeatureConfig.feature_of p1) as [f |] eqn:Hf.
    + destruct (decide (vid = vid')) as [<- | Hne].
      * destruct (decide (f = f')) as [<- | Hnf].
        -- exists p0, p1, p2. auto.
        -- exfalso. apply Hdiff.
           rewrite <- (enabled_created village_overrides global vid vid f').
           set (created := match village_overrides !! vid with
                           | None => <[vid := FeatureConfig.no_override]> village_overrides
                           | Some _ => village_overrides
                           end).
           unfold FeatureConfig.is_feature_enabled. rewrite lookup_insert_eq.
           rewrite getattr_setattr. destruct (decide (f = f')); [contradiction |].
           destruct (created !! vid) as [o |]; [reflexivity | destruct f'; reflexivity].
      * exfalso. apply Hdiff.
        rewrite <- (enabled_created village_overrides global vid vid' f').
        unfold FeatureConfig.is_feature_enabled at 1.
        rewrite lookup_insert_ne by exact Hne. reflexivity.
    + exfalso. apply Hdiff. apply enabled_created.
Qed.

Section ActiveHoursFacts.
Import ActiveHours ActiveHoursSpec.

Lemma time_le_micros (a b : time) :
  in_range a -> in_range b ->
  time_le a b = (micros a <=? micros b).
Proof.
  intros (Ha1 & Ha2 & Ha3) (Hb1 & Hb2 & Hb3). unfold time_le, micros.
  destruct (Z.ltb_spec (hour a) (hour b)); [symmetry; apply Z.leb_le; nia |].
  destruct (Z.ltb_spec (hour b) (hour a)); [symmetry; apply Z.leb_gt; nia |].
  destruct (Z.ltb_spec (minute a) (minute b)); [symmetry; apply Z.leb_le; nia |].
  destruct (Z.ltb_spec (minute b) (minute a)); [symmetry; apply Z.leb_gt; nia |].
  destruct (Z.ltb_spec (second a) (second b)); [symmetry; apply Z.leb_le; nia |].
  destruct (Z.ltb_spec (second b) (second a)); [symmetry; apply Z.leb_gt; nia |].
  destruct (Z.leb_spec (microsecond a) (microsecond b));
    symmetry; [apply Z.leb_le | apply Z.leb_gt]; nia.
Qed.

Lemma dtime_Some (h m : Z) :
  0 <= h <= 23 -> 0 <= m <= 59 -> dtime h m = Some (mkTime h m 0 0).
Proof.
  intros Hh Hm. unfold dtime.
  replace (0 <=? h) with true by (symmetry; apply Z.leb_le; lia).
  replace (h <=? 23) with true by (symmetry; apply Z.leb_le; lia).
  replace (0 <=? m) with true by (symmetry; apply Z.leb_le; lia).
  replace (m <=? 59) with true by (symmetry; apply Z.leb_le; lia).
  reflexivity.
Qed.
End ActiveHoursFacts.

(** X18.  For an [active_hours] string that reads as two valid times of
    day, the bot is active exactly from the start time to the end time, both
    at second zero: at [now] it is active if and only if
    [start <= now <= end].  So a window whose end is before its start,
    like 22:00-06:00, is never active: the window does not wrap around
    midnight. *)
Theorem active_hours_window_does_not_wrap
  (int : string -> option Z) (strip : string -> string)
  (hours_str start_str end_str : string) (sh sm eh em : Z) (now : ActiveHours.time) :
  py_split ActiveHours.dash hours_str = [start_str; end_str] ->
  ActiveHours.hour_minute int strip start_str = Some (sh, sm) ->
  ActiveHours.hour_minute int strip end_str = Some (eh, em) ->
  0 <= sh <= 23 -> 0 <= sm <= 59 -> 0 <= eh <= 23 -> 0 <= em <= 59 ->
  ActiveHoursSpec.in_range now ->
  (ActiveHours._is_active_hours int strip hours_str now = true
   <-> ActiveHoursSpec.micros (ActiveHours.mkTime sh sm 0 0) <= ActiveHoursSpec.micros now
       /\ ActiveHoursSpec.micros now <= ActiveHoursSpec.micros (ActiveHours.mkTime eh em 0 0))
  /\ (eh * 60 + em < sh * 60 + sm ->
      ActiveHours._is_active_hours int strip hours_str now = false).
Proof.
  intros Hsplit Hstart Hend Hsh Hsm Heh Hem Hnow.
  unfold ActiveHours._is_active_hours. rewrite Hsplit, Hstart, Hend.
  rewrite (dtime_Some sh sm Hsh Hsm), (dtime_Some eh em Heh Hem).
  assert (Hs : ActiveHoursSpec.in_range (ActiveHours.mkTime sh sm 0 0))
    by (unfold ActiveHoursSpec.in_range; cbn; lia).
  assert (He : ActiveHoursSpec.in_range (ActiveHours.mkTime eh em 0 0))
    by (unfold ActiveHoursSpec.in_range; cbn; lia).
  rewrite (time_le_micros _ _ Hs Hnow), (time_le_micros _ _ Hnow He).
  split.
  - destruct (Z.leb_spec (ActiveHoursSpec.micros (ActiveHours.mkTime sh sm 0 0))
                         (ActiveHoursSpec.micros now)).
    + rewrite Z.leb_le. tauto.
    + split; [discriminate | lia].
  - intros Hwrap.
    destruct (Z.leb_spec (ActiveHoursSpec.micros (ActiveHours.mkTime sh sm 0 0))
                         (ActiveHoursSpec.micros now)); [| reflexivity].
    apply Z.leb_gt. unfold ActiveHoursSpec.micros in *. cbn in *. lia.
Qed.

Lemma active_hours_window_does_not_wrap_witness :
  ActiveHours._is_active_hours ActiveHoursSpec.sample_int (fun s => s) "22:00-06:00"
    (ActiveHours.mkTime 23 30 0 0) = false.
Proof.
  refine (proj2 (active_hours_window_does_not_wrap ActiveHoursSpec.sample_int (fun s => s)
                   "22:00-06:00" "22:00" "06:00" 22 0 6 0 (ActiveHours.mkTime 23 30 0 0)
                   _ _ _ _ _ _ _ _) _);
    try reflexivity; try lia.
  unfold ActiveHoursSpec.in_range. cbn. lia.
Defined.

(** ** Recruitment bounds *)

Section RecruitBounds.
Import Troops RecruitSpec.

Lemma fold_left_Forall {A B : Type} (E : B -> Prop) (step : list B -> A -> list B)
      (xs : list A) (acc : list B) :
  (forall needs x, x ∈ xs -> Forall E needs -> Forall E (step needs x)) ->
  Forall E acc -> Forall E (fold_left step xs acc).
Proof.
  revert acc. induction xs as [| x xs IH]; intros acc Hstep Hacc; cbn [fold_left].
  - exact Hacc.
  - apply IH.
    + intros needs y Hy. apply Hstep. apply elem_of_cons. right. exact Hy.
    + apply Hstep; [apply elem_of_cons; left; reflexivity | exact Hacc].
Qed.

Lemma barracks_needs_bounded (config : TroopsConfig) (page : BarracksPage) :
  Forall (fun e : string * Z =>
            e.1 ∈ BARRACKS_UNITS /\ 1 <= e.2 <= 50
            /\ troops_get (barracks_troops page) e.1
               + queued_units (barracks_queue page) e.1 + e.2
               <= default 0 (targets config !! e.1))
         (_get_barracks_needs config page).
Proof.
  unfold _get_barracks_needs. apply fold_left_Forall; [| constructor].
  intros needs x Hx Hneeds. cbn zeta.
  destruct (Z.leb_spec (default 0 (targets config !! x)) 0); [exact Hneeds |].
  destruct (Z.ltb_spec 0 (default 0 (targets config !! x)
                          - (troops_get (barracks_troops page) x
                             + default 0 (count_queued (barracks_queue page) !! x))));
    [| exact Hneeds].
  apply Forall_set; [exact Hneeds |]. cbn [fst snd].
  rewrite train_queue_count in *. split; [exact Hx |]. lia.
Qed.

Lemma stable_needs_bounded (config : TroopsConfig) (page : StablePage) :
  Forall (fun e : string * Z =>
            e.1 ∈ STABLE_UNITS /\ 1 <= e.2 <= 25
            /\ troops_get (stable_troops page) e.1 + e.2
               <= default 0 (targets config !! e.1))
         (_get_stable_needs config page).
Proof.
  unfold _get_stable_needs. apply fold_left_Forall; [| constructor].
  intros needs x Hx Hneeds. cbn zeta.
  destruct (Z.leb_spec (default 0 (targets config !! x)) 0); [exact Hneeds |].
  destruct (Z.ltb_spec 0 (default 0 (targets config !! x)
                          - troops_get (stable_troops page) x)); [| exact Hneeds].
  apply Forall_set; [exact Hneeds |]. cbn [fst snd].
  split; [exact Hx |]. lia.
Qed.

End RecruitBounds.

(** X19.  In targets mode every order is bounded by the targets.  Each
    call to [train_units] carries a non-empty order; an order to the
    barracks names only barracks units, with a batch from 1 to 50 that keeps
    owned plus queued plus ordered troops within the unit's target; an order
    to the stable names only stable units, with a batch from 1 to 25 that
    keeps owned plus ordered troops within the target (what the stable
    already trains is not counted).  At most one order goes to each
    building, the barracks first, and none at all when recruitment is
    disabled, the mode is not [targets] or no target is set. *)
Theorem targets_mode_orders_are_bounded_by_targets
  (config : Troops.TroopsConfig) (b : Troops.BarracksPage) (s : Troops.StablePage) :
  let calls := Troops.run config b s in
  (forall d, Troops.TrainBarracks d ∈ calls ->
     d <> []
     /\ Forall (fun e : string * Z =>
                  e.1 ∈ Troops.BARRACKS_UNITS /\ 1 <= e.2 <= 50
                  /\ Troops.troops_get (Troops.barracks_troops b) e.1
                     + RecruitSpec.queued_units (Troops.barracks_queue b) e.1 + e.2
                     <= default 0 (Troops.targets config !! e.1)) d)
  /\ (forall d, Troops.TrainStable d ∈ calls ->
        d <> []
        /\ Forall (fun e : string * Z =>
                     e.1 ∈ Troops.STABLE_UNITS /\ 1 <= e.2 <= 25
                     /\ Troops.troops_get (Troops.stable_troops s) e.1 + e.2
                        <= default 0 (Troops.targets config !! e.1)) d)
  /\ (exists bs ss, calls = map Troops.TrainBarracks bs ++ map Troops.TrainStable ss
                    /\ (length bs <= 1)%nat /\ (length ss <= 1)%nat)
  /\ (Troops.enabled config = false \/ Troops.mode config <> "targets"%string
      \/ Troops.targets config = ∅ -> calls = []).
Proof.
  cbn zeta.
  assert (Hnone : forall calls : list Troops.train_call, calls = [] ->
            (forall d, Troops.TrainBarracks d ∈ calls -> False)
            /\ (forall d, Troops.TrainStable d ∈ calls -> False)
            /\ exists bs ss, calls = map Troops.TrainBarracks bs ++ map Troops.TrainStable ss
                             /\ (length bs <= 1)%nat /\ (length ss <= 1)%nat).
  { intros calls ->. split; [| split].
    - intros d Hd. apply elem_of_nil in Hd. exact Hd.
    - intros d Hd. apply elem_of_nil in Hd. exact Hd.
    - exists [], []. cbn. split; [reflexivity | lia]. }
  assert (Hoff : Troops.enabled config = false \/ Troops.mode config <> "targets"%string
                 \/ Troops.targets config = ∅ -> Troops.run config b s = []).
  { unfold Troops.run. intros [H | [H | H]].
    - rewrite H. reflexivity.
    - destruct (Troops.enabled config); [| reflexivity]. cbn [negb].
      destruct (String.eqb_spec (Troops.mode config) "targets"); [contradiction | reflexivity].
    - destruct (Troops.enabled config); [| reflexivity]. cbn [negb].
      rewrite (bool_decide_eq_true_2 _ H), orb_true_r. reflexivity. }
  destruct (Troops.enabled config) eqn:Hen.
  2: { destruct (Hnone _ (Hoff (or_introl eq_refl))) as (H1 & H2 & H3).
       split; [intros d Hd; destruct (H1 d Hd) |].
       split; [intros d Hd; destruct (H2 d Hd) |].
       split; [exact H3 | exact Hoff]. }
  destruct (String.eqb_spec (Troops.mode config) "targets") as [Hm | Hm].
  2: { destruct (Hnone _ (Hoff (or_intror (or_introl Hm)))) as (H1 & H2 & H3).
       split; [intros d Hd; destruct (H1 d Hd) |].
       split; [intros d Hd; destruct (H2 d Hd) |].
       split; [exact H3 | exact Hoff]. }
  destruct (decide (Troops.targets config = ∅)) as [Ht | Ht].
  { destruct (Hnone _ (Hoff (or_intror (or_intror Ht)))) as (H1 & H2 & H3).
    split; [intros d Hd; destruct (H1 d Hd) |].
    split; [intros d Hd; destruct (H2 d Hd) |].
    split; [exact H3 | exact Hoff]. }
  assert (Hrun : Troops.run config b s
                 = (match Troops._get_barracks_needs config b with
                    | [] => []
                    | _ => [Troops.TrainBarracks (Troops._get_barracks_needs config b)]
                    end)
                   ++ (match Troops._get_stable_needs config s with
                       | [] => []
                       | _ => [Troops.TrainStable (Troops._get_stable_needs config s)]
                       end)).
  { unfold Troops.run. rewrite Hen. cbn [negb].
    destruct (String.eqb_spec (Troops.mode config) "targets"); [| contradiction].
    rewrite (bool_decide_eq_false_2 _ Ht). reflexivity. }
  rewrite Hrun.
  pose proof (barracks_needs_bounded config b) as Hb.
  pose proof (stable_needs_bounded config s) as Hs.
  split; [| split; [| split]].
  - intros d Hd. apply elem_of_app in Hd as [Hd | Hd].
    + destruct (Troops._get_barracks_needs config b) as [| e l] eqn:E.
      * apply elem_of_nil in Hd. destruct Hd.
      * apply list_elem_of_singleton in Hd. injection Hd as ->.
        split; [discriminate | exact Hb].
    + destruct (Troops._get_stable_needs config s) as [| e l].
      * apply elem_of_nil in Hd. destruct Hd.
      * apply list_elem_of_singleton in Hd. discriminate.
  - intros d Hd. apply elem_of_app in Hd as [Hd | Hd].
    + destruct (Troops._get_barracks_needs config b) as [| e l].
      * apply elem_of_nil in Hd. destruct Hd.
      * apply list_elem_of_singleton in Hd. discriminate.
    + destruct (Troops._get_stable_needs config s) as [| e l] eqn:E.
      * apply elem_of_nil in Hd. destruct Hd.
      * apply list_elem_of_singleton in Hd. injection Hd as ->.
        split; [discriminate | exact Hs].
  - exists (match Troops._get_barracks_needs config b with
            | [] => []
            | _ => [Troops._get_barracks_needs config b]
            end),
           (match Troops._get_stable_needs config s with
            | [] => []
            | _ => [Troops._get_stable_needs config s]
            end).
    destruct (Troops._get_barracks_needs config b);
      destruct (Troops._get_stable_needs config s); cbn; (split; [reflexivity | lia]).
  - rewrite <- Hrun. exact Hoff.
Qed.

(** ** Training while the scavengers are out *)

Section FillBounds.
Import FillScavenge.

Lemma quotient_floor (gap : Q) (t : Z) :
  (0 <= gap)%Q -> 0 < t ->
  let f := py_int (gap / inject_Z t) in
  0 <= f /\ (inject_Z (f * t) <= gap)%Q /\ (gap < inject_Z ((f + 1) * t))%Q.
Proof.
  intros Hgap Ht. cbn zeta.
  assert (HtQ : (0 < inject_Z t)%Q) by (rewrite <- (Zlt_Qlt 0); exact Ht).
  set (x := (gap / inject_Z t)%Q).
  assert (Hx : (gap == x * inject_Z t)%Q).
  { unfold x. field. intros H. rewrite H in HtQ. apply (Qlt_irrefl 0). exact HtQ. }
  assert (Hx0 : (0 <= x)%Q).
  { unfold x. apply Qle_shift_div_l; [exact HtQ |]. rewrite Qmult_0_l. exact Hgap. }
  unfold py_int. replace (Qle_bool 0 x) with true
    by (symmetry; apply Qle_bool_iff; exact Hx0).
  pose proof (Qfloor_le x) as Hlo. pose proof (Qlt_floor x) as Hhi.
  split; [| split].
  - change 0 with (Qfloor 0). apply Qfloor_resp_le. exact Hx0.
  - rewrite inject_Z_mult, Hx. apply Qmult_le_compat_r; [exact Hlo | apply Qlt_le_weak; exact HtQ].
  - rewrite inject_Z_mult, Hx. apply Qmult_lt_compat_r; [exact HtQ | exact Hhi].
Qed.
End FillBounds.

(** X20.  When the fill-scavenge recruiter places an order, it is for the
    first configured fill unit, at a moment when more than 30 s of scavenging
    remain and the training queue ends more than 30 s before the scavengers
    return.  The batch is at least one and at most what the village can
    afford; without its last unit the queue would end no later than the
    scavengers return, and unless the batch is capped by what is affordable
    the queue ends after they return. *)
Theorem fill_scavenge_batch_just_outlasts_the_scavenge
  (fill_units : list string) (remaining : Q)
  (info : string -> FillScavenge.training_info) (unit : string) (batch : Z) :
  FillScavenge.run_fill_scavenge fill_units remaining info = Some (unit, batch) ->
  head fill_units = Some unit
  /\ (30 < remaining)%Q
  /\ (inject_Z (FillScavenge.queue_seconds (info unit)) < remaining - 30)%Q
  /\ 1 <= batch <= FillScavenge.max_affordable (info unit)
  /\ (inject_Z (FillScavenge.total_queue (info unit) (batch - 1)) <= remaining)%Q
  /\ (batch < FillScavenge.max_affordable (info unit) ->
      (remaining < inject_Z (FillScavenge.total_queue (info unit) batch))%Q).
Proof.
  unfold FillScavenge.run_fill_scavenge, FillScavenge.total_queue.
  destruct fill_units as [| u rest]; [discriminate |].
  destruct (Qle_bool remaining 30) eqn:Hrem; [discriminate |].
  destruct (FillScavenge.barracks_available (info u)) eqn:Hav; cbn [negb]; [| discriminate].
  destruct (Qle_bool (remaining - 30) (inject_Z (FillScavenge.queue_seconds (info u)))) eqn:Hq;
    [discriminate |].
  destruct (Z.leb_spec (FillScavenge.train_time (info u)) 0) as [| Ht]; [discriminate |].
  destruct (Z.leb_spec (FillScavenge.max_affordable (info u)) 0) as [| Hm]; [discriminate |].
  intros [= <- <-].
  assert (Hrem' : (30 < remaining)%Q).
  { apply Qnot_le_lt. intros H. apply Qle_bool_iff in H. congruence. }
  assert (Hq' : (inject_Z (FillScavenge.queue_seconds (info u)) < remaining - 30)%Q).
  { apply Qnot_le_lt. intros H. apply Qle_bool_iff in H. congruence. }
  destruct (quotient_floor (remaining - inject_Z (FillScavenge.queue_seconds (info u)))
              (FillScavenge.train_time (info u))) as (Hf0 & Hlo & Hhi); [lra | exact Ht |].
  set (f := py_int ((remaining - inject_Z (FillScavenge.queue_seconds (info u)))
                    / inject_Z (FillScavenge.train_time (info u)))) in *.
  set (t := FillScavenge.train_time (info u)) in *.
  set (q := FillScavenge.queue_seconds (info u)) in *.
  set (m := FillScavenge.max_affordable (info u)) in *.
  split; [reflexivity |]. split; [exact Hrem' |]. split; [exact Hq' |].
  split; [lia |]. split.
  - assert (Hle : (inject_Z ((Z.min (Z.max 1 (f + 1)) m - 1) * t) <= inject_Z (f * t))%Q).
    { rewrite <- Zle_Qle. apply Z.mul_le_mono_nonneg_r; lia. }
    rewrite inject_Z_plus. lra.
  - intros Hcap. replace (Z.min (Z.max 1 (f + 1)) m) with (f + 1) by lia.
    rewrite inject_Z_plus. lra.
Qed.

Lemma fill_scavenge_batch_just_outlasts_the_scavenge_witness :
  FillScavenge.run_fill_scavenge ["spear"%string] 600 FillSpec.spear_info
  = Some ("spear"%string, 6)
  /\ (inject_Z (FillScavenge.total_queue (FillSpec.spear_info "spear") 5) <= 600)%Q
  /\ (600 < inject_Z (FillScavenge.total_queue (FillSpec.spear_info "spear") 6))%Q.
Proof.
  assert (H : FillScavenge.run_fill_scavenge ["spear"%string] 600 FillSpec.spear_info
              = Some ("spear"%string, 6)) by reflexivity.
  split; [exact H |].
  destruct (fill_scavenge_batch_just_outlasts_the_scavenge
              ["spear"%string] 600 FillSpec.spear_info "spear" 6 H)
    as (_ & _ & _ & _ & Hlo & Hhi).
  split; [exact Hlo | apply Hhi; cbn; lia].
Defined.

(** ** Protection events *)

Section ProtectionHistory.
Import Protection ProtectionEvents ProtectionEventsSpec.

Lemma on_clear_cases (profile world : string) (self : BotProtectionMonitor) :
  exists msgs,
    on_clear profile world self
    = (mkMonitor (bot_token self) (chat_id self) (alert_cooldown self) false
                 (last_alert_time self), msgs)
    /\ (length msgs = if detected self then 1%nat else 0%nat).
Proof.
  unfold on_clear. destruct self as [tk ch cd det last]. cbn.
  destruct det; cbn; eexists; split; reflexivity.
Qed.

Lemma resolved_silent (profile world : string) (self : BotProtectionMonitor) :
  _on_bot_protection_resolved profile world self
  = (mkMonitor (bot_token self) (chat_id self) (alert_cooldown self) false
               (last_alert_time self), []).
Proof. reflexivity. Qed.

Lemma alert_times_app (a b : list (event * string)) :
  alert_times (a ++ b) = alert_times a ++ alert_times b.
Proof. unfold alert_times. apply omap_app. Qed.

Lemma alert_times_clear (profile world : string) (msgs : list string) :
  alert_times (map (fun m => (Clear profile world, m)) msgs) = [].
Proof. induction msgs as [| m msgs IH]; [reflexivity | exact IH]. Qed.

Lemma replay_spaced (es : list event) (self : BotProtectionMonitor) :
  ThrottleSpec.spaced (inject_Z (alert_cooldown self)) (last_alert_time self)
    (alert_times (snd (replay es self))).
Proof.
  revert self. induction es as [| e es IH]; intros self; cbn [replay].
  - exact I.
  - destruct e as [d | profile world | profile world]; cbn [dispatch].
    + destruct (on_detection_cases d self) as [[Hlt ->] | [Hge ->]].
      * specialize (IH (mkMonitor (bot_token self) (chat_id self)
                                  (alert_cooldown self) true (last_alert_time self))).
        destruct (replay es _) as [final sent]. exact IH.
      * specialize (IH (mkMonitor (bot_token self) (chat_id self)
                                  (alert_cooldown self) true (d_now d))).
        destruct (replay es _) as [final sent].
        cbn [snd map app alert_times omap fst] in *.
        split; [exact Hge | exact IH].
    + destruct (on_clear_cases profile world self) as (msgs & -> & _).
      specialize (IH (mkMonitor (bot_token self) (chat_id self)
                                (alert_cooldown self) false (last_alert_time self))).
      destruct (replay es _) as [final sent]. cbn [snd] in *.
      rewrite alert_times_app, alert_times_clear. exact IH.
    + rewrite resolved_silent.
      specialize (IH (mkMonitor (bot_token self) (chat_id self)
                                (alert_cooldown self) false (last_alert_time self))).
      destruct (replay es _) as [final sent]. exact IH.
Qed.

Lemma replay_no_resolved (es : list event) (self : BotProtectionMonitor) :
  Forall (fun s => is_resolved (fst s) = false) (snd (replay es self)).
Proof.
  revert self. induction es as [| e es IH]; intros self; cbn [replay].
  - constructor.
  - destruct (dispatch e self) as [self' msgs] eqn:Hh.
    specialize (IH self'). destruct (replay es self') as [final sent]. cbn [snd] in *.
    apply Forall_app. split; [| exact IH].
    destruct e as [d | profile world | profile world].
    + apply Forall_fmap. apply Forall_forall. intros m _. reflexivity.
    + apply Forall_fmap. apply Forall_forall. intros m _. reflexivity.
    + cbn [dispatch] in Hh. rewrite resolved_silent in Hh. injection Hh as _ <-.
      constructor.
Qed.

Lemma replay_cleared_count (es : list event) (self : BotProtectionMonitor) :
  (length (List.filter (fun s => is_clear (fst s)) (snd (replay es self)))
   <= length (List.filter is_detect es) + (if detected self then 1 else 0))%nat.
Proof.
  revert self. induction es as [| e es IH]; intros self; cbn [replay].
  - cbn. lia.
  - destruct e as [d | profile world | profile world]; cbn [dispatch].
    + assert (Hd : exists last msgs,
                 on_detection d self
                 = (mkMonitor (bot_token self) (chat_id self) (alert_cooldown self) true last,
                    msgs)).
      { destruct (on_detection_cases d self) as [[_ ->] | [_ ->]]; eexists _, _; reflexivity. }
      destruct Hd as (last & msgs & ->).
      specialize (IH (mkMonitor (bot_token self) (chat_id self)
                                (alert_cooldown self) true last)).
      destruct (replay es _) as [final sent]. cbn [snd detected] in *.
      rewrite List.filter_app, length_app.
      replace (List.filter (fun s => is_clear (fst s)) (map (fun m => (Detect d, m)) msgs))
        with (@nil (event * string)).
      2: { clear. induction msgs as [| m msgs IHm]; [reflexivity | exact IHm]. }
      cbn [List.filter is_detect length]. destruct (detected self); cbn; lia.
    + destruct (on_clear_cases profile world self) as (msgs & -> & Hlen).
      specialize (IH (mkMonitor (bot_token self) (chat_id self)
                                (alert_cooldown self) false (last_alert_time self))).
      destruct (replay es _) as [final sent]. cbn [snd detected] in *.
      rewrite List.filter_app, length_app.
      assert (Hm : (length (List.filter (fun s => is_clear (fst s))
                              (map (fun m => (Clear profile world, m)) msgs))
                    <= length msgs)%nat).
      { clear. induction msgs as [| m msgs IHm]; cbn; lia. }
      cbn [List.filter is_detect]. destruct (detected self); lia.
    + rewrite resolved_silent.
      specialize (IH (mkMonitor (bot_token self) (chat_id self)
                                (alert_cooldown self) false (last_alert_time self))).
      destruct (replay es _) as [final sent]. cbn [snd detected map app] in *.
      cbn [List.filter is_detect]. destruct (detected self); lia.
Qed.
End ProtectionHistory.

(** X21.  The alert throttle survives clearing.  In any history of
    detections, automatic clears and user resolutions of a monitor whose
    cooldown is not negative, two detection alerts are never less than
    [alert_cooldown] seconds apart, because neither [on_clear] nor the
    panel's Resolved handler touches the time of the last alert.  The
    Resolved handler never sends a message: it resets [detected] before it
    calls [on_clear], which then returns at once.  And at most one Cleared
    message is sent per detection. *)
Theorem alert_throttle_survives_clearing
  (self : Protection.BotProtectionMonitor) (es : list ProtectionEvents.event) :
  let sent := snd (ProtectionEvents.replay es self) in
  (0 <= Protection.alert_cooldown self ->
   forall (i j : nat) (a b : Q),
     (i < j)%nat ->
     ProtectionEventsSpec.alert_times sent !! i = Some a ->
     ProtectionEventsSpec.alert_times sent !! j = Some b ->
     (inject_Z (Protection.alert_cooldown self) <= b - a)%Q)
  /\ (forall profile world m, (ProtectionEvents.Resolved profile world, m) ∉ sent)
  /\ (forall profile world,
         snd (ProtectionEvents._on_bot_protection_resolved profile world self) = []
         /\ Protection.detected
              (fst (ProtectionEvents._on_bot_protection_resolved profile world self)) = false)
  /\ (length (List.filter (fun s => ProtectionEventsSpec.is_clear (fst s)) sent)
      <= length (List.filter ProtectionEventsSpec.is_detect es)
         + (if Protection.detected self then 1 else 0))%nat.
Proof.
  cbn zeta. split; [| split; [| split]].
  - intros Hc i j a b Hij Ha Hb.
    apply (spaced_pairs (inject_Z (Protection.alert_cooldown self))
             (Protection.last_alert_time self)
             (ProtectionEventsSpec.alert_times (snd (ProtectionEvents.replay es self))))
      with (i := i) (j := j); auto.
    + rewrite <- (Zle_Qle 0). exact Hc.
    + apply replay_spaced.
  - intros profile world m Hin.
    pose proof (replay_no_resolved es self) as Hall. rewrite Forall_forall in Hall.
    specialize (Hall _ Hin). discriminate.
  - intros profile world. rewrite resolved_silent. split; reflexivity.
  - apply replay_cleared_count.
Qed.

Lemma alert_throttle_survives_clearing_witness :
  0 <= Protection.alert_cooldown ThrottleSpec.sample_monitor
  /\ ProtectionEventsSpec.alert_times
       (snd (ProtectionEvents.replay ProtectionEventsSpec.sample_history
               ThrottleSpec.sample_monitor))
     = [1000%Q; 1400%Q]
  /\ (inject_Z 300 <= 1400 - 1000)%Q.
Proof.
  assert (Hc : 0 <= Protection.alert_cooldown ThrottleSpec.sample_monitor) by (cbn; lia).
  split; [exact Hc |]. split; [reflexivity |].
  exact (proj1 (alert_throttle_survives_clearing ThrottleSpec.sample_monitor
                  ProtectionEventsSpec.sample_history) Hc
           0%nat 1%nat 1000%Q 1400%Q ltac:(lia) eq_refl eq_refl).
Defined.

(** ** Attack notifications *)

Section DefenseFacts.
Import Defense DefenseSpec.

Lemma notified_after_snoc (cs : list check_call) (c : check_call) :
  notified_after (cs ++ [c]) = _notified_attacks (check c (notified_after cs)).
Proof. unfold notified_after. rewrite fold_left_app. reflexivity. Qed.

Lemma attacked_snoc (cs : list check_call) (c : check_call) (vid : Z) :
  attacked_at_last_check (cs ++ [c]) vid
  = if bool_decide (village_id c = vid) then 0 <? incoming_of c
    else attacked_at_last_check cs vid.
Proof.
  unfold attacked_at_last_check. rewrite rev_app_distr. cbn [rev app List.filter].
  destruct (bool_decide (village_id c = vid)); reflexivity.
Qed.

Lemma notified_iff_attacked (cs : list check_call) (vid : Z) :
  vid ∈ notified_after cs <-> attacked_at_last_check cs vid = true.
Proof.
  induction cs as [| c cs IH] using rev_ind.
  - unfold notified_after, attacked_at_last_check. cbn. split; [| discriminate].
    intros H. apply elem_of_empty in H. destruct H.
  - rewrite notified_after_snoc, attacked_snoc. unfold check.
    destruct (Z.ltb_spec 0 (incoming_of c)) as [Hin | Hin].
    + destruct (bool_decide (village_id c ∈ notified_after cs)) eqn:Hn;
        cbn [_notified_attacks].
      * apply bool_decide_eq_true in Hn.
        destruct (bool_decide (village_id c = vid)) eqn:Hv.
        -- apply bool_decide_eq_true in Hv. subst vid. tauto.
        -- exact IH.
      * destruct (bool_decide (village_id c = vid)) eqn:Hv.
        -- apply bool_decide_eq_true in Hv. subst vid.
           split; [reflexivity |]. intros _. apply elem_of_union. left.
           apply elem_of_singleton. reflexivity.
        -- apply bool_decide_eq_false in Hv. rewrite <- IH.
           rewrite elem_of_union, elem_of_singleton. split; [| tauto].
           intros [H | H]; [congruence | exact H].
    + cbn [_notified_attacks]. rewrite elem_of_difference, elem_of_singleton.
      destruct (bool_decide (village_id c = vid)) eqn:Hv.
      * apply bool_decide_eq_true in Hv. subst vid.
        split; [intros [_ H]; contradiction H; reflexivity | discriminate].
      * apply bool_decide_eq_false in Hv. rewrite <- IH.
        split; [tauto |]. intros H. split; [exact H | congruence].
Qed.
End DefenseFacts.

(** X22.  The defense manager notifies once per attack.  After any history
    of checks by a fresh manager, a check reports an attack exactly when
    attacks are incoming (according to the overview or, when the overview
    shows none, the rally point), and it sends a desktop notification
    exactly when it reports an attack and the latest earlier check of the
    same village, if there was one, did not. *)
Theorem attack_is_notified_once_per_episode
  (cs : list Defense.check_call) (c : Defense.check_call) :
  let r := Defense.check c (Defense.notified_after cs) in
  Defense.under_attack r = (0 <? Defense.incoming_of c)
  /\ Defense.notifications r
     = (if (0 <? Defense.incoming_of c)
           && negb (DefenseSpec.attacked_at_last_check cs (Defense.village_id c))
        then [(Defense.village_id c, Defense.incoming_of c)]
        else [])
  /\ (Defense.incoming_attacks c <> 0 ->
      Defense.incoming_of c = Defense.incoming_attacks c)
  /\ (Defense.incoming_attacks c = 0 ->
      Defense.incoming_of c = Defense.rally_incoming c).
Proof.
  cbn zeta. pose proof (notified_iff_attacked cs (Defense.village_id c)) as Hinv.
  unfold Defense.check.
  split; [| split; [| split]].
  - destruct (0 <? Defense.incoming_of c); [| reflexivity].
    destruct (bool_decide _); reflexivity.
  - destruct (0 <? Defense.incoming_of c); [| reflexivity].
    destruct (bool_decide (Defense.village_id c ∈ Defense.notified_after cs)) eqn:Hn.
    + apply bool_decide_eq_true in Hn. apply Hinv in Hn. rewrite Hn. reflexivity.
    + apply bool_decide_eq_false in Hn.
      destruct (DefenseSpec.attacked_at_last_check cs (Defense.village_id c));
        [contradiction Hn; apply Hinv; reflexivity | reflexivity].
  - intros H. unfold Defense.incoming_of.
    destruct (Z.eqb_spec (Defense.incoming_attacks c) 0); [contradiction | reflexivity].
  - intros H. unfold Defense.incoming_of. rewrite H. reflexivity.
Qed.

(** ** Waits gathered over the villages *)

Section CycleWaitFacts.
Import CycleWaits.

(** A running minimum over the entries that pass a test. *)
Lemma running_min {A : Type} (ok : A -> bool) (key : A -> Q) (rs : list A) (acc : option Q) :
  let m := fold_left (fun m r => if ok r && below (key r) m then Some (key r) else m)
                     rs acc in
  (forall r, r ∈ rs -> ok r = true -> exists w, m = Some w /\ (w <= key r)%Q)
  /\ (forall a, acc = Some a -> exists w, m = Some w /\ (w <= a)%Q)
  /\ (forall w, m = Some w -> acc = Some w \/ exists r, r ∈ rs /\ ok r = true /\ w = key r)
  /\ (acc = None -> Forall (fun r => ok r = false) rs -> m = None).
Proof.
  cbn zeta. revert acc. induction rs as [| r rs IH]; intros acc; cbn [fold_left].
  - split; [| split; [| split]].
    + intros r Hr. apply elem_of_nil in Hr. destruct Hr.
    + intros a ->. exists a. split; [reflexivity | apply Qle_refl].
    + intros w ->. left. reflexivity.
    + intros -> _. reflexivity.
  - destruct (IH (if ok r && below (key r) acc then Some (key r) else acc))
      as (H1 & H2 & H3 & H4).
    split; [| split; [| split]].
    + intros x Hx Hok. apply elem_of_cons in Hx as [-> | Hx]; [| exact (H1 x Hx Hok)].
      rewrite Hok in *. cbn [andb] in *.
      destruct acc as [a |]; cbn [below] in *.
      * destruct (Qlt_bool_cases (key r) a) as [[E Hlt] | [E Hge]]; rewrite E in *.
        -- exact (H2 _ eq_refl).
        -- destruct (H2 _ eq_refl) as (w & Hw & Hle). exists w. split; [exact Hw | lra].
      * exact (H2 _ eq_refl).
    + intros a ->. cbn [below] in *.
      destruct (ok r); cbn [andb] in *; [| exact (H2 _ eq_refl)].
      destruct (Qlt_bool_cases (key r) a) as [[E Hlt] | [E Hge]]; rewrite E in *.
      * destruct (H2 _ eq_refl) as (w & Hw & Hle). exists w. split; [exact Hw | lra].
      * exact (H2 _ eq_refl).
    + intros w Hw. destruct (H3 w Hw) as [Hacc | (x & Hx & Hok & Hkey)].
      * destruct (ok r) eqn:Hok; cbn [andb] in Hacc.
        -- destruct (below (key r) acc).
           ++ right. exists r. split; [apply elem_of_cons; left; reflexivity |].
              split; [exact Hok | congruence].
           ++ left. exact Hacc.
        -- left. exact Hacc.
      * right. exists x. split; [apply elem_of_cons; right; exact Hx | tauto].
    + intros -> Hall. apply Forall_cons in Hall as [Hr Hall].
      rewrite Hr in *. cbn [andb] in *. apply H4; [reflexivity | exact Hall].
Qed.

Lemma village_loop_fold (reports : list report) (a b : option Q) :
  fold_left
    (fun acc r =>
       let '(min_resource_wait, min_build_finish) := acc in
       let min_resource_wait :=
         if truthy (rw r) && (Qlt_bool 0 (rw r) && below (rw r) min_resource_wait)
         then Some (rw r) else min_resource_wait in
       let min_build_finish :=
         if truthy (bf r) && Qlt_bool (clock r) (bf r) && below (bf r) min_build_finish
         then Some (bf r) else min_build_finish in
       (min_resource_wait, min_build_finish))
    reports (a, b)
  = (fold_left (fun m r => if (truthy (rw r) && Qlt_bool 0 (rw r)) && below (rw r) m
                           then Some (rw r) else m) reports a,
     fold_left (fun m r => if (truthy (bf r) && Qlt_bool (clock r) (bf r)) && below (bf r) m
                           then Some (bf r) else m) reports b).
Proof.
  revert a b. induction reports as [| r rs IH]; intros a b; cbn [fold_left]; [reflexivity |].
  rewrite IH, andb_assoc. reflexivity.
Qed.

Lemma village_loop_split (reports : list report) :
  village_loop reports
  = (fold_left (fun m r => if (truthy (rw r) && Qlt_bool 0 (rw r)) && below (rw r) m
                           then Some (rw r) else m) reports None,
     fold_left (fun m r => if (truthy (bf r) && Qlt_bool (clock r) (bf r)) && below (bf r) m
                           then Some (bf r) else m) reports None).
Proof. apply village_loop_fold. Qed.

Lemma positive_truthy (x : Q) : (0 < x)%Q -> truthy x && Qlt_bool 0 x = true.
Proof.
  intros Hx. unfold truthy.
  destruct (Qeq_bool x 0) eqn:E.
  - apply Qeq_bool_iff in E. rewrite E in Hx. destruct (Qlt_irrefl 0 Hx).
  - cbn. destruct (Qlt_bool_cases 0 x) as [[-> _] | [_ H]]; [reflexivity | lra].
Qed.

Lemma truthy_positive (x : Q) : truthy x && Qlt_bool 0 x = true -> (0 < x)%Q.
Proof.
  intros H. apply andb_true_iff in H as [_ H].
  destruct (Qlt_bool_cases 0 x) as [[_ Hlt] | [E _]]; [exact Hlt | congruence].
Qed.

Lemma future_truthy (x now : Q) :
  truthy x && Qlt_bool now x = true <-> (~ x == 0 /\ now < x)%Q.
Proof.
  unfold truthy. rewrite andb_true_iff, negb_true_iff. split.
  - intros [Hz Hlt]. split.
    + intros E. apply Qeq_bool_iff in E. congruence.
    + destruct (Qlt_bool_cases now x) as [[_ H] | [E _]]; [exact H | congruence].
  - intros [Hz Hlt]. split.
    + destruct (Qeq_bool x 0) eqn:E; [| reflexivity].
      apply Qeq_bool_iff in E. contradiction.
    + destruct (Qlt_bool_cases now x) as [[E _] | [_ H]]; [exact E | lra].
Qed.
End CycleWaitFacts.

(** X23.  Over the villages of a cycle the main loop keeps the smallest
    positive resource wait and the earliest build-queue finish that lay in
    the future when its village was processed.  The resource wait handed to
    the wake-up computation is zero when no village reported a positive
    wait, and otherwise the least positive wait reported; the build-queue
    wait is never negative, is zero when no village reported a future
    finish, and is at most the time left until any reported future
    finish.  The farm wait is never negative either. *)
Theorem cycle_waits_follow_the_earliest_village
  (reports : list CycleWaits.report) (now : Q) :
  let resource_wait := CycleWaits.resource_wait (fst (CycleWaits.village_loop reports)) in
  let build_queue_wait :=
    CycleWaits.build_queue_wait (snd (CycleWaits.village_loop reports)) now in
  (Forall (fun r => (CycleWaits.rw r <= 0)%Q) reports -> resource_wait = 0%Q)
  /\ (forall r, r ∈ reports -> (0 < CycleWaits.rw r)%Q ->
        (0 < resource_wait <= CycleWaits.rw r)%Q
        /\ exists r', r' ∈ reports /\ resource_wait = CycleWaits.rw r')
  /\ (0 <= build_queue_wait)%Q
  /\ (Forall (fun r => (CycleWaits.bf r <= CycleWaits.clock r)%Q) reports ->
      build_queue_wait = 0%Q)
  /\ (forall r, r ∈ reports -> (CycleWaits.clock r < CycleWaits.bf r)%Q ->
        (now <= CycleWaits.bf r)%Q -> ~ (CycleWaits.bf r == 0)%Q ->
        (build_queue_wait <= CycleWaits.bf r - now)%Q)
  /\ (forall _next_farm_time, (0 <= CycleWaits.farm_wait _next_farm_time now)%Q).
Proof.
  cbn zeta. rewrite village_loop_split. cbn [fst snd].
  destruct (running_min (fun r => CycleWaits.truthy (CycleWaits.rw r)
                                  && Qlt_bool 0 (CycleWaits.rw r))
              CycleWaits.rw reports None) as (R1 & _ & R3 & R4).
  destruct (running_min (fun r => CycleWaits.truthy (CycleWaits.bf r)
                                  && Qlt_bool (CycleWaits.clock r) (CycleWaits.bf r))
              CycleWaits.bf reports None) as (B1 & _ & B3 & B4).
  cbn zeta in *.
  split; [| split; [| split; [| split; [| split]]]].
  - intros Hall. rewrite R4; [reflexivity | reflexivity |].
    eapply Forall_impl; [exact Hall |]. intros r Hr. cbn beta in *.
    destruct (CycleWaits.truthy (CycleWaits.rw r) && Qlt_bool 0 (CycleWaits.rw r)) eqn:E;
      [| reflexivity].
    apply truthy_positive in E. lra.
  - intros r Hr Hpos. destruct (R1 r Hr (positive_truthy _ Hpos)) as (w & Hw & Hle).
    rewrite Hw. cbn [CycleWaits.resource_wait].
    destruct (R3 w Hw) as [Hn | (r' & Hr' & Hok & ->)]; [discriminate |].
    apply truthy_positive in Hok.
    split; [split; [exact Hok | exact Hle] |]. exists r'. split; [exact Hr' | reflexivity].
  - unfold CycleWaits.build_queue_wait.
    match goal with |- context [fold_left ?f reports None] =>
      destruct (fold_left f reports None) as [finish |] end; [| apply Qle_refl].
    destruct (Qlt_bool_cases (finish - now) 0) as [[-> _] | [-> H]];
      [apply Qle_refl | exact H].
  - intros Hall. rewrite B4; [reflexivity | reflexivity |].
    eapply Forall_impl; [exact Hall |]. intros r Hr. cbn beta in *.
    destruct (CycleWaits.truthy (CycleWaits.bf r)
              && Qlt_bool (CycleWaits.clock r) (CycleWaits.bf r)) eqn:E; [| reflexivity].
    apply future_truthy in E. lra.
  - intros r Hr Hfut Hnow Hnz.
    destruct (B1 r Hr (proj2 (future_truthy _ _) (conj Hnz Hfut))) as (w & Hw & Hle).
    rewrite Hw. cbn [CycleWaits.build_queue_wait].
    destruct (Qlt_bool_cases (w - now) 0) as [[-> _] | [-> H]]; lra.
  - intros next. unfold CycleWaits.farm_wait.
    destruct (Qlt_bool 0 next); [| apply Qle_refl].
    destruct (Qlt_bool_cases (next - now) 0) as [[-> _] | [-> H]];
      [apply Qle_refl | exact H].
Qed.
